(* ===== verification/_CoqProject ===== *)
-Q . S2P
Prelude.v
Text.v
GoStd.v
Json.v
Calendar.v
Url.v
Errors.v
Task.v
Effects.v
Table.v
Metrics.v
Float.v
Calls.v
Exposition.v
Store.v
Scenario.v
Lifecycle.v
Queue.v
Service.v
Handlers.v
Worker.v
Scheduler.v
Shutdown.v
Statements.v
Http.v
Dashboard.v
Server.v
Config.v
Dependencies.v
App.v
Pool.v
System.v
Retries.v
Loop.v
Processes.v
Runtime.v
Deployment.v
Interleavings.v
Witnesses.v
Runs.v
