(* ===== verification/Prelude.v ===== *)
(** * GoTaskQueue: a verification development

    GoTaskQueue (src/) accepts tasks over HTTP, stores them in a Postgres
    table, passes them through a Redis stream to workers, retries failures with
    exponential backoff and gives up ([dead]) when the retry budget is used
    up. A scheduler moves delayed and retrying tasks back to the stream and
    recovers tasks whose worker disappeared. Any number of processes may run
    on one database; the table is the only shared state that decides.

    ** How the program is modelled

    A Go function that talks to the outside is a program of the type
    [prog Call A] (Effects.v): a tree of calls with a continuation for every
    answer. Everything outside the process is a call (Calls.v): a SQL
    statement, a Redis command, the clock, the random source, the handler's
    own effects, contexts. Statements act on the [tasks] table, whose columns,
    constraints and statements are modelled (Table.v); a statement is one
    atomic step, and may also be lost before or after it took effect. All
    other answers come from a parameter, the environment ([Env]), whose state
    and answers are arbitrary, failures included. A Go result [(T, error)] is
    [Ok v] or [Err e]; errors are trees with the wrapping the code builds, so
    that [errors.Is] and [errors.As] are the code's own (Errors.v). Integers
    are [Z] with 64-bit wrap-around written out where the code computes on
    them ([wrap64], GoStd.v), [int4] columns are range-checked, times are
    nanoseconds, [float64] is IEEE double precision.

    Programs are used in three ways: [run] in a world (table, metrics,
    environment) gives functional theorems; [traces] and monitors ([wlp]) give
    theorems on every sequence of answers; [pool_step] interleaves any number
    of programs call by call and gives theorems on the whole system.

    ** The files, and what they model

    - Prelude, GoStd, Errors: results, 64-bit integers, time, [TrimSpace],
      [%d]; src/internal/worker/errors.go. Text: cutting and splitting texts.
    - Url, Json, Calendar, Float: what the program uses of net/url, of
      encoding/json ([Valid] and [Indent], by its scanner), of package time
      (printing a date) and of fmt ([%g]).
    - Task: task.go, status.go, retry.go of src/internal/task.
    - Effects, Pool: programs, runs, traces, monitors, goroutines.
    - Table: src/migrations and the SQL texts of src/internal/task/store.go.
    - Metrics: the registry of src/internal/metrics/metrics.go; Exposition:
      its [WritePrometheus], and a reader of the text it writes.
    - Calls: the calls, the environment and their interpretation.
    - Store: the methods of store.go, and [TaskStoreContract], what the
      worker and the scheduler may assume of any store; [store_contract]
      proves it of this one.
    - Lifecycle: the abstract specification of the table ([table_evolves],
      [table_inv]) and the statements that keep to it.
    - Queue: src/internal/queue. Service: src/internal/task/service.go.
    - Handlers: handler.go, demo_echo.go, webhook_deliver.go. Worker:
      worker.go. Scheduler: src/internal/scheduler/scheduler.go.
      Shutdown: a message whose task is being executed when the context is
      cancelled.
    - Http: tasks.go and dashboard.go of src/internal/httpserver; Dashboard:
      what its pages show of times and payloads; Server: server.go and
      metrics.go, with the dispatch of [http.ServeMux].
    - Config, App: src/internal/config and the wiring of src/internal/app.
      Dependencies: src/internal/dependencies.
    - Statements: the calls each operation can make, for any class of calls.
    - System: the pool of all processes; Retries: the ownership of a failure
      and the retry budget of the whole system.
    - Loop: [Worker.Run] with its semaphore, goroutines, pending recovery and
      shutdown. Processes: [Scheduler.Run], and clusters of processes.
    - Runtime: [App.Run] and [main] as programs over their own calls.
      Deployment: the running process (main goroutine, server, requests,
      worker, scheduler) as a step relation, and deployments of many.
    - Scenario, Interleavings, Witnesses, Runs: a concrete environment,
      concrete interleavings and runs of a process, and every theorem with
      hypotheses at work on them.

    ** What is shown

    - Whole system, every interleaving, lost answers and crashes included:
      tasks follow the status machine and are never changed once terminal,
      with bookkeeping that fits their status ([system_lifecycle]); a task is
      claimed at most [max_retries] + 1 times ([executions_within_budget]).
      The exclusive right to finalize a failure (Retries.v) is what makes the
      counter exact, and every [UPDATE] one the schema accepts
      ([updates_accepted]).
    - The program refines the pool: whatever any number of processes do from
      [main] on, each with its environment variables, killed at any time, the
      pool of goroutines can do ([deployment_refines_pool]; for single loops
      with any parameters, [cluster_refines_pool]), so the theorems on pools
      are about the program. A worker handles no more messages at once than
      its concurrency ([handlers_in_flight_bounded]); once it is cancelled it
      comes to an end in finitely many steps without getting stuck
      ([shutdown_terminates]); and the loops end with an error only for
      their first step ([run_returns], [scheduler_run_returns]).
    - Start and shutdown: what [App.Run] does with its connections and runners
      on every path ([Run_outcome]), and that a process disconnects only once
      everything it started is finished, or late ([drained_before_close]).
    - One goroutine, every sequence of answers: acknowledge only what is
      settled, execute only what is claimed, publish only what was moved to
      [pending] or declared [dead] (Worker, Scheduler).
    - Functional behaviour of each operation, errors included: the store's
      compare-and-swaps, its scans, idempotent submission, the outcome of a
      handled message and of a recovery, the retry policy, the handler
      registry, webhook classification, the HTTP answers, configuration.
    - Texts: what is written can be read: the connection string, the stream's
      messages, the dashboard's links and times, the text of [/metrics]
      ([handleMetrics_answers], against the rows of the table); the layout of
      a payload keeps its tokens; the router agrees with a dispatch table.
    - Where the code falls short of what it means: no resubmission makes up
      for a first publication that failed ([resubmission_never_dispatches]); a
      row left [failed] is lost ([failed_row_is_lost]); a running task can be
      executed a second time at any moment by a recovered message
      ([recovered_double_execution]); one malformed message fails
      its batch; recovery is not counted by the metrics; a task being executed
      at the shutdown loses its outcome ([interrupted_stays_running]).

    ** Bounds

    No fuel is needed for programs: they are finite trees, loops run over the
    lists the store and Redis return, so every run of an operation ends by
    construction. [trim_runes] (GoStd) removes one character per step from at
    most as many as the string has bytes, which is its fuel. The fuels of
    Float.v are those of double precision: at most 17 digits, and a first
    guess of the exponent that is less than four off. Traces and interleavings
    are of any finite length. The loops of the processes are step relations,
    without a bound.

    ** What is not modelled

    In the loops, when a context is cancelled, a ticker fires or a process
    dies is left open: each may happen at any step; Shutdown.v alone looks at
    what a cancelled context does to the calls made with it. The HTML
    templates (html/template renders them from the views of Http.v), decoding
    a request body, and the contents of Redis, whose answers are arbitrary.
    Of HTTP, hosts, query strings, [OPTIONS *] and the limits of connections.
    A panic of a handler is only the death of its process. All processes of a
    world count in one metrics registry. Logging. *)

From stdpp Require Export base gmap strings list fin_maps sorting pretty.
From Stdlib Require Export ZArith Lia.

(** ** Fallible results

    A Go function returning [(T, error)] is modelled by a value of
    [res E T]: [Ok v] for [(v, nil)], [Err e] for [(_, e)] with [e != nil]. *)
Inductive res (E A : Type) : Type :=
| Ok (a : A)
| Err (e : E).
Arguments Ok {E A} a.
Arguments Err {E A} e.

Definition res_map {E A B} (f : A -> B) (r : res E A) : res E B :=
  match r with Ok a => Ok (f a) | Err e => Err e end.

Definition is_Ok {E A} (r : res E A) : bool :=
  match r with Ok _ => true | Err _ => false end.

(** ** Tactics *)

(** Destruct every [match]/[if] scrutinee of the goal, keeping equations. *)
Ltac split_matches := repeat (case_match; simplify_eq/=).

(** Destruct the boolean comparisons on [Z] of the goal and hypotheses. *)
Ltac zbool :=
  repeat match goal with
  | H : andb _ _ = true |- _ => apply andb_true_iff in H as [??]
  | H : (_ <=? _)%Z = true |- _ => apply Z.leb_le in H
  | H : (_ <=? _)%Z = false |- _ => apply Z.leb_gt in H
  | H : (_ <? _)%Z = true |- _ => apply Z.ltb_lt in H
  | H : (_ <? _)%Z = false |- _ => apply Z.ltb_ge in H
  | H : (_ =? _)%Z = true |- _ => apply Z.eqb_eq in H
  | H : (_ =? _)%Z = false |- _ => apply Z.eqb_neq in H
  end.

(** Case analysis on the first [Z] comparison of the goal, then [lia]. *)
Ltac zcases :=
  repeat match goal with
  | |- context [(?a <=? ?b)%Z] => destruct (Z.leb_spec a b)
  | |- context [(?a <? ?b)%Z] => destruct (Z.ltb_spec a b)
  | |- context [(?a =? ?b)%Z] => destruct (Z.eqb_spec a b)
  end; try lia.
