(* ===== verification/Text.v ===== *)
(** * Texts

    Strings as texts with delimiters: cutting at a character, splitting into
    lines and words, and facts on bytes that are checked on all 256. *)

From Stdlib Require Import Ascii.
From S2P Require Import Prelude.

(** The text before and after the first [d]. *)
Fixpoint cut (d : ascii) (s : string) : option (string * string) :=
  match s with
  | "" => None
  | String c s' =>
      if Ascii.eqb c d then Some ("", s')
      else match cut d s' with Some (a, b) => Some (String c a, b) | None => None end
  end.

Fixpoint avoids (d : ascii) (s : string) : bool :=
  match s with "" => true | String c s' => negb (Ascii.eqb c d) && avoids d s' end.

(** The pieces between the occurrences of [d], always at least one. *)
Fixpoint split_on (d : ascii) (s : string) : list string :=
  match s with
  | "" => [""]
  | String c s' =>
      if Ascii.eqb c d then "" :: split_on d s'
      else match split_on d s' with
           | [] => [String c ""]
           | piece :: rest => String c piece :: rest
           end
  end.

Definition newline : ascii := ascii_of_nat 10.

(** ** Appending *)

Lemma append_assoc (a b c : string) : (a +:+ b) +:+ c = a +:+ (b +:+ c).
Proof. induction a as [|x a IH]; [done|]. exact (f_equal (String x) IH). Qed.

Lemma append_empty b : "" +:+ b = b.
Proof. done. Qed.

Lemma append_cons c a b : String c a +:+ b = String c (a +:+ b).
Proof. done. Qed.

Lemma append_nil s : s +:+ "" = s.
Proof. induction s as [|c s IH]; [done|]. exact (f_equal (String c) IH). Qed.

Lemma cut_app d a b : avoids d a = true -> cut d (a +:+ String d b) = Some (a, b).
Proof.
  induction a as [|c a IH]; [by rewrite append_empty; cbn; rewrite Ascii.eqb_refl|].
  rewrite append_cons. cbn.
  destruct (Ascii.eqb c d); [done|]. intros Ha. by rewrite IH.
Qed.

Lemma cut_none d s : avoids d s = true -> cut d s = None.
Proof.
  induction s as [|c s IH]; cbn; [done|]. destruct (Ascii.eqb c d); [done|].
  intros Hs. by rewrite IH.
Qed.

Lemma avoids_app d a b : avoids d (a +:+ b) = avoids d a && avoids d b.
Proof.
  induction a as [|c a IH]; [done|]. rewrite append_cons. cbn. by rewrite IH, andb_assoc.
Qed.

(** A decidable property of bytes can be checked on all of them. *)
Definition all_bytes : list ascii := map ascii_of_nat (seq 0 256).

Lemma bytes_checked (P : ascii -> bool) : forallb P all_bytes = true -> forall c, P c = true.
Proof.
  intros H c. rewrite forallb_forall in H. apply H. rewrite <- (ascii_nat_embedding c).
  apply in_map, in_seq. pose proof (nat_ascii_bounded c). lia.
Qed.


Lemma split_on_app d a b : avoids d a = true -> split_on d (a +:+ String d b) = a :: split_on d b.
Proof.
  induction a as [|c a IH]; [by rewrite append_empty; cbn; rewrite Ascii.eqb_refl|].
  rewrite append_cons. cbn. destruct (Ascii.eqb c d); [done|]. intros Ha. by rewrite IH.
Qed.

Lemma split_on_none d s : avoids d s = true -> split_on d s = [s].
Proof.
  induction s as [|c s IH]; [done|]. cbn. destruct (Ascii.eqb c d); [done|].
  intros Hs. by rewrite IH.
Qed.

Lemma split_on_avoids d s : Forall (fun piece => avoids d piece = true) (split_on d s).
Proof.
  induction s as [|c s IH]; cbn; [by repeat constructor|].
  destruct (Ascii.eqb c d) eqn:E; [by constructor|].
  destruct (split_on d s) as [|piece rest]; inversion_clear IH; constructor; try done; cbn;
    by rewrite E.
Qed.

Lemma split_on_nonempty d s : split_on d s <> [].
Proof. destruct s as [|c s]; cbn; [done|]. destruct (Ascii.eqb c d); [done|]. by case_match. Qed.

(** Joining and splitting. *)
Lemma split_on_join d l :
  l <> [] -> Forall (fun piece => avoids d piece = true) l ->
  split_on d (String.concat (String d "") l) = l.
Proof.
  intros Hl Hf. destruct Hf as [|a l Ha Hf]; [done|]. clear Hl. revert a Ha.
  induction Hf as [|b l Hb _ IH]; intros a Ha; [by apply split_on_none|].
  change (String.concat (String d "") (a :: b :: l))
    with (a +:+ String d (String.concat (String d "") (b :: l))).
  by rewrite split_on_app, IH.
Qed.

Lemma split_on_snoc d s : split_on d (s +:+ String d "") = split_on d s ++ [""].
Proof.
  induction s as [|c s IH]; [by rewrite append_empty; cbn; rewrite Ascii.eqb_refl|].
  rewrite append_cons. cbn. destruct (Ascii.eqb c d); [by rewrite IH|]. rewrite IH.
  by destruct (split_on d s) eqn:E; [destruct (split_on_nonempty d s)|].
Qed.
