(* ===== verification/GoStd.v ===== *)
(** * Go's machine integers, time, strings and errors

    The part of Go's language and standard library the program uses:
    64-bit [int], [time.Time]/[time.Duration], [strings.TrimSpace], decimal
    formatting, and error values with [errors.Is]/[errors.As]. *)

From S2P Require Import Prelude.
Local Open Scope Z_scope.

(** ** 64-bit integers *)

Definition MaxInt64 : Z := 2^63 - 1.
Definition MinInt64 : Z := - 2^63.

(** Two's complement wrap-around of a 64-bit [int]. *)
Definition wrap64 (z : Z) : Z := (z + 2^63) mod 2^64 - 2^63.

Definition int64_range (z : Z) : Prop := MinInt64 <= z <= MaxInt64.

Lemma wrap64_range z : int64_range (wrap64 z).
Proof.
  unfold int64_range, wrap64, MinInt64, MaxInt64.
  pose proof (Z.mod_pos_bound (z + 2^63) (2^64)). lia.
Qed.

Lemma wrap64_id z : int64_range z -> wrap64 z = z.
Proof.
  unfold int64_range, wrap64, MinInt64, MaxInt64. intros H.
  rewrite Z.mod_small; lia.
Qed.

(** ** Time

    A [time.Time] is its number of nanoseconds since the Unix epoch (the
    location and the monotonic reading play no part in the program);
    a [time.Duration] is a 64-bit number of nanoseconds. *)
Definition Time := Z.
Definition Duration := Z.
Definition Nanosecond : Duration := 1.
Definition Microsecond : Duration := 1000.
Definition Millisecond : Duration := 1000000.
Definition Second : Duration := 1000000000.

(** The zero [time.Time] is January 1st of year 1, UTC. *)
Definition zero_time : Time := -62135596800 * Second.
Definition time_IsZero (t : Time) : bool := t =? zero_time.
Definition time_Add (t : Time) (d : Duration) : Time := t + d.
Definition time_After (t u : Time) : bool := u <? t.
Definition time_Unix (t : Time) : Z := t / Second.

(** [Time.Sub] saturates at the bounds of [Duration]. *)
Definition time_Sub (t u : Time) : Duration :=
  Z.max MinInt64 (Z.min MaxInt64 (t - u)).

(** Multiplication of durations is 64-bit multiplication. *)
Definition duration_mul (a b : Duration) : Duration := wrap64 (a * b).

(** ** Decimal formatting: [%d] *)
Definition fmt_d (z : Z) : string := pretty z.

(** [Duration.String]. *)
Fixpoint frac_digits (n : nat) (v : Z) (keep : bool) : string :=
  match n with
  | O => ""
  | S n' =>
      let d := v mod 10 in
      let keep' := keep || negb (d =? 0) in
      frac_digits n' (v / 10) keep' +:+ (if keep' then fmt_d d else "")
  end.

(** [fmtFrac]: the fraction [v / 10^n] with its trailing zeros omitted. *)
Definition fmt_frac (v : Z) (n : nat) : string :=
  let f := frac_digits n (v mod 10 ^ Z.of_nat n) false in
  if String.eqb f "" then "" else "." +:+ f.

Definition micro_sign : string :=
  String (Ascii.ascii_of_nat 194) (String (Ascii.ascii_of_nat 181) "").

Definition duration_string (d : Duration) : string :=
  let u := Z.abs d in
  let sign := if d <? 0 then "-" else "" in
  if u =? 0 then "0s"
  else if u <? Microsecond then sign +:+ fmt_d u +:+ "ns"
  else if u <? Millisecond then
    sign +:+ fmt_d (u / Microsecond) +:+ fmt_frac u 3 +:+ micro_sign +:+ "s"
  else if u <? Second then
    sign +:+ fmt_d (u / Millisecond) +:+ fmt_frac u 6 +:+ "ms"
  else
    let secs := u / Second in
    let s := fmt_d (secs mod 60) +:+ fmt_frac u 9 +:+ "s" in
    let mins := secs / 60 in
    if mins =? 0 then sign +:+ s
    else
      let ms := fmt_d (mins mod 60) +:+ "m" +:+ s in
      let hours := mins / 60 in
      if hours =? 0 then sign +:+ ms else sign +:+ fmt_d hours +:+ "h" +:+ ms.

Example duration_string_300 : duration_string (300 * Second) = "5m0s".
Proof. vm_compute. reflexivity. Qed.
Example duration_string_frac : duration_string (1500 * Millisecond) = "1.5s".
Proof. vm_compute. reflexivity. Qed.
Example duration_string_ms : duration_string (25 * Millisecond + 10 * Microsecond) = "25.01ms".
Proof. vm_compute. reflexivity. Qed.

(** ** [strings.TrimSpace]

    A Go string is a sequence of bytes. The Unicode white-space runes are
    listed by their UTF-8 encodings; since UTF-8 is prefix- and suffix-free
    over complete encodings, stripping an encoding from either end is what
    decoding the first or last rune does. *)
Definition space_runes : list (list Ascii.ascii) :=
  map (map Ascii.ascii_of_nat)
    [[9]; [10]; [11]; [12]; [13]; [32]; [194; 133]; [194; 160]; [225; 154; 128];
     [226; 128; 128]; [226; 128; 129]; [226; 128; 130]; [226; 128; 131];
     [226; 128; 132]; [226; 128; 133]; [226; 128; 134]; [226; 128; 135];
     [226; 128; 136]; [226; 128; 137]; [226; 128; 138]; [226; 128; 168];
     [226; 128; 169]; [226; 128; 175]; [226; 129; 159]; [227; 128; 128]]%nat.

Fixpoint strip_prefix (p s : list Ascii.ascii) : option (list Ascii.ascii) :=
  match p, s with
  | [], _ => Some s
  | c :: p', d :: s' => if Ascii.eqb c d then strip_prefix p' s' else None
  | _ :: _, [] => None
  end.

Fixpoint strip_any (ps : list (list Ascii.ascii)) (s : list Ascii.ascii)
  : option (list Ascii.ascii) :=
  match ps with
  | [] => None
  | p :: ps' =>
      match strip_prefix p s with Some s' => Some s' | None => strip_any ps' s end
  end.

Fixpoint trim_runes (fuel : nat) (ps : list (list Ascii.ascii))
    (s : list Ascii.ascii) : list Ascii.ascii :=
  match fuel with
  | O => s
  | S fuel' =>
      match strip_any ps s with Some s' => trim_runes fuel' ps s' | None => s end
  end.

Definition trim_left (s : list Ascii.ascii) : list Ascii.ascii :=
  trim_runes (length s) space_runes s.
Definition trim_right (s : list Ascii.ascii) : list Ascii.ascii :=
  rev (trim_runes (length s) (map (@rev _) space_runes) (rev s)).

Definition TrimSpace (s : string) : string :=
  String.string_of_list_ascii (trim_right (trim_left (String.list_ascii_of_string s))).

Example TrimSpace_ascii : TrimSpace "  a b	 " = "a b".
Proof. vm_compute. reflexivity. Qed.

Section trim_facts.
Implicit Types (p s : list Ascii.ascii) (ps : list (list Ascii.ascii)).

Lemma strip_prefix_Some p s s' : strip_prefix p s = Some s' <-> s = p ++ s'.
Proof.
  revert s. induction p as [|c p IH]; intros [|d s]; simpl.
  - naive_solver.
  - naive_solver.
  - split; [discriminate | intros Hs; discriminate Hs].
  - destruct (Ascii.eqb_spec c d) as [->|Hne]; [rewrite IH|]; clear IH; naive_solver.
Qed.

Lemma strip_any_Some ps s s' :
  strip_any ps s = Some s' -> exists p, p ∈ ps /\ s = p ++ s'.
Proof.
  induction ps as [|p ps IH]; simpl; [done|].
  destruct (strip_prefix p s) as [s''|] eqn:E.
  - intros [= <-]. apply strip_prefix_Some in E. exists p. split; [left|done].
  - intros H. destruct (IH H) as (q & ? & ?). exists q. split; [by right|done].
Qed.

Lemma strip_any_None ps s :
  strip_any ps s = None <-> forall p, p ∈ ps -> ~ p `prefix_of` s.
Proof.
  induction ps as [|p ps IH]; simpl.
  - split; [intros _ p Hp; by apply elem_of_nil in Hp | done].
  - destruct (strip_prefix p s) as [s'|] eqn:E.
    + apply strip_prefix_Some in E. split; [done|].
      intros H. exfalso. apply (H p); [left|by exists s'].
    + rewrite IH. split.
      * intros H q [->|Hq]%elem_of_cons [k Hk]; [|by apply (H q Hq); exists k].
        apply strip_prefix_Some in Hk. congruence.
      * intros H q Hq. apply H. by right.
Qed.

(** [trim_runes] removes runes until none is left to remove, and what it
    returns is a suffix of its input. *)
Lemma trim_runes_done ps n s :
  (forall p, p ∈ ps -> p <> []) -> (length s <= n)%nat ->
  strip_any ps (trim_runes n ps s) = None.
Proof.
  intros Hps. revert s. induction n as [|n IH]; intros s Hn; simpl.
  - apply strip_any_None. intros p Hp [k Hk].
    destruct s; [|simpl in Hn; lia]. destruct p; [|done]. by apply (Hps [] Hp).
  - destruct (strip_any ps s) as [s'|] eqn:E; [|done].
    apply IH. apply strip_any_Some in E as (p & Hp & ->).
    rewrite length_app in Hn. destruct p as [|c p]; [by destruct (Hps [] Hp)|].
    simpl in Hn. lia.
Qed.

Lemma trim_runes_suffix ps n s : exists pre, s = pre ++ trim_runes n ps s.
Proof.
  revert s. induction n as [|n IH]; intros s; simpl; [by exists []|].
  destruct (strip_any ps s) as [s'|] eqn:E; [|by exists []].
  apply strip_any_Some in E as (p & _ & ->).
  destruct (IH s') as [pre Hpre]. exists (p ++ pre). rewrite <- app_assoc. congruence.
Qed.

Lemma trim_runes_stable ps n s : strip_any ps s = None -> trim_runes n ps s = s.
Proof. destruct n; simpl; [done|]. by intros ->. Qed.

Lemma space_runes_nonempty p : p ∈ space_runes -> p <> [].
Proof.
  intros Hp ->. revert Hp. apply (bool_decide_unpack _). vm_compute. exact I.
Qed.

Lemma rev_space_runes_nonempty p : p ∈ map (@rev _) space_runes -> p <> [].
Proof.
  intros Hp ->. revert Hp. apply (bool_decide_unpack _). vm_compute. exact I.
Qed.

(** The trimmed bytes neither start nor end with a white-space rune. *)
Lemma trim_clean s :
  strip_any space_runes (trim_right (trim_left s)) = None /\
  strip_any (map (@rev _) space_runes) (rev (trim_right (trim_left s))) = None.
Proof.
  pose proof (trim_runes_done space_runes (length s) s space_runes_nonempty
                (le_n _)) as Hl.
  fold (trim_left s) in Hl. set (a := trim_left s) in *. split.
  - apply strip_any_None. intros p Hp [k Hk].
    destruct (trim_runes_suffix (map (@rev _) space_runes) (length a) (rev a)) as [pre Hpre].
    apply (f_equal (@rev _)) in Hpre. rewrite rev_involutive, rev_app_distr in Hpre.
    fold (trim_right a) in Hpre. rewrite Hk in Hpre.
    eapply strip_any_None; [exact Hl|exact Hp|].
    exists (k ++ rev pre). by rewrite app_assoc.
  - unfold trim_right. rewrite rev_involutive.
    apply trim_runes_done; [apply rev_space_runes_nonempty | by rewrite length_rev].
Qed.

Lemma TrimSpace_clean_id s :
  strip_any space_runes s = None ->
  strip_any (map (@rev _) space_runes) (rev s) = None ->
  trim_right (trim_left s) = s.
Proof.
  intros Hl Hr. unfold trim_left. rewrite (trim_runes_stable _ _ _ Hl).
  unfold trim_right. rewrite (trim_runes_stable _ _ _ Hr). apply rev_involutive.
Qed.
End trim_facts.

Lemma TrimSpace_idemp s : TrimSpace (TrimSpace s) = TrimSpace s.
Proof.
  unfold TrimSpace. rewrite String.list_ascii_of_string_of_list_ascii. f_equal.
  apply TrimSpace_clean_id; apply trim_clean.
Qed.
