(* ===== verification/Json.v ===== *)
(** * JSON texts

    The scanner of encoding/json and the two functions of it the program
    uses: [json.Valid] and [json.Indent]. The scanner reads a text byte by
    byte; each of Go's state functions is a constructor of [jstate], the
    methods of the scanner that are shared by states are functions. *)

From S2P Require Import Prelude Text.
From Stdlib Require Import Ascii.
Local Open Scope Z_scope.

(** ** The scanner *)

Inductive parse_state := ParseObjectKey | ParseObjectValue | ParseArrayValue.

Inductive jstate :=
| BeginValueOrEmpty | BeginValue | BeginStringOrEmpty | BeginString
| EndValue | EndTop
| InString | InStringEsc
| InStringEscU (n : nat)         (* [n] more hexadecimal digits *)
| Neg | State0 | State1 | Dot | Dot0 | StateE | StateESign | StateE0
| InLiteral (rest : string)      (* of [true], [false] or [null] *)
| StateError.

(** What the scanner tells its caller of a byte. *)
Inductive scan_op :=
| ScanContinue | ScanBeginLiteral
| ScanBeginObject | ScanObjectKey | ScanObjectValue | ScanEndObject
| ScanBeginArray | ScanArrayValue | ScanEndArray
| ScanSkipSpace | ScanEnd | ScanError.

Record scanner := mkScanner {
  sn_step : jstate;
  sn_endTop : bool;
  sn_parse : list parse_state;     (* the innermost first *)
  sn_err : bool;
}.

Definition newScanner : scanner := mkScanner BeginValue false [] false.

Definition goto (st : jstate) (s : scanner) : scanner :=
  mkScanner st (sn_endTop s) (sn_parse s) (sn_err s).
Definition scan_error (s : scanner) : scanner * scan_op :=
  (mkScanner StateError (sn_endTop s) (sn_parse s) true, ScanError).

Definition quote : ascii := ascii_of_nat 34.
Definition backslash : ascii := ascii_of_nat 92.
Definition isSpace (c : ascii) : bool :=
  Ascii.eqb c " " || Ascii.eqb c (ascii_of_nat 9) || Ascii.eqb c (ascii_of_nat 13) ||
  Ascii.eqb c (ascii_of_nat 10).
Definition code_in (a b : nat) (c : ascii) : bool :=
  (a <=? nat_of_ascii c)%nat && (nat_of_ascii c <=? b)%nat.
Definition is_digit (c : ascii) : bool := code_in 48 57 c.
Definition is_hex (c : ascii) : bool := is_digit c || code_in 97 102 c || code_in 65 70 c.

Definition maxNestingDepth : Z := 10000.

Definition pushParseState (st : jstate) (p : parse_state) (op : scan_op) (s : scanner)
  : scanner * scan_op :=
  let s := mkScanner st (sn_endTop s) (p :: sn_parse s) (sn_err s) in
  if Z.of_nat (length (sn_parse s)) <=? maxNestingDepth then (s, op) else scan_error s.

Definition popParseState (s : scanner) : scanner :=
  match sn_parse s with
  | _ :: [] | [] => mkScanner EndTop true [] (sn_err s)
  | _ :: ps => mkScanner EndValue (sn_endTop s) ps (sn_err s)
  end.

Definition set_top (p : parse_state) (s : scanner) : scanner :=
  mkScanner (sn_step s) (sn_endTop s) (p :: tail (sn_parse s)) (sn_err s).

(** After the top-level value: [error] is called, but the byte is reported
    as [scanEnd]. *)
Definition stateEndTop (s : scanner) (c : ascii) : scanner * scan_op :=
  if isSpace c then (s, ScanEnd) else ((scan_error s).1, ScanEnd).

Definition stateEndValue (s : scanner) (c : ascii) : scanner * scan_op :=
  match sn_parse s with
  | [] => stateEndTop (mkScanner EndTop true [] (sn_err s)) c
  | p :: _ =>
      if isSpace c then (goto EndValue s, ScanSkipSpace)
      else match p with
      | ParseObjectKey =>
          if Ascii.eqb c ":" then (goto BeginValue (set_top ParseObjectValue s), ScanObjectKey)
          else scan_error s
      | ParseObjectValue =>
          if Ascii.eqb c "," then (goto BeginString (set_top ParseObjectKey s), ScanObjectValue)
          else if Ascii.eqb c "}" then (popParseState s, ScanEndObject)
          else scan_error s
      | ParseArrayValue =>
          if Ascii.eqb c "," then (goto BeginValue s, ScanArrayValue)
          else if Ascii.eqb c "]" then (popParseState s, ScanEndArray)
          else scan_error s
      end
  end.

Definition stateBeginValue (s : scanner) (c : ascii) : scanner * scan_op :=
  if isSpace c then (s, ScanSkipSpace)
  else if Ascii.eqb c "{" then pushParseState BeginStringOrEmpty ParseObjectKey ScanBeginObject s
  else if Ascii.eqb c "[" then pushParseState BeginValueOrEmpty ParseArrayValue ScanBeginArray s
  else if Ascii.eqb c quote then (goto InString s, ScanBeginLiteral)
  else if Ascii.eqb c "-" then (goto Neg s, ScanBeginLiteral)
  else if Ascii.eqb c "0" then (goto State0 s, ScanBeginLiteral)
  else if Ascii.eqb c "t" then (goto (InLiteral "rue") s, ScanBeginLiteral)
  else if Ascii.eqb c "f" then (goto (InLiteral "alse") s, ScanBeginLiteral)
  else if Ascii.eqb c "n" then (goto (InLiteral "ull") s, ScanBeginLiteral)
  else if is_digit c then (goto State1 s, ScanBeginLiteral)
  else scan_error s.

Definition stateBeginString (s : scanner) (c : ascii) : scanner * scan_op :=
  if isSpace c then (s, ScanSkipSpace)
  else if Ascii.eqb c quote then (goto InString s, ScanBeginLiteral)
  else scan_error s.

Definition continue_if (b : bool) (st : jstate) (s : scanner) : scanner * scan_op :=
  if b then (goto st s, ScanContinue) else scan_error s.

(** [s.step(s, c)]. *)
Definition scan_step (s : scanner) (c : ascii) : scanner * scan_op :=
  match sn_step s with
  | BeginValueOrEmpty =>
      if isSpace c then (s, ScanSkipSpace)
      else if Ascii.eqb c "]" then stateEndValue s c else stateBeginValue s c
  | BeginValue => stateBeginValue s c
  | BeginStringOrEmpty =>
      if isSpace c then (s, ScanSkipSpace)
      else if Ascii.eqb c "}" then stateEndValue (set_top ParseObjectValue s) c
      else stateBeginString s c
  | BeginString => stateBeginString s c
  | EndValue => stateEndValue s c
  | EndTop => stateEndTop s c
  | InString =>
      if Ascii.eqb c quote then (goto EndValue s, ScanContinue)
      else if Ascii.eqb c backslash then (goto InStringEsc s, ScanContinue)
      else continue_if (32 <=? nat_of_ascii c)%nat InString s
  | InStringEsc =>
      if Ascii.eqb c "u" then (goto (InStringEscU 4) s, ScanContinue)
      else continue_if (existsb (Ascii.eqb c) [ "b"; "f"; "n"; "r"; "t"; backslash; "/"; quote ])%char
             InString s
  | InStringEscU n =>
      continue_if (is_hex c) (match n with S (S m) => InStringEscU (S m) | _ => InString end) s
  | Neg =>
      if Ascii.eqb c "0" then (goto State0 s, ScanContinue)
      else continue_if (is_digit c) State1 s
  | State1 | State0 =>
      if (match sn_step s with State1 => is_digit c | _ => false end) then (goto State1 s, ScanContinue)
      else if Ascii.eqb c "." then (goto Dot s, ScanContinue)
      else if Ascii.eqb c "e" || Ascii.eqb c "E" then (goto StateE s, ScanContinue)
      else stateEndValue s c
  | Dot => continue_if (is_digit c) Dot0 s
  | Dot0 =>
      if is_digit c then (s, ScanContinue)
      else if Ascii.eqb c "e" || Ascii.eqb c "E" then (goto StateE s, ScanContinue)
      else stateEndValue s c
  | StateE =>
      if Ascii.eqb c "+" || Ascii.eqb c "-" then (goto StateESign s, ScanContinue)
      else continue_if (is_digit c) StateE0 s
  | StateESign => continue_if (is_digit c) StateE0 s
  | StateE0 => if is_digit c then (s, ScanContinue) else stateEndValue s c
  | InLiteral rest =>
      match rest with
      | String d rest' =>
          continue_if (Ascii.eqb c d)
            (match rest' with "" => EndValue | _ => InLiteral rest' end) s
      | "" => scan_error s
      end
  | StateError => (s, ScanError)
  end.

(** [s.eof()]: may the text end here? *)
Definition scan_eof (s : scanner) : bool :=
  negb (sn_err s) && (sn_endTop s || sn_endTop (scan_step s " ").1).

(** ** Valid *)

Fixpoint checkValid (s : scanner) (data : string) : bool :=
  match data with
  | "" => scan_eof s
  | String c data => let (s, op) := scan_step s c in
      match op with ScanError => false | _ => checkValid s data end
  end.

Definition json_Valid (data : string) : bool := checkValid newScanner data.

(** ** Indent, with no prefix and an indent of two spaces *)

Definition indentation (depth : Z) : string :=
  String newline (String.concat "" (replicate (Z.to_nat depth) "  ")).

(** What is written before, and after, the byte [c], which the scanner
    answered with [op]; and the new [needIndent] and [depth]. *)
Definition is_close (op : scan_op) : bool :=
  match op with ScanEndObject | ScanEndArray => true | _ => false end.

Definition open_pending (op : scan_op) (needIndent : bool) (depth : Z) : string * (bool * Z) :=
  if needIndent && negb (is_close op) then (indentation (depth + 1), (false, depth + 1))
  else ("", (needIndent, depth)).

Definition punctuate (op : scan_op) (c : ascii) (needIndent : bool) (depth : Z)
  : (string * string) * (bool * Z) :=
  match op with
  | ScanContinue => ("", "", (needIndent, depth))
  | _ =>
      if Ascii.eqb c "{" || Ascii.eqb c "[" then ("", "", (true, depth))
      else if Ascii.eqb c "," then ("", indentation depth, (needIndent, depth))
      else if Ascii.eqb c ":" then ("", " ", (needIndent, depth))
      else if Ascii.eqb c "}" || Ascii.eqb c "]" then
        if needIndent then ("", "", (false, depth))
        else (indentation (depth - 1), "", (needIndent, depth - 1))
      else ("", "", (needIndent, depth))
  end.

(** The loop of [appendIndent]: the final scanner and what was written. *)
Fixpoint appendIndent (s : scanner) (needIndent : bool) (depth : Z) (src : string)
  : scanner * string :=
  match src with
  | "" => (s, "")
  | String c src =>
      let (s, op) := scan_step s c in
      match op with
      | ScanSkipSpace => appendIndent s needIndent depth src
      | ScanError => (s, "")
      | _ =>
          let '(opening, (needIndent, depth)) := open_pending op needIndent depth in
          let '(before, after, (needIndent, depth)) := punctuate op c needIndent depth in
          let (s, dst) := appendIndent s needIndent depth src in
          (s, opening +:+ before +:+ String c (after +:+ dst))
      end
  end.

Definition json_Indent (src : string) : option string :=
  let (s, dst) := appendIndent newScanner false 0 src in
  if scan_eof s then Some dst else None.

(** ** What the scanner answers *)

(** A scanner in [StateError] has recorded its error. *)
Definition scanner_wf (s : scanner) : Prop := sn_step s = StateError -> sn_err s = true.

Definition or_empty (s : scanner) : Prop :=
  sn_step s = BeginValueOrEmpty \/ sn_step s = BeginStringOrEmpty.
Definition expects (s : scanner) : Prop := sn_step s = BeginValue \/ sn_step s = BeginString.

Definition punctuation (c : ascii) : bool :=
  existsb (Ascii.eqb c) ["{"; "["; ","; ":"; "}"; "]"]%char.

(** Each answer comes with its byte, and leaves its state. *)
Definition answer_ok (c : ascii) (s : scanner) (op : scan_op) : Prop :=
  scanner_wf s /\
  match op with
  | ScanContinue => True
  | ScanBeginLiteral => punctuation c = false
  | ScanBeginObject | ScanBeginArray => (c = "{" \/ c = "[")%char /\ or_empty s
  | ScanObjectKey => c = ":"%char /\ expects s
  | ScanObjectValue | ScanArrayValue => c = ","%char /\ expects s
  | ScanEndObject | ScanEndArray => c = "}"%char \/ c = "]"%char
  | ScanSkipSpace => isSpace c = true
  | ScanEnd => isSpace c = true \/ sn_err s = true
  | ScanError => sn_err s = true
  end.

(** Split the tests of a byte, one by one. *)
Ltac split_byte :=
  match goal with
  | |- context [if ?b then _ else _] =>
      lazymatch b with
      | Ascii.eqb ?c ?d => destruct (Ascii.eqb_spec c d); [subst c|]
      | _ => destruct b eqn:?
      end
  end.

Ltac answered :=
  repeat (split_byte; try (split; [done|]; cbn; unfold or_empty, expects; by auto)).

Lemma goto_wf st s : st <> StateError -> scanner_wf (goto st s).
Proof. by intros H [=]. Qed.

Lemma endTop_answer s c : scanner_wf s -> answer_ok c (stateEndTop s c).1 (stateEndTop s c).2.
Proof. intros Hs. unfold stateEndTop. destruct (isSpace c) eqn:E; split; cbn; auto. done. Qed.

Lemma pop_wf s : scanner_wf (popParseState s).
Proof. unfold popParseState. by repeat case_match. Qed.

Lemma endValue_answer s c : answer_ok c (stateEndValue s c).1 (stateEndValue s c).2.
Proof.
  unfold stateEndValue. destruct (sn_parse s) as [|p ps]; [by apply endTop_answer|].
  destruct (isSpace c) eqn:E; [by split|].
  destruct p; answered; split; cbn; try apply pop_wf; auto; done.
Qed.

Lemma digit_no_punctuation c : is_digit c = true -> punctuation c = false.
Proof.
  pose proof (bytes_checked (fun c => negb (is_digit c && punctuation c)) eq_refl c) as H.
  cbn beta in H. intros Hd. rewrite Hd in H. by apply negb_true_iff in H.
Qed.

Lemma beginValue_answer s c :
  scanner_wf s -> answer_ok c (stateBeginValue s c).1 (stateBeginValue s c).2.
Proof.
  intros Hs. unfold stateBeginValue, pushParseState. answered.
  all: split; cbn; unfold or_empty; auto; try done. by apply digit_no_punctuation.
Qed.

Lemma beginString_answer s c :
  scanner_wf s -> answer_ok c (stateBeginString s c).1 (stateBeginString s c).2.
Proof. intros Hs. unfold stateBeginString. answered; split; cbn; auto; done. Qed.

Lemma continue_answer b st s c :
  st <> StateError -> answer_ok c (continue_if b st s).1 (continue_if b st s).2.
Proof. intros Hst. unfold continue_if. destruct b; split; cbn; auto; by intros [=]. Qed.

Create HintDb json.
#[local] Hint Resolve goto_wf endTop_answer endValue_answer beginValue_answer beginString_answer
  continue_answer : json.

Lemma step_answer s c :
  scanner_wf s -> answer_ok c (scan_step s c).1 (scan_step s c).2.
Proof.
  intros Hs. unfold scan_step. destruct (sn_step s) eqn:Est.
  all: repeat split_byte; auto with json.
  all: try (by split).
  - apply continue_answer. by destruct n as [|[|]].
  - destruct rest as [|d rest]; [by split|]. apply continue_answer. by destruct rest.
  - split; [exact Hs | exact (Hs Est)].
Qed.

(** ** Reading on after a space

    Between tokens the scanner stays where it is, and a number or literal at
    its end is as good as ended. *)

Definition between (s : scanner) : bool :=
  match sn_step s with
  | BeginValueOrEmpty | BeginValue | BeginStringOrEmpty | BeginString => true
  | EndValue => negb (match sn_parse s with [] => true | _ => false end)
  | _ => false
  end.

Definition number_end (s : scanner) : bool :=
  match sn_step s with State0 | State1 | Dot0 | StateE0 => true | _ => false end &&
  negb (match sn_parse s with [] => true | _ => false end).

Lemma between_space s c : between s = true -> isSpace c = true -> scan_step s c = (s, ScanSkipSpace).
Proof.
  unfold between, scan_step, stateBeginValue, stateBeginString, stateEndValue. intros Hb Hc.
  destruct (sn_step s) eqn:Est; try discriminate Hb; try (by rewrite Hc).
  destruct (sn_parse s); [discriminate Hb|]. rewrite Hc. unfold goto. rewrite <- Est.
  by destruct s.
Qed.

Lemma goto_endValue s c : stateEndValue (goto EndValue s) c = stateEndValue s c.
Proof. by destruct s as [st e [|[] ps] err]. Qed.

(** A byte that cannot go on a number ends it. *)
Lemma number_step s c :
  number_end s = true -> isSpace c || punctuation c = true -> scan_step s c = stateEndValue s c.
Proof.
  pose proof (bytes_checked (fun c => negb ((isSpace c || punctuation c) && (is_digit c ||
    Ascii.eqb c "." || Ascii.eqb c "e" || Ascii.eqb c "E"))) eq_refl c) as H. cbn beta in H.
  intros Hn Hc. rewrite Hc in H. apply negb_true_iff in H. cbn [andb] in H.
  apply orb_false_iff in H as [[[H1 H2]%orb_false_iff H3]%orb_false_iff H4].
  unfold number_end in Hn. unfold scan_step.
  destruct (sn_step s); try discriminate Hn; by rewrite ?H1, ?H2, ?H3, ?H4.
Qed.

Lemma number_space s c :
  number_end s = true -> isSpace c = true -> scan_step s c = (goto EndValue s, ScanSkipSpace).
Proof.
  intros Hn Hc. rewrite number_step by (done || by rewrite Hc).
  apply andb_true_iff in Hn as [_ Hp]. unfold stateEndValue. destruct (sn_parse s); [done|].
  by rewrite Hc.
Qed.

(** Where a space may be skipped. *)
Lemma skip_space s c s1 :
  scan_step s c = (s1, ScanSkipSpace) ->
  (between s = true /\ s1 = s) \/ (number_end s = true /\ s1 = goto EndValue s).
Proof.
  unfold between, number_end, scan_step, stateBeginValue, stateBeginString, pushParseState,
    continue_if, scan_error, stateEndValue, stateEndTop. intros H.
  destruct (sn_step s) eqn:Est; repeat case_match; simplify_eq; auto.
  left. split; [done|]. destruct s. unfold goto. cbn in *. by subst.
Qed.

Definition token (op : scan_op) : bool :=
  match op with ScanSkipSpace | ScanError => false | _ => true end.

Lemma skip_absorb s c s1 d s2 op :
  scan_step s c = (s1, ScanSkipSpace) -> scan_step s1 d = (s2, op) -> token op = true ->
  scan_step s d = (s2, op).
Proof.
  intros H Hd Hop. apply skip_space in H as [[_ ->] | [Hn ->]]; [exact Hd|].
  change (scan_step (goto EndValue s) d) with (stateEndValue (goto EndValue s) d) in Hd.
  rewrite goto_endValue in Hd. rewrite number_step; [exact Hd | exact Hn|].
  pose proof (endValue_answer s d) as [_ Ha]. rewrite Hd in Ha. cbn [fst snd] in Ha.
  apply andb_true_iff in Hn as [_ Hp]. unfold stateEndValue in Hd.
  destruct (sn_parse s) as [|p ps]; [done|]. destruct (isSpace d) eqn:Esp; [done|].
  destruct op; try discriminate Hop; repeat case_match; simplify_eq;
    (destruct Ha as [-> _] || destruct Ha as [-> | ->]); done.
Qed.

(** A closing bracket can come where a space can. *)
Lemma closing s c s1 op :
  scan_step s c = (s1, op) -> is_close op = true ->
  between s = true \/ (number_end s = true /\ scan_step (goto EndValue s) c = (s1, op)).
Proof.
  intros H Hop. destruct (number_end s) eqn:Hn.
  - right. split; [done|].
    change (scan_step (goto EndValue s) c) with (stateEndValue (goto EndValue s) c).
    rewrite goto_endValue, <- H. symmetry. apply number_step; [exact Hn|].
    assert (Hc : c = "}"%char \/ c = "]"%char).
    { unfold scan_step, stateEndValue, stateBeginValue, stateBeginString, pushParseState,
        continue_if, scan_error, stateEndTop in H.
      destruct (sn_step s) eqn:Est; repeat case_match; simplify_eq; try discriminate Hop;
        repeat match goal with E : Ascii.eqb _ _ = true |- _ => apply Ascii.eqb_eq in E end; auto. }
    by destruct Hc as [-> | ->].
  - left. unfold between, number_end, scan_step, stateEndValue, stateBeginValue, stateBeginString,
      pushParseState, continue_if, scan_error, stateEndTop in *.
    destruct (sn_step s) eqn:Est; repeat case_match; simplify_eq; try discriminate Hop; done.
Qed.

Lemma err_stays s c : sn_err s = true -> sn_err (scan_step s c).1 = true.
Proof.
  intros H. unfold scan_step, stateEndValue, stateBeginValue, stateBeginString, pushParseState,
    popParseState, continue_if, scan_error, stateEndTop. destruct (sn_step s) eqn:Est;
    repeat case_match; simpl; try exact H; try done.
Qed.

(** ** Tokens

    The bytes of a text that are not skipped, with the scanner's answers. *)
Fixpoint scan_trace (s : scanner) (src : string) : scanner * list (ascii * scan_op) :=
  match src with
  | "" => (s, [])
  | String c src =>
      let (s, op) := scan_step s c in
      match op with
      | ScanSkipSpace => scan_trace s src
      | ScanError => (s, [])
      | _ => let (s, t) := scan_trace s src in (s, (c, op) :: t)
      end
  end.

(** The text written for the tokens. *)
Fixpoint layout (needIndent : bool) (depth : Z) (t : list (ascii * scan_op)) : string :=
  match t with
  | [] => ""
  | (c, op) :: t =>
      let '(opening, (needIndent, depth)) := open_pending op needIndent depth in
      let '(before, after, (needIndent, depth)) := punctuate op c needIndent depth in
      opening +:+ before +:+ String c (after +:+ layout needIndent depth t)
  end.

Lemma appendIndent_layout s needIndent depth src :
  appendIndent s needIndent depth src =
    ((scan_trace s src).1, layout needIndent depth (scan_trace s src).2).
Proof.
  revert s needIndent depth. induction src as [|c src IH]; intros s ni d; [done|].
  cbn [appendIndent scan_trace]. destruct (scan_step s c) as [s1 op].
  assert (Htok : (let '(opening, (ni, d)) := open_pending op ni d in
      let '(before, after, (ni, d)) := punctuate op c ni d in
      let (s2, dst) := appendIndent s1 ni d src in
      (s2, opening +:+ before +:+ String c (after +:+ dst))) =
    ((let (s2, t) := scan_trace s1 src in (s2, (c, op) :: t)).1,
     layout ni d (let (s2, t) := scan_trace s1 src in (s2, (c, op) :: t)).2)).
  { destruct (open_pending op ni d) as [opening [ni1 d1]] eqn:E1.
    destruct (punctuate op c ni1 d1) as [[before after] [ni2 d2]] eqn:E2. rewrite IH.
    destruct (scan_trace s1 src) as [s2 t]. cbn [fst snd layout]. by rewrite E1, E2. }
  destruct op; try exact Htok; [apply IH | done].
Qed.

Lemma checkValid_trace s src :
  scanner_wf s -> checkValid s src = scan_eof (scan_trace s src).1.
Proof.
  revert s. induction src as [|c src IH]; intros s Hs; [done|]. cbn [checkValid scan_trace].
  destruct (step_answer s c Hs) as [Hw Ha]. destruct (scan_step s c) as [s1 op]. cbn [fst snd] in *.
  assert (Htok : checkValid s1 src =
    scan_eof (let (s2, t) := scan_trace s1 src in (s2, (c, op) :: t)).1).
  { rewrite (IH s1 Hw). by destruct (scan_trace s1 src). }
  destruct op; try exact Htok; [by apply IH|]. unfold scan_eof. cbn. by rewrite Ha.
Qed.

Lemma trace_err s src : sn_err s = true -> sn_err (scan_trace s src).1 = true.
Proof.
  revert s. induction src as [|c src IH]; intros s Hs; [done|]. cbn [scan_trace].
  pose proof (err_stays s c Hs) as H1. destruct (scan_step s c) as [s1 op]. cbn [fst] in H1.
  pose proof (IH s1 H1) as H2. destruct (scan_trace s1 src). by destruct op.
Qed.

(** ** The laid out text reads like the original *)

Fixpoint all_space (s : string) : bool :=
  match s with "" => true | String c s => isSpace c && all_space s end.

Lemma all_space_app a b : all_space (a +:+ b) = all_space a && all_space b.
Proof.
  induction a as [|c a IH]; [done|]. rewrite append_cons. cbn. by rewrite IH, andb_assoc.
Qed.

Lemma indentation_space depth : all_space (indentation depth) = true.
Proof.
  unfold indentation. cbn [all_space]. change (isSpace newline) with true. cbn [andb].
  induction (Z.to_nat depth) as [|n IH]; [done|]. cbn [replicate String.concat].
  destruct (replicate n "  ") eqn:E; [done|]. rewrite !all_space_app. by rewrite IH.
Qed.

Lemma trace_space s ws rest :
  between s = true -> all_space ws = true -> scan_trace s (ws +:+ rest) = scan_trace s rest.
Proof.
  intros Hs. induction ws as [|c ws IH]; [done|]. rewrite append_cons. cbn [all_space scan_trace].
  intros [Hc Hw]%andb_true_iff. rewrite (between_space s c Hs Hc). by apply IH.
Qed.

Lemma trace_closing s ws c rest s1 op :
  all_space ws = true -> scan_step s c = (s1, op) -> is_close op = true ->
  scan_trace s (ws +:+ String c rest) = scan_trace s (String c rest).
Proof.
  intros Hws Hst Hop. destruct ws as [|d ws]; [done|].
  destruct (closing s c s1 op Hst Hop) as [Hb | [Hn Hg]]; [by apply trace_space|].
  apply andb_true_iff in Hws as [Hd Hws]. rewrite append_cons. cbn [scan_trace].
  rewrite (number_space s d Hn Hd), trace_space; [|by apply andb_true_iff in Hn as [_ Hn]|exact Hws].
  cbn [scan_trace]. by rewrite Hg, Hst.
Qed.

(** [s] may have skipped a space more than [s']. *)
Definition skipped (s s' : scanner) : Prop :=
  s' = s \/ exists c, scan_step s' c = (s, ScanSkipSpace).

Lemma skipped_step s s' c s1 op :
  skipped s s' -> scan_step s c = (s1, op) -> token op = true -> scan_step s' c = (s1, op).
Proof. intros [-> | (d & Hd)]; [done|]. intros H Hop. by eapply skip_absorb. Qed.

Lemma skipped_between s s' : skipped s s' -> s' = s \/ (between s = true /\ sn_step s = EndValue).
Proof.
  intros [-> | (c & Hc)]; [by left|].
  apply skip_space in Hc as [[_ ->] | [Hn ->]]; [by left|]. right.
  by apply andb_true_iff in Hn as [_ Hn].
Qed.

Lemma skipped_skip s s' c s1 :
  scanner_wf s -> skipped s s' -> scan_step s c = (s1, ScanSkipSpace) -> skipped s1 s'.
Proof.
  intros Hw Hs Hc. destruct Hs as [-> | (d & Hd)]; [right; by exists c|]. right. exists d.
  pose proof (step_answer s c Hw) as [_ Ha]. rewrite Hc in Ha. simpl in Ha.
  destruct (skipped_between s s') as [-> | [Hb _]]; [right; by exists d | |].
  - rewrite Hd. apply skip_space in Hd as Hd'. destruct Hd' as [[Hb _] | [Hn Hg]].
    + rewrite (between_space s c Hb Ha) in Hc. by simplify_eq.
    + rewrite (number_space s c Hn Ha) in Hc. congruence.
  - rewrite (between_space s c Hb Ha) in Hc. by simplify_eq.
Qed.

(** What surrounds a token, by its kind. *)
Lemma punctuate_spec c s op needIndent depth before after needIndent' depth' :
  answer_ok c s op -> token op = true -> sn_err s = false ->
  (needIndent = true -> is_close op = true) ->
  punctuate op c needIndent depth = (before, after, (needIndent', depth')) ->
  all_space before = true /\ all_space after = true /\
  (before = "" \/ is_close op = true) /\ (after = "" \/ between s = true) /\
  (needIndent' = true -> or_empty s).
Proof.
  intros [_ Ha] Hop Herr Hn. pose proof (indentation_space depth) as Hi1.
  pose proof (indentation_space (depth - 1)) as Hi2. unfold between.
  assert (Hlit : forall k, punctuation c = false -> punctuate op c k depth = ("", "", (k, depth))).
  { intros k Hp. unfold punctuation in Hp. cbn in Hp. rewrite !orb_false_r in Hp.
    repeat (apply orb_false_iff in Hp as [? Hp]). unfold punctuate.
    repeat match goal with E : Ascii.eqb _ _ = false |- _ => rewrite E end. by destruct op. }
  assert (Hnl : is_close op = false -> needIndent = false).
  { intros Hc. destruct needIndent; [|done]. by rewrite Hn in Hc. }
  destruct op; try discriminate Hop; simpl in Ha, Hnl; intros Hpu.
  3, 7: destruct Ha as [[-> | ->] Hs]; simpl in Hpu; simplify_eq; by split_and!; auto.
  3, 4, 6: destruct Ha as [-> [Hs|Hs]]; simpl in Hpu; simplify_eq; rewrite Hnl, Hs by done;
    by split_and!; auto.
  3, 4: destruct Ha as [-> | ->]; simpl in Hpu; destruct needIndent; simplify_eq;
    by split_and!; auto.
  - simpl in Hpu. simplify_eq. rewrite Hnl by done. by split_and!; auto.
  - rewrite (Hlit needIndent Ha) in Hpu. simplify_eq. rewrite Hnl by done. by split_and!; auto.
  - destruct Ha as [Ha|Ha]; [|congruence]. rewrite (Hlit needIndent) in Hpu.
    + simplify_eq. rewrite Hnl by done. by split_and!; auto.
    + pose proof (bytes_checked (fun c => negb (isSpace c && punctuation c)) eq_refl c) as H.
      cbn beta in H. rewrite Ha in H. by apply negb_true_iff in H.
Qed.

Lemma or_empty_between s : or_empty s -> between s = true.
Proof. unfold or_empty, between. by intros [-> | ->]. Qed.

(** Reading one token with what surrounds it. *)
Lemma read_token s s' c s1 op needIndent depth opening needIndent1 depth1 before after
    needIndent2 depth2 rest :
  scanner_wf s -> skipped s s' -> (needIndent = true -> or_empty s) ->
  scan_step s c = (s1, op) -> token op = true -> sn_err s1 = false ->
  open_pending op needIndent depth = (opening, (needIndent1, depth1)) ->
  punctuate op c needIndent1 depth1 = (before, after, (needIndent2, depth2)) ->
  (needIndent2 = true -> or_empty s1) /\
  scan_trace s' (opening +:+ before +:+ String c (after +:+ rest)) =
    (let (s2, t) := scan_trace s1 rest in (s2, (c, op) :: t)).
Proof.
  intros Hw Hsk Hni Hst Hop Herr Ho Hpu.
  pose proof (step_answer s c Hw) as Ha. rewrite Hst in Ha. cbn [fst snd] in Ha.
  pose proof (skipped_step _ _ _ _ _ Hsk Hst Hop) as Hst'.
  assert (Hni1 : needIndent1 = true -> is_close op = true).
  { unfold open_pending in Ho. destruct needIndent, (is_close op); simpl in Ho; by simplify_eq. }
  destruct (punctuate_spec _ _ _ _ _ _ _ _ _ Ha Hop Herr Hni1 Hpu) as (Hb & Hf & Hcl & Hbt & Hn2).
  split; [exact Hn2|].
  assert (Hopen : scan_trace s' (opening +:+ before +:+ String c (after +:+ rest)) =
    scan_trace s' (before +:+ String c (after +:+ rest))).
  { unfold open_pending in Ho. destruct (needIndent && negb (is_close op)) eqn:E;
      simplify_eq; [|done]. apply andb_true_iff in E as [E _].
    apply trace_space; [|apply indentation_space]. pose proof (Hni E) as Hoe.
    destruct (skipped_between s s' Hsk) as [-> | [_ He]]; [by apply or_empty_between|].
    destruct Hoe; congruence. }
  assert (Hbefore : scan_trace s' (before +:+ String c (after +:+ rest)) =
    scan_trace s' (String c (after +:+ rest))).
  { destruct Hcl as [-> | Hcl]; [done|]. by eapply trace_closing. }
  rewrite Hopen, Hbefore. cbn [scan_trace]. rewrite Hst'.
  assert (Hafter : scan_trace s1 (after +:+ rest) = scan_trace s1 rest).
  { destruct Hbt as [-> | Hbt]; [done|]. by apply trace_space. }
  rewrite Hafter. by destruct op.
Qed.

Lemma relayout src s s' needIndent depth :
  scanner_wf s -> skipped s s' -> (needIndent = true -> or_empty s) ->
  sn_err (scan_trace s src).1 = false ->
  exists s2, scan_trace s' (layout needIndent depth (scan_trace s src).2) =
               (s2, (scan_trace s src).2) /\ skipped (scan_trace s src).1 s2.
Proof.
  revert s s' needIndent depth. induction src as [|c src IH]; intros s s' ni d Hw Hsk Hni Herr.
  { by exists s'. }
  cbn [scan_trace] in *. pose proof (step_answer s c Hw) as [Hw1 Ha].
  destruct (scan_step s c) as [s1 op] eqn:Hst. cbn [fst snd] in Hw1, Ha.
  destruct (token op) eqn:Hop; [|destruct op; try discriminate Hop].
  - assert (Heq : forall (x y : scanner * list (ascii * scan_op)),
      match op with ScanSkipSpace => x | ScanError => y
        | _ => let (s, t) := scan_trace s1 src in (s, (c, op) :: t) end =
      let (s, t) := scan_trace s1 src in (s, (c, op) :: t)) by (intros; destruct op; done).
    rewrite Heq in *. clear Heq.
    assert (Herr1 : sn_err (scan_trace s1 src).1 = false) by (by destruct (scan_trace s1 src)).
    assert (He1 : sn_err s1 = false).
    { destruct (sn_err s1) eqn:E; [|done]. by rewrite (trace_err s1 src E) in Herr1. }
    destruct (open_pending op ni d) as [opening [ni1 d1]] eqn:E1.
    destruct (punctuate op c ni1 d1) as [[before after] [ni2 d2]] eqn:E2.
    assert (Hread := fun rest => read_token _ _ _ _ _ _ _ _ _ _ _ _ _ _ rest
      Hw Hsk Hni Hst Hop He1 E1 E2).
    destruct (IH s1 s1 ni2 d2 Hw1 (or_introl eq_refl) (proj1 (Hread "")) Herr1) as (s2 & Hs2 & Hk).
    exists s2. destruct (scan_trace s1 src) as [sf t]. cbn [fst snd layout] in *.
    rewrite E1, E2. rewrite (proj2 (Hread _)), Hs2. done.
  - apply IH; [exact Hw1 | exact (skipped_skip _ _ _ _ Hw Hsk Hst) | | exact Herr].
    intros Hn. specialize (Hni Hn). pose proof (or_empty_between s Hni) as Hb.
    rewrite (between_space s c Hb Ha) in Hst. by simplify_eq.
  - simpl in Herr. congruence.
Qed.

Lemma skipped_eof s s' : skipped s s' -> scan_eof s' = scan_eof s.
Proof.
  intros [-> | (c & Hc)]; [done|]. apply skip_space in Hc as [[_ ->] | [Hn ->]]; [done|].
  unfold scan_eof. rewrite (number_space s' " " Hn eq_refl). apply andb_true_iff in Hn as [_ Hp].
  change (scan_step (goto EndValue s') " ") with (stateEndValue (goto EndValue s') " ").
  rewrite goto_endValue. unfold stateEndValue. by destruct (sn_parse s').
Qed.

(** The tokens of a text: what the scanner does not skip. *)
Definition tokens (src : string) : list (ascii * scan_op) := (scan_trace newScanner src).2.

Lemma Indent_Valid src :
  json_Indent src = if json_Valid src then Some (layout false 0 (tokens src)) else None.
Proof.
  unfold json_Indent, json_Valid, tokens. rewrite appendIndent_layout, checkValid_trace by done.
  done.
Qed.

Lemma Indent_tokens src :
  json_Valid src = true ->
  let out := layout false 0 (tokens src) in json_Valid out = true /\ tokens out = tokens src.
Proof.
  unfold json_Valid, tokens. rewrite checkValid_trace by done. intros Hv.
  assert (Herr : sn_err (scan_trace newScanner src).1 = false).
  { unfold scan_eof in Hv. by apply andb_true_iff in Hv as [?%negb_true_iff _]. }
  destruct (relayout src newScanner newScanner false 0) as (s2 & Hs2 & Hsk); try done; [by left|].
  cbv zeta. rewrite checkValid_trace by done. rewrite Hs2. split; [|done]. cbn [fst].
  by rewrite (skipped_eof _ _ Hsk).
Qed.
