(* ===== verification/Calendar.v ===== *)
(** * Dates

    The part of package time that prints a timestamp: the proleptic Gregorian
    calendar in UTC, and [Time.Format] with the layout
    ["2006-01-02 15:04:05 UTC"]; and reading such a text back. *)

From S2P Require Import Prelude Text GoStd.
From Stdlib Require Import Ascii.
Local Open Scope Z_scope.

(** ** The calendar *)

Definition is_leap (y : Z) : bool :=
  (y mod 4 =? 0) && (negb (y mod 100 =? 0) || (y mod 400 =? 0)).

Definition month_lengths (leap : bool) : list Z :=
  [31; if leap then 29 else 28; 31; 30; 31; 30; 31; 31; 30; 31; 30; 31].

Record date := mkDate { dt_year : Z; dt_month : Z; dt_day : Z }.

(** Days from January 1st of year 1 to that of year [y]. *)
Definition days_before_year (y : Z) : Z :=
  365 * (y - 1) + (y - 1) / 4 - (y - 1) / 100 + (y - 1) / 400.

Definition days_before_month (leap : bool) (m : Z) : Z :=
  foldr Z.add 0 (take (Z.to_nat (m - 1)) (month_lengths leap)).

(** The number of a date: 0 is January 1st of year 1. *)
Definition day_number (d : date) : Z :=
  days_before_year (dt_year d) + days_before_month (is_leap (dt_year d)) (dt_month d) +
  (dt_day d - 1).

Definition date_valid (d : date) : Prop :=
  1 <= dt_month d <= 12 /\
  exists n, month_lengths (is_leap (dt_year d)) !! Z.to_nat (dt_month d - 1) = Some n /\
            1 <= dt_day d <= n.

(** The year of day [n], and the day in that year: cycles of 400 years, then
    centuries, then four years, then years; the last century of a cycle and
    the last of four years are a day longer. *)
Definition year_day (n : Z) : Z * Z :=
  let r := n mod 146097 in
  let century := Z.min 3 (r / 36524) in
  let r := r - century * 36524 in
  let r4 := r mod 1461 in
  let year := Z.min 3 (r4 / 365) in
  (400 * (n / 146097) + 100 * century + 4 * (r / 1461) + year + 1, r4 - year * 365).

Fixpoint month_day (lengths : list Z) (m yday : Z) : Z * Z :=
  match lengths with
  | [] => (m, yday + 1)
  | n :: lengths => if yday <? n then (m, yday + 1) else month_day lengths (m + 1) (yday - n)
  end.

Definition date_of_day (n : Z) : date :=
  let (y, yday) := year_day n in
  let (m, d) := month_day (month_lengths (is_leap y)) 1 yday in
  mkDate y m d.

#[local] Ltac Zify.zify_post_hook ::= Z.to_euclidean_division_equations.

Lemma year_day_bounds n :
  let (y, yday) := year_day n in
  days_before_year y + yday = n /\ 0 <= yday <= 365 /\ (yday = 365 -> is_leap y = true).
Proof.
  unfold year_day, days_before_year, is_leap.
  set (q := n / 146097). set (r := n mod 146097).
  assert (Hn : n = 146097 * q + r /\ 0 <= r < 146097) by (subst q r; lia).
  clearbody q r. set (c := Z.min 3 (r / 36524)). set (r2 := r - c * 36524).
  assert (Hc : r = c * 36524 + r2 /\ 0 <= c <= 3 /\ 0 <= r2 < 36525 /\ (c < 3 -> r2 < 36524))
    by (subst r2 c; lia).
  clearbody r2. clearbody c. set (k := r2 / 1461). set (r4 := r2 mod 1461).
  assert (Hk : r2 = 1461 * k + r4 /\ 0 <= r4 < 1461) by (subst k r4; lia).
  clearbody k r4. set (j := Z.min 3 (r4 / 365)).
  assert (Hj : 0 <= j <= 3 /\ 0 <= r4 - j * 365 <= 365 /\ (r4 - j * 365 = 365 -> j = 3 /\ r4 = 1460))
    by (subst j; lia).
  clearbody j.
  assert (Hy : forall e, e = 400 * q + 100 * c + 4 * k + j -> 0 <= k <= 24 ->
    e / 4 = 100 * q + 25 * c + k /\ e / 100 = 4 * q + c /\ e / 400 = q) by (intros e -> Hk24; lia).
  assert (Hk24 : 0 <= k <= 24) by lia.
  destruct (Hy _ eq_refl Hk24) as (H4 & H100 & H400).
  replace (400 * q + 100 * c + 4 * k + j + 1 - 1) with (400 * q + 100 * c + 4 * k + j) by lia.
  rewrite H4, H100, H400. split; [lia|]. split; [lia|]. intros H. destruct Hj as (_ & _ & Hj).
  destruct (Hj H) as [-> Hr4]. clear Hy H4 H100 H400.
  apply andb_true_iff. split; [apply Z.eqb_eq; lia|]. apply orb_true_iff.
  destruct (decide (c = 3)) as [->|Hc3].
  - destruct (decide (k = 24)) as [->|Hk']; [right; apply Z.eqb_eq; lia|].
    left. apply negb_true_iff, Z.eqb_neq. lia.
  - left. apply negb_true_iff, Z.eqb_neq. lia.
Qed.

Lemma month_day_spec lengths m yday :
  0 <= yday < foldr Z.add 0 lengths -> Forall (fun n => 0 < n) lengths ->
  let (m', d) := month_day lengths m yday in
  exists i n, m' = m + Z.of_nat i /\ lengths !! i = Some n /\ 1 <= d <= n /\
    foldr Z.add 0 (take i lengths) + (d - 1) = yday.
Proof.
  revert m yday. induction lengths as [|n lengths IH]; intros m yday Hy Hf; simpl in *; [lia|].
  inversion Hf as [|? ? Hn Hf']; subst. destruct (Z.ltb_spec yday n) as [Hlt|Hge].
  - exists O, n. simpl. split_and!; [lia | done | lia | lia | lia].
  - specialize (IH (m + 1) (yday - n) ltac:(lia) Hf').
    destruct (month_day lengths (m + 1) (yday - n)) as [m' d].
    destruct IH as (i & n' & -> & Hi & Hd & Hs). exists (S i), n'. simpl.
    split_and!; [lia | done | lia | lia | lia].
Qed.

Lemma lengths_positive leap : Forall (fun n => 0 < n) (month_lengths leap).
Proof. destruct leap; repeat constructor. Qed.

Lemma lengths_sum leap : foldr Z.add 0 (month_lengths leap) = if leap then 366 else 365.
Proof. by destruct leap. Qed.

Lemma lengths_count leap i n : month_lengths leap !! i = Some n -> (i < 12)%nat.
Proof. intros H%lookup_lt_Some. by destruct leap. Qed.

Lemma date_of_day_spec n : date_valid (date_of_day n) /\ day_number (date_of_day n) = n.
Proof.
  unfold date_of_day. pose proof (year_day_bounds n) as Hy. destruct (year_day n) as [y yday].
  destruct Hy as (Hn & Hy & Hleap).
  pose proof (month_day_spec (month_lengths (is_leap y)) 1 yday) as Hm.
  destruct (month_day (month_lengths (is_leap y)) 1 yday) as [m d].
  destruct Hm as (i & l & -> & Hi & Hd & Hs).
  { rewrite lengths_sum. destruct (is_leap y) eqn:E; [lia|].
    assert (yday <> 365) by (intros H; by apply Hleap in H). lia. }
  { apply lengths_positive. }
  pose proof (lengths_count _ _ _ Hi). unfold date_valid, day_number, days_before_month.
  cbn [dt_year dt_month dt_day]. replace (Z.to_nat (1 + Z.of_nat i - 1)) with i by lia.
  split; [split; [lia | by exists l] | lia].
Qed.

(** The days from year 1 to 9999, those four digits can name. *)
Definition last_day : Z := days_before_year 10000 - 1.

Lemma year_range n : 0 <= n <= last_day -> 1 <= dt_year (date_of_day n) <= 9999.
Proof.
  unfold date_of_day. pose proof (year_day_bounds n) as Hy. destruct (year_day n) as [y yday].
  destruct Hy as (Hn & Hy & _). destruct (month_day _ 1 yday) as [m d]. cbn [dt_year].
  unfold last_day, days_before_year in *. lia.
Qed.

(** ** Printing *)

Definition digit (n : Z) : ascii := ascii_of_nat (48 + Z.to_nat n).

(** The [w] digits of [n], for [0 <= n < 10^w]. *)
Fixpoint fixed (w : nat) (n : Z) : string :=
  match w with
  | O => ""
  | S w => String (digit (n / 10 ^ Z.of_nat w)) (fixed w (n mod 10 ^ Z.of_nat w))
  end.

(** [appendInt]: at least [w] digits. *)
Definition appendInt (n : Z) (w : nat) : string :=
  let u := Z.abs n in
  (if n <? 0 then "-" else "") +:+ (if u <? 10 ^ Z.of_nat w then fixed w u else fmt_d u).

(** [t.UTC().Format("2006-01-02 15:04:05 UTC")]. *)
Definition format_utc (t : Time) : string :=
  let seconds := time_Unix t in
  let d := date_of_day (seconds / 86400 + 719162) in
  let s := seconds mod 86400 in
  appendInt (dt_year d) 4 +:+ "-" +:+ appendInt (dt_month d) 2 +:+ "-" +:+
  appendInt (dt_day d) 2 +:+ " " +:+ appendInt (s / 3600) 2 +:+ ":" +:+
  appendInt (s mod 3600 / 60) 2 +:+ ":" +:+ appendInt (s mod 60) 2 +:+ " UTC".

Example format_epoch : format_utc 0 = "1970-01-01 00:00:00 UTC".
Proof. vm_compute. reflexivity. Qed.
Example format_leap_day : format_utc (951827696 * Second + 5) = "2000-02-29 12:34:56 UTC".
Proof. vm_compute. reflexivity. Qed.
Example format_before_epoch : format_utc (-1) = "1969-12-31 23:59:59 UTC".
Proof. vm_compute. reflexivity. Qed.

(** ** Reading *)

Definition digit_value (c : ascii) : option Z :=
  let n := nat_of_ascii c in
  if (48 <=? n)%nat && (n <=? 57)%nat then Some (Z.of_nat n - 48) else None.

Fixpoint read_number (w : nat) (acc : Z) (s : string) : option (Z * string) :=
  match w with
  | O => Some (acc, s)
  | S w =>
      match s with
      | "" => None
      | String c s => d ← digit_value c; read_number w (10 * acc + d) s
      end
  end.

Fixpoint read_text (lit s : string) : option string :=
  match lit, s with
  | "", _ => Some s
  | String c lit, String d s => if Ascii.eqb c d then read_text lit s else None
  | _, _ => None
  end.

(** The number of [w] digits, and the text [lit] after it. *)
Definition read_field (w : nat) (lit s : string) : option (Z * string) :=
  '(n, s) ← read_number w 0 s;
  s ← read_text lit s;
  Some (n, s).

Definition parse_utc (s : string) : option Time :=
  '(year, s) ← read_field 4 "-" s;
  '(month, s) ← read_field 2 "-" s;
  '(day, s) ← read_field 2 " " s;
  '(hour, s) ← read_field 2 ":" s;
  '(minute, s) ← read_field 2 ":" s;
  '(second, s) ← read_field 2 " UTC" s;
  match s with
  | "" => Some (((day_number (mkDate year month day) - 719162) * 86400 +
                 hour * 3600 + minute * 60 + second) * Second)
  | _ => None
  end.

Lemma digit_value_digit n : 0 <= n <= 9 -> digit_value (digit n) = Some n.
Proof.
  intros H. unfold digit_value, digit. rewrite nat_ascii_embedding by lia.
  destruct (Nat.leb_spec 48 (48 + Z.to_nat n)); [|lia].
  destruct (Nat.leb_spec (48 + Z.to_nat n) 57); [|lia]. cbn [andb]. f_equal. lia.
Qed.

Lemma read_fixed w n acc rest :
  0 <= n < 10 ^ Z.of_nat w ->
  read_number w acc (fixed w n +:+ rest) = Some (acc * 10 ^ Z.of_nat w + n, rest).
Proof.
  revert n acc. induction w as [|w IH]; intros n acc Hn.
  - cbn [read_number fixed]. rewrite append_empty. change (10 ^ Z.of_nat 0) with 1 in *.
    do 2 f_equal. lia.
  - rewrite Nat2Z.inj_succ, Z.pow_succ_r in * by lia. cbn [fixed read_number].
    set (p := 10 ^ Z.of_nat w) in *. assert (Hp : 0 < p) by (apply Z.pow_pos_nonneg; lia).
    rewrite append_cons.
    assert (Hd : 0 <= n / p <= 9).
    { split; [apply Z.div_pos; lia|]. pose proof (Z.div_lt_upper_bound n p 10). lia. }
    rewrite digit_value_digit by exact Hd. cbn [mbind option_bind].
    rewrite IH by (apply Z.mod_pos_bound; lia).
    pose proof (Z.div_mod n p). do 2 f_equal. clear IH. nia.
Qed.

Lemma read_text_app lit rest : read_text lit (lit +:+ rest) = Some rest.
Proof.
  induction lit as [|c lit IH]; [by rewrite append_empty; destruct rest|].
  rewrite append_cons. cbn [read_text]. by rewrite Ascii.eqb_refl.
Qed.

Lemma read_field_app w n lit rest :
  0 <= n < 10 ^ Z.of_nat w ->
  read_field w lit (appendInt n w +:+ lit +:+ rest) = Some (n, rest).
Proof.
  intros Hn. unfold read_field, appendInt. destruct (Z.ltb_spec n 0); [lia|].
  rewrite append_empty, Z.abs_eq by lia.
  destruct (Z.ltb_spec n (10 ^ Z.of_nat w)); [|lia].
  rewrite read_fixed by exact Hn. cbn [mbind option_bind].
  by rewrite read_text_app.
Qed.

Lemma read_field_end w n lit :
  0 <= n < 10 ^ Z.of_nat w -> read_field w lit (appendInt n w +:+ lit) = Some (n, "").
Proof. intros Hn. rewrite <- (append_nil lit) at 2. by apply read_field_app. Qed.

Lemma date_fields n :
  0 <= n <= last_day ->
  let d := date_of_day n in
  0 <= dt_year d < 10 ^ Z.of_nat 4 /\ 0 <= dt_month d < 10 ^ Z.of_nat 2 /\
  0 <= dt_day d < 10 ^ Z.of_nat 2.
Proof.
  intros Hn. cbv zeta. pose proof (year_range n Hn).
  destruct (date_of_day_spec n) as [(Hm & l & Hl & Hd) _].
  assert (Hl31 : l <= 31).
  { assert (Hall : Forall (fun l => l <= 31) (month_lengths (is_leap (dt_year (date_of_day n)))))
      by (destruct (is_leap _); repeat constructor; lia).
    exact (Forall_lookup_1 _ _ _ _ Hall Hl). }
  change (10 ^ Z.of_nat 4) with 10000. change (10 ^ Z.of_nat 2) with 100. lia.
Qed.

Lemma parse_format_utc t :
  0 <= time_Unix t / 86400 + 719162 <= last_day ->
  parse_utc (format_utc t) = Some (time_Unix t * Second).
Proof.
  intros Hn. unfold format_utc, parse_utc. cbv zeta.
  destruct (date_fields _ Hn) as (Hy & Hm & Hd).
  destruct (date_of_day_spec (time_Unix t / 86400 + 719162)) as [_ Hnum].
  set (d := date_of_day (time_Unix t / 86400 + 719162)) in *.
  set (s := time_Unix t mod 86400). assert (Hs : 0 <= s < 86400) by (apply Z.mod_pos_bound; lia).
  assert (Hc : 10 ^ Z.of_nat 2 = 100) by done. rewrite Hc in *.
  do 5 (rewrite read_field_app by (assumption || (rewrite Hc; lia)); cbn [mbind option_bind]).
  rewrite read_field_end by (rewrite Hc; lia). cbn [mbind option_bind].
  replace (mkDate (dt_year d) (dt_month d) (dt_day d)) with d by (by destruct d).
  rewrite Hnum. do 2 f_equal. subst s. lia.
Qed.
