(* ===== verification/Url.v ===== *)
(** * Package net/url

    The part of net/url (and of net/http's path handling) the program relies
    on: percent-encoding of the parts of a URL, [URL.String], and decoding. *)

From Stdlib Require Import Ascii.
From S2P Require Import Prelude GoStd Text.
Local Open Scope Z_scope.

(** ** Writing *)

Inductive encoding :=
| encodePath
| encodeHost
| encodeUserPassword
| encodeQueryComponent.

Definition one_of (chars : string) (c : ascii) : bool :=
  existsb (Ascii.eqb c) (String.list_ascii_of_string chars).

Definition code_between (a b : nat) (c : ascii) : bool :=
  (a <=? nat_of_ascii c)%nat && (nat_of_ascii c <=? b)%nat.

Definition is_alnum (c : ascii) : bool :=
  code_between 97 122 c || code_between 65 90 c || code_between 48 57 c.

Definition double_quote : ascii := ascii_of_nat 34.

(** Whether a byte must be written as [%XX] in the given part of a URL. *)
Definition shouldEscape (mode : encoding) (c : ascii) : bool :=
  if is_alnum c then false
  else if match mode with
          | encodeHost => one_of "!$&'()*+,;=:[]<>" c || Ascii.eqb c double_quote
          | _ => false
          end then false
  else if one_of "-_.~" c then false
  else if one_of "$&+,/:;=?@" c then
    match mode with
    | encodePath => one_of "?" c
    | encodeUserPassword => one_of "@/?:" c
    | encodeQueryComponent | encodeHost => true
    end
  else true.

(** The hexadecimal digits of [%02X]. *)
Definition upperhex (n : nat) : ascii :=
  if (n <? 10)%nat then ascii_of_nat (48 + n) else ascii_of_nat (55 + n).

Definition escape_char (mode : encoding) (c : ascii) : string :=
  match mode, Ascii.eqb c " " with
  | encodeQueryComponent, true => "+"
  | _, _ =>
      if shouldEscape mode c then
        String "%" (String (upperhex (nat_of_ascii c / 16))
                      (String (upperhex (nat_of_ascii c mod 16)) ""))
      else String c ""
  end.

Fixpoint escape (mode : encoding) (s : string) : string :=
  match s with
  | "" => ""
  | String c s' => escape_char mode c +:+ escape mode s'
  end.

(** [URL.EscapedPath] for a URL of which only [Path] is set, which is also
    its [String] when the path starts with one slash. *)
Definition escapedPath (path : string) : string :=
  if String.eqb path "*" then "*" else escape encodePath path.

Definition starts_with_slash (s : string) : bool :=
  match s with String c _ => Ascii.eqb c "/" | "" => false end.

(** [URL.String] for a URL with a scheme, a user, a host, a path and a
    query, none of its other fields being set. *)
Definition url_String (scheme user password host path rawQuery : string) : string :=
  let path := escapedPath path in
  scheme +:+ "://" +:+
  (escape encodeUserPassword user +:+ ":" +:+ escape encodeUserPassword password) +:+ "@" +:+
  escape encodeHost host +:+
  (if negb (String.eqb path "") && negb (starts_with_slash path) &&
      negb (String.eqb host "") then "/" else "") +:+
  path +:+
  (if String.eqb rawQuery "" then "" else "?" +:+ rawQuery).

(** ** Reading *)

Definition hex_value (c : ascii) : option nat :=
  let n := nat_of_ascii c in
  if code_between 48 57 c then Some (n - 48)%nat
  else if code_between 65 70 c then Some (n - 55)%nat
  else if code_between 97 102 c then Some (n - 87)%nat
  else None.

(** [url.PathUnescape], and [url.QueryUnescape] when [plus] is set. *)
Fixpoint unescape (plus : bool) (s : string) : option string :=
  match s with
  | "" => Some ""
  | String "%" (String a (String b s')) =>
      match hex_value a, hex_value b, unescape plus s' with
      | Some x, Some y, Some t => Some (String (ascii_of_nat (16 * x + y)) t)
      | _, _, _ => None
      end
  | String c s' =>
      if Ascii.eqb c "%" then None
      else String (if plus && Ascii.eqb c "+" then " " else c) <$> unescape plus s'
  end.

(** ** Decoding undoes encoding *)

Lemma escape_avoids mode d s :
  (forall c, avoids d (escape_char mode c) = true) -> avoids d (escape mode s) = true.
Proof.
  intros Hc. induction s as [|c s IH]; [done|]. cbn [escape]. by rewrite avoids_app, Hc, IH.
Qed.

Definition is_query (mode : encoding) : bool :=
  match mode with encodeQueryComponent => true | _ => false end.

Lemma unescape_hex plus a b x y t :
  hex_value a = Some x -> hex_value b = Some y ->
  unescape plus (String "%" (String a (String b t))) =
    String (ascii_of_nat (16 * x + y)) <$> unescape plus t.
Proof. intros Ha Hb. cbn [unescape]. rewrite Ha, Hb. by destruct (unescape plus t). Qed.

Lemma unescape_plain plus c t :
  Ascii.eqb c "%" = false ->
  unescape plus (String c t) =
    String (if plus && Ascii.eqb c "+" then " "%char else c) <$> unescape plus t.
Proof. destruct c as [[] [] [] [] [] [] [] []]; by intros. Qed.

(** The two forms an escaped byte has: itself (a blank for [+]) or [%XX]. *)
Definition escaped_ok (mode : encoding) (c : ascii) : bool :=
  match escape_char mode c with
  | String d "" =>
      negb (Ascii.eqb d "%") &&
      Ascii.eqb (if is_query mode && Ascii.eqb d "+" then " "%char else d) c
  | String p (String a (String b "")) =>
      Ascii.eqb p "%" &&
      match hex_value a, hex_value b with
      | Some x, Some y => Ascii.eqb (ascii_of_nat (16 * x + y)) c
      | _, _ => false
      end
  | _ => false
  end.

Lemma escaped_ok_all mode c : escaped_ok mode c = true.
Proof. apply bytes_checked. by destruct mode; vm_compute. Qed.

Lemma unescape_char mode c t :
  unescape (is_query mode) (escape_char mode c +:+ t) =
    String c <$> unescape (is_query mode) t.
Proof.
  pose proof (escaped_ok_all mode c) as H. unfold escaped_ok in H.
  destruct (escape_char mode c) as [|p [|a [|b [|]]]]; try discriminate H;
    apply andb_true_iff in H as [Hp H]; rewrite !append_cons, append_empty.
  - apply Ascii.eqb_eq in H as <-. by rewrite unescape_plain by (by destruct (Ascii.eqb p "%")).
  - apply Ascii.eqb_eq in Hp as ->. destruct (hex_value a) as [x|] eqn:Ha; [|done].
    destruct (hex_value b) as [y|] eqn:Hb; [|done]. apply Ascii.eqb_eq in H as <-.
    by apply unescape_hex.
Qed.

Lemma unescape_escape mode s : unescape (is_query mode) (escape mode s) = Some s.
Proof.
  induction s as [|c s IH]; [done|]. cbn [escape]. by rewrite unescape_char, IH.
Qed.

Lemma unescape_escapedPath path : unescape false (escapedPath path) = Some path.
Proof.
  unfold escapedPath. destruct (String.eqb_spec path "*") as [->|_]; [done|].
  apply (unescape_escape encodePath).
Qed.

(** The delimiters a part of the string cannot contain. *)
Definition safe (mode : encoding) (d : ascii) : bool :=
  match mode with
  | encodeUserPassword => one_of ":@?/" d
  | encodeHost => one_of "@?/" d
  | encodePath => one_of "?" d
  | encodeQueryComponent => false
  end.

Lemma one_of_In chars d : one_of chars d = true -> In d (String.list_ascii_of_string chars).
Proof.
  intros H. apply existsb_exists in H as (c & Hc & He). by apply Ascii.eqb_eq in He as ->.
Qed.

Lemma safe_avoids mode d s : safe mode d = true -> avoids d (escape mode s) = true.
Proof.
  intros Hd. apply escape_avoids. apply bytes_checked.
  destruct mode; try discriminate Hd; apply one_of_In in Hd; cbn in Hd;
    repeat destruct Hd as [<-|Hd]; try destruct Hd; by vm_compute.
Qed.

Lemma path_avoids path : avoids "?" (escapedPath path) = true.
Proof. unfold escapedPath. destruct (String.eqb _ _); [done | by apply safe_avoids]. Qed.
