(* ===== verification/Errors.v ===== *)
(** * Error values

    Go's [error] interface as the program populates it: sentinel errors
    compared by identity, [errors.New], [fmt.Errorf] with one [%w] verb,
    [errors.Join], and the three error types of package [worker]
    (src/internal/worker/errors.go, src/internal/worker/handler.go). *)

From S2P Require Import Prelude GoStd.

(** Text functions of the standard library whose behaviour depends on the
    Unicode tables: [strconv.Quote] (the [%q] verb) and [strings.ToUpper]. *)
Class GoText := {
  strconv_Quote : string -> string;
  strings_ToUpper : string -> string;
}.

(** The sentinel errors the program compares with [errors.Is]. *)
Inductive sentinel :=
| ErrNotFound            (* task.ErrNotFound *)
| ErrInvalidTransition   (* task.ErrInvalidTransition *)
| ErrNoMessages          (* queue.ErrNoMessages *)
| ErrNoRows              (* pgx.ErrNoRows *)
| RedisNil               (* redis.Nil *)
| ErrServerClosed        (* http.ErrServerClosed *)
| Canceled               (* context.Canceled *)
| DeadlineExceeded.      (* context.DeadlineExceeded *)

#[export] Instance sentinel_eq_dec : EqDecision sentinel.
Proof. solve_decision. Defined.

Definition sentinel_text (s : sentinel) : string :=
  match s with
  | ErrNotFound => "task not found"
  | ErrInvalidTransition => "invalid task status transition"
  | ErrNoMessages => "no redis stream messages available"
  | ErrNoRows => "no rows in result set"
  | RedisNil => "redis: nil"
  | ErrServerClosed => "http: Server closed"
  | Canceled => "context canceled"
  | DeadlineExceeded => "context deadline exceeded"
  end.

Inductive error :=
| Sentinel (s : sentinel)
| ErrorString (msg : string)                        (* errors.New, or a library's own *)
| Errorf (pre : string) (e : error) (post : string) (* fmt.Errorf("pre%wpost", e) *)
| JoinError (e1 e2 : error)                         (* errors.Join *)
| RetryableError (e : error)
| NonRetryableError (e : error)
| UnknownTaskTypeError (TaskType : string).

Abbreviation result := (res error).

(** [err.Error()]. *)
Fixpoint error_Error `{!GoText} (e : error) : string :=
  match e with
  | Sentinel s => sentinel_text s
  | ErrorString msg => msg
  | Errorf pre e post => pre +:+ error_Error e +:+ post
  | JoinError e1 e2 => error_Error e1 +:+ String (Ascii.ascii_of_nat 10) (error_Error e2)
  | RetryableError e => error_Error e
  | NonRetryableError e => error_Error e
  | UnknownTaskTypeError t => "no handler registered for task_type " +:+ strconv_Quote t
  end.

(** [errors.Is(err, s)] for a sentinel [s]: the depth-first walk of the
    tree of wrapped errors. *)
Fixpoint errors_Is (e : error) (s : sentinel) : bool :=
  match e with
  | Sentinel s' => bool_decide (s' = s)
  | ErrorString _ | UnknownTaskTypeError _ => false
  | Errorf _ e _ | RetryableError e | NonRetryableError e => errors_Is e s
  | JoinError e1 e2 => errors_Is e1 s || errors_Is e2 s
  end.

Definition Retryable (e : option error) : option error :=
  match e with None => None | Some e => Some (RetryableError e) end.

Definition NonRetryable (e : option error) : option error :=
  match e with None => None | Some e => Some (NonRetryableError e) end.

(** [errors.As(err, &target)] with a [NonRetryableError] target. *)
Fixpoint IsNonRetryable (e : error) : bool :=
  match e with
  | NonRetryableError _ => true
  | Sentinel _ | ErrorString _ | UnknownTaskTypeError _ => false
  | Errorf _ e _ | RetryableError e => IsNonRetryable e
  | JoinError e1 e2 => IsNonRetryable e1 || IsNonRetryable e2
  end.

(** [errors.Is] on the [error] result of a call ([nil] is no sentinel). *)
Definition err_Is {A} (r : result A) (s : sentinel) : bool :=
  match r with Ok _ => false | Err e => errors_Is e s end.
