(* ===== verification/Task.v ===== *)
(** * Tasks, their status machine and the retry policy

    src/internal/task/task.go, status.go and retry.go. *)

From S2P Require Import Prelude GoStd Errors.
Local Open Scope Z_scope.

(** ** Status (status.go) *)

(** [type Status string]: any string is a value of the type. *)
Definition Status := string.
Definition StatusScheduled : Status := "scheduled".
Definition StatusPending : Status := "pending".
Definition StatusRunning : Status := "running".
Definition StatusSuccess : Status := "success".
Definition StatusFailed : Status := "failed".
Definition StatusRetrying : Status := "retrying".
Definition StatusDead : Status := "dead".

Definition validTransitions : gmap Status (gset Status) :=
  list_to_map [
    (StatusScheduled, {[ StatusPending ]});
    (StatusPending, {[ StatusRunning ]});
    (StatusRunning, {[ StatusSuccess; StatusFailed; StatusRetrying; StatusDead ]});
    (StatusFailed, {[ StatusRetrying; StatusDead ]});
    (StatusRetrying, {[ StatusPending; StatusRunning ]}) ].

Definition IsValid (s : Status) : bool :=
  bool_decide (s ∈ [StatusScheduled; StatusPending; StatusRunning; StatusSuccess;
                    StatusFailed; StatusRetrying; StatusDead]).

Definition IsTerminal (s : Status) : bool :=
  String.eqb s StatusSuccess || String.eqb s StatusDead.

Definition CanTransition (from to : Status) : bool :=
  match validTransitions !! from with
  | None => false
  | Some nextStatuses => bool_decide (to ∈ nextStatuses)
  end.

(** ** The task model (task.go) *)

Record Task := mkTask {
  ID : string;
  Type_ : string;
  Payload : string;
  Status_ : Status;
  NewlyCreated : bool;
  IdempotencyKey : option string;
  TraceID : option string;
  RunAt : Time;
  TimeoutSeconds : Z;
  MaxRetries : Z;
  RetryCount : Z;
  NextRetryAt : option Time;
  LastError : option string;
  WorkerID : option string;
  StartedAt : option Time;
  FinishedAt : option Time;
  CreatedAt : Time;
  UpdatedAt : Time;
}.

(** ** The retry policy (retry.go) *)

Record FailureDecision := mkDecision {
  fd_Status : Status;
  fd_RetryCount : Z;
  fd_NextRetryAt : option Time;
}.

Definition BackoffDelay (retryCount : Z) : Duration :=
  let retryCount := if retryCount <? 1 then 1 else retryCount in
  let retryCount := if retryCount >? 6 then 6 else retryCount in
  duration_mul (wrap64 (Z.shiftl 1 (retryCount - 1))) Second.

Definition DecideFailure (now : Time) (retryCount maxRetries : Z) : FailureDecision :=
  let nextRetryCount := wrap64 (retryCount + 1) in
  if nextRetryCount >? maxRetries then mkDecision StatusDead maxRetries None
  else
    let nextRetryAt := time_Add now (BackoffDelay nextRetryCount) in
    mkDecision StatusRetrying nextRetryCount (Some nextRetryAt).

(** Successive failures of one task, each at its own time: the decisions
    taken until the task is dead or the list of failure times ends. *)
Fixpoint failure_history (times : list Time) (retryCount maxRetries : Z)
  : list FailureDecision :=
  match times with
  | [] => []
  | now :: times' =>
      let d := DecideFailure now retryCount maxRetries in
      d :: (if String.eqb (fd_Status d) StatusRetrying
            then failure_history times' (fd_RetryCount d) maxRetries
            else [])
  end.

(** ** The status machine *)

Definition transition_list : list (Status * Status) :=
  [(StatusScheduled, StatusPending); (StatusPending, StatusRunning);
   (StatusRunning, StatusSuccess); (StatusRunning, StatusFailed);
   (StatusRunning, StatusRetrying); (StatusRunning, StatusDead);
   (StatusFailed, StatusRetrying); (StatusFailed, StatusDead);
   (StatusRetrying, StatusPending); (StatusRetrying, StatusRunning)].

Definition status_step (from to : Status) : Prop := CanTransition from to = true.

Lemma CanTransition_list from to :
  CanTransition from to = true <-> (from, to) ∈ transition_list.
Proof.
  split.
  - unfold CanTransition. case_match eqn:E; [|done].
    rewrite bool_decide_eq_true. apply elem_of_list_to_map_2 in E.
    rewrite !elem_of_cons in E. unfold transition_list. rewrite !elem_of_cons.
    destruct_or?; simplify_eq; rewrite ?elem_of_union, ?elem_of_singleton;
      try (by apply elem_of_nil in E);
      intros Hto; destruct_or?; subst; tauto.
  - unfold transition_list. rewrite !elem_of_cons.
    intros H. destruct_or?; simplify_eq; try reflexivity. by apply elem_of_nil in H.
Qed.

Lemma IsValid_list s :
  IsValid s = true <->
  s = StatusScheduled \/ s = StatusPending \/ s = StatusRunning \/ s = StatusSuccess \/
  s = StatusFailed \/ s = StatusRetrying \/ s = StatusDead.
Proof.
  unfold IsValid. rewrite bool_decide_eq_true, !elem_of_cons, elem_of_nil. tauto.
Qed.

Lemma IsTerminal_list s : IsTerminal s = true <-> s = StatusSuccess \/ s = StatusDead.
Proof. unfold IsTerminal. by rewrite orb_true_iff, !String.eqb_eq. Qed.

(** ** Facts on the retry policy *)

Lemma BackoffDelay_value rc :
  BackoffDelay rc = 2 ^ (Z.max 1 (Z.min 6 rc) - 1) * Second.
Proof.
  unfold BackoffDelay. rewrite Z.gtb_ltb.
  assert (Hk : forall k, 1 <= k <= 6 ->
    duration_mul (wrap64 (Z.shiftl 1 (k - 1))) Second = 2 ^ (k - 1) * Second).
  { intros k Hk. assert (k = 1 \/ k = 2 \/ k = 3 \/ k = 4 \/ k = 5 \/ k = 6) by lia.
    destruct_or?; subst; reflexivity. }
  destruct (Z.ltb_spec rc 1).
  - replace (Z.max 1 (Z.min 6 rc)) with 1 by lia. by rewrite Hk.
  - destruct (Z.ltb_spec 6 rc).
    + replace (Z.max 1 (Z.min 6 rc)) with 6 by lia. by rewrite Hk.
    + replace (Z.max 1 (Z.min 6 rc)) with rc by lia. rewrite Hk; [done | lia].
Qed.

Lemma BackoffDelay_bounds rc : Second <= BackoffDelay rc <= 32 * Second.
Proof.
  rewrite BackoffDelay_value. unfold Second.
  pose proof (Z.pow_le_mono_r 2 0 (Z.max 1 (Z.min 6 rc) - 1)).
  pose proof (Z.pow_le_mono_r 2 (Z.max 1 (Z.min 6 rc) - 1) 5). lia.
Qed.

Lemma DecideFailure_dead now rc max :
  0 <= rc -> max <= rc -> rc < MaxInt64 ->
  DecideFailure now rc max = mkDecision StatusDead max None.
Proof.
  intros H0 H1 H2. unfold DecideFailure, MaxInt64 in *.
  rewrite wrap64_id by (unfold int64_range, MinInt64, MaxInt64; lia).
  rewrite Z.gtb_ltb. destruct (Z.ltb_spec max (rc + 1)); [done | lia].
Qed.

Lemma DecideFailure_retry now rc max :
  0 <= rc -> rc < max -> max <= MaxInt64 ->
  DecideFailure now rc max =
    mkDecision StatusRetrying (rc + 1) (Some (now + BackoffDelay (rc + 1))).
Proof.
  intros H0 H1 H2. unfold DecideFailure, MaxInt64 in *.
  rewrite wrap64_id by (unfold int64_range, MinInt64, MaxInt64; lia).
  rewrite Z.gtb_ltb. destruct (Z.ltb_spec max (rc + 1)); [lia | done].
Qed.

Lemma DecideFailure_status now rc max :
  fd_Status (DecideFailure now rc max) = StatusRetrying \/
  fd_Status (DecideFailure now rc max) = StatusDead.
Proof. unfold DecideFailure. case_match; [by right | by left]. Qed.

Create Rewrite HintDb retry.
#[export] Hint Rewrite DecideFailure_dead DecideFailure_retry using lia : retry.

(** ** Properties *)

(** C35: the transition table of status.go is a well-formed machine: it leads
    from valid statuses to valid statuses only, a valid status has no
    successor exactly when it is terminal, and from every valid status a
    terminal one can be reached. *)
Theorem status_machine_sound :
  (forall from to, status_step from to -> IsValid from = true /\ IsValid to = true) /\
  (forall s, IsValid s = true -> (IsTerminal s = true <-> forall to, ~ status_step s to)) /\
  (forall s, IsValid s = true ->
     exists t, IsTerminal t = true /\ rtc status_step s t).
Proof.
  split; [|split].
  - intros from to H%CanTransition_list. unfold transition_list in H.
    rewrite !elem_of_cons in H. destruct_or?; simplify_eq; try (by split).
    by apply elem_of_nil in H.
  - intros s Hs%IsValid_list. split.
    + intros [-> | ->]%IsTerminal_list to H; discriminate H.
    + intros H. destruct_or?; subst; try reflexivity; exfalso.
      1: apply (H StatusPending). 2: apply (H StatusRunning). 3: apply (H StatusSuccess).
      4: apply (H StatusDead). 5: apply (H StatusPending). all: reflexivity.
  - assert (Hrun : rtc status_step StatusPending StatusSuccess).
    { eapply rtc_l with (y := StatusRunning); [done|]. by apply rtc_once. }
    intros s Hs%IsValid_list.
    destruct Hs as [-> | [-> | [-> | [-> | [-> | [-> | ->]]]]]].
    + exists StatusSuccess. split; [done|]. by eapply rtc_l with (y := StatusPending).
    + by exists StatusSuccess.
    + exists StatusSuccess. split; [done|]. by apply rtc_once.
    + by exists StatusSuccess.
    + exists StatusDead. split; [done|]. by apply rtc_once.
    + exists StatusSuccess. split; [done|]. by eapply rtc_l with (y := StatusPending).
    + by exists StatusDead.
Qed.

(** [BackoffDelay] doubles from one second up to a cap of 32 seconds and
    never overflows: on every retry count it is 2^(clamp(n,1,6)-1) seconds,
    so it is monotone and stays between 1s and 32s. *)
Theorem BackoffDelay_exponential rc rc' :
  BackoffDelay rc = 2 ^ (Z.max 1 (Z.min 6 rc) - 1) * Second /\
  Second <= BackoffDelay rc <= 32 * Second /\
  (rc <= rc' -> BackoffDelay rc <= BackoffDelay rc').
Proof.
  split; [apply BackoffDelay_value|]. split; [apply BackoffDelay_bounds|].
  intros H. rewrite !BackoffDelay_value. apply Z.mul_le_mono_nonneg_r; [done|].
  apply Z.pow_le_mono_r; lia.
Qed.

(** For counters the database admits, [DecideFailure] retries exactly
    while the retry budget is not used up: below the budget the decision is
    [retrying], one retry more, at a time strictly in the future by the
    backoff; at the budget it is [dead] with no retry time. In both cases the
    new counter stays within [0, maxRetries]. *)
Theorem DecideFailure_budget now rc max :
  0 <= rc <= max -> max < 2^31 ->
  let d := DecideFailure now rc max in
  0 <= fd_RetryCount d <= max /\
  (rc < max -> d = mkDecision StatusRetrying (rc + 1) (Some (now + BackoffDelay (rc + 1)))
               /\ now < now + BackoffDelay (rc + 1)) /\
  (rc = max -> d = mkDecision StatusDead max None).
Proof.
  intros Hrc Hmax. cbv zeta.
  pose proof (BackoffDelay_bounds (rc + 1)) as Hb. unfold Second in Hb.
  destruct (decide (rc < max)).
  - rewrite DecideFailure_retry by (unfold MaxInt64; lia). simpl.
    split; [lia|]. split; [|lia]. split; [done | lia].
  - rewrite DecideFailure_dead by (unfold MaxInt64; lia). simpl. split; [lia|].
    split; [lia | done].
Qed.

Lemma failure_history_from times k rc max :
  0 <= rc -> max < 2^31 -> rc + Z.of_nat k = max -> (k < length times)%nat ->
  exists retries, length retries = k /\
    failure_history times rc max = retries ++ [mkDecision StatusDead max None] /\
    (forall i d, retries !! i = Some d ->
       fd_Status d = StatusRetrying /\ fd_RetryCount d = rc + Z.of_nat i + 1).
Proof.
  revert times rc. induction k as [|k IH]; intros [|now times] rc H0 H1 H2 H3;
    simpl in H3; try lia; simpl.
  - exists []. rewrite DecideFailure_dead by (unfold MaxInt64; lia). by simpl.
  - rewrite DecideFailure_retry by (unfold MaxInt64; lia). simpl.
    destruct (IH times (rc + 1)) as (rs & Hlen & Hh & Hall); try lia.
    eexists (_ :: rs). split; [simpl; lia|]. split; [by rewrite Hh|].
    intros [|i] d; simpl; [intros [= <-]; simpl; split; [done|lia] |].
    intros [Hs Hc]%Hall. split; [done | lia].
Qed.

(** C27: retries end. A task with budget [max] that fails every time is retried
    exactly [max] times, with counters 1, 2, ..., [max], and its next failure
    declares it [dead]: whatever the failure times, the history has
    [max] + 1 decisions. *)
Theorem retries_terminate times max :
  0 <= max < 2^31 -> (Z.to_nat max < length times)%nat ->
  exists retries, Z.of_nat (length retries) = max /\
    failure_history times 0 max = retries ++ [mkDecision StatusDead max None] /\
    (forall i d, retries !! i = Some d ->
       fd_Status d = StatusRetrying /\ fd_RetryCount d = Z.of_nat i + 1).
Proof.
  intros Hmax Hlen.
  destruct (failure_history_from times (Z.to_nat max) 0 max) as (rs & Hl & Hh & Hall); try lia.
  exists rs. split; [lia|]. split; [done|].
  intros i d [Hs Hc]%Hall. split; [done | lia].
Qed.

Lemma DecideFailure_budget_witness :
  (0 <= 3 <= 3 /\ 3 < 2^31) /\ DecideFailure 7 3 3 = mkDecision StatusDead 3 None.
Proof.
  split; [lia|]. apply (DecideFailure_budget 7 3 3); lia.
Defined.

Lemma BackoffDelay_exponential_witness : 2 <= 9 /\ BackoffDelay 2 <= BackoffDelay 9.
Proof. split; [lia|]. apply (BackoffDelay_exponential 2 9). lia. Defined.

Lemma retries_terminate_witness :
  exists retries, Z.of_nat (length retries) = 2 /\
    failure_history [10; 20; 30; 40] 0 2 = retries ++ [mkDecision StatusDead 2 None].
Proof.
  destruct (retries_terminate [10; 20; 30; 40] 2) as (rs & Hl & Hh & _);
    [lia | simpl; lia | by exists rs].
Defined.
