(* ===== verification/Effects.v ===== *)
(** * Effectful programs

    A Go function that talks to the outside (Postgres, Redis, the clock, an
    HTTP peer) is a program: a finite tree of calls, each with a continuation
    that receives the call's answer. Programs are data, so they can be run
    against a handler of the calls, interleaved call by call with other
    programs (the goroutines of the process), and judged against every
    possible sequence of answers.

    - [prog E A] and its monad; [mapM_prog] and [iter_prog] for [for] loops;
    - [run]: the interpretation in a state by a function that answers calls;
    - [traces]: the event sequences a program can produce when nothing at all
      is assumed of the answers;
    - [wlp]: weakest preconditions against a monitor, an automaton that reads
      the events; [monitor_sound] turns them into facts on [traces]. *)

From S2P Require Import Prelude GoStd Errors.

Inductive prog (E : Type -> Type) (A : Type) : Type :=
| Ret (a : A)
| Vis (X : Type) (c : E X) (k : X -> prog E A).
Arguments Ret {E A} a.
Arguments Vis {E A X} c k.

Fixpoint prog_bind {E A B} (f : A -> prog E B) (m : prog E A) : prog E B :=
  match m with
  | Ret a => f a
  | Vis c k => Vis c (fun x => prog_bind f (k x))
  end.

#[export] Instance prog_ret {E} : MRet (prog E) := fun A a => Ret a.
#[export] Instance prog_mbind {E} : MBind (prog E) := fun A B f m => prog_bind f m.

Definition call {E X} (c : E X) : prog E X := Vis c Ret.

(** [if err := m; err != nil { return err }] and its value-carrying form. *)
Definition bind_res {E A B} (m : prog E (result A)) (f : A -> prog E (result B))
  : prog E (result B) :=
  r ← m; match r with Ok a => f a | Err e => Ret (Err e) end.

Notation "'let*' x := m 'in' k" := (bind_res m (fun x => k))
  (at level 10, x pattern, m at level 100, k at level 200).

(** [for _, x := range xs { f(x) }] whose body never returns early. *)
Fixpoint for_each {E A} (f : A -> prog E unit) (xs : list A) : prog E unit :=
  match xs with
  | [] => Ret tt
  | x :: xs' => _ ← f x; for_each f xs'
  end.

(** The same loop when the body may return an error from the function. *)
Fixpoint for_each_res {E A} (f : A -> prog E (result unit)) (xs : list A)
  : prog E (result unit) :=
  match xs with
  | [] => Ret (Ok tt)
  | x :: xs' => let* _ := f x in for_each_res f xs'
  end.

(** Programs over a smaller set of calls are programs over a larger one. *)
Fixpoint translate {E F : Type -> Type} {A} (h : forall X, E X -> F X) (m : prog E A)
  : prog F A :=
  match m with
  | Ret a => Ret a
  | Vis c k => Vis (h _ c) (fun x => translate h (k x))
  end.

(** ** Running *)

Section run.
Context {E : Type -> Type} {W : Type} (h : forall X, E X -> W -> W * X).

Fixpoint run {A} (m : prog E A) (w : W) : W * A :=
  match m with
  | Ret a => (w, a)
  | Vis c k => let (w', x) := h _ c w in run (k x) w'
  end.

Lemma run_bind {A B} (f : A -> prog E B) (m : prog E A) w :
  run (m ≫= f) w = let (w', a) := run m w in run (f a) w'.
Proof.
  revert w. induction m as [a | X c k IH]; intros w; simpl; [done|].
  destruct (h X c w) as [w' x]. apply IH.
Qed.

Lemma run_prog_bind {A B} (f : A -> prog E B) (m : prog E A) w :
  run (prog_bind f m) w = let (w', a) := run m w in run (f a) w'.
Proof. apply run_bind. Qed.

Lemma run_call {A} (c : E A) w : run (call c) w = h _ c w.
Proof. unfold call. simpl. by destruct (h A c w). Qed.

Lemma run_Ret {A} (a : A) w : run (Ret a) w = (w, a).
Proof. done. Qed.

Lemma run_bind_res {A B} (f : A -> prog E (result B)) (m : prog E (result A)) w :
  run (bind_res m f) w =
  match run m w with
  | (w', Ok a) => run (f a) w'
  | (w', Err e) => (w', Err e)
  end.
Proof.
  unfold bind_res. rewrite run_bind. destruct (run m w) as [w' [a|e]]; done.
Qed.

Lemma run_bind_inv {A B} (f : A -> prog E B) (m : prog E A) w w' b :
  run (m ≫= f) w = (w', b) ->
  exists w1 a, run m w = (w1, a) /\ run (f a) w1 = (w', b).
Proof. rewrite run_bind. destruct (run m w) as [w1 a]. eauto. Qed.

Lemma run_bind_res_inv {A B} (f : A -> prog E (result B)) (m : prog E (result A)) w w' b :
  run (bind_res m f) w = (w', Ok b) ->
  exists w1 a, run m w = (w1, Ok a) /\ run (f a) w1 = (w', Ok b).
Proof. rewrite run_bind_res. destruct (run m w) as [w1 [a|e]]; [eauto | done]. Qed.

(** A property of states that every call preserves is preserved by runs. *)
Lemma run_preserves (P : W -> Prop) {A} (m : prog E A) w :
  (forall X (c : E X) w, P w -> P (h X c w).1) -> P w -> P (run m w).1.
Proof.
  intros Hh. revert w. induction m as [a | X c k IH]; intros w Hw; simpl; [done|].
  specialize (Hh X c w Hw). destruct (h X c w) as [w' x]. by apply IH.
Qed.
End run.

(** ** Events, traces and monitors *)

Inductive event (E : Type -> Type) : Type :=
| Ev (X : Type) (c : E X) (x : X).
Arguments Ev {E X} c x.

(** [traces m t]: [m] can make the calls of [t] with the answers of [t]. *)
Inductive traces {E A} : prog E A -> list (event E) -> Prop :=
| traces_nil m : traces m []
| traces_cons X (c : E X) k x t : traces (k x) t -> traces (Vis c k) (Ev c x :: t).

Section monitor.
Context {E : Type -> Type} {S : Type} (step : S -> event E -> option S).

(** The monitor's state after a trace; [None] when it rejected an event. *)
Fixpoint observe (s : S) (t : list (event E)) : option S :=
  match t with
  | [] => Some s
  | e :: t' => match step s e with Some s' => observe s' t' | None => None end
  end.

(** Whatever the answers, the monitor accepts every event of the program,
    and [Q] holds of its final state and of the result. *)
Fixpoint wlp {A} (m : prog E A) (Q : S -> A -> Prop) (s : S) : Prop :=
  match m with
  | Ret a => Q s a
  | Vis c k =>
      forall x, match step s (Ev c x) with
                | Some s' => wlp (k x) Q s'
                | None => False
                end
  end.

Lemma wlp_bind {A B} (f : A -> prog E B) (m : prog E A) Q s :
  wlp m (fun s' a => wlp (f a) Q s') s -> wlp (m ≫= f) Q s.
Proof.
  revert s. induction m as [a | X c k IH]; intros s; simpl; [done|].
  intros H x. specialize (H x). destruct (step s (Ev c x)); [by apply IH | done].
Qed.

Lemma wlp_mono {A} (m : prog E A) (Q Q' : S -> A -> Prop) s :
  (forall s a, Q s a -> Q' s a) -> wlp m Q s -> wlp m Q' s.
Proof.
  intros HQ. revert s. induction m as [a | X c k IH]; intros s; simpl; [apply HQ|].
  intros H x. specialize (H x). destruct (step s (Ev c x)); [by apply IH | done].
Qed.

Lemma wlp_bind_res {A B} (f : A -> prog E (result B)) (m : prog E (result A)) Q s :
  wlp m (fun s' r => match r with Ok a => wlp (f a) Q s' | Err e => Q s' (Err e) end) s ->
  wlp (bind_res m f) Q s.
Proof.
  intros H. apply wlp_bind. eapply wlp_mono; [|exact H]. by intros s' [a|e].
Qed.

(** Loops keep an invariant of the monitor's state. *)
Lemma wlp_for_each (I : S -> Prop) {A} (f : A -> prog E unit) xs s :
  (forall x s, I s -> wlp (f x) (fun s' _ => I s') s) ->
  I s -> wlp (for_each f xs) (fun s' _ => I s') s.
Proof.
  intros Hf. revert s. induction xs as [|x xs IH]; intros s Hs; simpl; [done|].
  apply wlp_bind. eapply wlp_mono; [|by apply Hf]. simpl. auto.
Qed.

Lemma wlp_for_each_res (I : S -> Prop) {A} (f : A -> prog E (result unit)) xs s :
  (forall x s, I s -> wlp (f x) (fun s' _ => I s') s) ->
  I s -> wlp (for_each_res f xs) (fun s' _ => I s') s.
Proof.
  intros Hf. revert s. induction xs as [|x xs IH]; intros s Hs; simpl; [done|].
  apply wlp_bind_res. eapply wlp_mono; [|by apply Hf].
  intros s' [[]|e]; simpl; auto.
Qed.

Theorem monitor_sound {A} (m : prog E A) Q s t :
  wlp m Q s -> traces m t -> observe s t <> None.
Proof.
  intros Hm Ht. revert s Hm. induction Ht as [m | X c k x t Ht IH]; intros s Hm; simpl;
    [done|].
  specialize (Hm x). destruct (step s (Ev c x)); [by apply IH | done].
Qed.
End monitor.
Arguments wlp {E S} step {A} m Q s : simpl never.

Lemma observe_app {E S} (step : S -> event E -> option S) s t1 t2 :
  observe step s (t1 ++ t2) =
    match observe step s t1 with Some s' => observe step s' t2 | None => None end.
Proof.
  revert s. induction t1 as [|e t1 IH]; intros s; simpl; [done|].
  destruct (step s e); [apply IH | done].
Qed.

(** ** Call-wise safety

    The special case of a monitor without state: every call the program can
    make satisfies [ok]. *)
Fixpoint calls_ok {E A} (ok : forall X, E X -> Prop) (m : prog E A) : Prop :=
  match m with
  | Ret _ => True
  | Vis c k => ok _ c /\ forall x, calls_ok ok (k x)
  end.

Section calls_ok_rules.
Context {E : Type -> Type} (ok : forall X, E X -> Prop).

Lemma calls_ok_bind {A B} (f : A -> prog E B) (m : prog E A) :
  calls_ok ok m -> (forall a, calls_ok ok (f a)) -> calls_ok ok (m ≫= f).
Proof.
  intros Hm Hf. induction m as [a | X c k IH]; simpl in *; [apply Hf|].
  destruct Hm as [Hc Hk]. split; [done|]. intros x. by apply IH.
Qed.

Lemma calls_ok_bind_res {A B} (f : A -> prog E (result B)) (m : prog E (result A)) :
  calls_ok ok m -> (forall a, calls_ok ok (f a)) -> calls_ok ok (bind_res m f).
Proof. intros Hm Hf. apply calls_ok_bind; [done|]. by intros [a|e]. Qed.

Lemma calls_ok_for_each {A} (f : A -> prog E unit) xs :
  (forall x, calls_ok ok (f x)) -> calls_ok ok (for_each f xs).
Proof.
  intros Hf. induction xs as [|x xs IH]; simpl; [done|]. by apply calls_ok_bind.
Qed.

Lemma calls_ok_for_each_res {A} (f : A -> prog E (result unit)) xs :
  (forall x, calls_ok ok (f x)) -> calls_ok ok (for_each_res f xs).
Proof.
  intros Hf. induction xs as [|x xs IH]; simpl; [done|]. by apply calls_ok_bind_res.
Qed.

Lemma calls_ok_mono (ok' : forall X, E X -> Prop) {A} (m : prog E A) :
  (forall X c, ok X c -> ok' X c) -> calls_ok ok m -> calls_ok ok' m.
Proof.
  intros H. induction m as [a | X c k IH]; simpl; [done|].
  intros [Hc Hk]. split; auto.
Qed.

Lemma calls_ok_translate {F : Type -> Type} (h : forall X, F X -> E X) {A} (m : prog F A) :
  (forall X (c : F X), ok _ (h X c)) -> calls_ok ok (translate h m).
Proof. intros H. induction m as [a | X c k IH]; simpl; [done|]. split; auto. Qed.

(** Runs of such programs preserve what the admitted calls preserve. *)
Lemma run_preserves_ok {W} (h : forall X, E X -> W -> W * X) (P : W -> Prop) {A}
    (m : prog E A) w :
  (forall X (c : E X) w, ok X c -> P w -> P (h X c w).1) ->
  calls_ok ok m -> P w -> P (run h m w).1.
Proof.
  intros Hh. revert w. induction m as [a | X c k IH]; intros w; simpl; [done|].
  intros [Hc Hk] Hw. specialize (Hh X c w Hc Hw). destruct (h X c w) as [w' x].
  by apply IH.
Qed.
End calls_ok_rules.

(** ** Goroutines

    A configuration is a state shared by a list of goroutines and the events
    so far (latest first), each tagged with the goroutine that caused it. A
    step is one call of one goroutine, answered by the state, or the start
    of a new goroutine running one of the programs of [starts]. *)
Section pool.
Context {E : Type -> Type} {W : Type} (h : forall X, E X -> W -> W * X).
Context (starts : prog E unit -> Prop).

Record config := mkConfig {
  cf_state : W;
  cf_threads : list (prog E unit);
  cf_trace : list (nat * event E);
}.

Inductive pool_step : config -> config -> Prop :=
| pool_call w ps tr i X (c : E X) k :
    ps !! i = Some (Vis c k) ->
    pool_step (mkConfig w ps tr)
      (mkConfig (h X c w).1 (<[i := k (h X c w).2]> ps) ((i, Ev c (h X c w).2) :: tr))
| pool_start w ps tr p :
    starts p -> pool_step (mkConfig w ps tr) (mkConfig w (ps ++ [p]) tr).

(** Every goroutine started in a configuration is safe when every program
    that can be started is. *)
Lemma pool_threads_ok (ok : forall X, E X -> Prop) c c' :
  (forall p, starts p -> calls_ok ok p) ->
  Forall (calls_ok ok) (cf_threads c) -> pool_step c c' ->
  Forall (calls_ok ok) (cf_threads c').
Proof.
  intros Hs Hall Hstep. revert Hall.
  destruct Hstep as [w ps tr i X cl k Hi | w ps tr p Hp]; simpl; intros Hall.
  - apply Forall_insert; [exact Hall|].
    by apply (Forall_lookup_1 _ _ _ _ Hall) in Hi as [_ Hk].
  - apply Forall_app. split; [done|]. apply Forall_singleton. by apply Hs.
Qed.

(** A state property preserved by the admitted calls holds whatever the
    interleaving. *)
Lemma pool_invariant (ok : forall X, E X -> Prop) (P : W -> Prop) c c' :
  (forall p, starts p -> calls_ok ok p) ->
  (forall X (cl : E X) w, ok X cl -> P w -> P (h X cl w).1) ->
  Forall (calls_ok ok) (cf_threads c) ->
  rtc pool_step c c' -> P (cf_state c) -> P (cf_state c').
Proof.
  intros Hs Hp Hall Hsteps. induction Hsteps as [c | c1 c2 c3 Hstep _ IH]; [done|].
  intros H1. apply IH; [by eapply pool_threads_ok|].
  destruct Hstep as [w ps tr i X cl k Hi | w ps tr p Hp']; simpl in *; [|done].
  apply Hp; [|done]. by apply (Forall_lookup_1 _ _ _ _ Hall) in Hi as [Hc _].
Qed.
End pool.
Arguments config E W : clear implicits.
Arguments mkConfig {E W} _ _ _.
Arguments cf_state {E W} _.
Arguments cf_threads {E W} _.
Arguments cf_trace {E W} _.

(** ** Precedence, and monitors under an assumption *)

(** The monitor of "no [q] before a [p]": it remembers whether it has seen a
    [p]. *)
Definition guard_step {E} (p q : event E -> bool) (seen : bool) (e : event E) : option bool :=
  if q e && negb seen then None else Some (seen || p e).

(** Two monitors side by side. *)
Definition prod_step {E S1 S2} (m1 : S1 -> event E -> option S1)
    (m2 : S2 -> event E -> option S2) (s : S1 * S2) (e : event E) : option (S1 * S2) :=
  match m1 s.1 e, m2 s.2 e with
  | Some s1, Some s2 => Some (s1, s2)
  | _, _ => None
  end.

(** A monitor that stops judging ([None]) once it has seen an event that the
    environment never produces. *)
Definition assume_step {E S} (bad : event E -> bool) (m : S -> event E -> option S)
    (s : option S) (e : event E) : option (option S) :=
  match s with
  | None => Some None
  | Some s => if bad e then Some None else Some <$> m s e
  end.

(** [m] passes the monitor from [s], whatever the answers that are not
    [bad]. *)
Definition passes {E S A} (bad : event E -> bool) (step : S -> event E -> option S) (s : S)
    (m : prog E A) : Prop :=
  wlp (assume_step bad step) m (fun _ _ => True) (Some s).

Section precedence.
Context {E : Type -> Type}.
Implicit Types (p q bad : event E -> bool).

Lemma observe_guard p q seen t s :
  observe (guard_step p q) seen t = Some s -> s = seen || existsb p t.
Proof.
  revert seen. induction t as [|e t IH]; intros seen; simpl.
  - intros [= <-]. by rewrite orb_false_r.
  - unfold guard_step at 1. destruct (q e && negb seen); [done|].
    intros ->%IH. by rewrite orb_assoc.
Qed.

Lemma observe_prod {S1 S2} (m1 : S1 -> event E -> option S1)
    (m2 : S2 -> event E -> option S2) s1 s2 t :
  observe (prod_step m1 m2) (s1, s2) t <> None ->
  observe m1 s1 t <> None /\ observe m2 s2 t <> None.
Proof.
  revert s1 s2. induction t as [|e t IH]; intros s1 s2; simpl; [done|].
  unfold prod_step at 1. simpl. destruct (m1 s1 e); [|done].
  destruct (m2 s2 e); [|done]. apply IH.
Qed.

Lemma observe_assume {S} bad (m : S -> event E -> option S) s t :
  (forall e, e ∈ t -> bad e = false) ->
  observe (assume_step bad m) (Some s) t <> None -> observe m s t <> None.
Proof.
  revert s. induction t as [|e t IH]; intros s Hb; simpl; [done|].
  rewrite (Hb e) by left. destruct (m s e); simpl; [|done].
  apply IH. intros e' He'. apply Hb. by right.
Qed.

Theorem passes_sound {S A} bad (step : S -> event E -> option S) s (m : prog E A) t :
  passes bad step s m -> traces m t -> (forall e, e ∈ t -> bad e = false) ->
  observe step s t <> None.
Proof.
  intros Hm Ht Hb. eapply observe_assume; [exact Hb|]. by eapply monitor_sound in Hm.
Qed.

(** What an accepting precedence monitor says of a trace. *)
Lemma guard_precedes p q pre e post :
  observe (guard_step p q) false (pre ++ e :: post) <> None -> q e = true ->
  exists e', e' ∈ pre /\ p e' = true.
Proof.
  rewrite observe_app. intros Ho Hq.
  destruct (observe (guard_step p q) false pre) as [s|] eqn:E1; [|done].
  apply observe_guard in E1. simpl in E1, Ho. unfold guard_step at 1 in Ho.
  rewrite Hq in Ho. destruct s; [|done]. symmetry in E1.
  apply existsb_exists in E1 as (e' & Hin & Hp). exists e'. split; [|done].
  by apply list_elem_of_In.
Qed.

Context {S : Type} (bad : event E -> bool) (step : S -> event E -> option S).

Lemma wlp_Ret {A} (a : A) (Q : option S -> A -> Prop) s :
  Q s a -> wlp (assume_step bad step) (Ret a) Q s.
Proof. done. Qed.

(** After an event the environment never produces, anything goes. *)
Lemma wlp_sink {A} (m : prog E A) (Q : option S -> A -> Prop) :
  (forall a, Q None a) -> wlp (assume_step bad step) m Q None.
Proof.
  intros HQ. induction m as [a | X c k IH]; [apply HQ|]. intros x. apply IH.
Qed.

(** One call that leads the monitor from [s] to [s']. *)
Lemma wlp_call {A B} (c : E A) (k : A -> prog E B) (Q : option S -> B -> Prop) s :
  (forall x, bad (Ev c x) = false) ->
  (forall x, exists s', step s (Ev c x) = Some s' /\
                        wlp (assume_step bad step) (k x) Q (Some s')) ->
  wlp (assume_step bad step) (Vis c k) Q (Some s).
Proof.
  intros Hb Hk x. unfold assume_step at 1. rewrite Hb.
  destruct (Hk x) as (s' & -> & H). apply H.
Qed.

(** Programs whose events leave the monitor where it is. *)
Lemma wlp_translate {F : Type -> Type} (h : forall X, F X -> E X) {A} (m : prog F A)
    (Q : option S -> A -> Prop) s :
  (forall X (c : F X) x, bad (Ev (h X c) x) = false /\ step s (Ev (h X c) x) = Some s) ->
  (forall a, Q (Some s) a) ->
  wlp (assume_step bad step) (translate h m) Q (Some s).
Proof.
  intros Hi HQ. induction m as [a | X c k IH]; [apply HQ|].
  intros x. unfold assume_step at 1. destruct (Hi X c x) as [-> ->]. apply IH.
Qed.
End precedence.

(** The calls of a trace, with their answers, that a run makes. *)
Section run_trace.
Context {E : Type -> Type} {W : Type} (h : forall X, E X -> W -> W * X).

Fixpoint run_trace {A} (m : prog E A) (w : W) : list (event E) :=
  match m with
  | Ret _ => []
  | Vis c k => let (w', x) := h _ c w in Ev c x :: run_trace (k x) w'
  end.

Lemma run_trace_traces {A} (m : prog E A) w : traces m (run_trace m w).
Proof.
  revert w. induction m as [a | X c k IH]; intros w; simpl; [constructor|].
  destruct (h X c w) as [w' x]. constructor. apply IH.
Qed.

Lemma run_trace_bind {A B} (f : A -> prog E B) (m : prog E A) w :
  run_trace (m ≫= f) w =
    run_trace m w ++ run_trace (f (run h m w).2) (run h m w).1.
Proof.
  revert w. induction m as [a | X c k IH]; intros w; simpl; [done|].
  destruct (h X c w) as [w' x]. simpl. f_equal. apply IH.
Qed.
End run_trace.

Section run_trace_loops.
Context {E : Type -> Type} {W : Type} (h : forall X, E X -> W -> W * X).

(** A loop that never returns early runs its body on every element. *)
Lemma run_trace_for_each {A} (f : A -> prog E unit) xs w x :
  x ∈ xs -> exists w', run_trace h (f x) w' ⊆ run_trace h (for_each f xs) w.
Proof.
  revert w. induction xs as [|y xs IH]; intros w Hx; [by apply elem_of_nil in Hx|].
  simpl. change (prog_bind ?f ?m) with (m ≫= f). rewrite run_trace_bind.
  apply elem_of_cons in Hx as [->|Hx].
  - exists w. apply list_subseteq_app_l. done.
  - destruct (IH (run h (f y) w).1 Hx) as [w' Hw']. exists w'.
    by apply list_subseteq_app_r.
Qed.
End run_trace_loops.
