(* ===== verification/Table.v ===== *)
(** * The [tasks] table and the SQL statements issued on it

    The columns and constraints are those of
    src/migrations/000001_create_tasks.up.sql and 000002_add_trace_id.up.sql;
    the statements are the SQL texts of src/internal/task/store.go, one
    constructor of [Stmt] each, with the parameters [$1], [$2], ... as
    arguments. [exec_stmt] is the meaning of a statement as one atomic step
    on the table. *)

From S2P Require Import Prelude GoStd Errors Task.
Local Open Scope Z_scope.

(** What Postgres and its driver do to values and how they report errors is
    a parameter: the precision of [timestamptz], the normal form of [jsonb]
    (no value: the text is not valid JSON) and the error of a violated
    constraint or of a value that does not fit its column type. *)
Class Postgres := {
  pg_time : Time -> Time;
  pg_jsonb : string -> option string;
  pg_error : string -> error;
}.

(** The documented facts the theorems rely on: a timestamp is truncated to
    microseconds, a normal form is its own normal form, and a constraint
    violation is none of the sentinel errors. *)
Class PostgresLaws `{!Postgres} := {
  pg_time_trunc t : pg_time t <= t < pg_time t + Microsecond;
  pg_time_idemp t : pg_time (pg_time t) = pg_time t;
  pg_jsonb_idemp p q : pg_jsonb p = Some q -> pg_jsonb q = Some q;
  pg_error_other c s : errors_Is (pg_error c) s = false;
}.

Record Row := mkRow {
  row_id : string;
  row_task_type : string;
  row_payload : string;
  row_status : string;
  row_idempotency_key : option string;
  row_trace_id : option string;
  row_run_at : Time;
  row_timeout_seconds : Z;
  row_max_retries : Z;
  row_retry_count : Z;
  row_next_retry_at : option Time;
  row_last_error : option string;
  row_worker_id : option string;
  row_started_at : option Time;
  row_finished_at : option Time;
  row_created_at : Time;
  row_updated_at : Time;
}.

#[export] Instance Row_eq_dec : EqDecision Row.
Proof. solve_decision. Defined.

Abbreviation table := (gmap string Row).

(** The [CHECK] constraints of the table. *)
Definition tasks_status_check (r : Row) : bool :=
  bool_decide (row_status r ∈ ["scheduled"; "pending"; "running"; "success";
                               "failed"; "retrying"; "dead"]).
Definition tasks_timeout_seconds_check (r : Row) : bool := 0 <? row_timeout_seconds r.
Definition tasks_max_retries_check (r : Row) : bool := 0 <=? row_max_retries r.
Definition tasks_retry_count_check (r : Row) : bool :=
  (0 <=? row_retry_count r) && (row_retry_count r <=? row_max_retries r).

Definition row_check (r : Row) : bool :=
  tasks_status_check r && tasks_timeout_seconds_check r &&
  tasks_max_retries_check r && tasks_retry_count_check r.

(** The type [INTEGER]. *)
Definition int4 (z : Z) : bool := (- 2^31 <=? z) && (z <? 2^31).

(** [tasks_idempotency_key_unique], a partial unique index: the row that
    holds a given key, if any. *)
Definition row_with_key (key : string) (t : table) : option Row :=
  snd <$> head (filter (fun kr => row_idempotency_key kr.2 = Some key) (map_to_list t)).

(** ** Statements *)

Record InsertArgs := mkInsert {
  ins_id : string;
  ins_task_type : string;
  ins_payload : string;
  ins_status : string;
  ins_idempotency_key : option string;
  ins_trace_id : option string;
  ins_run_at : Time;
  ins_timeout_seconds : Z;
  ins_max_retries : Z;
}.

Inductive Stmt : Type -> Type :=
| InsertTask (a : InsertArgs) : Stmt (list (Row * bool))
| SelectTask (id : string) : Stmt (list Row)
| SelectDueDispatchable (now : Time) (limit : Z) : Stmt (list Row)
| SelectDueRetrying (now : Time) (limit : Z) : Stmt (list Row)
| SelectExpiredRunning (now : Time) (limit : Z) : Stmt (list Row)
| SelectMetricsSnapshot (now : Time) : Stmt (list (Z * Z))
| SelectCountByStatus : Stmt (list (string * Z))
| SelectRecentByStatus (status : string) (limit : Z) : Stmt (list Row)
| SelectRecent (limit : Z) : Stmt (list Row)
| UpdateTransition (id from to : string) (workerID : option string) : Stmt (list Row)
| UpdateFailed (id failure : string) : Stmt (list Row)
| UpdateComplete (id status : string) (retry_count : Z) (next_retry_at : option Time)
    (failure : string) : Stmt (list Row).

(** [ORDER BY a ASC, b ASC LIMIT n]: the comparison is on pairs of keys
    ([DESC] negates a key); rows with equal keys come in the order of the
    scan. *)
Definition key_le (p q : Z * Z) : Prop := p.1 < q.1 \/ (p.1 = q.1 /\ p.2 <= q.2).

#[export] Instance key_le_dec p q : Decision (key_le p q).
Proof. unfold key_le. apply _. Defined.

Definition by_key (key : Row -> Z * Z) (r r' : Row) : Prop := key_le (key r) (key r').

#[export] Instance by_key_dec key r r' : Decision (by_key key r r').
Proof. unfold by_key. apply _. Defined.

Definition order_limit `{!Postgres} (key : Row -> Z * Z) (limit : Z) (rows : list Row)
  : result (list Row) :=
  if limit <? 0 then Err (pg_error "LIMIT must not be negative")
  else Ok (take (Z.to_nat limit) (merge_sort (by_key key) rows)).

(** The [WHERE] clauses of the scans. *)
Definition le_time (t : option Time) (now : Time) : bool :=
  match t with Some t => t <=? now | None => false end.

Definition scheduled_due (now : Time) (r : Row) : bool :=
  String.eqb (row_status r) "scheduled" && (row_run_at r <=? now).

Definition retrying_due (now : Time) (r : Row) : bool :=
  String.eqb (row_status r) "retrying" && le_time (row_next_retry_at r) now.

Definition running_expired (now : Time) (r : Row) : bool :=
  String.eqb (row_status r) "running" &&
  match row_started_at r with
  | Some s => s + row_timeout_seconds r * Second <=? now
  | None => false
  end.

Definition in_backlog (now : Time) (r : Row) : bool :=
  String.eqb (row_status r) "pending" || scheduled_due now r || retrying_due now r.

(** The [ORDER BY] keys. *)
Definition time_key (t : option Time) : Z := match t with Some t => t | None => 0 end.
Definition retry_key (r : Row) : Z * Z := (time_key (row_next_retry_at r), row_created_at r).
Definition started_key (r : Row) : Z * Z := (time_key (row_started_at r), row_created_at r).
Definition dispatch_key (r : Row) : Z * Z :=
  (if String.eqb (row_status r) "retrying" then time_key (row_next_retry_at r)
   else row_run_at r, row_created_at r).
Definition recent_key (r : Row) : Z * Z := (- row_updated_at r, - row_created_at r).

(** [COUNT] with [FILTER] or [GROUP BY]. *)
Definition count_where (p : Row -> bool) (rows : list Row) : Z :=
  Z.of_nat (length (filter (fun r => p r = true) rows)).

Definition group_by_status (rows : list Row) : list (string * Z) :=
  (fun s => (s, count_where (fun r => String.eqb (row_status r) s) rows)) <$>
  remove_dups (row_status <$> rows).

(** ** The meaning of the statements *)

Section exec.
Context {PG : Postgres}.

(** The row [INSERT] adds: the columns not listed take their defaults. *)
Definition inserted_row (a : InsertArgs) (payload : string) (now : Time) : Row :=
  {| row_id := ins_id a;
     row_task_type := ins_task_type a;
     row_payload := payload;
     row_status := ins_status a;
     row_idempotency_key := ins_idempotency_key a;
     row_trace_id := ins_trace_id a;
     row_run_at := pg_time (ins_run_at a);
     row_timeout_seconds := ins_timeout_seconds a;
     row_max_retries := ins_max_retries a;
     row_retry_count := 0;
     row_next_retry_at := None;
     row_last_error := None;
     row_worker_id := None;
     row_started_at := None;
     row_finished_at := None;
     row_created_at := now;
     row_updated_at := now |}.

(** [INSERT ... ON CONFLICT (idempotency_key) DO NOTHING RETURNING ...,
    TRUE UNION ALL SELECT ..., FALSE]: constraints are checked first, then
    the arbiter index, then the primary key. *)
Definition exec_insert (a : InsertArgs) (now : Time) (t : table)
  : table * result (list (Row * bool)) :=
  if negb (int4 (ins_timeout_seconds a) && int4 (ins_max_retries a))
  then (t, Err (pg_error "int4"))
  else match pg_jsonb (ins_payload a) with
  | None => (t, Err (pg_error "jsonb"))
  | Some payload =>
      let r := inserted_row a payload now in
      if negb (row_check r) then (t, Err (pg_error "check"))
      else match ins_idempotency_key a ≫= (fun k => row_with_key k t) with
      | Some existing => (t, Ok [(existing, false)])
      | None =>
          match t !! ins_id a with
          | Some _ => (t, Err (pg_error "tasks_pkey"))
          | None => (<[ins_id a := r]> t, Ok [(r, true)])
          end
      end
  end.

(** [UPDATE tasks SET ... WHERE id = $1 AND guard RETURNING ...]. *)
Definition exec_update (id : string) (guard : Row -> bool) (set : Row -> Row)
    (t : table) : table * result (list Row) :=
  match t !! id with
  | None => (t, Ok [])
  | Some r =>
      if guard r then
        if row_check (set r) then (<[id := set r]> t, Ok [set r])
        else (t, Err (pg_error "check"))
      else (t, Ok [])
  end.

Definition set_transition (to : string) (workerID : option string) (now : Time)
    (r : Row) : Row :=
  {| row_id := row_id r;
     row_task_type := row_task_type r;
     row_payload := row_payload r;
     row_status := to;
     row_idempotency_key := row_idempotency_key r;
     row_trace_id := row_trace_id r;
     row_run_at := row_run_at r;
     row_timeout_seconds := row_timeout_seconds r;
     row_max_retries := row_max_retries r;
     row_retry_count := row_retry_count r;
     row_next_retry_at :=
       if String.eqb to "pending" then None else row_next_retry_at r;
     row_last_error := row_last_error r;
     row_worker_id := if String.eqb to "running" then workerID else row_worker_id r;
     row_started_at := if String.eqb to "running" then Some now else row_started_at r;
     row_finished_at :=
       if String.eqb to "success" || String.eqb to "dead" then Some now
       else row_finished_at r;
     row_created_at := row_created_at r;
     row_updated_at := now |}.

Definition set_failed (failure : string) (now : Time) (r : Row) : Row :=
  {| row_id := row_id r;
     row_task_type := row_task_type r;
     row_payload := row_payload r;
     row_status := "failed";
     row_idempotency_key := row_idempotency_key r;
     row_trace_id := row_trace_id r;
     row_run_at := row_run_at r;
     row_timeout_seconds := row_timeout_seconds r;
     row_max_retries := row_max_retries r;
     row_retry_count := row_retry_count r;
     row_next_retry_at := row_next_retry_at r;
     row_last_error := Some failure;
     row_worker_id := row_worker_id r;
     row_started_at := row_started_at r;
     row_finished_at := row_finished_at r;
     row_created_at := row_created_at r;
     row_updated_at := now |}.

Definition set_complete (status : string) (retry_count : Z)
    (next_retry_at : option Time) (failure : string) (now : Time) (r : Row) : Row :=
  {| row_id := row_id r;
     row_task_type := row_task_type r;
     row_payload := row_payload r;
     row_status := status;
     row_idempotency_key := row_idempotency_key r;
     row_trace_id := row_trace_id r;
     row_run_at := row_run_at r;
     row_timeout_seconds := row_timeout_seconds r;
     row_max_retries := row_max_retries r;
     row_retry_count := retry_count;
     row_next_retry_at := pg_time <$> next_retry_at;
     row_last_error := Some failure;
     row_worker_id := row_worker_id r;
     row_started_at := row_started_at r;
     row_finished_at :=
       if String.eqb status "dead" then Some now else row_finished_at r;
     row_created_at := row_created_at r;
     row_updated_at := now |}.

(** One statement, executed at transaction time [now] on a table whose rows
    a sequential scan meets in the order [rows]. *)
Definition exec_stmt {A} (q : Stmt A) (now : Time) (rows : list Row) (t : table)
  : table * result A :=
  match q in Stmt A return table * result A with
  | InsertTask a => exec_insert a now t
  | SelectTask id => (t, Ok (match t !! id with Some r => [r] | None => [] end))
  | SelectDueDispatchable at_ limit =>
      let at_ := pg_time at_ in
      (t, order_limit dispatch_key limit
            (filter (fun r => scheduled_due at_ r || retrying_due at_ r) rows))
  | SelectDueRetrying at_ limit =>
      (t, order_limit retry_key limit (filter (fun r => retrying_due (pg_time at_) r) rows))
  | SelectExpiredRunning at_ limit =>
      (t, order_limit started_key limit
            (filter (fun r => running_expired (pg_time at_) r) rows))
  | SelectMetricsSnapshot at_ =>
      (t, Ok [(count_where (in_backlog (pg_time at_)) rows,
               count_where (fun r => String.eqb (row_status r) "running") rows)])
  | SelectCountByStatus => (t, Ok (group_by_status rows))
  | SelectRecentByStatus status limit =>
      (t, order_limit recent_key limit
            (filter (fun r => String.eqb (row_status r) status) rows))
  | SelectRecent limit => (t, order_limit recent_key limit rows)
  | UpdateTransition id from to workerID =>
      exec_update id (fun r => String.eqb (row_status r) from)
        (set_transition to workerID now) t
  | UpdateFailed id failure =>
      exec_update id (fun r => String.eqb (row_status r) "running")
        (set_failed failure now) t
  | UpdateComplete id status retry_count next_retry_at failure =>
      if negb (int4 retry_count) then (t, Err (pg_error "int4"))
      else exec_update id (fun r => String.eqb (row_status r) "failed")
             (set_complete status retry_count next_retry_at failure now) t
  end.
End exec.

(** ** Well-formed tables

    What Postgres enforces by itself: rows are stored under their primary
    key, satisfy the [CHECK] constraints and the range of [INTEGER], and no
    two rows share an idempotency key. *)
Definition row_typed (r : Row) : bool :=
  int4 (row_timeout_seconds r) && int4 (row_max_retries r).

Record table_wf (t : table) : Prop := {
  wf_id id r : t !! id = Some r -> row_id r = id;
  wf_check id r : t !! id = Some r -> row_check r = true;
  wf_typed id r : t !! id = Some r -> row_typed r = true;
  wf_key id id' r r' k :
    t !! id = Some r -> t !! id' = Some r' ->
    row_idempotency_key r = Some k -> row_idempotency_key r' = Some k -> id = id';
}.

Lemma table_wf_empty : table_wf ∅.
Proof. split; intros *; rewrite ?lookup_empty; done. Qed.

Lemma row_with_key_Some k t r :
  row_with_key k t = Some r ->
  exists id, t !! id = Some r /\ row_idempotency_key r = Some k.
Proof.
  unfold row_with_key. destruct (filter _ _) as [|[id r'] l] eqn:E; simpl; [done|].
  intros [= ->]. exists id.
  assert (H : (id, r) ∈ (id, r) :: l) by left. rewrite <- E in H.
  apply list_elem_of_filter in H as [Hk H]. by apply elem_of_map_to_list in H.
Qed.

Lemma row_with_key_None k t :
  row_with_key k t = None <->
  forall id r, t !! id = Some r -> row_idempotency_key r <> Some k.
Proof.
  unfold row_with_key. split.
  - destruct (filter _ _) as [|kr l] eqn:E; simpl; [|done]. intros _ id r Hr Hk.
    assert (H : (id, r) ∈ filter (fun kr => row_idempotency_key kr.2 = Some k)
                                 (map_to_list t)).
    { apply list_elem_of_filter. split; [done|]. by apply elem_of_map_to_list. }
    rewrite E in H. by apply elem_of_nil in H.
  - intros H. destruct (filter _ _) as [|[id r] l] eqn:E; simpl; [done|].
    exfalso. assert (Hin : (id, r) ∈ (id, r) :: l) by left. rewrite <- E in Hin.
    apply list_elem_of_filter in Hin as [Hk Hin]. apply elem_of_map_to_list in Hin.
    by apply (H id r).
Qed.

Lemma row_with_key_unique k t r id :
  table_wf t -> t !! id = Some r -> row_idempotency_key r = Some k ->
  row_with_key k t = Some r.
Proof.
  intros Hwf Hr Hk. destruct (row_with_key k t) as [r'|] eqn:E.
  - apply row_with_key_Some in E as (id' & Hr' & Hk').
    assert (id' = id) as -> by (by eapply (wf_key _ Hwf)). congruence.
  - by destruct (proj1 (row_with_key_None k t) E id r Hr).
Qed.

(** The columns no statement changes once the row exists. *)
Definition same_identity (r r' : Row) : Prop :=
  row_id r' = row_id r /\ row_task_type r' = row_task_type r /\
  row_payload r' = row_payload r /\
  row_idempotency_key r' = row_idempotency_key r /\ row_trace_id r' = row_trace_id r /\
  row_run_at r' = row_run_at r /\ row_timeout_seconds r' = row_timeout_seconds r /\
  row_max_retries r' = row_max_retries r /\ row_created_at r' = row_created_at r.

Lemma same_identity_refl r : same_identity r r.
Proof. by repeat split. Qed.

Lemma same_identity_trans r1 r2 r3 :
  same_identity r1 r2 -> same_identity r2 r3 -> same_identity r1 r3.
Proof. unfold same_identity. intuition congruence. Qed.

Lemma table_wf_insert t r :
  table_wf t -> row_check r = true -> row_typed r = true -> t !! row_id r = None ->
  (forall k, row_idempotency_key r = Some k -> row_with_key k t = None) ->
  table_wf (<[row_id r := r]> t).
Proof.
  intros Hwf Hc Hty Hn Hk. split.
  - intros id r'. rewrite lookup_insert. case_decide; [by intros [= <-]|].
    apply (wf_id _ Hwf).
  - intros id r'. rewrite lookup_insert. case_decide; [by intros [= <-]|].
    apply (wf_check _ Hwf).
  - intros id r'. rewrite lookup_insert. case_decide; [by intros [= <-]|].
    apply (wf_typed _ Hwf).
  - intros id id' r1 r2 k. rewrite !lookup_insert. repeat case_decide; subst; intros H1 H2 K1 K2;
      simplify_eq; try done.
    + exfalso. by eapply (proj1 (row_with_key_None k t) (Hk k K1)).
    + exfalso. by eapply (proj1 (row_with_key_None k t) (Hk k K2)).
    + by eapply (wf_key _ Hwf).
Qed.

Lemma table_wf_update t id r r' :
  table_wf t -> t !! id = Some r -> same_identity r r' -> row_check r' = true ->
  table_wf (<[id := r']> t).
Proof.
  intros Hwf Hr Hid Hc. assert (row_id r' = id) as Hrid.
  { destruct Hid as [-> _]. by apply (wf_id _ Hwf). }
  assert (row_idempotency_key r' = row_idempotency_key r) as Hkey by apply Hid.
  split.
  - intros id' r''. rewrite lookup_insert. case_decide; [by intros [= <-]; subst|].
    apply (wf_id _ Hwf).
  - intros id' r''. rewrite lookup_insert. case_decide; [by intros [= <-]|].
    apply (wf_check _ Hwf).
  - intros id' r''. rewrite lookup_insert. case_decide; [|apply (wf_typed _ Hwf)].
    intros [= <-]. pose proof (wf_typed _ Hwf _ _ Hr) as Hty. unfold row_typed in *.
    destruct Hid as (_ & _ & _ & _ & _ & _ & -> & -> & _). done.
  - intros id1 id2 r1 r2 k. rewrite !lookup_insert. repeat case_decide; subst;
      intros H1 H2 K1 K2; simplify_eq; try done; rewrite ?Hkey in *;
      by eapply (wf_key _ Hwf).
Qed.

(** ** Steps of a table

    The effect of one statement on the table: nothing, one new row, or one
    row of which neither the primary key nor the other identity columns
    change. *)
Inductive table_step (t : table) : table -> Prop :=
| step_none : table_step t t
| step_create r :
    t !! row_id r = None -> row_check r = true -> row_typed r = true ->
    (forall k, row_idempotency_key r = Some k -> row_with_key k t = None) ->
    table_step t (<[row_id r := r]> t)
| step_update id r r' :
    t !! id = Some r -> same_identity r r' -> row_check r' = true ->
    table_step t (<[id := r']> t).

Lemma table_step_wf t t' : table_wf t -> table_step t t' -> table_wf t'.
Proof.
  intros Hwf [|r ? ? ? ?|id r r' ? ? ?];
    [done | by apply table_wf_insert | by eapply table_wf_update].
Qed.

Section exec_facts.
Context {PG : Postgres}.

Lemma same_identity_transition to w now r : same_identity r (set_transition to w now r).
Proof. by repeat split. Qed.
Lemma same_identity_failed f now r : same_identity r (set_failed f now r).
Proof. by repeat split. Qed.
Lemma same_identity_complete st rc n f now r :
  same_identity r (set_complete st rc n f now r).
Proof. by repeat split. Qed.

Lemma exec_update_step id guard set t :
  (forall r, same_identity r (set r)) ->
  table_step t (exec_update id guard set t).1.
Proof.
  intros Hset. unfold exec_update. destruct (t !! id) as [r|] eqn:Er; [|constructor].
  destruct (guard r); [|constructor]. destruct (row_check (set r)) eqn:Ec; [|constructor].
  simpl. by eapply step_update.
Qed.

(** The three outcomes of [INSERT]: refused, an existing row with the same
    idempotency key, a new row. *)
Lemma exec_insert_cases a now t :
  (exists c, exec_insert a now t = (t, Err (pg_error c))) \/
  (exists k r, ins_idempotency_key a = Some k /\ row_with_key k t = Some r /\
               exec_insert a now t = (t, Ok [(r, false)])) \/
  (exists payload, let r := inserted_row a payload now in
     pg_jsonb (ins_payload a) = Some payload /\ row_check r = true /\
     t !! ins_id a = None /\
     (forall k, ins_idempotency_key a = Some k -> row_with_key k t = None) /\
     exec_insert a now t = (<[ins_id a := r]> t, Ok [(r, true)])).
Proof.
  unfold exec_insert. case_match; [eauto|]. case_match; [|eauto].
  case_match eqn:Ec; [eauto|]. apply negb_false_iff in Ec.
  case_match eqn:Ek.
  - right. left. destruct (ins_idempotency_key a) as [k|]; [|done]. eauto.
  - case_match eqn:Ep; [eauto|]. right. right. eexists. cbv zeta.
    do 3 (split; [done|]).
    split; [|done]. intros k Hk. by rewrite Hk in Ek.
Qed.

(** What is inserted fits its column types. *)
Lemma exec_insert_typed a payload now t x :
  (exec_insert a now t).2 = Ok x -> row_typed (inserted_row a payload now) = true.
Proof.
  unfold exec_insert, row_typed. simpl.
  by destruct (int4 (ins_timeout_seconds a)), (int4 (ins_max_retries a)).
Qed.

Lemma exec_insert_step a now t : table_step t (exec_insert a now t).1.
Proof.
  destruct (exec_insert_cases a now t) as [(c & ->) | [(k & r & _ & _ & ->) |
    (payload & Hp & Hc & Hid & Hk & He)]]; simpl; [constructor | constructor |].
  pose proof (exec_insert_typed a payload now t [(inserted_row a payload now, true)]) as Ht.
  rewrite He in *. by apply (step_create t (inserted_row a payload now) Hid Hc (Ht eq_refl) Hk).
Qed.

Lemma exec_stmt_step {A} (q : Stmt A) now rows t :
  table_step t (exec_stmt q now rows t).1.
Proof.
  destruct q; simpl; try constructor.
  - apply exec_insert_step.
  - apply exec_update_step. intros; apply same_identity_transition.
  - apply exec_update_step. intros; apply same_identity_failed.
  - case_match; [constructor|]. apply exec_update_step.
    intros; apply same_identity_complete.
Qed.

Lemma exec_stmt_wf {A} (q : Stmt A) now rows t :
  table_wf t -> table_wf (exec_stmt q now rows t).1.
Proof. intros Hwf. eapply table_step_wf; [done|]. apply exec_stmt_step. Qed.
End exec_facts.

(** ** [ORDER BY ... LIMIT] *)

Lemma key_le_trans p q r : key_le p q -> key_le q r -> key_le p r.
Proof. unfold key_le. lia. Qed.

#[export] Instance by_key_transitive key : Transitive (by_key key).
Proof. intros a b c. unfold by_key. apply key_le_trans. Qed.

#[export] Instance by_key_total key : Total (by_key key).
Proof. intros a b. unfold by_key, key_le. lia. Qed.

Lemma StronglySorted_app_le {A} (R : A -> A -> Prop) (l k : list A) x y :
  StronglySorted R (l ++ k) -> x ∈ l -> y ∈ k -> R x y.
Proof.
  induction l as [|a l IH]; simpl; intros Hs Hx Hy; [by apply elem_of_nil in Hx|].
  inversion Hs as [|? ? Hs' Hall]; subst. apply elem_of_cons in Hx as [->|Hx]; [|by apply IH].
  rewrite Forall_forall in Hall. apply Hall. apply elem_of_app. by right.
Qed.

Lemma StronglySorted_prefix {A} (R : A -> A -> Prop) (l k : list A) :
  StronglySorted R (l ++ k) -> StronglySorted R l.
Proof.
  induction l as [|a l IH]; simpl; intros Hs; [constructor|].
  inversion Hs as [|? ? Hs' Hall]; subst. constructor; [by apply IH|].
  by apply Forall_app in Hall as [? _].
Qed.

(** What [ORDER BY key LIMIT n] returns: a sorted selection of the rows, of
    the size asked for, of which no row left out comes before. *)
Lemma order_limit_spec `{!Postgres} key limit rows out :
  order_limit key limit rows = Ok out ->
  StronglySorted (by_key key) out /\
  length out = Nat.min (Z.to_nat limit) (length rows) /\
  exists rest, out ++ rest ≡ₚ rows /\
    forall r r', r ∈ out -> r' ∈ rest -> key_le (key r) (key r').
Proof.
  unfold order_limit. case_match; [done|]. intros [= <-].
  pose proof (StronglySorted_merge_sort (by_key key) rows) as Hs.
  pose proof (merge_sort_Permutation (by_key key) rows) as Hp.
  set (l := merge_sort (by_key key) rows) in *.
  rewrite <- (take_drop (Z.to_nat limit) l) in Hs, Hp.
  split; [by eapply StronglySorted_prefix|]. split.
  - rewrite length_take. f_equal. rewrite take_drop in Hp. by apply Permutation_length in Hp.
  - eexists. split; [exact Hp|]. intros r r' Hr Hr'. by eapply StronglySorted_app_le in Hs.
Qed.

(** ** [COUNT] and [GROUP BY] *)

Lemma foldl_insert_map (f : string -> Z) (l : list string) (m : gmap string Z) s :
  default 0 (foldl (fun counts sc => <[sc.1 := sc.2]> counts) m ((fun s => (s, f s)) <$> l) !! s)
  = if decide (s ∈ l) then f s else default 0 (m !! s).
Proof.
  revert m. induction l as [|s' l IH]; intros m; simpl.
  - destruct (decide (s ∈ [])) as [Hin|]; [by apply elem_of_nil in Hin | done].
  - rewrite IH. destruct (decide (s ∈ l)) as [Hin|Hin].
    + destruct (decide (s ∈ s' :: l)) as [_|Hn]; [done|]. destruct Hn. by right.
    + rewrite lookup_insert. destruct (decide (s' = s)) as [->|Hne]; simpl.
      * destruct (decide (s ∈ s :: l)) as [_|Hn]; [done|]. destruct Hn. left.
      * destruct (decide (s ∈ s' :: l)) as [Hn|_]; [|done].
        apply elem_of_cons in Hn as [->|Hn]; done.
Qed.

Lemma count_where_zero p rows :
  (forall r, r ∈ rows -> p r = false) -> count_where p rows = 0.
Proof.
  intros H. unfold count_where.
  destruct (filter (fun r => p r = true) rows) as [|r l] eqn:E; [done|]. exfalso.
  assert (Hr : r ∈ r :: l) by left. rewrite <- E in Hr.
  apply list_elem_of_filter in Hr as [Hp Hr]. rewrite H in Hp; done.
Qed.

Lemma group_by_status_count rows s :
  default 0 (foldl (fun (counts : gmap string Z) sc => <[sc.1 := sc.2]> counts) ∅
               (group_by_status rows) !! s) =
  count_where (fun r => String.eqb (row_status r) s) rows.
Proof.
  unfold group_by_status.
  rewrite (foldl_insert_map (fun s => count_where (fun r => String.eqb (row_status r) s) rows)).
  destruct (decide _) as [Hin|Hin]; [done|]. rewrite lookup_empty. simpl. symmetry.
  apply count_where_zero. intros r Hr. apply String.eqb_neq. intros <-. apply Hin.
  apply elem_of_remove_dups, list_elem_of_fmap. by exists r.
Qed.

Lemma count_where_perm p rows rows' : rows ≡ₚ rows' -> count_where p rows = count_where p rows'.
Proof. intros H. unfold count_where. f_equal. apply Permutation_length. by rewrite H. Qed.

(** Counting the rows of a table. *)
Lemma count_where_table (p : Row -> bool) (t : table) :
  count_where p (snd <$> map_to_list t) =
  Z.of_nat (size (filter (fun kr => p kr.2 = true) t)).
Proof.
  unfold count_where. f_equal. induction t as [|id r t Hid IH] using map_ind.
  - rewrite map_to_list_empty, map_filter_empty. done.
  - rewrite map_to_list_insert by done. rewrite fmap_cons, filter_cons. cbn [snd].
    destruct (decide (p r = true)) as [Hp|Hp].
    + rewrite map_filter_insert_True by done. rewrite map_size_insert_None.
      * cbn [length]. by rewrite IH.
      * apply map_lookup_filter_None. by left.
    + rewrite map_filter_insert_False by done. rewrite delete_id by done. exact IH.
Qed.
