(* ===== verification/Metrics.v ===== *)
(** * The metrics registry

    src/internal/metrics/metrics.go. Counters, gauges and summaries are
    [float64]: binary floating-point numbers with 53 bits of precision and
    maximal exponent 1024, computed by the Standard Library's
    specification of IEEE 754 ([SpecFloat]). *)

From Stdlib Require Import SpecFloat.
From S2P Require Import Prelude GoStd Errors.
Local Open Scope Z_scope.

Abbreviation float64 := spec_float.
Definition float64_add : float64 -> float64 -> float64 := SFadd 53 1024.
Definition float64_div : float64 -> float64 -> float64 := SFdiv 53 1024.
(** [float64(z)] for an integer [z]. *)
Definition float64_of_Z (z : Z) : float64 := binary_normalize 53 1024 z 0 false.

(** [Duration.Seconds]: the integer seconds plus the remaining nanoseconds. *)
Definition duration_Seconds (d : Duration) : float64 :=
  let sec := Z.quot d Second in
  let nsec := Z.rem d Second in
  float64_add (float64_of_Z sec) (float64_div (float64_of_Z nsec) (float64_of_Z 1000000000)).

Record Snapshot := mkSnapshot { QueueBacklog : Z; RunningTasks : Z }.

Record summary := mkSummary { sum_count : float64; sum_sum : float64 }.

Record Registry := mkRegistry {
  reg_counters : gmap string float64;
  reg_gauges : gmap string float64;
  reg_summaries : gmap string summary;
}.

Definition NewRegistry : Registry :=
  {| reg_counters := list_to_map
       [("gotaskqueue_tasks_submitted_total", float64_of_Z 0);
        ("gotaskqueue_tasks_started_total", float64_of_Z 0);
        ("gotaskqueue_tasks_succeeded_total", float64_of_Z 0);
        ("gotaskqueue_tasks_failed_total", float64_of_Z 0);
        ("gotaskqueue_tasks_retried_total", float64_of_Z 0);
        ("gotaskqueue_tasks_dead_total", float64_of_Z 0)];
     reg_gauges := list_to_map
       [("gotaskqueue_queue_backlog", float64_of_Z 0);
        ("gotaskqueue_worker_running_tasks", float64_of_Z 0)];
     reg_summaries := list_to_map
       [("gotaskqueue_task_execution_duration_seconds",
          mkSummary (float64_of_Z 0) (float64_of_Z 0));
        ("gotaskqueue_task_wait_duration_seconds",
          mkSummary (float64_of_Z 0) (float64_of_Z 0))] |}.

(** Reading an absent key of a Go map gives the zero value. *)
Definition counter (r : Registry) (name : string) : float64 :=
  default (float64_of_Z 0) (reg_counters r !! name).

(** [addCounter], [setGauge] and [observe] each hold the registry's mutex
    for their whole body: one step on the registry. *)
Definition addCounter (name : string) (value : float64) (r : Registry) : Registry :=
  {| reg_counters := <[name := float64_add (counter r name) value]> (reg_counters r);
     reg_gauges := reg_gauges r;
     reg_summaries := reg_summaries r |}.

Definition setGauge (name : string) (value : float64) (r : Registry) : Registry :=
  {| reg_counters := reg_counters r;
     reg_gauges := <[name := value]> (reg_gauges r);
     reg_summaries := reg_summaries r |}.

Definition observe_duration (name : string) (duration : Duration) (r : Registry) : Registry :=
  let duration := if duration <? 0 then 0 else duration in
  let value := default (mkSummary (float64_of_Z 0) (float64_of_Z 0)) (reg_summaries r !! name) in
  let value := {| sum_count := float64_add (sum_count value) (float64_of_Z 1);
                  sum_sum := float64_add (sum_sum value) (duration_Seconds duration) |} in
  {| reg_counters := reg_counters r;
     reg_gauges := reg_gauges r;
     reg_summaries := <[name := value]> (reg_summaries r) |}.

(** The updates the registry sees, each under its mutex: every call of
    [addCounter], [setGauge] and [observe] in the package. *)
Inductive MetricUpdate :=
| AddSubmitted
| AddStarted
| ObserveWait (wait : Duration)
| AddSucceeded
| AddFailed
| ObserveExecution (execution : Duration)
| AddRetried
| AddDead
| SetQueueBacklog (value : float64)
| SetRunningTasks (value : float64).

Definition apply_metric (u : MetricUpdate) : Registry -> Registry :=
  let one := float64_of_Z 1 in
  match u with
  | AddSubmitted => addCounter "gotaskqueue_tasks_submitted_total" one
  | AddStarted => addCounter "gotaskqueue_tasks_started_total" one
  | ObserveWait wait => observe_duration "gotaskqueue_task_wait_duration_seconds" wait
  | AddSucceeded => addCounter "gotaskqueue_tasks_succeeded_total" one
  | AddFailed => addCounter "gotaskqueue_tasks_failed_total" one
  | ObserveExecution execution =>
      observe_duration "gotaskqueue_task_execution_duration_seconds" execution
  | AddRetried => addCounter "gotaskqueue_tasks_retried_total" one
  | AddDead => addCounter "gotaskqueue_tasks_dead_total" one
  | SetQueueBacklog value => setGauge "gotaskqueue_queue_backlog" value
  | SetRunningTasks value => setGauge "gotaskqueue_worker_running_tasks" value
  end.

(** The registry's methods that the other packages call, with the updates
    they make, in order. Between two of them the mutex is free: a scrape may
    see the first and not yet the second. *)
Inductive MetricOp :=
| TaskSubmitted
| TaskStarted (wait : Duration)
| TaskSucceeded (execution : Duration)
| TaskFailed (execution : Duration)
| TaskRetried
| TaskDead.

Definition metric_updates (op : MetricOp) : list MetricUpdate :=
  match op with
  | TaskSubmitted => [AddSubmitted]
  | TaskStarted wait => [AddStarted; ObserveWait wait]
  | TaskSucceeded execution => [AddSucceeded; ObserveExecution execution]
  | TaskFailed execution => [AddFailed; ObserveExecution execution]
  | TaskRetried => [AddRetried]
  | TaskDead => [AddDead]
  end.

Example duration_Seconds_half :
  duration_Seconds (1500 * Millisecond) = float64_div (float64_of_Z 3) (float64_of_Z 2).
Proof. vm_compute. reflexivity. Qed.
