(* ===== verification/Float.v ===== *)
(** * Printing floating-point numbers

    The verb [%g] of package fmt for a [float64]: the shortest decimal that
    reads back as the number, in positional or exponent notation
    (strconv/ftoa.go, called by fmt/format.go with precision -1). *)

From Stdlib Require Import SpecFloat Ascii.
From S2P Require Import Prelude GoStd Text Metrics.
Local Open Scope Z_scope.

(** The fraction [num / den], rounded to nearest, halves to even. *)
Definition round_div (num den : Z) : Z :=
  let q := num / den in
  let r := 2 * (num mod den) in
  if r <? den then q
  else if den <? r then q + 1
  else if Z.even q then q else q + 1.

(** [q * 10^x], as a fraction of integers. *)
Definition scale10 (q x : Z) : Z * Z :=
  if 0 <=? x then (q * 10 ^ x, 1) else (q, 10 ^ (- x)).

(** The [float64] nearest to a positive fraction: [strconv.ParseFloat]. *)
Definition float64_of_frac (f : Z * Z) : float64 :=
  match f with
  | (Zpos n, Zpos d) => SFdiv 53 1024 (S754_finite false n 0) (S754_finite false d 0)
  | _ => S754_zero false
  end.

Definition float64_eqb (a b : float64) : bool :=
  match a, b with
  | S754_finite s m e, S754_finite s' m' e' =>
      Bool.eqb s s' && Pos.eqb m m' && Z.eqb e e'
  | S754_infinity s, S754_infinity s' | S754_zero s, S754_zero s' => Bool.eqb s s'
  | S754_nan, S754_nan => true
  | _, _ => false
  end.

(** The smallest [dp >= dp0] with [num / den < 10^dp]. *)
Fixpoint decimal_point (fuel : nat) (num den dp : Z) : Z :=
  match fuel with
  | O => dp
  | S fuel' =>
      let (p, q) := scale10 1 dp in
      if num * q <? den * p then dp else decimal_point fuel' num den (dp + 1)
  end.

(** The first of the roundings to [n], [n + 1], ... digits that reads back
    as the number: its digits, as an integer, and their exponent of ten. *)
Fixpoint shortest_from (fuel : nat) (f : float64) (num den dp n : Z) : Z * Z :=
  let x := dp - n in
  let (p, q) := scale10 1 x in
  let digits := round_div (num * q) (den * p) in
  match fuel with
  | O => (digits, x)
  | S fuel' =>
      if float64_eqb (float64_of_frac (scale10 digits x)) f then (digits, x)
      else shortest_from fuel' f num den dp (n + 1)
  end.

(** Trailing zeros are no digits ([10^n] can come from rounding up). *)
Fixpoint drop_zeros (fuel : nat) (digits x : Z) : Z * Z :=
  match fuel with
  | O => (digits, x)
  | S fuel' => if digits mod 10 =? 0 then drop_zeros fuel' (digits / 10) (x + 1) else (digits, x)
  end.

(** Seventeen digits always read back; the guess of [dp] is off by less than
    four. *)
Definition shortest (m : positive) (e : Z) : Z * Z :=
  let (num, den) := if 0 <=? e then (Zpos m * 2 ^ e, 1) else (Zpos m, 2 ^ (- e)) in
  let dp0 := (Z.log2 num - Z.log2 den) * 30103 / 100000 - 2 in
  let dp := decimal_point 6 num den dp0 in
  let (digits, x) := shortest_from 16 (S754_finite false m e) num den dp 1 in
  drop_zeros 20 digits x.

Definition zeros (n : Z) : string := String.concat "" (replicate (Z.to_nat n) "0").

(** [%e] without a precision: [d.ddde±dd]. *)
Definition fmtE (digits : string) (exp : Z) : string :=
  String.substring 0 1 digits +:+
  (if (String.length digits <=? 1)%nat then ""
   else "." +:+ String.substring 1 (String.length digits - 1) digits) +:+
  (if exp <? 0 then "e-" else "e+") +:+
  (if Z.abs exp <? 10 then "0" else "") +:+ fmt_d (Z.abs exp).

(** [%f] with the digits [digits], the point being after the first [dp]. *)
Definition fmtF (digits : string) (dp : Z) : string :=
  let nd := Z.of_nat (String.length digits) in
  if dp <=? 0 then "0." +:+ zeros (- dp) +:+ digits
  else if nd <=? dp then digits +:+ zeros (dp - nd)
  else String.substring 0 (Z.to_nat dp) digits +:+ "." +:+
       String.substring (Z.to_nat dp) (String.length digits - Z.to_nat dp) digits.

Definition fmt_g (f : float64) : string :=
  match f with
  | S754_nan => "NaN"
  | S754_infinity s => if s then "-Inf" else "+Inf"
  | S754_zero s => if s then "-0" else "0"
  | S754_finite s m e =>
      let (digits, x) := shortest m e in
      let text := fmt_d digits in
      let dp := x + Z.of_nat (String.length text) in
      let exp := dp - 1 in
      (if s then "-" else "") +:+
      (if (exp <? -4) || (6 <=? exp) then fmtE text exp else fmtF text dp)
  end.

Definition milli (n : Z) : float64 := float64_div (float64_of_Z n) (float64_of_Z 1000).

Example fmt_g_examples :
  map fmt_g [float64_of_Z 0; float64_of_Z 12; float64_of_Z 999999; float64_of_Z 1000000;
             float64_of_Z 123456789; milli 1500; milli 1; milli 12345678;
             float64_div (float64_of_Z 1) (float64_of_Z 3);
             float64_div (milli 1) (float64_of_Z 100);
             float64_add (milli 100) (milli 200)] =
  ["0"; "12"; "999999"; "1e+06"; "1.23456789e+08"; "1.5"; "0.001"; "12345.678";
   "0.3333333333333333"; "1e-05"; "0.30000000000000004"].
Proof. vm_compute. reflexivity. Qed.
