(* ===== verification/Calls.v ===== *)
(** * The outside of the process

    The calls a goroutine makes to the outside, the state they act on, and
    their interpretation. Postgres statements act on the [tasks] table
    (Table.v); the metrics registry is in-process state (Metrics.v). Redis,
    the clock, the random source, contexts and whatever task handlers talk
    to are answered by a parameter, the environment [Env], whose state can be
    anything; so can its answers, failures included. *)

From S2P Require Import Prelude GoStd Errors Task Effects Table Metrics.
Local Open Scope Z_scope.

(** ** Redis commands, as go-redis takes and returns them *)

(** The dynamic values of [map[string]any]. *)
Inductive rvalue :=
| RString (s : string)
| RBytes (s : string)
| RInt (z : Z)
| ROther.

Record XMessage := mkXMessage { xm_ID : string; xm_Values : gmap string rvalue }.
Record XStream := mkXStream { xs_Stream : string; xs_Messages : list XMessage }.

Record XAddArgs := mkXAdd { xa_Stream : string; xa_Values : gmap string rvalue }.
Record XReadGroupArgs := mkXRead {
  xr_Group : string; xr_Consumer : string; xr_Streams : list string;
  xr_Count : Z; xr_Block : Duration }.
Record XPendingExtArgs := mkXPending {
  xp_Stream : string; xp_Group : string; xp_Idle : Duration;
  xp_Start : string; xp_End : string; xp_Count : Z }.
Record XClaimArgs := mkXClaim {
  xc_Stream : string; xc_Group : string; xc_Consumer : string;
  xc_MinIdle : Duration; xc_Messages : list string }.
Record ZRangeArgs_ := mkZRange {
  zr_Key : string; zr_Start : string; zr_Stop : string; zr_ByScore : bool; zr_Count : Z }.

Inductive RedisCmd : Type -> Type :=
| XAdd (a : XAddArgs) : RedisCmd string
| XGroupCreateMkStream (stream group start : string) : RedisCmd unit
| XReadGroup (a : XReadGroupArgs) : RedisCmd (list XStream)
| XPendingExt (a : XPendingExtArgs) : RedisCmd (list string)  (* the IDs of the entries *)
| XClaim (a : XClaimArgs) : RedisCmd (list XMessage)
| XAck (stream group id : string) : RedisCmd Z
| ZAdd (key : string) (score : float64) (member : string) : RedisCmd Z
| ZRangeArgs (a : ZRangeArgs_) : RedisCmd (list string)
| ZRem (key member : string) : RedisCmd Z.

(** ** What task handlers may do

    A registered handler is third-party code run under a context with a
    deadline; [HEffect] stands for any other effect it has. The headers of a
    request are the arguments of the [Header.Set] calls made on it. *)
Record HttpRequest := mkHttpRequest {
  hr_Method : string; hr_URL : string; hr_Headers : gmap string string; hr_Body : string }.

Inductive HCall : Type -> Type :=
| HttpDo (timeout : Duration) (req : HttpRequest) : HCall (result Z)  (* the status code *)
| HttpCtxErr : HCall (option error)
| HEffect (arg : string) : HCall string.

(** ** Calls *)

Inductive Call : Type -> Type :=
| TimeNow : Call Time
| RandRead (n : nat) : Call (list Byte.byte)
| Sql (A : Type) (q : Stmt A) : Call (result A)
| Redis (A : Type) (c : RedisCmd A) : Call (result A)
| Metric (u : MetricUpdate) : Call unit              (* one locked update *)
| ReadMetrics : Call Registry                        (* under the registry's lock *)
| Handler_ (A : Type) (c : HCall A) : Call A
| WithTimeout (timeout : Duration) : Call unit       (* context.WithTimeout *)
| ExecCtxErr : Call (option error)                   (* executionCtx.Err() *)
| CtxDone : Call bool                                (* is ctx.Done() closed? *)
| CtxErr : Call (option error)                       (* ctx.Err() *)
| Wait (d : Duration) : Call unit.                   (* wait(ctx, d) *)
Arguments Sql {A} q.
Arguments Redis {A} c.
Arguments Handler_ {A} c.

(** A method of the metrics registry. *)
Definition report (op : MetricOp) : prog Call unit :=
  for_each (fun u => call (Metric u)) (metric_updates op).

(** ** The environment *)

(** How a statement can fail besides what its text says: the connection is
    lost before the server executes it, or after, in which case the program
    sees the error of a statement that took effect. *)
Inductive fault :=
| Lost (e : error)
| Unknown (e : error).

(** The circumstances of one statement: the transaction's [NOW()], the order
    in which a scan meets the rows, and a failure, if any. *)
Record SqlEnv := mkSqlEnv {
  se_now : Time;
  se_scan : list Row -> list Row;
  se_fault : option fault;
}.

Class Env (X : Type) := {
  env_time : X -> X * Time;
  env_rand : nat -> X -> X * list Byte.byte;
  env_sql : forall A, Stmt A -> X -> X * SqlEnv;
  env_redis : forall A, RedisCmd A -> X -> X * result A;
  env_handler : forall A, HCall A -> X -> X * A;
  env_exec_ctx_err : X -> X * option error;
  env_ctx_err : X -> X * option error;
  env_ctx_done : X -> X * bool;
  env_wait : Duration -> X -> X;
}.

(** A scan meets every row once; [rand.Read] fills its buffer. *)
Class EnvLaws (X : Type) `{!Env X} := {
  env_scan_perm A (q : Stmt A) x rows : se_scan (env_sql A q x).2 rows ≡ₚ rows;
  env_rand_length n x : length (env_rand n x).2 = n;
}.

Record World (X : Type) := mkWorld {
  w_table : table;
  w_metrics : Registry;
  w_ext : X;
}.
Arguments mkWorld {X} _ _ _.
Arguments w_table {X} _.
Arguments w_metrics {X} _.
Arguments w_ext {X} _.

(** ** Interpretation *)

Section interp.
Context {PG : Postgres} {X : Type} {EV : Env X}.

Definition set_ext (w : World X) (x : X) : World X :=
  mkWorld (w_table w) (w_metrics w) x.

Definition exec_sql {A} (q : Stmt A) (w : World X) : World X * result A :=
  let (x, se) := env_sql A q (w_ext w) in
  let rows := se_scan se (snd <$> map_to_list (w_table w)) in
  match se_fault se with
  | Some (Lost e) => (set_ext w x, Err e)
  | Some (Unknown e) =>
      (mkWorld (exec_stmt q (se_now se) rows (w_table w)).1 (w_metrics w) x, Err e)
  | None =>
      let (t, r) := exec_stmt q (se_now se) rows (w_table w) in
      (mkWorld t (w_metrics w) x, r)
  end.

Definition ask {A} (f : X -> X * A) (w : World X) : World X * A :=
  let (x, a) := f (w_ext w) in (set_ext w x, a).

Definition interp (A : Type) (c : Call A) (w : World X) : World X * A :=
  match c in Call A return World X * A with
  | TimeNow => ask env_time w
  | RandRead n => ask (env_rand n) w
  | Sql q => exec_sql q w
  | Redis c => ask (env_redis _ c) w
  | Metric u => (mkWorld (w_table w) (apply_metric u (w_metrics w)) (w_ext w), tt)
  | ReadMetrics => (w, w_metrics w)
  | Handler_ c => ask (env_handler _ c) w
  | WithTimeout _ => (w, tt)
  | ExecCtxErr => ask env_exec_ctx_err w
  | CtxDone => ask env_ctx_done w
  | CtxErr => ask env_ctx_err w
  | Wait d => (set_ext w (env_wait d (w_ext w)), tt)
  end.

Lemma interp_table_step A (c : Call A) w :
  table_step (w_table w) (w_table (interp A c w).1).
Proof.
  destruct c; simpl; unfold ask, exec_sql; try constructor;
    try (case_match; simpl; constructor).
  destruct (env_sql A q (w_ext w)) as [x se] eqn:E.
  destruct (se_fault se) as [[e|e]|]; simpl; try constructor.
  - apply exec_stmt_step.
  - pose proof (exec_stmt_step q (se_now se)
      (se_scan se (snd <$> map_to_list (w_table w))) (w_table w)) as Hstep.
    destruct (exec_stmt _ _ _ _) as [t r]; simpl in *. exact Hstep.
Qed.
End interp.

(** ** Calls that leave the table alone *)

Definition no_sql (A : Type) (c : Call A) : Prop := match c with Sql _ => False | _ => True end.

Section no_sql.
Context {PG : Postgres} {X : Type} {EV : Env X}.
Implicit Type w : World X.

Lemma interp_no_sql {A} (c : Call A) w :
  no_sql A c -> w_table (interp A c w).1 = w_table w.
Proof. destruct c; simpl; try done; unfold ask; intros _; by case_match. Qed.

Lemma run_no_sql {A} (m : prog Call A) w :
  calls_ok no_sql m -> w_table (run interp m w).1 = w_table w.
Proof.
  intros Hm. apply (run_preserves_ok no_sql interp (fun w' => w_table w' = w_table w));
    [|done|done].
  intros B c w' Hc Hw. by rewrite interp_no_sql.
Qed.

Lemma run_no_sql_eq {A} (m : prog Call A) w w' a :
  calls_ok no_sql m -> run interp m w = (w', a) -> w_table w' = w_table w.
Proof. intros Hm Hr. pose proof (run_no_sql m w Hm) as H. by rewrite Hr in H. Qed.
End no_sql.

(** ** The Redis commands of a trace *)

Inductive redis_event : Type :=
| RedisEv (A : Type) (c : RedisCmd A) (r : result A).
Arguments RedisEv {A} c r.

Definition redis_of (e : event Call) : list redis_event :=
  match e with
  | Ev c x =>
      match c in Call A return A -> list redis_event with
      | Redis c => fun x => [RedisEv c x]
      | _ => fun _ => []
      end x
  end.

Definition redis_log (t : list (event Call)) : list redis_event := t ≫= redis_of.

Definition no_redis (A : Type) (c : Call A) : Prop := match c with Redis _ => False | _ => True end.

Section redis_log.
Context {PG : Postgres} {X : Type} {EV : Env X}.
Implicit Type w : World X.

(** The commands of a run. *)
Definition redis_run {A} (m : prog Call A) w : list redis_event :=
  redis_log (run_trace interp m w).

Lemma redis_run_bind {A B} (f : A -> prog Call B) (m : prog Call A) w w1 a :
  run interp m w = (w1, a) ->
  redis_run (m ≫= f) w = redis_run m w ++ redis_run (f a) w1.
Proof.
  intros Hr. unfold redis_run, redis_log. rewrite run_trace_bind, Hr.
  by rewrite bind_app.
Qed.

Lemma redis_run_none {A} (m : prog Call A) w : calls_ok no_redis m -> redis_run m w = [].
Proof.
  revert w. induction m as [a | Y c k IH]; intros w; [done|]. intros [Hc Hk].
  unfold redis_run, redis_log in *. simpl run_trace. destruct (interp Y c w) as [w' x].
  rewrite bind_cons. assert (Hx : redis_of (Ev c x) = []) by by destruct c.
  rewrite Hx. apply IH, Hk.
Qed.
End redis_log.
