(* ===== verification/Exposition.v ===== *)
(** * The text of /metrics

    [WritePrometheus] of src/internal/metrics/metrics.go: the registry's
    counters, gauges and summaries in the text format of Prometheus. *)

From Stdlib Require Import Ascii.
From S2P Require Import Prelude Text GoStd Errors Effects Table Metrics Float Calls.
Local Open Scope Z_scope.

(** [for key := range values { keys = append(keys, key) }; sort.Strings(keys)]:
    the order of the iteration is lost in the sort ([sortedKeys_any_order]). *)
Definition sortedKeys {A} (values : gmap string A) : list string :=
  merge_sort String.le ((map_to_list values).*1).

Definition nl : string := String newline "".

(** Each is the text of one [Fprintf]. *)
Definition writeMetric (name metricType : string) (value : float64) : string :=
  "# TYPE " +:+ name +:+ " " +:+ metricType +:+ nl +:+ name +:+ " " +:+ fmt_g value +:+ nl.

Definition writeSummary (name : string) (value : summary) : string :=
  "# TYPE " +:+ name +:+ " summary" +:+ nl +:+
  name +:+ "_sum " +:+ fmt_g (sum_sum value) +:+ nl +:+
  name +:+ "_count " +:+ fmt_g (sum_count value) +:+ nl.

Definition gauge (r : Registry) (name : string) : float64 :=
  default (float64_of_Z 0) (reg_gauges r !! name).
Definition summary_of (r : Registry) (name : string) : summary :=
  default (mkSummary (float64_of_Z 0) (float64_of_Z 0)) (reg_summaries r !! name).

(** The texts written under the lock, in order. *)
Definition exposition (r : Registry) : list string :=
  map (fun name => writeMetric name "counter" (counter r name)) (sortedKeys (reg_counters r)) ++
  map (fun name => writeMetric name "gauge" (gauge r name)) (sortedKeys (reg_gauges r)) ++
  map (fun name => writeSummary name (summary_of r name)) (sortedKeys (reg_summaries r)).

(** The writes, each of which may fail, when the rest is not written: the
    state of an [io.Writer] is [W]. *)
Fixpoint write_all {W} (write : string -> W -> W * option error) (texts : list string) (w : W)
  : W * option error :=
  match texts with
  | [] => (w, None)
  | text :: rest =>
      match write text w with
      | (w', None) => write_all write rest w'
      | (w', Some e) => (w', Some e)
      end
  end.

(** What [WritePrometheus] does before it writes: [None] is a registry
    without a snapshot provider. *)
Definition refresh (provider : option (Time -> prog Call (result Snapshot)))
  : prog Call (result unit) :=
  match provider with
  | None => Ret (Ok tt)
  | Some snapshotOf =>
      now ← call TimeNow;
      let* snapshot := snapshotOf now in
      _ ← call (Metric (SetQueueBacklog (float64_of_Z (QueueBacklog snapshot))));
      _ ← call (Metric (SetRunningTasks (float64_of_Z (RunningTasks snapshot))));
      Ret (Ok tt)
  end.

Definition WritePrometheus {W} (provider : option (Time -> prog Call (result Snapshot)))
    (write : string -> W -> W * option error) (w : W) : prog Call (W * option error) :=
  r ← refresh provider;
  match r with
  | Err e => Ret (w, Some e)
  | Ok _ =>
      reg ← call ReadMetrics;
      Ret (write_all write (exposition reg) w)
  end.

(** ** Reading it *)

(** What a scraper reads: the families of the text, with the values as they
    are written. *)
Inductive family :=
| Sample (name metricType value : string)
| Summary (name sum count : string).

Definition words (line : string) : list string := split_on " " line.

Fixpoint parse_lines (lines : list (list string)) : option (list family) :=
  match lines with
  | [[""]] => Some []
  | ["#"; "TYPE"; name; ty] :: [name1; v1] :: rest =>
      if String.eqb ty "summary" then
        match rest with
        | [name2; v2] :: rest =>
            if String.eqb name1 (name +:+ "_sum") && String.eqb name2 (name +:+ "_count")
            then cons (Summary name v1 v2) <$> parse_lines rest else None
        | _ => None
        end
      else if String.eqb name1 name then cons (Sample name ty v1) <$> parse_lines rest else None
  | _ => None
  end.

Definition parse_exposition (text : string) : option (list family) :=
  parse_lines (map words (split_on newline text)).

Definition counter_family (r : Registry) (name : string) : family :=
  Sample name "counter" (fmt_g (counter r name)).
Definition gauge_family (r : Registry) (name : string) : family :=
  Sample name "gauge" (fmt_g (gauge r name)).
Definition summary_family (r : Registry) (name : string) : family :=
  Summary name (fmt_g (sum_sum (summary_of r name))) (fmt_g (sum_count (summary_of r name))).

(** ** Clean words *)

(** A word of a line: no blank, no line break. *)
Definition clean (s : string) : bool := avoids newline s && avoids " " s.

Lemma clean_app a b : clean a = true -> clean b = true -> clean (a +:+ b) = true.
Proof.
  unfold clean. rewrite !avoids_app, !andb_true_iff. tauto.
Qed.

Lemma clean_cons c s : clean (String c "") = true -> clean s = true -> clean (String c s) = true.
Proof. exact (clean_app (String c "") s). Qed.

Lemma pretty_N_char_clean x : clean (String (pretty_N_char x) "") = true.
Proof. unfold pretty_N_char. by repeat case_match. Qed.

Lemma pretty_N_go_clean x s : clean s = true -> clean (pretty_N_go x s) = true.
Proof.
  revert s. induction (N.lt_wf_0 x) as [x _ IH]; intros s Hs.
  destruct (decide (x = 0%N)) as [->|Hx]; [exact Hs|].
  rewrite pretty_N_go_step by lia. apply IH; [apply N.div_lt; lia|].
  apply clean_cons; [apply pretty_N_char_clean | exact Hs].
Qed.

Lemma fmt_d_clean z : clean (fmt_d z) = true.
Proof.
  assert (HN : forall n : N, clean (pretty n) = true).
  { intros n. unfold pretty, pretty_N. case_decide; [done|]. by apply pretty_N_go_clean. }
  unfold fmt_d, pretty, pretty_Z. destruct z as [|p|p]; [done | apply HN|].
  apply clean_app; [done | apply HN].
Qed.

Lemma substring_avoids d n m s : avoids d s = true -> avoids d (String.substring n m s) = true.
Proof.
  revert n m. induction s as [|c s IH]; intros [|n] [|m]; cbn; try done;
    intros [Hc Hs]%andb_true_iff; rewrite ?Hc; by apply IH.
Qed.

Lemma clean_substring n m s : clean s = true -> clean (String.substring n m s) = true.
Proof.
  unfold clean. rewrite !andb_true_iff. intros [H1 H2]. split; by apply substring_avoids.
Qed.

Lemma zeros_clean n : clean (zeros n) = true.
Proof.
  unfold zeros. induction (Z.to_nat n) as [|k IH]; [done|]. destruct k as [|k]; [done|].
  change (clean ("0" +:+ ("" +:+ String.concat "" (replicate (S k) "0"))) = true).
  by apply clean_app.
Qed.

Lemma fmt_g_clean f : clean (fmt_g f) = true.
Proof.
  destruct f as [s|s| |s m e]; [by destruct s | by destruct s | done|].
  unfold fmt_g. destruct (shortest m e) as [digits x].
  pose proof (fmt_d_clean digits) as Hd. set (t := fmt_d digits) in *.
  apply clean_app; [by destruct s|]. destruct (_ || _).
  - unfold fmtE. repeat apply clean_app; try (by apply clean_substring); try apply fmt_d_clean;
      try (by destruct (_ <? _)).
    destruct (_ <=? _)%nat; [done|]. apply clean_app; [done | by apply clean_substring].
  - unfold fmtF. destruct (_ <=? 0); [|destruct (_ <=? _)]; repeat apply clean_app;
      first [exact Hd | apply zeros_clean | by apply clean_substring | done].
Qed.

(** ** Reading back *)

Lemma words_clean a : clean a = true -> words a = [a].
Proof. intros [_ Ha]%andb_true_iff. by apply split_on_none. Qed.

Lemma words_cons a b : clean a = true -> words (a +:+ " " +:+ b) = a :: words b.
Proof. intros [_ Ha]%andb_true_iff. by apply split_on_app. Qed.

(** The first line of a text. *)
Lemma first_line (line rest : string) :
  avoids newline line = true ->
  map words (split_on newline (line +:+ nl +:+ rest)) =
    words line :: map words (split_on newline rest).
Proof. intros Hl. unfold nl. by rewrite append_cons, append_empty, split_on_app. Qed.

Lemma clean_newline a : clean a = true -> avoids newline a = true.
Proof. by intros [? _]%andb_true_iff. Qed.

Lemma type_line name ty rest :
  clean name = true -> clean ty = true ->
  map words (split_on newline ("# TYPE " +:+ name +:+ " " +:+ ty +:+ nl +:+ rest)) =
    ["#"; "TYPE"; name; ty] :: map words (split_on newline rest).
Proof.
  intros Hn Ht. rewrite <- !append_assoc, append_assoc, first_line.
  - f_equal. change ("# TYPE " +:+ name) with ("#" +:+ " " +:+ "TYPE" +:+ " " +:+ name).
    rewrite !append_assoc. rewrite !words_cons by done. by rewrite words_clean.
  - by rewrite !avoids_app, (clean_newline name), (clean_newline ty).
Qed.

Lemma value_line name v rest :
  clean name = true -> clean v = true ->
  map words (split_on newline (name +:+ " " +:+ v +:+ nl +:+ rest)) =
    [name; v] :: map words (split_on newline rest).
Proof.
  intros Hn Hv. rewrite <- !append_assoc, append_assoc, first_line.
  - rewrite append_assoc, words_cons by done. by rewrite words_clean.
  - by rewrite !avoids_app, (clean_newline name), (clean_newline v).
Qed.

Lemma parse_metric name ty f rest :
  clean name = true -> clean ty = true -> ty <> "summary" ->
  parse_exposition (writeMetric name ty f +:+ rest) =
    cons (Sample name ty (fmt_g f)) <$> parse_exposition rest.
Proof.
  intros Hn Ht Hty. unfold parse_exposition, writeMetric. rewrite !append_assoc.
  rewrite type_line, value_line by (done || apply fmt_g_clean). cbn [parse_lines].
  apply String.eqb_neq in Hty. by rewrite Hty, String.eqb_refl.
Qed.

Lemma parse_summary name s rest :
  clean name = true ->
  parse_exposition (writeSummary name s +:+ rest) =
    cons (Summary name (fmt_g (sum_sum s)) (fmt_g (sum_count s))) <$> parse_exposition rest.
Proof.
  intros Hn. unfold parse_exposition, writeSummary. rewrite !append_assoc.
  change (" summary" +:+ ?t) with (" " +:+ "summary" +:+ t).
  rewrite (type_line name "summary") by done.
  change (name +:+ "_sum " +:+ ?t) with (name +:+ ("_sum" +:+ (" " +:+ t))).
  rewrite <- (append_assoc name "_sum").
  change (name +:+ "_count " +:+ ?t) with (name +:+ ("_count" +:+ (" " +:+ t))).
  rewrite <- (append_assoc name "_count").
  rewrite !value_line by (apply fmt_g_clean || by apply clean_app).
  cbn [parse_lines]. by rewrite !String.eqb_refl.
Qed.

(** ** The registered metrics *)

(** The registry always holds the metrics it was made with. *)
Definition registry_wf (r : Registry) : Prop :=
  dom (reg_counters r) = dom (reg_counters NewRegistry) /\
  dom (reg_gauges r) = dom (reg_gauges NewRegistry) /\
  dom (reg_summaries r) = dom (reg_summaries NewRegistry).

Lemma dom_insert_known {A} (m : gmap string A) (D : gset string) k v :
  dom m = D -> k ∈ D -> dom (<[k := v]> m) = D.
Proof. intros Hd Hk. rewrite dom_insert_L. set_solver. Qed.

Lemma addCounter_wf name v r :
  name ∈ dom (reg_counters NewRegistry) -> registry_wf r -> registry_wf (addCounter name v r).
Proof. intros Hn (Hc & Hg & Hs). split_and!; [by apply dom_insert_known | done | done]. Qed.

Lemma observe_wf name d r :
  name ∈ dom (reg_summaries NewRegistry) -> registry_wf r ->
  registry_wf (observe_duration name d r).
Proof. intros Hn (Hc & Hg & Hs). split_and!; [done | done | by apply dom_insert_known]. Qed.

Lemma setGauge_wf name v r :
  name ∈ dom (reg_gauges NewRegistry) -> registry_wf r -> registry_wf (setGauge name v r).
Proof. intros Hn (Hc & Hg & Hs). split_and!; [done | by apply dom_insert_known | done]. Qed.

Lemma apply_metric_wf op r : registry_wf r -> registry_wf (apply_metric op r).
Proof.
  intros Hr. destruct op; cbn [apply_metric];
    repeat first [apply observe_wf; [apply elem_of_dom; by eexists|]
                 | apply addCounter_wf; [apply elem_of_dom; by eexists|]
                 | apply setGauge_wf; [apply elem_of_dom; by eexists|]]; exact Hr.
Qed.

Lemma interp_registry_wf `{!Postgres} {X} `{!Env X} A (c : Call A) (w : World X) :
  registry_wf (w_metrics w) -> registry_wf (w_metrics (interp A c w).1).
Proof.
  intros Hw. destruct c; cbn [interp]; unfold ask, exec_sql;
    repeat (case_match; simpl); try done; by apply apply_metric_wf.
Qed.

(** ** Sorted keys *)

Lemma sortedKeys_any_order {A} (m : gmap string A) keys :
  keys ≡ₚ (map_to_list m).*1 -> merge_sort String.le keys = sortedKeys m.
Proof.
  intros Hk. unfold sortedKeys. apply (Sorted_unique String.le).
  - apply Sorted_merge_sort, _.
  - apply Sorted_merge_sort, _.
  - by rewrite !merge_sort_Permutation.
Qed.

Lemma keys_dom {A} (m : gmap string A) : (map_to_list m).*1 ≡ₚ elements (dom m).
Proof. by rewrite dom_alt, elements_list_to_set by apply NoDup_fst_map_to_list. Qed.

Lemma sortedKeys_dom {A B} (m1 : gmap string A) (m2 : gmap string B) :
  dom m1 = dom m2 -> sortedKeys m1 = sortedKeys m2.
Proof. intros Hd. apply sortedKeys_any_order. by rewrite !keys_dom, Hd. Qed.

Lemma sortedKeys_sorted {A} (m : gmap string A) : Sorted String.le (sortedKeys m).
Proof. apply Sorted_merge_sort, _. Qed.

Definition counter_names : list string := sortedKeys (reg_counters NewRegistry).
Definition gauge_names : list string := sortedKeys (reg_gauges NewRegistry).
Definition summary_names : list string := sortedKeys (reg_summaries NewRegistry).

Example metric_names :
  (counter_names, gauge_names, summary_names) =
  (["gotaskqueue_tasks_dead_total"; "gotaskqueue_tasks_failed_total";
    "gotaskqueue_tasks_retried_total"; "gotaskqueue_tasks_started_total";
    "gotaskqueue_tasks_submitted_total"; "gotaskqueue_tasks_succeeded_total"],
   ["gotaskqueue_queue_backlog"; "gotaskqueue_worker_running_tasks"],
   ["gotaskqueue_task_execution_duration_seconds"; "gotaskqueue_task_wait_duration_seconds"]).
Proof. vm_compute. reflexivity. Qed.

Lemma registry_names r :
  registry_wf r ->
  sortedKeys (reg_counters r) = counter_names /\ sortedKeys (reg_gauges r) = gauge_names /\
  sortedKeys (reg_summaries r) = summary_names.
Proof. intros (Hc & Hg & Hs). split_and!; by apply sortedKeys_dom. Qed.

Definition concat_text (texts : list string) : string := foldr String.append "" texts.

Lemma parse_texts {A} (text : A -> string) (fam : A -> family) names rest fams :
  (forall name rest, name ∈ names ->
     parse_exposition (text name +:+ rest) = cons (fam name) <$> parse_exposition rest) ->
  parse_exposition (concat_text rest) = Some fams ->
  parse_exposition (concat_text (map text names ++ rest)) = Some (map fam names ++ fams).
Proof.
  intros Ht Hr. induction names as [|name names IH]; [exact Hr|]. cbn [map app concat_text foldr].
  rewrite Ht by left. unfold concat_text in IH. rewrite IH; [done|].
  intros name' rest' Hin. apply Ht. by right.
Qed.

(** What a scraper of this application should read. *)
Definition families (r : Registry) : list family :=
  map (counter_family r) counter_names ++ map (gauge_family r) gauge_names ++
  map (summary_family r) summary_names.

Lemma names_clean name :
  name ∈ counter_names ++ gauge_names ++ summary_names -> clean name = true.
Proof.
  assert (H : forallb clean (counter_names ++ gauge_names ++ summary_names) = true)
    by (vm_compute; reflexivity).
  rewrite forallb_forall in H. rewrite list_elem_of_In. apply H.
Qed.

Lemma parse_concat r :
  registry_wf r -> parse_exposition (concat_text (exposition r)) = Some (families r).
Proof.
  intros Hr. unfold exposition, families. destruct (registry_names r Hr) as (-> & -> & ->).
  rewrite <- (app_nil_r (map (fun name => writeSummary _ _) _)).
  rewrite <- (app_nil_r (map (summary_family r) _)).
  apply parse_texts; [|apply parse_texts; [|apply parse_texts; [|done]]];
    intros name rest Hin; [apply parse_metric | apply parse_metric | apply parse_summary];
    try done; apply names_clean; rewrite !elem_of_app; auto.
Qed.

Lemma write_all_accepting texts acc :
  write_all (fun text w => (w +:+ text, None)) texts acc = (acc +:+ concat_text texts, None).
Proof.
  revert acc. induction texts as [|t ts IH]; intros acc; cbn [write_all concat_text foldr].
  - by rewrite append_nil.
  - by rewrite IH, append_assoc.
Qed.
