(* ===== verification/Store.v ===== *)
(** * The Postgres task store

    src/internal/task/store.go: the methods of [task.Store], each one SQL
    statement, and the interface the worker and the scheduler see. *)

From S2P Require Import Prelude GoStd Errors Task Effects Table Metrics Calls.
Local Open Scope Z_scope.

(** ** Identifiers *)

Definition hex_digit (n : nat) : Ascii.ascii :=
  Ascii.ascii_of_nat (if (n <? 10)%nat then 48 + n else 87 + n).

(** [hex.EncodeToString]. *)
Fixpoint hex_EncodeToString (bs : list Byte.byte) : string :=
  match bs with
  | [] => ""
  | b :: bs' =>
      let n := N.to_nat (Byte.to_N b) in
      String (hex_digit (n / 16)) (String (hex_digit (n mod 16)) (hex_EncodeToString bs'))
  end.

(** [rand.Read] never fails: it crashes the process instead. *)
Definition newID : prog Call string :=
  bytes ← call (RandRead 16);
  Ret ("task_" +:+ hex_EncodeToString bytes).

(** ** Rows to tasks *)

Definition task_of (r : Row) (newly_created : bool) : Task :=
  {| ID := row_id r;
     Type_ := row_task_type r;
     Payload := row_payload r;
     Status_ := row_status r;
     NewlyCreated := newly_created;
     IdempotencyKey := row_idempotency_key r;
     TraceID := row_trace_id r;
     RunAt := row_run_at r;
     TimeoutSeconds := row_timeout_seconds r;
     MaxRetries := row_max_retries r;
     RetryCount := row_retry_count r;
     NextRetryAt := row_next_retry_at r;
     LastError := row_last_error r;
     WorkerID := row_worker_id r;
     StartedAt := row_started_at r;
     FinishedAt := row_finished_at r;
     CreatedAt := row_created_at r;
     UpdatedAt := row_updated_at r |}.

(** [db.QueryRow(...)]: the first row, or [pgx.ErrNoRows]. *)
Definition query_row {A} (q : Stmt (list A)) : prog Call (result A) :=
  r ← call (Sql q);
  Ret (match r with
       | Ok (a :: _) => Ok a
       | Ok [] => Err (Sentinel ErrNoRows)
       | Err e => Err e
       end).

(** [scanTask] leaves [NewlyCreated] at its zero value;
    [scanTaskWithCreationFlag] reads it from the last column. *)
Definition scanTask (row : result Row) : result Task :=
  res_map (fun r => task_of r false) row.

Definition scanTaskWithCreationFlag (row : result (Row * bool)) : result Task :=
  res_map (fun rf => task_of rf.1 rf.2) row.

(** [if errors.Is(err, pgx.ErrNoRows) { return nil, ErrNotFound }]. *)
Definition not_found (r : result Task) : result Task :=
  if err_Is r ErrNoRows then Err (Sentinel ErrNotFound) else r.

(** [db.Query(...)] and the loop over [rows.Next()]. *)
Definition query_tasks (q : Stmt (list Row)) : prog Call (result (list Task)) :=
  r ← call (Sql q);
  Ret (res_map (map (fun row => task_of row false)) r).

(** ** The methods *)

Record CreateTaskParams := mkCreateTaskParams {
  cp_Type : string;
  cp_Payload : string;
  cp_IdempotencyKey : option string;
  cp_TraceID : option string;
  cp_RunAt : Time;
  cp_TimeoutSeconds : Z;
  cp_MaxRetries : Z;
}.

Definition Create (params : CreateTaskParams) : prog Call (result Task) :=
  now ← call TimeNow;
  let status := if time_After (cp_RunAt params) now then StatusScheduled else StatusPending in
  id ← newID;
  row ← query_row (InsertTask
    {| ins_id := id;
       ins_task_type := cp_Type params;
       ins_payload := cp_Payload params;
       ins_status := status;
       ins_idempotency_key := cp_IdempotencyKey params;
       ins_trace_id := cp_TraceID params;
       ins_run_at := cp_RunAt params;
       ins_timeout_seconds := cp_TimeoutSeconds params;
       ins_max_retries := cp_MaxRetries params |});
  Ret (scanTaskWithCreationFlag row).

Definition Get (id : string) : prog Call (result Task) :=
  row ← query_row (SelectTask id);
  Ret (not_found (scanTask row)).

Definition DueDispatchable (now : Time) (limit : Z) : prog Call (result (list Task)) :=
  query_tasks (SelectDueDispatchable now limit).

Definition DueScheduled (now : Time) (limit : Z) : prog Call (result (list Task)) :=
  DueDispatchable now limit.

Definition DueRetrying (now : Time) (limit : Z) : prog Call (result (list Task)) :=
  query_tasks (SelectDueRetrying now limit).

Definition ExpiredRunning (now : Time) (limit : Z) : prog Call (result (list Task)) :=
  query_tasks (SelectExpiredRunning now limit).

Definition MetricsSnapshot (now : Time) : prog Call (result Snapshot) :=
  row ← query_row (SelectMetricsSnapshot now);
  Ret (res_map (fun bc => mkSnapshot bc.1 bc.2) row).

Definition CountByStatus : prog Call (result (gmap Status Z)) :=
  r ← call (Sql SelectCountByStatus);
  Ret (res_map (foldl (fun counts sc => <[sc.1 := sc.2]> counts) ∅) r).

Definition RecentByStatus (status : Status) (limit : Z) : prog Call (result (list Task)) :=
  query_tasks (SelectRecentByStatus status limit).

Definition Recent (limit : Z) : prog Call (result (list Task)) :=
  query_tasks (SelectRecent limit).

Definition Transition (id : string) (from to : Status) (workerID : option string)
  : prog Call (result Task) :=
  if negb (CanTransition from to) then
    Ret (Err (Errorf "" (Sentinel ErrInvalidTransition) (": " +:+ from +:+ " -> " +:+ to)))
  else
    row ← query_row (UpdateTransition id from to workerID);
    Ret (not_found (scanTask row)).

Definition MarkFailed (id failure : string) : prog Call (result Task) :=
  row ← query_row (UpdateFailed id failure);
  Ret (not_found (scanTask row)).

Definition CompleteFailure (id : string) (decision : FailureDecision) (failure : string)
  : prog Call (result Task) :=
  if negb (String.eqb (fd_Status decision) StatusRetrying) &&
     negb (String.eqb (fd_Status decision) StatusDead) then
    Ret (Err (Errorf "" (Sentinel ErrInvalidTransition)
                (": failed -> " +:+ fd_Status decision)))
  else
    row ← query_row (UpdateComplete id (fd_Status decision) (fd_RetryCount decision)
                       (fd_NextRetryAt decision) failure);
    Ret (not_found (scanTask row)).

(** ** Interfaces

    [worker.TaskStore] and [scheduler.Store] are Go interfaces; the worker
    and the scheduler are modelled against any implementation of them. *)
Class TaskStore := {
  ts_Get : string -> prog Call (result Task);
  ts_Transition : string -> Status -> Status -> option string -> prog Call (result Task);
  ts_MarkFailed : string -> string -> prog Call (result Task);
  ts_CompleteFailure : string -> FailureDecision -> string -> prog Call (result Task);
}.

Class SchedulerStore := {
  ss_TaskStore :: TaskStore;
  ss_ExpiredRunning : Time -> Z -> prog Call (result (list Task));
  ss_DueRetrying : Time -> Z -> prog Call (result (list Task));
}.

#[export] Instance store_TaskStore : TaskStore := {|
  ts_Get := Get;
  ts_Transition := Transition;
  ts_MarkFailed := MarkFailed;
  ts_CompleteFailure := CompleteFailure |}.

#[export] Instance store_SchedulerStore : SchedulerStore := {|
  ss_TaskStore := store_TaskStore;
  ss_ExpiredRunning := ExpiredRunning;
  ss_DueRetrying := DueRetrying |}.

(** ** Contracts

    What an implementation promises: the effect a method has had on the
    table when it returns without error, the two effects it may have had
    when it returns an error (the statement was not executed, or it was and
    its answer was lost), and that it touches nothing else. *)
Section contract.
Context {PG : Postgres} {X : Type} {EV : Env X}.

(** [update_effect id guard set t t' r]: row [id] satisfied [guard] and was
    replaced by its image under [set], at some transaction time; [r] is the
    new row. *)
Definition update_effect (id : string) (guard : Row -> Prop) (set : Time -> Row -> Row)
    (t t' : table) (r' : Row) : Prop :=
  exists r now, t !! id = Some r /\ guard r /\ r' = set now r /\
    row_check r' = true /\ t' = <[id := r']> t.

Definition updates (m : prog Call (result Task)) (id : string) (guard : Row -> Prop)
    (set : Time -> Row -> Row) : Prop :=
  forall w w' res, run interp m w = (w', res) ->
    w_metrics w' = w_metrics w /\
    match res with
    | Ok t => exists r', update_effect id guard set (w_table w) (w_table w') r' /\
                         t = task_of r' false
    | Err _ => w_table w' = w_table w \/
               exists r', update_effect id guard set (w_table w) (w_table w') r'
    end.

Class TaskStoreContract (S : TaskStore) : Prop := {
  tsc_Get id w w' res :
    run interp (ts_Get id) w = (w', res) ->
    w_metrics w' = w_metrics w /\ w_table w' = w_table w /\
    match res with
    | Ok t => exists r, w_table w !! id = Some r /\ t = task_of r false
    | Err _ => True
    end;
  tsc_Transition id from to worker :
    updates (ts_Transition id from to worker) id
      (fun r => row_status r = from /\ CanTransition from to = true)
      (set_transition to worker);
  tsc_MarkFailed id failure :
    updates (ts_MarkFailed id failure) id (fun r => row_status r = StatusRunning)
      (set_failed failure);
  tsc_CompleteFailure id d failure :
    updates (ts_CompleteFailure id d failure) id
      (fun r => row_status r = StatusFailed /\
                (fd_Status d = StatusRetrying \/ fd_Status d = StatusDead))
      (set_complete (fd_Status d) (fd_RetryCount d) (fd_NextRetryAt d) failure);
}.
End contract.

(** Whatever it returns, such a method leaves the table alone or makes its
    replacement. *)
Lemma updates_run `{PG : Postgres} {X : Type} {EV : Env X} m id guard set
    (w w' : World X) r :
  updates m id guard set -> run interp m w = (w', r) ->
  w_table w' = w_table w \/
  exists row now, w_table w !! id = Some row /\
    w_table w' = <[id := set now row]> (w_table w).
Proof.
  intros Hu Hr. apply Hu in Hr as [_ Hr]. destruct r as [t|e].
  - destruct Hr as (r' & (row & now & Hrow & _ & -> & _ & Ht) & _). right. eauto.
  - destruct Hr as [Hr | (r' & row & now & Hrow & _ & -> & _ & Ht)]; [by left|]. right. eauto.
Qed.

(** ** Facts on single statements *)

Section sql_facts.
Context {PG : Postgres} {X : Type} {EV : Env X}.
Implicit Type w : World X.

(** The three ways a statement can end. *)
Lemma exec_sql_cases {A} (q : Stmt A) w w' r :
  exec_sql q w = (w', r) ->
  w_metrics w' = w_metrics w /\
  ((exists e, r = Err e /\ w_table w' = w_table w) \/
   exists x, let se := (env_sql A q x).2 in
     let rows := se_scan se (snd <$> map_to_list (w_table w)) in
     let out := exec_stmt q (se_now se) rows (w_table w) in
     w_table w' = out.1 /\ (r = out.2 \/ exists e, r = Err e)).
Proof.
  unfold exec_sql. destruct (env_sql A q (w_ext w)) as [x se] eqn:E.
  destruct (se_fault se) as [[e|e]|] eqn:F.
  - intros [= <- <-]. split; [done|]. left. by exists e.
  - intros [= <- <-]. split; [done|]. right. exists (w_ext w). rewrite E. simpl.
    split; [done|]. right. by exists e.
  - destruct (exec_stmt _ _ _ _) as [t r'] eqn:Q. intros [= <- <-]. split; [done|].
    right. exists (w_ext w). rewrite E. simpl. rewrite Q. split; [done|]. by left.
Qed.

Lemma exec_sql_ok {A} (q : Stmt A) w w' a :
  exec_sql q w = (w', Ok a) ->
  w_metrics w' = w_metrics w /\
  exists x, let se := (env_sql A q x).2 in
    exec_stmt q (se_now se) (se_scan se (snd <$> map_to_list (w_table w))) (w_table w)
      = (w_table w', Ok a).
Proof.
  intros H. destruct (exec_sql_cases _ _ _ _ H) as [Hm [(e & He & _) | (x & Ht & Hr)]];
    [done|]. split; [done|]. exists x. cbv zeta in *.
  destruct (exec_stmt _ _ _ _) as [t r]; simpl in *.
  destruct Hr as [Hr | [e He]]; [congruence | done].
Qed.

Lemma run_query_row {A} (q : Stmt (list A)) w w' r :
  run interp (query_row q) w = (w', r) ->
  exists r0, exec_sql q w = (w', r0) /\
    r = match r0 with
        | Ok (a :: _) => Ok a
        | Ok [] => Err (Sentinel ErrNoRows)
        | Err e => Err e
        end.
Proof.
  unfold query_row. rewrite run_bind. simpl.
  destruct (exec_sql q w) as [w1 r0]. intros [= <- <-]. by exists r0.
Qed.

Lemma not_found_Ok (r : result Task) t : not_found r = Ok t -> r = Ok t.
Proof. unfold not_found. destruct r as [t'|e]; simpl; [done|]. by destruct (errors_Is e _). Qed.

Lemma scan_Err e : exists e', not_found (scanTask (Err e)) = Err e'.
Proof. unfold not_found. simpl. destruct (errors_Is e ErrNoRows); eauto. Qed.

(** The [UPDATE]-and-return methods satisfy [updates]. *)
Lemma updates_query_row (q : Stmt (list Row)) id (guard : Row -> bool)
    (P : Row -> Prop) set :
  (forall r, guard r = true -> P r) ->
  (forall now rows t, exec_stmt q now rows t = exec_update id guard (set now) t \/
                      exists e, exec_stmt q now rows t = (t, Err e)) ->
  updates (row ← query_row q; Ret (not_found (scanTask row))) id P set.
Proof.
  intros HP Hq w w' res. rewrite run_bind.
  destruct (run interp (query_row q) w) as [w1 r] eqn:Hr. simpl. intros [= <- <-].
  apply run_query_row in Hr as (r0 & Hr0 & ->).
  destruct (exec_sql_cases _ _ _ _ Hr0) as [Hm Hc]. split; [done|]. clear Hr0.
  assert (Hsame : forall e, w_table w1 = w_table w ->
    match not_found (scanTask (Err e)) with
    | Ok t => exists r', update_effect id P set (w_table w) (w_table w1) r' /\
                         t = task_of r' false
    | Err _ => w_table w1 = w_table w \/
               exists r', update_effect id P set (w_table w) (w_table w1) r'
    end).
  { intros e Ht. destruct (scan_Err e) as [e' ->]. by left. }
  destruct Hc as [(e & -> & Ht) | (x & Ht & Hr)]; [by apply Hsame|]. cbv zeta in *.
  set (se := (env_sql _ q x).2) in *.
  destruct (Hq (se_now se) (se_scan se (snd <$> map_to_list (w_table w))) (w_table w))
    as [Heq | [e Heq]]; rewrite Heq in Ht, Hr; clear Heq; simpl in Ht, Hr.
  2: { destruct Hr as [-> | [e' ->]]; by apply Hsame. }
  unfold exec_update in *.
  destruct (w_table w !! id) as [row|] eqn:Erow;
    [|destruct Hr as [-> | [e ->]]; by apply Hsame].
  destruct (guard row) eqn:Eg; [|destruct Hr as [-> | [e ->]]; by apply Hsame].
  destruct (row_check (set (se_now se) row)) eqn:Ec;
    [|destruct Hr as [-> | [e ->]]; by apply Hsame].
  assert (Heff : update_effect id P set (w_table w) (w_table w1) (set (se_now se) row)).
  { exists row, (se_now se). auto. }
  destruct Hr as [-> | [e ->]]; simpl; [by exists (set (se_now se) row)|].
  destruct (scan_Err e) as [e' He']. simpl in He'. rewrite He'. right; eauto.
Qed.

(** The errors of a failed statement are those of the driver: neither the
    absence of a row nor the store's [ErrNotFound]. *)
Definition driver_faults : Prop :=
  forall A (q : Stmt A) x,
    match se_fault (env_sql A q x).2 with
    | Some (Lost e) | Some (Unknown e) =>
        errors_Is e ErrNoRows = false /\ errors_Is e ErrNotFound = false
    | None => True
    end.

(** How an [UPDATE ... RETURNING] method ends, when the errors of the driver
    and of Postgres are none of the store's own: the statement was answered
    with an error, which is returned; or no row was in the status the
    statement asks for, and [ErrNotFound] is returned; or the row was
    replaced, and the new row is returned. *)
Lemma update_method_run {PL : PostgresLaws} (q : Stmt (list Row)) id guard set w w' res :
  driver_faults ->
  (forall now rows t, exec_stmt q now rows t = exec_update id guard (set now) t \/
                      exists c, exec_stmt q now rows t = (t, Err (pg_error c))) ->
  let m := row ← query_row q; Ret (not_found (scanTask row)) in
  run interp m w = (w', res) ->
  (exists e, Ev (Sql q) (Err e) ∈ run_trace interp m w /\ res = Err e /\
     errors_Is e ErrNotFound = false /\
     (w_table w' = w_table w \/
      exists r now, w_table w !! id = Some r /\ guard r = true /\
        w_table w' = <[id := set now r]> (w_table w))) \/
  (res = Err (Sentinel ErrNotFound) /\ w_table w' = w_table w /\
     forall r, w_table w !! id = Some r -> guard r = false) \/
  (exists r now, w_table w !! id = Some r /\ guard r = true /\
     res = Ok (task_of (set now r) false) /\ w_table w' = <[id := set now r]> (w_table w)).
Proof.
  intros Hf Hq. cbv zeta. specialize (Hf _ q (w_ext w)).
  assert (Hpg : forall c, not_found (Err (pg_error c) : result Task) = Err (pg_error c)).
  { intros c. unfold not_found, err_Is. by rewrite pg_error_other. }
  assert (Herr : forall e, errors_Is e ErrNoRows = false ->
    not_found (Err e : result Task) = Err e) by (intros e He; unfold not_found; simpl; by rewrite He).
  unfold query_row. cbn [run run_trace mbind prog_mbind prog_bind call interp].
  unfold exec_sql. destruct (env_sql _ q (w_ext w)) as [x se]. cbn [snd] in Hf.
  set (rows := se_scan se _).
  assert (Hout : let (t, out) := exec_stmt q (se_now se) rows (w_table w) in
    (t = w_table w \/ exists r now, w_table w !! id = Some r /\ guard r = true /\
       t = <[id := set now r]> (w_table w)) /\
    ((exists c, out = Err (pg_error c) /\ t = w_table w) \/
     (out = Ok [] /\ t = w_table w /\ forall r, w_table w !! id = Some r -> guard r = false) \/
     (exists r now, w_table w !! id = Some r /\ guard r = true /\ out = Ok [set now r] /\
        t = <[id := set now r]> (w_table w)))).
  { destruct (Hq (se_now se) rows (w_table w)) as [-> | [c ->]];
      [|split; [by left | left; by exists c]].
    unfold exec_update. destruct (w_table w !! id) as [r|] eqn:Er;
      [|split; [by left | right; left; by repeat split]].
    destruct (guard r) eqn:Eg.
    - destruct (row_check _); split; eauto 10.
    - split; [by left | right; left]. repeat split. by intros ? [= <-]. }
  destruct (se_fault se) as [[e|e]|].
  - intros [= <- <-]. left. exists e. destruct Hf as [H1 H2]. rewrite Herr by done.
    split; [left|]. do 2 (split; [done|]). by left.
  - destruct (exec_stmt _ _ _ _) as [t out]. destruct Hout as [Ht _]. intros [= <- <-].
    left. exists e. destruct Hf as [H1 H2]. rewrite Herr by done. split; [left|].
    by do 2 (split; [done|]).
  - destruct (exec_stmt _ _ _ _) as [t out]. destruct Hout as [_ Hout]. intros [= <- <-].
    destruct Hout as [(c & -> & ->) | [(-> & -> & Hno) | (r & now & Hr & Hg & -> & ->)]].
    + left. exists (pg_error c). split; [left|]. split; [by apply Hpg|].
      split; [apply pg_error_other | by left].
    + right. left. by split.
    + right. right. by exists r, now.
Qed.

Lemma updates_Transition id from to worker :
  updates (Transition id from to worker) id
    (fun r => row_status r = from /\ CanTransition from to = true)
    (set_transition to worker).
Proof.
  unfold Transition. destruct (CanTransition from to) eqn:Hc; simpl.
  - apply updates_query_row with (guard := fun r => String.eqb (row_status r) from).
    + intros r Hr%String.eqb_eq. auto.
    + intros now rows t. by left.
  - intros w w' res [= <- <-]. split; [done|]. by left.
Qed.

Lemma updates_MarkFailed id failure :
  updates (MarkFailed id failure) id (fun r => row_status r = StatusRunning)
    (set_failed failure).
Proof.
  apply updates_query_row with (guard := fun r => String.eqb (row_status r) "running").
  - by intros r Hr%String.eqb_eq.
  - intros now rows t. by left.
Qed.

Lemma updates_CompleteFailure id d failure :
  updates (CompleteFailure id d failure) id
    (fun r => row_status r = StatusFailed /\
              (fd_Status d = StatusRetrying \/ fd_Status d = StatusDead))
    (set_complete (fd_Status d) (fd_RetryCount d) (fd_NextRetryAt d) failure).
Proof.
  unfold CompleteFailure.
  destruct (String.eqb_spec (fd_Status d) StatusRetrying) as [E1|E1];
  destruct (String.eqb_spec (fd_Status d) StatusDead) as [E2|E2]; simpl.
  4: { intros w w' res [= <- <-]. split; [done|]. by left. }
  all: apply updates_query_row with (guard := fun r => String.eqb (row_status r) "failed");
    [intros r Hr%String.eqb_eq; split; [done | tauto] |
     intros now rows t; simpl; destruct (negb (int4 _)); eauto].
Qed.

#[export] Instance store_contract : TaskStoreContract store_TaskStore.
Proof.
  split.
  - intros id w w' res. cbn [ts_Get store_TaskStore]. unfold Get. rewrite run_bind.
    destruct (run interp (query_row (SelectTask id)) w) as [w1 r] eqn:Hr. simpl.
    intros [= <- <-]. apply run_query_row in Hr as (r0 & Hr0 & ->).
    destruct (exec_sql_cases _ _ _ _ Hr0) as [Hm [(e & -> & Ht) | (x & Ht & Hr)]].
    + split; [done|]. split; [done|]. simpl. unfold not_found. simpl.
      by destruct (errors_Is e _).
    + simpl in Ht, Hr. split; [done|]. split; [done|].
      destruct Hr as [-> | [e ->]]; simpl.
      * destruct (w_table w !! id) as [row|]; simpl; [|done].
        unfold not_found. simpl. by exists row.
      * unfold not_found. simpl. by destruct (errors_Is e _).
  - apply updates_Transition.
  - apply updates_MarkFailed.
  - apply updates_CompleteFailure.
Qed.
End sql_facts.

(** ** Properties of the store *)

Section store_properties.
Context {PG : Postgres} {X : Type} {EV : Env X}.
Implicit Type w : World X.

Lemma run_wf {A} (m : prog Call A) w :
  table_wf (w_table w) -> table_wf (w_table (run interp m w).1).
Proof.
  apply (run_preserves interp (fun w => table_wf (w_table w))).
  intros B c w' Hwf. eapply table_step_wf; [exact Hwf|]. apply interp_table_step.
Qed.

(** C7: [Transition] is a guarded compare-and-swap. A pair outside the status
    machine is refused without touching the database. Otherwise, when a
    task is returned, the row was in status [from] and was replaced by the
    same row in status [to], the returned task being the new row; when an
    error is returned the table is unchanged, or that same replacement
    happened and only its answer was lost. *)
Theorem Transition_cas id from to worker w w' r :
  run interp (Transition id from to worker) w = (w', r) ->
  (CanTransition from to = false ->
     w' = w /\ exists e, r = Err e /\ errors_Is e ErrInvalidTransition = true) /\
  match r with
  | Ok t => exists row now,
      w_table w !! id = Some row /\ row_status row = from /\
      w_table w' = <[id := set_transition to worker now row]> (w_table w) /\
      t = task_of (set_transition to worker now row) false
  | Err _ => w_table w' = w_table w \/
      exists row now, w_table w !! id = Some row /\ row_status row = from /\
        w_table w' = <[id := set_transition to worker now row]> (w_table w)
  end.
Proof.
  intros Hrun. split.
  - intros Hc. unfold Transition in Hrun. rewrite Hc in Hrun. simpl in Hrun.
    injection Hrun as <- <-. split; [done|]. eexists. split; [done|]. done.
  - apply updates_Transition in Hrun as [_ Hrun]. destruct r as [t|e].
    + destruct Hrun as (r' & (row & now & Hrow & [Hst _] & -> & _ & Ht) & ->).
      exists row, now. auto.
    + destruct Hrun as [Hs | (r' & row & now & Hrow & [Hst _] & -> & _ & Ht)]; [by left|].
      right. exists row, now. auto.
Qed.

(** What a successful [Create] has done. *)
Lemma Create_ok params w w' t :
  run interp (Create params) w = (w', Ok t) ->
  (NewlyCreated t = false /\ w_table w' = w_table w /\
     exists k r, cp_IdempotencyKey params = Some k /\ row_with_key k (w_table w) = Some r /\
                 t = task_of r false) \/
  (NewlyCreated t = true /\
     exists a payload now, let r := inserted_row a payload now in
       t = task_of r true /\ ins_idempotency_key a = cp_IdempotencyKey params /\
       (ins_status a = StatusPending \/ ins_status a = StatusScheduled) /\
       w_table w !! row_id r = None /\
       (forall k, cp_IdempotencyKey params = Some k -> row_with_key k (w_table w) = None) /\
       w_table w' = <[row_id r := r]> (w_table w)).
Proof.
  unfold Create. simpl. unfold ask. destruct (env_time (w_ext w)) as [x1 now1] eqn:E1.
  simpl. destruct (env_rand 16 x1) as [x2 bs] eqn:E2. simpl.
  set (a := mkInsert _ _ _ _ _ _ _ _ _).
  destruct (exec_sql (InsertTask a) _) as [w3 r0] eqn:E3. simpl. intros [= <- Ht].
  destruct r0 as [[|[row b] l]|e]; simplify_eq/=.
  apply exec_sql_ok in E3 as [_ [x E3]]. simpl in E3.
  destruct (exec_insert_cases a (se_now (env_sql _ (InsertTask a) x).2) (w_table w))
    as [(c & Hc) | [(k & r & Hk & Hr & Hc) | (payload & Hp & Hck & Hid & Hk & Hc)]];
    rewrite Hc in E3; simplify_eq/=.
  - left. split; [done|]. split; [done|]. exists k, row. auto.
  - right. split; [done|]. exists a, payload, (se_now (env_sql _ (InsertTask a) x).2).
    cbv zeta. split; [done|]. split; [done|].
    split; [unfold a; simpl; case_match; auto|]. auto.
Qed.

(** What a failed [Create] may have done: its [INSERT] was answered with an
    error, and nothing was inserted, or a new row whose answer was lost. *)
Lemma Create_err_cases params w w' e :
  run interp (Create params) w = (w', Err e) ->
  (exists a e', Ev (Sql (InsertTask a)) (Err e') ∈ run_trace interp (Create params) w) /\
  (w_table w' = w_table w \/
   exists a payload now, let r := inserted_row a payload now in
     ins_idempotency_key a = cp_IdempotencyKey params /\
     (ins_status a = StatusPending \/ ins_status a = StatusScheduled) /\
     w_table w !! row_id r = None /\
     (forall k, cp_IdempotencyKey params = Some k -> row_with_key k (w_table w) = None) /\
     w_table w' = <[row_id r := r]> (w_table w)).
Proof.
  unfold Create. simpl. unfold ask. destruct (env_time (w_ext w)) as [x1 now1] eqn:E1.
  simpl. destruct (env_rand 16 x1) as [x2 bs] eqn:E2. simpl.
  set (a := mkInsert _ _ _ _ _ _ _ _ _).
  destruct (exec_sql (InsertTask a) _) as [w3 r0] eqn:E3. simpl. intros [= <- He].
  destruct (exec_sql_cases _ _ _ _ E3) as [_ Hc]. cbv zeta in Hc. simpl in Hc.
  assert (Hr0 : exists e', r0 = Err e').
  { destruct Hc as [(e' & -> & _) | (x & _ & [-> | [e' ->]])]; [by eexists| |by eexists].
    destruct (exec_insert_cases a (se_now (env_sql _ (InsertTask a) x).2) (w_table w))
      as [(c & Hx) | [(k & r & _ & _ & Hx) | (payload & _ & _ & _ & _ & Hx)]];
      rewrite Hx in He |- *; simpl in He; [by eexists | done | done]. }
  split; [destruct Hr0 as [e' ->]; exists a, e'; do 2 right; left|].
  destruct Hc as [(e' & _ & Ht) | (x & Ht & _)]; [by left|].
  destruct (exec_insert_cases a (se_now (env_sql _ (InsertTask a) x).2) (w_table w))
    as [(c & Hc) | [(k & r & _ & _ & Hc) | (payload & _ & _ & Hid & Hk & Hc)]];
    rewrite Hc in Ht; simpl in Ht; [by left | by left | right].
  exists a, payload, (se_now (env_sql _ (InsertTask a) x).2). cbv zeta.
  split; [done|]. split; [unfold a; simpl; destruct (time_After _ _); auto|]. by split.
Qed.

(** An idempotency key stays with its row, however the table evolves. *)
Lemma key_kept k id t t' :
  rtc table_step t t' -> table_wf t ->
  (exists r, t !! id = Some r /\ row_idempotency_key r = Some k /\ row_id r = id) ->
  table_wf t' /\ exists r, row_with_key k t' = Some r /\ t' !! id = Some r /\ row_id r = id.
Proof.
  induction 1 as [t | t1 t2 t3 Hs _ IH]; intros Hwf (r & Hr & Hk & Hi).
  { split; [done|]. exists r. split; [by eapply row_with_key_unique | done]. }
  apply IH; [by eapply table_step_wf|]. destruct Hs as [|r' Hn _ _ _ | id' r0 r' Hr0 Hid _].
  - by exists r.
  - exists r. rewrite lookup_insert_ne by congruence. done.
  - destruct (decide (id = id')) as [->|].
    + simplify_eq. exists r'. rewrite lookup_insert_eq.
      destruct Hid as (? & ? & ? & ? & _). split; [done|]. by split; congruence.
    + exists r. by rewrite lookup_insert_ne by congruence.
Qed.

(** A [Create] with a key that is in use changes nothing. *)
Lemma Create_known_key params k r w w' res :
  cp_IdempotencyKey params = Some k -> row_with_key k (w_table w) = Some r ->
  run interp (Create params) w = (w', res) ->
  w_table w' = w_table w /\ forall t, res = Ok t -> t = task_of r false.
Proof.
  intros Hk Hr Hrun. destruct res as [t|e].
  - destruct (Create_ok _ _ _ _ Hrun) as [(_ & Ht & k' & r' & Hkk & Hr' & ->) |
      (_ & a & payload & now & _ & _ & _ & _ & Hnone & _)].
    + split; [exact Ht|]. intros t [= <-]. congruence.
    + rewrite (Hnone k Hk) in Hr. discriminate Hr.
  - split; [|done]. destruct (Create_err_cases _ _ _ _ Hrun)
      as [_ [Ht | (a & payload & now & _ & _ & _ & Hnone & _)]]; [exact Ht|].
    rewrite (Hnone k Hk) in Hr. discriminate Hr.
Qed.

(** C6: submission is idempotent. Once [Create] has returned a task for an
    idempotency key, then however the table evolves in between (rows added,
    rows changed by any statements), every later [Create] with that key that
    returns a task returns the task of the same id, not newly created, and
    leaves the table as it is. *)
Theorem Create_idempotent params params' k w w1 w2 w3 t t' :
  table_wf (w_table w) ->
  cp_IdempotencyKey params = Some k -> cp_IdempotencyKey params' = Some k ->
  run interp (Create params) w = (w1, Ok t) ->
  rtc table_step (w_table w1) (w_table w2) ->
  run interp (Create params') w2 = (w3, Ok t') ->
  ID t' = ID t /\ NewlyCreated t' = false /\ w_table w3 = w_table w2.
Proof.
  intros Hwf Hk Hk' H1 Hsteps H2.
  assert (Hwf1 : table_wf (w_table w1)).
  { pose proof (run_wf (Create params) w Hwf) as H. by rewrite H1 in H. }
  assert (Hrow : exists r, w_table w1 !! ID t = Some r /\
                   row_idempotency_key r = Some k /\ row_id r = ID t).
  { destruct (Create_ok _ _ _ _ H1) as [(_ & Ht & k' & r & Hkk & Hr & ->) |
      (_ & a & payload & now & -> & Ha & _ & _ & _ & Ht)].
    - assert (k' = k) as -> by congruence. rewrite Ht.
      apply row_with_key_Some in Hr as (id & Hr & Hrk). exists r.
      cbn [ID task_of]. by rewrite (wf_id _ Hwf _ _ Hr).
    - rewrite Ht. cbv zeta. eexists. rewrite lookup_insert_eq.
      split; [done|]. simpl. by rewrite Ha. }
  destruct (key_kept _ _ _ _ Hsteps Hwf1 Hrow) as [_ (r & Hr & _ & Hi)].
  destruct (Create_known_key _ _ _ _ _ _ Hk' Hr H2) as [Ht2 Ht'].
  by rewrite (Ht' t' eq_refl).
Qed.
End store_properties.

(** ** The scans *)

Section scans.
Context {PG : Postgres} {X : Type} {EV : Env X} {EL : EnvLaws X}.
Implicit Type w : World X.

(** What a scan with filter [p], order [key] and [limit] returns. *)
Definition scan_result (p : Row -> bool) (key : Row -> Z * Z) (limit : Z) (t : table)
    (ts : list Task) : Prop :=
  exists rs, ts = (fun r => task_of r false) <$> rs /\
    StronglySorted (by_key key) rs /\ NoDup (row_id <$> rs) /\
    Z.of_nat (length rs) <= limit /\
    (forall r, r ∈ rs -> t !! row_id r = Some r /\ p r = true) /\
    (forall id r, t !! id = Some r -> p r = true -> r ∉ rs ->
       Z.of_nat (length rs) = limit /\
       forall r', r' ∈ rs -> key_le (key r') (key r)).

Lemma NoDup_row_ids t : table_wf t -> NoDup (row_id <$> (snd <$> map_to_list t)).
Proof.
  intros Hwf. assert (Heq : row_id <$> (snd <$> map_to_list t) = fst <$> map_to_list t).
  { rewrite <- list_fmap_compose. apply list_fmap_ext. intros i [id r] Hi. simpl.
    apply (wf_id _ Hwf). apply elem_of_map_to_list. by eapply list_elem_of_lookup_2. }
  rewrite Heq. apply NoDup_fst_map_to_list.
Qed.

Lemma elem_of_rows t r : table_wf t -> r ∈ (snd <$> map_to_list t) <-> t !! row_id r = Some r.
Proof.
  intros Hwf. rewrite list_elem_of_fmap. split.
  - intros ([id r'] & -> & Hin%elem_of_map_to_list). simpl.
    by rewrite (wf_id _ Hwf _ _ Hin).
  - intros Hr. exists (row_id r, r). split; [done|]. by apply elem_of_map_to_list.
Qed.

Lemma query_tasks_scan (q : Stmt (list Row)) key (p : Row -> bool) limit w w' ts :
  (forall now rows t, exec_stmt q now rows t =
     (t, order_limit key limit (filter (fun r => p r) rows))) ->
  table_wf (w_table w) ->
  run interp (query_tasks q) w = (w', Ok ts) ->
  w_table w' = w_table w /\ scan_result p key limit (w_table w) ts.
Proof.
  intros Hq Hwf. unfold query_tasks. rewrite run_bind, run_call. cbn [interp].
  destruct (exec_sql q w) as [w1 r0] eqn:E. simpl. intros [= -> Hr].
  destruct r0 as [rs|e]; simplify_eq/=.
  apply exec_sql_ok in E as [_ [x E]]. cbv zeta in E. rewrite Hq in E.
  injection E as Ht Ho. split; [by rewrite Ht|].
  pose proof (env_scan_perm _ q x (snd <$> map_to_list (w_table w))) as Hperm.
  set (rows := se_scan _ _) in *.
  assert (Hlim : 0 <= limit).
  { unfold order_limit in Ho. case_match eqn:El; [done|]. by apply Z.ltb_ge in El. }
  apply order_limit_spec in Ho as (Hs & Hlen & rest & Hp & Hle).
  assert (Hin : forall r, r ∈ filter (fun r => p r) rows <->
                          w_table w !! row_id r = Some r /\ p r = true).
  { intros r. rewrite list_elem_of_filter, Hperm, elem_of_rows by done.
    rewrite Is_true_true. tauto. }
  exists rs. split; [done|]. split; [done|]. split.
  { assert (Hnd : NoDup (row_id <$> (rs ++ rest))).
    { rewrite Hp. eapply sublist_NoDup; [|apply (fmap_sublist row_id), sublist_filter].
      rewrite Hperm. by apply NoDup_row_ids. }
    rewrite fmap_app in Hnd. by apply NoDup_app in Hnd as [? _]. }
  split; [lia|]. split.
  - intros r Hr. apply Hin. rewrite <- Hp. apply elem_of_app. by left.
  - intros id r Hr Hpr Hnot.
    assert (Hr' : r ∈ rest).
    { assert (r ∈ rs ++ rest) as Hall.
      { rewrite Hp. apply Hin. by rewrite (wf_id _ Hwf _ _ Hr). }
      apply elem_of_app in Hall as [?|?]; done. }
    split; [|intros r' Hr''; by apply Hle].
    destruct (decide (Z.of_nat (length rs) = limit)) as [|Hne]; [done|]. exfalso.
    assert (Hl : length rs = length (filter (fun r => p r) rows)) by lia.
    apply Permutation_length in Hp. rewrite length_app in Hp.
    destruct rest; [by apply elem_of_nil in Hr' | simpl in Hp; lia].
Qed.

Lemma StronglySorted_lookup {A} (R : A -> A -> Prop) (l : list A) i j x y :
  StronglySorted R l -> l !! i = Some x -> l !! j = Some y -> (i < j)%nat -> R x y.
Proof.
  intros Hs Hi Hj Hij. rewrite <- (take_drop (S i) l) in Hs.
  eapply StronglySorted_app_le; [exact Hs| |].
  - apply list_elem_of_lookup_2 with i. rewrite lookup_take_lt by lia. done.
  - apply list_elem_of_lookup_2 with (j - S i)%nat. rewrite lookup_drop.
    by replace (S i + (j - S i))%nat with j by lia.
Qed.

(** A scan in terms of tasks: [due t at_] reads the time the scan orders
    by. *)
Lemma scan_result_tasks p key limit t ts (at_ : Row -> option Time) (at_t : Task -> option Time) :
  (forall r, key r = (time_key (at_ r), row_created_at r)) ->
  (forall r, at_t (task_of r false) = at_ r) ->
  scan_result p key limit t ts ->
  NoDup (ID <$> ts) /\ Z.of_nat (length ts) <= limit /\
  (forall x, x ∈ ts -> exists r, t !! ID x = Some r /\ x = task_of r false /\ p r = true) /\
  (forall i j x y, ts !! i = Some x -> ts !! j = Some y -> (i < j)%nat ->
     time_key (at_t x) <= time_key (at_t y)) /\
  (forall id r, t !! id = Some r -> row_id r = id -> p r = true ->
     task_of r false ∈ ts \/
     (Z.of_nat (length ts) = limit /\
      forall x, x ∈ ts -> time_key (at_t x) <= time_key (at_ r))).
Proof.
  intros Hkey Hat (rs & -> & Hs & Hnd & Hlen & Hin & Hcomp). rewrite length_fmap.
  assert (Hids : ID <$> ((fun r => task_of r false) <$> rs) = row_id <$> rs)
    by (by rewrite <- list_fmap_compose).
  rewrite Hids. split; [done|]. split; [done|]. split; [|split].
  - intros x (r & -> & Hr)%list_elem_of_fmap. apply Hin in Hr as [Hr Hp].
    exists r. by simpl.
  - intros i j x y Hi Hj Hij. rewrite list_lookup_fmap in Hi, Hj.
    destruct (rs !! i) as [r|] eqn:Er; simplify_eq/=.
    destruct (rs !! j) as [r'|] eqn:Er'; simplify_eq/=.
    pose proof (StronglySorted_lookup _ _ _ _ _ _ Hs Er Er' Hij) as Hle.
    unfold by_key, key_le in Hle. rewrite !Hkey in Hle. simpl in Hle. rewrite !Hat. lia.
  - intros id r Hr Hid Hp. destruct (decide (r ∈ rs)) as [He|Hnot].
    + left. apply list_elem_of_fmap. by exists r.
    + right.
      destruct (Hcomp id r Hr Hp Hnot) as [Hl Hle]. split; [done|].
      intros x (r' & -> & Hr')%list_elem_of_fmap. specialize (Hle r' Hr').
      unfold key_le in Hle. rewrite !Hkey in Hle. simpl in Hle. rewrite Hat. lia.
Qed.

Context {PL : PostgresLaws}.

(** C26: [DueRetrying] returns exactly the retries that are due. The table is
    not changed; the tasks returned are pairwise distinct current rows in
    status [retrying] whose [next_retry_at] has passed, at most [limit],
    earliest first; and a row that is due at the (microsecond) precision of
    the database is among them unless [limit] tasks due no later are. *)
Theorem DueRetrying_exact now limit w w' ts :
  table_wf (w_table w) ->
  run interp (DueRetrying now limit) w = (w', Ok ts) ->
  w_table w' = w_table w /\ NoDup (ID <$> ts) /\ Z.of_nat (length ts) <= limit /\
  (forall t, t ∈ ts -> exists r at_, w_table w !! ID t = Some r /\ t = task_of r false /\
     Status_ t = StatusRetrying /\ NextRetryAt t = Some at_ /\ at_ <= now) /\
  (forall i j t t', ts !! i = Some t -> ts !! j = Some t' -> (i < j)%nat ->
     time_key (NextRetryAt t) <= time_key (NextRetryAt t')) /\
  (forall id r at_, w_table w !! id = Some r -> row_status r = StatusRetrying ->
     row_next_retry_at r = Some at_ -> at_ <= pg_time now ->
     task_of r false ∈ ts \/
     (Z.of_nat (length ts) = limit /\
      forall t, t ∈ ts -> time_key (NextRetryAt t) <= at_)).
Proof.
  intros Hwf Hrun.
  destruct (query_tasks_scan (SelectDueRetrying now limit) retry_key (retrying_due (pg_time now)) limit w w' ts)
    as [Ht Hscan]; [done | done | exact Hrun|]. split; [done|].
  destruct (scan_result_tasks _ _ _ _ _ row_next_retry_at NextRetryAt
              (fun _ => eq_refl) (fun _ => eq_refl) Hscan) as (Hnd & Hl & Hin & Hs & Hc).
  split; [done|]. split; [done|]. split; [|split; [done|]].
  - intros t (r & Hr & -> & Hp)%Hin. unfold retrying_due in Hp.
    apply andb_true_iff in Hp as [Hst%String.eqb_eq Hd]. unfold le_time in Hd.
    destruct (row_next_retry_at r) as [at_|] eqn:E; [|done]. zbool.
    exists r, at_. simpl. pose proof (pg_time_trunc now). repeat split; try done. lia.
  - intros id r at_ Hr Hst Hat Hle.
    destruct (Hc id r Hr (wf_id _ Hwf _ _ Hr)) as [?|[Hlim Hall]]; [|by left|].
    + unfold retrying_due. rewrite Hst, Hat. simpl. by apply Z.leb_le.
    + right. split; [done|]. intros t Htt. rewrite Hat in Hall. by apply Hall.
Qed.

(** C25: [ExpiredRunning] returns exactly the running tasks whose execution
    time is up: distinct current rows in status [running] with
    [started_at] + [timeout_seconds] in the past, at most [limit], the
    longest running first, and none left out that is due at the database's
    precision unless the limit is reached by tasks started no later. *)
Theorem ExpiredRunning_exact now limit w w' ts :
  table_wf (w_table w) ->
  run interp (ExpiredRunning now limit) w = (w', Ok ts) ->
  w_table w' = w_table w /\ NoDup (ID <$> ts) /\ Z.of_nat (length ts) <= limit /\
  (forall t, t ∈ ts -> exists r s, w_table w !! ID t = Some r /\ t = task_of r false /\
     Status_ t = StatusRunning /\ StartedAt t = Some s /\
     s + TimeoutSeconds t * Second <= now) /\
  (forall i j t t', ts !! i = Some t -> ts !! j = Some t' -> (i < j)%nat ->
     time_key (StartedAt t) <= time_key (StartedAt t')) /\
  (forall id r s, w_table w !! id = Some r -> row_status r = StatusRunning ->
     row_started_at r = Some s -> s + row_timeout_seconds r * Second <= pg_time now ->
     task_of r false ∈ ts \/
     (Z.of_nat (length ts) = limit /\
      forall t, t ∈ ts -> time_key (StartedAt t) <= s)).
Proof.
  intros Hwf Hrun.
  destruct (query_tasks_scan (SelectExpiredRunning now limit) started_key (running_expired (pg_time now)) limit w w' ts)
    as [Ht Hscan]; [done | done | exact Hrun|]. split; [done|].
  destruct (scan_result_tasks _ _ _ _ _ row_started_at StartedAt
              (fun _ => eq_refl) (fun _ => eq_refl) Hscan) as (Hnd & Hl & Hin & Hs & Hc).
  split; [done|]. split; [done|]. split; [|split; [done|]].
  - intros t (r & Hr & -> & Hp)%Hin. unfold running_expired in Hp.
    apply andb_true_iff in Hp as [Hst%String.eqb_eq Hd].
    destruct (row_started_at r) as [s|] eqn:E; [|done]. zbool.
    exists r, s. simpl. pose proof (pg_time_trunc now). repeat split; try done. lia.
  - intros id r s Hr Hst Hsa Hle.
    destruct (Hc id r Hr (wf_id _ Hwf _ _ Hr)) as [?|[Hlim Hall]]; [|by left|].
    + unfold running_expired. rewrite Hst, Hsa. simpl. by apply Z.leb_le.
    + right. split; [done|]. intros t Htt. rewrite Hsa in Hall. by apply Hall.
Qed.

Lemma CountByStatus_counts w w' counts :
  run interp CountByStatus w = (w', Ok counts) ->
  w_table w' = w_table w /\
  forall s, default 0 (counts !! s) =
    count_where (fun r => String.eqb (row_status r) s) (snd <$> map_to_list (w_table w)).
Proof.
  unfold CountByStatus. rewrite run_bind, run_call. cbn [interp].
  destruct (exec_sql SelectCountByStatus w) as [w1 r0] eqn:E. simpl. intros [= -> Hr].
  destruct r0 as [gs|e]; simplify_eq/=. apply exec_sql_ok in E as [_ [x E]].
  cbv zeta in E. simpl in E. injection E as Ht Hg. split; [done|]. intros s.
  pose proof (env_scan_perm _ SelectCountByStatus x (snd <$> map_to_list (w_table w))) as Hp.
  set (rows := se_scan _ _) in *. subst gs.
  by rewrite group_by_status_count, (count_where_perm _ _ _ Hp).
Qed.

(** The statements that only read. *)
Definition reading {A} (q : Stmt A) : bool :=
  match q with
  | InsertTask _ | UpdateTransition _ _ _ _ | UpdateFailed _ _ | UpdateComplete _ _ _ _ _ => false
  | _ => true
  end.

Lemma exec_sql_reading {A} (q : Stmt A) w w' r :
  reading q = true -> exec_sql q w = (w', r) ->
  w_table w' = w_table w /\ w_metrics w' = w_metrics w.
Proof.
  intros Hq H. destruct (exec_sql_cases _ _ _ _ H) as [Hm [(e & _ & Ht) | (x & Ht & _)]]; [done|].
  split; [|exact Hm]. cbv zeta in Ht. rewrite Ht. by destruct q.
Qed.

Lemma query_tasks_reading q w w' r :
  reading q = true -> run interp (query_tasks q) w = (w', r) -> w_table w' = w_table w.
Proof.
  unfold query_tasks. intros Hq. rewrite run_bind, run_call. cbn [interp].
  destruct (exec_sql q w) as [w1 r0] eqn:E. intros [= <- _]. by eapply exec_sql_reading.
Qed.

(** A snapshot leaves the table and the metrics alone; its numbers are those
    of the rows that wait to be executed, and of those in execution. *)
Lemma MetricsSnapshot_counts now w w' r :
  run interp (MetricsSnapshot now) w = (w', r) ->
  w_table w' = w_table w /\ w_metrics w' = w_metrics w /\
  match r with
  | Ok s =>
      QueueBacklog s = Z.of_nat (size (filter (fun kr => in_backlog (pg_time now) kr.2 = true)
                                         (w_table w))) /\
      RunningTasks s = Z.of_nat (size (filter (fun kr => row_status kr.2 = StatusRunning)
                                         (w_table w)))
  | Err _ => True
  end.
Proof.
  unfold MetricsSnapshot. rewrite run_bind.
  destruct (run interp (query_row _) w) as [w1 r1] eqn:E. intros [= <- <-].
  apply run_query_row in E as (r0 & E & ->).
  destruct (exec_sql_reading (SelectMetricsSnapshot now) _ _ _ eq_refl E) as [Ht Hm]. split; [exact Ht|]. split; [exact Hm|].
  destruct r0 as [[|bc rest]|e]; [done| |done]. apply exec_sql_ok in E as [_ [x E]].
  cbv zeta in E. simpl in E. injection E as _ <- _.
  pose proof (env_scan_perm _ (SelectMetricsSnapshot now) x (snd <$> map_to_list (w_table w))) as Hp.
  rewrite !(count_where_perm _ _ _ Hp), !count_where_table. cbn [QueueBacklog RunningTasks fst snd].
  split; [done|]. simpl. do 2 f_equal. apply map_filter_ext. intros id row _. simpl.
  by rewrite String.eqb_eq.
Qed.

(** It fails exactly when its statement is not answered. *)
Lemma MetricsSnapshot_is_Ok now w :
  is_Ok (run interp (MetricsSnapshot now) w).2 =
    bool_decide (se_fault (env_sql _ (SelectMetricsSnapshot now) (w_ext w)).2 = None).
Proof.
  unfold MetricsSnapshot, query_row. rewrite !run_bind. simpl. unfold exec_sql.
  destruct (env_sql _ _ _) as [x se]. cbn [snd].
  by destruct (se_fault se) as [[e|e]|]; rewrite ?bool_decide_true, ?bool_decide_false by done.
Qed.

(** [CountByStatus] counts every task once: the count under a status is
    the number of rows in that status (absent keys count zero), and the
    table is not changed. *)
Theorem CountByStatus_exact w w' counts s :
  run interp CountByStatus w = (w', Ok counts) ->
  w_table w' = w_table w /\
  default 0 (counts !! s) =
    Z.of_nat (size (filter (fun kr => row_status kr.2 = s) (w_table w))).
Proof.
  intros [Ht Hc]%CountByStatus_counts. split; [done|].
  rewrite Hc, count_where_table. do 2 f_equal. apply map_filter_ext.
  intros id r _. simpl. by rewrite String.eqb_eq.
Qed.
End scans.

(** ** The events of the store's statements *)

(** The first row of the answer of a statement that returns one. *)
Definition row_answer {A} (q : Stmt A) : A -> option Row :=
  match q in Stmt A return A -> option Row with
  | SelectTask _ => head
  | UpdateTransition _ _ _ _ => head
  | UpdateFailed _ _ => head
  | UpdateComplete _ _ _ _ _ => head
  | _ => fun _ => None
  end.

(** A statement answered with a row [r] such that [f] holds of both. *)
Definition answered (f : forall A, Stmt A -> Row -> bool) (e : event Call) : bool :=
  match e with
  | Ev c x =>
      match c in Call A return A -> bool with
      | Sql q => fun x =>
          match x with
          | Ok a => match row_answer q a with Some r => f _ q r | None => false end
          | Err _ => false
          end
      | _ => fun _ => false
      end x
  end.

(** A statement on task [i] answered with another task's row: the table of
    Postgres never does ([interp_identifies]). *)
Definition misidentified : event Call -> bool :=
  answered (fun A q r =>
    match q with
    | SelectTask i | UpdateTransition i _ _ _ | UpdateFailed i _
    | UpdateComplete i _ _ _ _ => negb (String.eqb (row_id r) i)
    | _ => false
    end).

(** [CompleteFailure] with one of the two statuses it accepts is its
    statement. *)
Lemma CompleteFailure_stmt i d f :
  fd_Status d = StatusRetrying \/ fd_Status d = StatusDead ->
  CompleteFailure i d f =
    (row ← query_row (UpdateComplete i (fd_Status d) (fd_RetryCount d)
                        (fd_NextRetryAt d) f);
     Ret (not_found (scanTask row))).
Proof. intros Hd. unfold CompleteFailure. by destruct Hd as [-> | ->]. Qed.

Lemma Transition_stmt i from to worker :
  CanTransition from to = true ->
  Transition i from to worker =
    (row ← query_row (UpdateTransition i from to worker); Ret (not_found (scanTask row))).
Proof. intros Hc. unfold Transition. by rewrite Hc. Qed.

Definition no_row {A} (x : result (list A)) : bool :=
  match x with Ok (_ :: _) => false | _ => true end.

(** Close the side conditions on answers without a row, for a concrete
    statement. *)
Ltac no_row_tac := intros [[|? ?]|?] ?; done.

(** The store's methods as steps of a monitor that assumes an honest
    database: an answer without a row leads the monitor to [s0], an answer
    with a row is a row of the task asked for. *)
Lemma wlp_row_method_to {S} (step : S -> event Call -> option S) (stmt : Stmt (list Row))
    (Q : option S -> result Task -> Prop) s s0 :
  (forall x, no_row x = true -> misidentified (Ev (Sql stmt) x) = false /\
                                step s (Ev (Sql stmt) x) = Some s0) ->
  (forall r rest, misidentified (Ev (Sql stmt) (Ok (r :: rest))) = false ->
     exists s', step s (Ev (Sql stmt) (Ok (r :: rest))) = Some s' /\
                Q (Some s') (Ok (task_of r false))) ->
  (forall e, Q (Some s0) (Err e)) -> (forall r, Q None r) ->
  wlp (assume_step misidentified step)
    (row ← query_row stmt; Ret (not_found (scanTask row))) Q (Some s).
Proof.
  intros Hn Hok Herr Hsink x. unfold assume_step at 1.
  destruct (misidentified (Ev (Sql stmt) x)) eqn:Hb; [unfold wlp; apply Hsink|].
  destruct x as [[|r rest]|e].
  - destruct (Hn (Ok [])) as [_ ->]; [done|]. unfold wlp. apply Herr.
  - destruct (Hok r rest Hb) as (s' & -> & H). unfold wlp. exact H.
  - destruct (Hn (Err e)) as [_ ->]; [done|]. unfold wlp. simpl.
    destruct (scan_Err e) as [e' He']. simpl in He'. rewrite He'. apply Herr.
Qed.

(** The case of a monitor that ignores answers without a row. *)
Lemma wlp_row_method {S} (step : S -> event Call -> option S) (stmt : Stmt (list Row))
    (Q : option S -> result Task -> Prop) s :
  (forall x, no_row x = true -> misidentified (Ev (Sql stmt) x) = false /\
                                step s (Ev (Sql stmt) x) = Some s) ->
  (forall r rest, misidentified (Ev (Sql stmt) (Ok (r :: rest))) = false ->
     exists s', step s (Ev (Sql stmt) (Ok (r :: rest))) = Some s' /\
                Q (Some s') (Ok (task_of r false))) ->
  (forall e, Q (Some s) (Err e)) -> (forall r, Q None r) ->
  wlp (assume_step misidentified step)
    (row ← query_row stmt; Ret (not_found (scanTask row))) Q (Some s).
Proof. apply wlp_row_method_to. Qed.

Section identify.
Context {PG : Postgres} {X : Type} {EV : Env X}.
Implicit Type w : World X.

Lemma exec_update_row id guard set t r l :
  table_wf t -> (forall r, row_id (set r) = row_id r) ->
  (exec_update id guard set t).2 = Ok (r :: l) -> row_id r = id.
Proof.
  intros Hwf Hset. unfold exec_update. destruct (t !! id) as [r0|] eqn:E; [|done].
  destruct (guard r0); [|done]. destruct (row_check (set r0)); [|done]. simpl.
  intros [= <- _]. rewrite Hset. by apply (wf_id _ Hwf).
Qed.

(** The ways an [UPDATE ... RETURNING] can end, as its caller and the table
    see it. *)
Lemma exec_update_cases id guard set t :
  exec_update id guard set t = (t, Ok []) \/
  (exists e, exec_update id guard set t = (t, Err e)) \/
  exists r, t !! id = Some r /\ guard r = true /\ row_check (set r) = true /\
    exec_update id guard set t = (<[id := set r]> t, Ok [set r]).
Proof.
  unfold exec_update. destruct (t !! id) as [r|]; [|by left].
  destruct (guard r) eqn:Eg; [|by left]. destruct (row_check (set r)) eqn:Ec; [|eauto].
  right. right. by exists r.
Qed.

Lemma exec_sql_update (q : Stmt (list Row)) id guard set w w' x :
  (forall now rows t, exec_stmt q now rows t = exec_update id guard (set now) t \/
                      exists e, exec_stmt q now rows t = (t, Err e)) ->
  exec_sql q w = (w', x) ->
  (w_table w' = w_table w /\ no_row x = true) \/
  exists r now, w_table w !! id = Some r /\ guard r = true /\
    row_check (set now r) = true /\ w_table w' = <[id := set now r]> (w_table w) /\
    (x = Ok [set now r] \/ no_row x = true).
Proof.
  intros Hq Hx. destruct (exec_sql_cases _ _ _ _ Hx) as [_ [(e & -> & Ht) | (y & Ht & Hr)]];
    [by left|]. cbv zeta in *. set (se := (env_sql _ q y).2) in *.
  destruct (Hq (se_now se) (se_scan se (snd <$> map_to_list (w_table w))) (w_table w))
    as [Heq | [e Heq]]; rewrite Heq in Ht, Hr; clear Heq.
  2: { left. simpl in *. destruct Hr as [-> | [e' ->]]; done. }
  destruct (exec_update_cases id guard (set (se_now se)) (w_table w))
    as [He | [[e He] | (r & Hr0 & Hg & Hc & He)]]; rewrite He in Ht, Hr; simpl in Ht, Hr.
  - left. destruct Hr as [-> | [e' ->]]; done.
  - left. destruct Hr as [-> | [e' ->]]; done.
  - right. exists r, (se_now se). do 4 (split; [done|]).
    destruct Hr as [-> | [e' ->]]; auto.
Qed.

(** Postgres answers with the row it was asked for. *)
Lemma interp_identifies {A} (c : Call A) w :
  table_wf (w_table w) -> misidentified (Ev c (interp A c w).2) = false.
Proof.
  intros Hwf. destruct c; try done. simpl.
  destruct (exec_sql q w) as [w' [a|e]] eqn:E; [|done]. simpl.
  apply exec_sql_ok in E as [_ [x E]]. cbv zeta in E. apply (f_equal snd) in E.
  simpl in E. destruct q; simpl in *; try done;
    destruct a as [|r l]; try done; simpl; apply negb_false_iff, String.eqb_eq.
  - destruct (w_table w !! id) as [r0|] eqn:E0; [|done]. injection E as -> _.
    by apply (wf_id _ Hwf).
  - by eapply exec_update_row in E.
  - by eapply exec_update_row in E.
  - destruct (negb (int4 retry_count)); [done|]. by eapply exec_update_row in E.
Qed.
End identify.
