(* ===== verification/Scenario.v ===== *)
(** * A concrete environment

    One outside world on which the development can be run: a clock that
    advances by one millisecond per reading, a Postgres that never fails, a
    Redis that refuses the commands its script says to refuse, and HTTP peers
    that answer with a scripted status. The witnesses of the theorems are
    computed on it; it shows that the hypotheses made of the environment can
    hold together. *)

From S2P Require Import Prelude GoStd Errors Task Effects Table Metrics Calls Store.
Local Open Scope Z_scope.

#[export] Instance ascii_text : GoText := {|
  strconv_Quote s := String (Ascii.ascii_of_nat 34) (s +:+ String (Ascii.ascii_of_nat 34) "");
  strings_ToUpper s := s |}.

#[export] Instance plain_postgres : Postgres := {|
  pg_time t := t - t mod Microsecond;
  pg_jsonb p := if String.eqb p "" then None else Some p;
  pg_error c := ErrorString c |}.

#[export] Instance plain_postgres_laws : PostgresLaws.
Proof.
  split; simpl.
  - intros t. unfold Microsecond. pose proof (Z.mod_pos_bound t 1000). lia.
  - intros t. unfold Microsecond.
    pose proof (Z.div_mod t 1000). pose proof (Z.mod_pos_bound t 1000).
    replace (t - t mod 1000) with ((t / 1000) * 1000) by lia.
    rewrite Z.mod_mul by lia. lia.
  - intros p q. destruct (String.eqb_spec p ""); [done|]. intros [= <-].
    by destruct (String.eqb_spec p "").
  - done.
Qed.

Record Outside := mkOutside {
  o_clock : Time;
  o_rand : nat;                  (* how often the random source was read *)
  o_refuse : list bool;          (* which of the next Redis commands fail *)
  o_http : list Z;               (* the statuses of the next HTTP responses *)
  o_read : list XMessage;        (* what a read of the stream returns *)
}.

Definition tick_clock (o : Outside) : Outside :=
  mkOutside (o_clock o + Millisecond) (o_rand o) (o_refuse o) (o_http o) (o_read o).

Definition redis_ok {A} (o : Outside) (c : RedisCmd A) : result A :=
  match c in RedisCmd A return result A with
  | XAdd _ => Ok "1-0"
  | XGroupCreateMkStream _ _ _ => Ok tt
  | XReadGroup a => Ok [mkXStream (default "" (head (xr_Streams a))) (o_read o)]
  | XPendingExt _ => Ok (xm_ID <$> o_read o)
  | XClaim _ => Ok (o_read o)
  | XAck _ _ _ => Ok 1
  | ZAdd _ _ _ => Ok 1
  | ZRangeArgs _ => Ok []
  | ZRem _ _ => Ok 1
  end.

#[export] Instance scripted : Env Outside := {|
  env_time o := (tick_clock o, o_clock o);
  env_rand n o :=
    (mkOutside (o_clock o) (S (o_rand o)) (o_refuse o) (o_http o) (o_read o),
     replicate n (default Byte.x00 (Byte.of_nat (o_rand o mod 256))));
  env_sql A q o := (o, {| se_now := o_clock o; se_scan := fun rows => rows; se_fault := None |});
  env_redis A c o :=
    match o_refuse o with
    | [] => (o, redis_ok o c)
    | b :: bs =>
        (mkOutside (o_clock o) (o_rand o) bs (o_http o) (o_read o),
         if b then Err (ErrorString "connection refused") else redis_ok o c)
    end;
  env_handler A c o :=
    match c in HCall A return Outside * A with
    | HttpDo _ _ =>
        (mkOutside (o_clock o) (o_rand o) (o_refuse o) (tail (o_http o)) (o_read o),
         match head (o_http o) with
         | Some s => Ok s
         | None => Err (ErrorString "connection refused")
         end)
    | HttpCtxErr => (o, None)
    | HEffect s => (o, s)
    end;
  env_exec_ctx_err o := (o, None);
  env_ctx_err o := (o, None);
  env_ctx_done o := (o, false);
  env_wait d o := mkOutside (o_clock o + d) (o_rand o) (o_refuse o) (o_http o) (o_read o) |}.

#[export] Instance scripted_laws : EnvLaws Outside.
Proof.
  split.
  - done.
  - intros n x. simpl. apply length_replicate.
Qed.

(** The world at time [t] with table [tbl]; Redis and HTTP never fail unless
    scripted to. *)
Definition world_at (t : Time) (tbl : table) : World Outside :=
  mkWorld tbl NewRegistry (mkOutside t 0 [] [] []).

(** A pending task with a budget of three retries. *)
Definition row_pending : Row :=
  {| row_id := "task_1"; row_task_type := "demo.echo"; row_payload := "{}";
     row_status := StatusPending; row_idempotency_key := Some "k1";
     row_trace_id := Some "trace_1"; row_run_at := 0; row_timeout_seconds := 300;
     row_max_retries := 3; row_retry_count := 0; row_next_retry_at := None;
     row_last_error := None; row_worker_id := None; row_started_at := None;
     row_finished_at := None; row_created_at := 0; row_updated_at := 0 |}.

Definition one_task (r : Row) : table := {[ row_id r := r ]}.

Lemma one_task_wf r : row_check r = true -> row_typed r = true -> table_wf (one_task r).
Proof.
  intros Hc Hty. unfold one_task. split.
  - intros id r' H. apply lookup_singleton_Some in H as [<- <-]. done.
  - intros id r' H. by apply lookup_singleton_Some in H as [<- <-].
  - intros id r' H. by apply lookup_singleton_Some in H as [<- <-].
  - intros id id' r1 r2 k H1 H2 _ _.
    apply lookup_singleton_Some in H1 as [<- _]. by apply lookup_singleton_Some in H2 as [<- _].
Qed.
