(* ===== verification/Lifecycle.v ===== *)
(** * The life of a task

    The abstract specification of the task table: rows are created
    [scheduled] or [pending], keep their identity, move along the status
    machine of status.go only, and never change again once [success] or
    [dead] ([table_evolves]). The concrete rows moreover carry the
    bookkeeping columns that belong to their status ([row_inv]).

    [lifecycle_call] singles out the statements that keep to it; that the
    program's code issues no other is proved where that code is modelled. *)

From S2P Require Import Prelude GoStd Errors Task Effects Table Metrics Calls Store.
Local Open Scope Z_scope.

Definition lifecycle_stmt {A} (q : Stmt A) : Prop :=
  match q with
  | InsertTask a => ins_status a = StatusPending \/ ins_status a = StatusScheduled
  | UpdateTransition _ from to worker =>
      (from = StatusScheduled /\ to = StatusPending) \/
      (from = StatusRetrying /\ to = StatusPending) \/
      (from = StatusPending /\ to = StatusRunning /\ is_Some worker) \/
      (from = StatusRunning /\ to = StatusSuccess)
  | UpdateComplete _ status _ next_retry_at _ =>
      (status = StatusRetrying /\ is_Some next_retry_at) \/
      (status = StatusDead /\ next_retry_at = None)
  | _ => True
  end.

Definition lifecycle_call (A : Type) (c : Call A) : Prop :=
  match c with Sql q => lifecycle_stmt q | _ => True end.

(** The bookkeeping columns of a row, by its status. *)
Record row_inv (r : Row) : Prop := {
  inv_retry_at : is_Some (row_next_retry_at r) <-> row_status r = StatusRetrying;
  inv_finished : is_Some (row_finished_at r) <-> IsTerminal (row_status r) = true;
  inv_started : row_status r <> StatusScheduled -> row_status r <> StatusPending ->
                is_Some (row_started_at r) /\ is_Some (row_worker_id r);
  inv_error : row_status r = StatusFailed \/ row_status r = StatusRetrying \/
              row_status r = StatusDead -> is_Some (row_last_error r);
  inv_fresh : row_status r = StatusScheduled ->
              row_started_at r = None /\ row_last_error r = None /\ row_retry_count r = 0;
  inv_retried : 0 < row_retry_count r ->
                is_Some (row_last_error r) /\ is_Some (row_started_at r);
}.

Definition table_inv (t : table) : Prop := forall id r, t !! id = Some r -> row_inv r.

(** The abstract specification, row by row. *)
Definition row_evolves (o o' : option Row) : Prop :=
  match o, o' with
  | None, _ => True
  | Some _, None => False
  | Some r, Some r' =>
      same_identity r r' /\ rtc status_step (row_status r) (row_status r') /\
      (IsTerminal (row_status r) = true -> r' = r)
  end.

Definition table_evolves (t t' : table) : Prop :=
  forall id, row_evolves (t !! id) (t' !! id).

#[export] Instance table_evolves_preorder : PreOrder table_evolves.
Proof.
  split.
  - intros t id. destruct (t !! id); simpl; [|done].
    split; [apply same_identity_refl|]. by split.
  - intros t1 t2 t3 H12 H23 id. specialize (H12 id). specialize (H23 id).
    destruct (t1 !! id) as [r1|]; simpl; [|done].
    destruct (t2 !! id) as [r2|]; simpl in *; [|done].
    destruct (t3 !! id) as [r3|]; simpl in *; [|done].
    destruct H12 as (I12 & S12 & T12), H23 as (I23 & S23 & T23).
    split; [by eapply same_identity_trans|]. split; [by etrans|].
    intros Ht. specialize (T12 Ht). subst. by apply T23.
Qed.

Section lifecycle.
Context {PG : Postgres}.

(** Every [UPDATE] of the store follows an edge of the status machine. *)
Lemma exec_update_evolves id from guard set t :
  (forall r, guard r = true -> row_status r = from) ->
  (forall r, same_identity r (set r)) ->
  (forall r, status_step from (row_status (set r))) ->
  table_evolves t (exec_update id guard set t).1.
Proof.
  intros Hg Hi Hs. unfold exec_update. destruct (t !! id) as [r|] eqn:Er; [|reflexivity].
  destruct (guard r) eqn:Eg; [|reflexivity].
  destruct (row_check (set r)); simpl; [|reflexivity].
  intros id'. rewrite lookup_insert. case_decide; [|].
  - subst. rewrite Er. simpl. rewrite (Hg r Eg). specialize (Hs r).
    split; [done|]. split; [by apply rtc_once|].
    intros Ht%IsTerminal_list. apply CanTransition_list in Hs.
    unfold transition_list in Hs. rewrite !elem_of_cons, elem_of_nil in Hs.
    destruct Ht; subst from; destruct_or?; simplify_eq.
  - destruct (t !! id') as [r'|]; simpl; [|done].
    split; [apply same_identity_refl|]. by split.
Qed.

Lemma exec_stmt_evolves {A} (q : Stmt A) now rows t :
  lifecycle_stmt q -> table_evolves t (exec_stmt q now rows t).1.
Proof.
  destruct q; simpl; intros Hq; try reflexivity.
  - destruct (exec_insert_cases a now t) as [(c & ->) | [(k & r & _ & _ & ->) |
      (payload & _ & _ & Hid & _ & ->)]]; simpl; [reflexivity | reflexivity |].
    intros id. rewrite lookup_insert. case_decide; subst; [by rewrite Hid|].
    destruct (t !! id); simpl; [|done]. split; [apply same_identity_refl|]. by split.
  - apply exec_update_evolves with (from := from).
    + by intros r Hr%String.eqb_eq.
    + intros; apply same_identity_transition.
    + intros r. simpl. destruct Hq as [[-> ->]|[[-> ->]|[(-> & -> & _)|[-> ->]]]]; done.
  - apply exec_update_evolves with (from := StatusRunning).
    + by intros r Hr%String.eqb_eq.
    + intros; apply same_identity_failed.
    + done.
  - case_match; [reflexivity|]. apply exec_update_evolves with (from := StatusFailed).
    + by intros r Hr%String.eqb_eq.
    + intros; apply same_identity_complete.
    + intros r. simpl. destruct Hq as [[-> _]|[-> _]]; done.
Qed.

Lemma exec_update_inv id guard set t :
  (forall r, guard r = true -> row_inv r -> row_check (set r) = true -> row_inv (set r)) ->
  table_inv t -> table_inv (exec_update id guard set t).1.
Proof.
  intros Hs Ht. unfold exec_update. destruct (t !! id) as [r|] eqn:Er; [|done].
  destruct (guard r) eqn:Eg; [|done]. destruct (row_check (set r)) eqn:Ec; [|done].
  simpl. intros id' r'. rewrite lookup_insert. case_decide; [|apply Ht].
  intros [= <-]. apply Hs; [done| |done]. by eapply Ht.
Qed.

(** What the invariant says of a row that is neither terminal nor
    [retrying]. *)
Lemma row_inv_open r :
  row_inv r -> IsTerminal (row_status r) = false -> row_status r <> StatusRetrying ->
  row_finished_at r = None /\ row_next_retry_at r = None.
Proof.
  intros H Ht Hr. split.
  - destruct (row_finished_at r) eqn:E; [|done]. exfalso.
    assert (IsTerminal (row_status r) = true); [|congruence].
    apply (inv_finished _ H). rewrite E. by eexists.
  - destruct (row_next_retry_at r) eqn:E; [|done]. exfalso.
    apply Hr, (inv_retry_at _ H). rewrite E. by eexists.
Qed.

Lemma row_inv_insert a payload now :
  ins_status a = StatusPending \/ ins_status a = StatusScheduled ->
  row_inv (inserted_row a payload now).
Proof.
  intros Hst. split; simpl.
  all: destruct Hst as [Hs|Hs]; rewrite ?Hs; try (split; [intros [? [=]] | done]);
    try done; try lia; intros; destruct_or?; done.
Qed.

Lemma row_inv_pending r w now :
  row_inv r -> row_status r = StatusScheduled \/ row_status r = StatusRetrying ->
  row_inv (set_transition StatusPending w now r).
Proof.
  intros H Hst.
  assert (Hf : row_finished_at r = None).
  { destruct (row_finished_at r) eqn:E; [|done]. exfalso.
    assert (IsTerminal (row_status r) = true) as Ht
      by (apply (inv_finished _ H); rewrite E; by eexists).
    by destruct Hst as [Hs|Hs]; rewrite Hs in Ht. }
  split; simpl.
  - split; [intros [? [=]] | done].
  - rewrite Hf. split; [intros [? [=]] | done].
  - done.
  - intros; destruct_or?; done.
  - done.
  - apply (inv_retried _ H).
Qed.

Lemma row_inv_running r w now :
  row_inv r -> row_status r = StatusPending ->
  row_inv (set_transition StatusRunning (Some w) now r).
Proof.
  intros H Hst. destruct (row_inv_open r H) as [Hf Hn]; [by rewrite Hst..|].
  split; simpl; rewrite ?Hf, ?Hn.
  - split; [intros [? [=]] | done].
  - split; [intros [? [=]] | done].
  - intros; split; by eexists.
  - intros; destruct_or?; done.
  - done.
  - intros Hr. split; [apply (inv_retried _ H Hr) | by eexists].
Qed.

Lemma row_inv_success r w now :
  row_inv r -> row_status r = StatusRunning ->
  row_inv (set_transition StatusSuccess w now r).
Proof.
  intros H Hst. destruct (row_inv_open r H) as [Hf Hn]; [by rewrite Hst..|].
  split; simpl; rewrite ?Hn.
  - split; [intros [? [=]] | done].
  - split; [done | by eexists].
  - intros; apply (inv_started _ H); by rewrite Hst.
  - intros; destruct_or?; done.
  - done.
  - apply (inv_retried _ H).
Qed.

Lemma row_inv_failed r f now :
  row_inv r -> row_status r = StatusRunning -> row_inv (set_failed f now r).
Proof.
  intros H Hst. destruct (row_inv_open r H) as [Hf Hn]; [by rewrite Hst..|].
  split; simpl; rewrite ?Hf, ?Hn.
  - split; [intros [? [=]] | done].
  - split; [intros [? [=]] | done].
  - intros; apply (inv_started _ H); by rewrite Hst.
  - by eexists.
  - done.
  - intros Hr. split; [by eexists | apply (inv_retried _ H Hr)].
Qed.

Lemma row_inv_complete r st rc nra f now :
  row_inv r -> row_status r = StatusFailed ->
  (st = StatusRetrying /\ is_Some nra) \/ (st = StatusDead /\ nra = None) ->
  row_inv (set_complete st rc nra f now r).
Proof.
  intros H Hst Hd. destruct (row_inv_open r H) as [Hf Hn]; [by rewrite Hst..|].
  destruct (inv_started _ H) as [Hs Hw]; [by rewrite Hst..|].
  destruct Hd as [[-> [t ->]] | [-> ->]]; split; simpl; rewrite ?Hf.
  1, 8: split; [done | by eexists].
  1: split; [intros [? [=]] | done].
  5: split; [intros [? [=]] | done].
  all: try done; intros; repeat split; done.
Qed.

Lemma exec_stmt_inv {A} (q : Stmt A) now rows t :
  lifecycle_stmt q -> table_inv t -> table_inv (exec_stmt q now rows t).1.
Proof.
  destruct q; simpl; intros Hq Ht; try done.
  - destruct (exec_insert_cases a now t) as [(c & ->) | [(k & r & _ & _ & ->) |
      (payload & _ & _ & _ & _ & ->)]]; simpl; [done | done |].
    intros id r. rewrite lookup_insert. case_decide; [|apply Ht].
    intros [= <-]. by apply row_inv_insert.
  - apply exec_update_inv; [|done]. intros r Hr%String.eqb_eq Hi _.
    destruct Hq as [[-> ->]|[[-> ->]|[(-> & -> & [wk ->])|[-> ->]]]].
    + apply row_inv_pending; auto.
    + apply row_inv_pending; auto.
    + by apply row_inv_running.
    + by apply row_inv_success.
  - apply exec_update_inv; [|done]. intros r Hr%String.eqb_eq Hi _.
    by apply row_inv_failed.
  - case_match; [done|]. apply exec_update_inv; [|done].
    intros r Hr%String.eqb_eq Hi _. by apply row_inv_complete.
Qed.
End lifecycle.

(** ** From statements to calls, runs and interleavings *)

Section runs.
Context {PG : Postgres} {X : Type} {EV : Env X}.
Implicit Type w : World X.

Lemma interp_table {A} (c : Call A) w :
  w_table (interp A c w).1 = w_table w \/
  exists B (q : Stmt B) now rows,
    (forall P : forall A, Call A -> Prop, P _ c -> P _ (Sql q)) /\
    w_table (interp A c w).1 = (exec_stmt q now rows (w_table w)).1.
Proof.
  destruct c; simpl; unfold ask; try (by left); try (case_match; simpl; by left).
  destruct (exec_sql q w) as [w' r] eqn:E.
  destruct (exec_sql_cases _ _ _ _ E) as [_ [(e & _ & Ht) | (x & Ht & _)]]; [by left|].
  right. cbv zeta in Ht. simpl. eauto 10.
Qed.

Lemma interp_evolves {A} (c : Call A) w :
  lifecycle_call A c -> table_evolves (w_table w) (w_table (interp A c w).1).
Proof.
  intros Hc. destruct (interp_table c w) as [-> | (B & q & now & rows & HP & ->)];
    [reflexivity|]. apply exec_stmt_evolves. apply (HP lifecycle_call Hc).
Qed.

Lemma interp_inv {A} (c : Call A) w :
  lifecycle_call A c -> table_inv (w_table w) -> table_inv (w_table (interp A c w).1).
Proof.
  intros Hc Ht. destruct (interp_table c w) as [-> | (B & q & now & rows & HP & ->)];
    [done|]. apply exec_stmt_inv; [|done]. apply (HP lifecycle_call Hc).
Qed.

Lemma interp_wf {A} (c : Call A) w :
  table_wf (w_table w) -> table_wf (w_table (interp A c w).1).
Proof. intros Hw. eapply table_step_wf; [done|]. apply interp_table_step. Qed.

Lemma run_evolves {A} (m : prog Call A) w :
  calls_ok lifecycle_call m -> table_evolves (w_table w) (w_table (run interp m w).1).
Proof.
  intros Hm.
  apply (run_preserves_ok lifecycle_call interp
           (fun w' => table_evolves (w_table w) (w_table w'))); [|done|reflexivity].
  intros B c w' Hc Hw. etrans; [exact Hw|]. by apply interp_evolves.
Qed.
End runs.
