(* ===== verification/Queue.v ===== *)
(** * The Redis adapters

    src/internal/queue: the stream publisher (redis_stream.go), the dead
    stream (redis_dead_stream.go), the delay queue (redis_scheduled.go) and
    the consumer group (redis_consumer.go). *)

From S2P Require Import Prelude GoStd Errors Task Effects Table Metrics Calls.
Local Open Scope Z_scope.

(** [if err != nil { return fmt.Errorf(pre + "%w", err) }]. *)
Definition wrap_err {A} (pre : string) (r : result A) : result A :=
  match r with Ok a => Ok a | Err e => Err (Errorf pre e "") end.

(** ** redis_stream.go *)

Record TaskMessage := mkTaskMessage { tm_ID : string; tm_Type : string; tm_TraceID : string }.

Definition task_values (message : TaskMessage) : gmap string rvalue :=
  let values := <["task_type" := RString (tm_Type message)]>
                  (<["task_id" := RString (tm_ID message)]> ∅) in
  if negb (String.eqb (tm_TraceID message) "")
  then <["trace_id" := RString (tm_TraceID message)]> values else values.

Definition PublishTask (streamName : string) (message : TaskMessage)
  : prog Call (result unit) :=
  r ← call (Redis (XAdd {| xa_Stream := streamName; xa_Values := task_values message |}));
  Ret (wrap_err ("publish task " +:+ tm_ID message +:+ " to redis stream " +:+ streamName
                  +:+ ": ") (res_map (fun _ => tt) r)).

(** ** redis_dead_stream.go *)

Record DeadTaskMessage := mkDeadTaskMessage {
  dm_ID : string; dm_Type : string; dm_TraceID : string; dm_LastError : string;
  dm_RetryCount : Z }.

Definition dead_values (message : DeadTaskMessage) : gmap string rvalue :=
  let values := <["retry_count" := RInt (dm_RetryCount message)]>
                (<["task_type" := RString (dm_Type message)]>
                 (<["task_id" := RString (dm_ID message)]> ∅)) in
  let values := if negb (String.eqb (dm_TraceID message) "")
    then <["trace_id" := RString (dm_TraceID message)]> values else values in
  if negb (String.eqb (dm_LastError message) "")
  then <["last_error" := RString (dm_LastError message)]> values else values.

Definition PublishDead (streamName : string) (message : DeadTaskMessage)
  : prog Call (result unit) :=
  r ← call (Redis (XAdd {| xa_Stream := streamName; xa_Values := dead_values message |}));
  Ret (wrap_err ("publish dead task " +:+ dm_ID message +:+ " to redis stream "
                  +:+ streamName +:+ ": ") (res_map (fun _ => tt) r)).

(** ** redis_scheduled.go *)

Definition ScheduleTask (key : string) (taskID : string) (runAt : Time)
  : prog Call (result unit) :=
  r ← call (Redis (ZAdd key (float64_of_Z (time_Unix runAt)) taskID));
  Ret (wrap_err ("schedule task " +:+ taskID +:+ " in redis zset " +:+ key +:+ ": ")
         (res_map (fun _ => tt) r)).

Definition DueTaskIDs (key : string) (now : Time) (limit : Z)
  : prog Call (result (list string)) :=
  if limit <=? 0 then Ret (Ok [])
  else
    r ← call (Redis (ZRangeArgs {| zr_Key := key; zr_Start := "-inf";
                                   zr_Stop := fmt_d (time_Unix now);
                                   zr_ByScore := true; zr_Count := limit |}));
    Ret (wrap_err ("scan due redis zset " +:+ key +:+ ": ") r).

Definition Remove (key : string) (taskID : string) : prog Call (result unit) :=
  r ← call (Redis (ZRem key taskID));
  Ret (wrap_err ("remove task " +:+ taskID +:+ " from redis zset " +:+ key +:+ ": ")
         (res_map (fun _ => tt) r)).

(** ** redis_consumer.go *)

Record StreamMessage := mkStreamMessage {
  sm_RedisID : string; sm_Task : TaskMessage; sm_Recovered : bool }.

Record RedisStreamConsumer := mkConsumer {
  c_streamName : string; c_groupName : string; c_consumer : string; c_block : Duration }.

Definition stringValue (value : option rvalue) : string * bool :=
  match value with
  | Some (RString s) => (s, true)
  | Some (RBytes s) => (s, true)
  | _ => ("", false)
  end.

Definition streamMessageFromRedis (message : XMessage) (recovered : bool)
  : result StreamMessage :=
  let (taskID, ok) := stringValue (xm_Values message !! "task_id") in
  if negb ok || String.eqb taskID "" then
    Err (ErrorString ("redis message " +:+ xm_ID message +:+ " missing task_id"))
  else
    let (taskType, ok) := stringValue (xm_Values message !! "task_type") in
    if negb ok || String.eqb taskType "" then
      Err (ErrorString ("redis message " +:+ xm_ID message +:+ " missing task_type"))
    else
      let (traceID, _) := stringValue (xm_Values message !! "trace_id") in
      Ok {| sm_RedisID := xm_ID message;
            sm_Recovered := recovered;
            sm_Task := {| tm_ID := taskID; tm_Type := taskType; tm_TraceID := traceID |} |}.

Fixpoint streamMessagesFromRedis (redisMessages : list XMessage) (recovered : bool)
  : result (list StreamMessage) :=
  match redisMessages with
  | [] => Ok []
  | redisMessage :: rest =>
      match streamMessageFromRedis redisMessage recovered with
      | Err e => Err e
      | Ok message => res_map (cons message) (streamMessagesFromRedis rest recovered)
      end
  end.

Definition has_prefix (p s : string) : bool := String.prefix p s.

Section errs.
Context `{!GoText}.

Definition isBusyGroup (e : error) : bool := has_prefix "BUSYGROUP" (error_Error e).
Definition isNoGroup (e : error) : bool := has_prefix "NOGROUP" (error_Error e).

Definition EnsureGroup (c : RedisStreamConsumer) : prog Call (result unit) :=
  r ← call (Redis (XGroupCreateMkStream (c_streamName c) (c_groupName c) "0"));
  Ret (match r with
       | Err e =>
           if negb (isBusyGroup e) then
             Err (Errorf ("create redis stream consumer group " +:+ c_groupName c +:+
                          " on " +:+ c_streamName c +:+ ": ") e "")
           else Ok tt
       | Ok _ => Ok tt
       end).

Definition ReadBatch (c : RedisStreamConsumer) (count : Z)
  : prog Call (result (list StreamMessage)) :=
  let count := if count <=? 0 then 1 else count in
  r ← call (Redis (XReadGroup {| xr_Group := c_groupName c;
                                 xr_Consumer := c_consumer c;
                                 xr_Streams := [c_streamName c; ">"];
                                 xr_Count := count;
                                 xr_Block := c_block c |}));
  match r with
  | Err e =>
      if errors_Is e RedisNil then Ret (Err (Sentinel ErrNoMessages))
      else if isNoGroup e then
        g ← EnsureGroup c;
        Ret (match g with Err e => Err e | Ok _ => Err (Sentinel ErrNoMessages) end)
      else Ret (Err (Errorf ("read redis stream " +:+ c_streamName c +:+ ": ") e ""))
  | Ok [] => Ret (Err (Sentinel ErrNoMessages))
  | Ok (stream :: _) =>
      match xs_Messages stream with
      | [] => Ret (Err (Sentinel ErrNoMessages))
      | messages => Ret (streamMessagesFromRedis messages false)
      end
  end.

(** [messages[0]] panics on an empty slice: [Read] then has no result. *)
Definition Read (c : RedisStreamConsumer) : prog Call (option (result StreamMessage)) :=
  r ← ReadBatch c 1;
  Ret (match r with
       | Err e => Some (Err e)
       | Ok (m :: _) => Some (Ok m)
       | Ok [] => None
       end).

Definition ClaimPending (c : RedisStreamConsumer) (minIdle : Duration) (count : Z)
  : prog Call (result (list StreamMessage)) :=
  r ← call (Redis (XPendingExt {| xp_Stream := c_streamName c; xp_Group := c_groupName c;
                                  xp_Idle := minIdle; xp_Start := "-"; xp_End := "+";
                                  xp_Count := count |}));
  match r with
  | Err e =>
      if isNoGroup e then
        g ← EnsureGroup c; Ret (match g with Err e => Err e | Ok _ => Ok [] end)
      else Ret (Err (Errorf ("inspect redis stream pending entries on " +:+
                               c_streamName c +:+ ": ") e ""))
  | Ok [] => Ret (Ok [])
  | Ok ids =>
      claimed ← call (Redis (XClaim {| xc_Stream := c_streamName c;
                                       xc_Group := c_groupName c;
                                       xc_Consumer := c_consumer c;
                                       xc_MinIdle := minIdle; xc_Messages := ids |}));
      Ret (match claimed with
           | Err e => Err (Errorf ("claim redis stream pending entries on " +:+
                                     c_streamName c +:+ ": ") e "")
           | Ok messages => streamMessagesFromRedis messages true
           end)
  end.

Definition Ack (c : RedisStreamConsumer) (redisID : string) : prog Call (result unit) :=
  r ← call (Redis (XAck (c_streamName c) (c_groupName c) redisID));
  Ret (wrap_err ("ack redis message " +:+ redisID +:+ " on stream " +:+ c_streamName c
                  +:+ ": ") (res_map (fun _ => tt) r)).
End errs.

(** ** The adapters as single commands *)

Section commands.
Context {PG : Postgres} {X : Type} {EV : Env X}.
Implicit Type w : World X.

(** [m] issues the command [c] and nothing else, and fails exactly when [c]
    does. *)
Definition one_command {A B} (m : prog Call (result A)) (c : RedisCmd B) : Prop :=
  forall w w' r, run interp m w = (w', r) ->
    w_table w' = w_table w /\ w_metrics w' = w_metrics w /\
    exists a, redis_run m w = [RedisEv c a] /\ is_Ok a = is_Ok r.

Lemma one_command_call {A B} (c : RedisCmd B) (f : result B -> result A) :
  (forall a, is_Ok (f a) = is_Ok a) ->
  one_command (r ← call (Redis c); Ret (f r)) c.
Proof.
  intros Hf w w' r. unfold redis_run. simpl. unfold ask.
  destruct (env_redis B c (w_ext w)) as [x a]. intros [= <- <-].
  split; [done|]. split; [done|]. exists a. by rewrite Hf.
Qed.

Lemma is_Ok_wrap {A} pre (r : result A) : is_Ok (wrap_err pre r) = is_Ok r.
Proof. by destruct r. Qed.
Lemma is_Ok_map {A B} (f : A -> B) (r : result A) : is_Ok (res_map f r) = is_Ok r.
Proof. by destruct r. Qed.

Lemma PublishTask_command stream m :
  one_command (PublishTask stream m)
    (XAdd {| xa_Stream := stream; xa_Values := task_values m |}).
Proof. apply one_command_call. intros a. by rewrite is_Ok_wrap, is_Ok_map. Qed.

Lemma PublishDead_command stream m :
  one_command (PublishDead stream m)
    (XAdd {| xa_Stream := stream; xa_Values := dead_values m |}).
Proof. apply one_command_call. intros a. by rewrite is_Ok_wrap, is_Ok_map. Qed.

Lemma ScheduleTask_command key id runAt :
  one_command (ScheduleTask key id runAt)
    (ZAdd key (float64_of_Z (time_Unix runAt)) id).
Proof. apply one_command_call. intros a. by rewrite is_Ok_wrap, is_Ok_map. Qed.

Lemma Remove_command key id : one_command (Remove key id) (ZRem key id).
Proof. apply one_command_call. intros a. by rewrite is_Ok_wrap, is_Ok_map. Qed.
End commands.

(** ** Properties *)

Lemma lookup_task_values m k :
  task_values m !! k =
    if String.eqb k "task_id" then Some (RString (tm_ID m))
    else if String.eqb k "task_type" then Some (RString (tm_Type m))
    else if String.eqb k "trace_id" && negb (String.eqb (tm_TraceID m) "")
         then Some (RString (tm_TraceID m)) else None.
Proof.
  unfold task_values.
  destruct (String.eqb_spec k "task_id") as [->|H1];
  [|destruct (String.eqb_spec k "task_type") as [->|H2];
  [|destruct (String.eqb_spec k "trace_id") as [->|H3]]];
  destruct (String.eqb (tm_TraceID m) "") eqn:Et; simpl; by simplify_map_eq.
Qed.

(** C31: messages survive the stream. What [PublishTask] puts on the stream,
    [streamMessageFromRedis] reads back as the same task id, type and trace
    id, for every message whose id and type are not empty; a message with an
    empty id or type is rejected by the reader. *)
Theorem publish_read_roundtrip m rid recovered :
  streamMessageFromRedis {| xm_ID := rid; xm_Values := task_values m |} recovered =
    if String.eqb (tm_ID m) "" then
      Err (ErrorString ("redis message " +:+ rid +:+ " missing task_id"))
    else if String.eqb (tm_Type m) "" then
      Err (ErrorString ("redis message " +:+ rid +:+ " missing task_type"))
    else Ok {| sm_RedisID := rid; sm_Task := m; sm_Recovered := recovered |}.
Proof.
  unfold streamMessageFromRedis. cbn [xm_Values xm_ID]. rewrite !lookup_task_values. cbn.
  destruct (String.eqb (tm_ID m) ""); [done|].
  destruct (String.eqb (tm_Type m) ""); [done|].
  destruct m as [i t tr]; simpl. destruct (String.eqb_spec tr "") as [->|]; done.
Qed.

(** A batch is all or nothing. Reading a batch succeeds exactly when every
    message of it is well-formed, and then yields them in order; one malformed
    message makes the whole batch an error, so the well-formed messages that
    were delivered with it are not handled. *)
Theorem batch_all_or_nothing ms recovered :
  (forall out, streamMessagesFromRedis ms recovered = Ok out <->
     Forall2 (fun m o => streamMessageFromRedis m recovered = Ok o) ms out) /\
  ((exists m e, m ∈ ms /\ streamMessageFromRedis m recovered = Err e) <->
   exists e, streamMessagesFromRedis ms recovered = Err e).
Proof.
  induction ms as [|m ms [IH1 IH2]]; simpl.
  - split; [|split].
    + intros out. split; [intros [= <-]; constructor | by inversion 1].
    + intros (m & e & Hm & _). by apply elem_of_nil in Hm.
    + by intros [e He].
  - destruct (streamMessageFromRedis m recovered) as [o|e] eqn:Em.
    + split.
      * intros out. split.
        -- destruct (streamMessagesFromRedis ms recovered) as [os|e]; simpl; [|done].
           intros [= <-]. constructor; [done|]. by apply IH1.
        -- intros H. inversion H as [|? o' ? os Ho Hos]; simplify_eq.
           assert (o' = o) as -> by congruence. apply IH1 in Hos. by rewrite Hos.
      * split.
        -- intros (m' & e & [->|Hm]%elem_of_cons & He); [congruence|].
           destruct IH2 as [IH2 _]. destruct IH2 as [e' ->]; [eauto|]. by exists e'.
        -- intros [e He]. destruct (streamMessagesFromRedis ms recovered) eqn:E; [done|].
           destruct IH2 as [_ IH2]. destruct IH2 as (m' & e' & Hm & He'); [eauto|].
           exists m', e'. split; [by right | done].
    + split.
      * intros out. split; [done|]. intros H.
        inversion H as [|? o' ? os Ho Hos]; subst. congruence.
      * split; [eauto|]. intros _. exists m, e. split; [left | done].
Qed.
