(* ===== verification/Service.v ===== *)
(** * The task service

    src/internal/task/service.go: submission of a task, in Postgres first,
    then in the stream or the delay queue. *)

From S2P Require Import Prelude GoStd Errors Task Effects Table Metrics Calls Store Lifecycle.
From S2P Require Import Queue.
Local Open Scope Z_scope.

(** The interfaces [CreatorGetter], [Publisher] and [Scheduler] the service
    is built from. *)
Record Service := mkService {
  sv_store_Create : CreateTaskParams -> prog Call (result Task);
  sv_store_Get : string -> prog Call (result Task);
  sv_publisher : TaskMessage -> prog Call (result unit);
  sv_scheduler : string -> Time -> prog Call (result unit);
  sv_metrics : bool;                                  (* metrics != nil *)
}.

(** The service of the application (src/internal/app/app.go). *)
Definition redis_service (streamName scheduledKey : string) (metrics : bool) : Service :=
  {| sv_store_Create := Store.Create;
     sv_store_Get := Store.Get;
     sv_publisher := PublishTask streamName;
     sv_scheduler := ScheduleTask scheduledKey;
     sv_metrics := metrics |}.

Definition NewService (store_Create : CreateTaskParams -> prog Call (result Task))
    (store_Get : string -> prog Call (result Task))
    (publisher : TaskMessage -> prog Call (result unit))
    (scheduler : string -> Time -> prog Call (result unit)) : Service :=
  mkService store_Create store_Get publisher scheduler false.

Definition service_WithMetrics (registry : bool) (s : Service) : Service :=
  let 'mkService c g p d _ := s in mkService c g p d registry.

Definition newTraceID : prog Call string :=
  bytes ← call (RandRead 8);
  Ret ("trace_" +:+ hex_EncodeToString bytes).

Definition derefString (value : option string) : string :=
  match value with None => "" | Some v => v end.

Definition with_trace (params : CreateTaskParams) (traceID : string) : CreateTaskParams :=
  {| cp_Type := cp_Type params;
     cp_Payload := cp_Payload params;
     cp_IdempotencyKey := cp_IdempotencyKey params;
     cp_TraceID := Some traceID;
     cp_RunAt := cp_RunAt params;
     cp_TimeoutSeconds := cp_TimeoutSeconds params;
     cp_MaxRetries := cp_MaxRetries params |}.

(** [params.TraceID]: generated when absent or blank, trimmed otherwise. *)
Definition normalize_trace (params : CreateTaskParams) : prog Call CreateTaskParams :=
  match cp_TraceID params with
  | Some traceID =>
      if String.eqb (TrimSpace traceID) "" then
        generated ← newTraceID; Ret (with_trace params generated)
      else Ret (with_trace params (TrimSpace traceID))
  | None => generated ← newTraceID; Ret (with_trace params generated)
  end.

Definition submitted (s : Service) : prog Call unit :=
  if sv_metrics s then report TaskSubmitted else Ret tt.

Definition service_Create (s : Service) (params : CreateTaskParams) : prog Call (result Task) :=
  params ← normalize_trace params;
  let* task := sv_store_Create s params in
  if negb (NewlyCreated task) then Ret (Ok task)
  else if negb (String.eqb (Status_ task) StatusPending) then
    r ← (if String.eqb (Status_ task) StatusScheduled
         then sv_scheduler s (ID task) (RunAt task) else Ret (Ok tt));
    match r with
    | Err e => Ret (Err (Errorf "schedule created task: " e ""))
    | Ok _ => _ ← submitted s; Ret (Ok task)
    end
  else
    r ← sv_publisher s {| tm_ID := ID task; tm_Type := Type_ task;
                          tm_TraceID := derefString (TraceID task) |};
    match r with
    | Err e => Ret (Err (Errorf "publish created task: " e ""))
    | Ok _ => _ ← submitted s; Ret (Ok task)
    end.

Definition service_Get (s : Service) (id : string) : prog Call (result Task) :=
  sv_store_Get s id.

(** ** Properties *)

Section service_properties.
Context {PG : Postgres} {X : Type} {EV : Env X}.
Context (streamName scheduledKey : string) (metrics : bool).
Local Abbreviation s := (redis_service streamName scheduledKey metrics).
Implicit Type w : World X.

Lemma no_sql_submitted : calls_ok no_sql (submitted s).
Proof. unfold submitted. by destruct (sv_metrics s). Qed.

Lemma no_redis_submitted : calls_ok no_redis (submitted s).
Proof. unfold submitted. by destruct (sv_metrics s). Qed.

(** The dispatch of a task that was just created. *)
Definition dispatched (t : Task) (log : list redis_event) (ok : bool) : Prop :=
  if NewlyCreated t then
    if String.eqb (Status_ t) StatusPending then
      exists a, is_Ok a = ok /\
        log = [RedisEv (XAdd {| xa_Stream := streamName;
                                xa_Values := task_values
                                  (mkTaskMessage (ID t) (Type_ t) (derefString (TraceID t)))
                             |}) a]
    else if String.eqb (Status_ t) StatusScheduled then
      exists a, is_Ok a = ok /\
        log = [RedisEv (ZAdd scheduledKey (float64_of_Z (time_Unix (RunAt t))) (ID t)) a]
    else log = [] /\ ok = true
  else log = [] /\ ok = true.

Lemma normalize_trace_quiet p :
  calls_ok no_sql (normalize_trace p) /\ calls_ok no_redis (normalize_trace p).
Proof. unfold normalize_trace. destruct (cp_TraceID p); [case_match|]; done. Qed.

Lemma normalize_trace_key p w w' p' :
  run interp (normalize_trace p) w = (w', p') ->
  cp_IdempotencyKey p' = cp_IdempotencyKey p.
Proof.
  unfold normalize_trace. destruct (cp_TraceID p); [case_match|]; simpl; unfold ask;
    try destruct (env_rand 8 (w_ext w)); by intros [= _ <-].
Qed.

(** The tail of [service_Create]: one dispatch command, then the metric. *)
Lemma dispatch_tail t (m : prog Call (result unit)) B (c : RedisCmd B) (pre : string) w w'
    (r : result Task) :
  one_command m c ->
  run interp (r ← m; match r with
                     | Err e => Ret (Err (Errorf pre e ""))
                     | Ok _ => _ ← submitted s; Ret (Ok t)
                     end) w = (w', r) ->
  w_table w' = w_table w /\ (forall t', r = Ok t' -> t' = t) /\
  exists a, is_Ok a = is_Ok r /\
    redis_run (r ← m; match r with
                      | Err e => Ret (Err (Errorf pre e ""))
                      | Ok _ => _ ← submitted s; Ret (Ok t)
                      end) w = [RedisEv c a].
Proof.
  intros Hm Hrun. apply run_bind_inv in Hrun as (w1 & rm & H1 & Hrun).
  rewrite (redis_run_bind _ _ _ _ _ H1).
  apply Hm in H1 as (Ht & _ & a & -> & Ha). destruct rm as [u|e].
  - assert (Hq : calls_ok no_redis (_ ← submitted s; Ret (Ok t) : prog Call (result Task))).
    { apply calls_ok_bind; [apply no_redis_submitted | done]. }
    rewrite (redis_run_none _ _ Hq).
    apply run_bind_inv in Hrun as (w2 & [] & H2 & [= -> <-]).
    apply run_no_sql_eq in H2; [|apply no_sql_submitted].
    split; [congruence|]. split; [by intros t' [= ->]|]. by exists a.
  - injection Hrun as <- <-. split; [done|]. split; [done|]. by exists a.
Qed.

(** Submission is the store's [Create] with a trace id, then the
    dispatch. *)
Lemma service_Create_inv params w w' r :
  run interp (service_Create s params) w = (w', r) ->
  exists params' w1 w2 r1,
    cp_IdempotencyKey params' = cp_IdempotencyKey params /\
    w_table w1 = w_table w /\
    run interp (Store.Create params') w1 = (w2, r1) /\
    run_trace interp (Store.Create params') w1 ⊆ run_trace interp (service_Create s params) w /\
    w_table w' = w_table w2 /\
    match r1 with
    | Err e => r = Err e /\ redis_run (service_Create s params) w = []
    | Ok t => (forall t', r = Ok t' -> t' = t) /\
              dispatched t (redis_run (service_Create s params) w) (is_Ok r)
    end.
Proof.
  intros Hrun. unfold service_Create in *.
  apply run_bind_inv in Hrun as (w1 & params' & H1 & Hrun).
  pose proof (normalize_trace_key _ _ _ _ H1) as Hkey.
  rewrite run_trace_bind, H1. cbn [fst snd].
  rewrite (redis_run_bind _ _ _ _ _ H1), redis_run_none by apply normalize_trace_quiet.
  apply run_no_sql_eq in H1; [|apply normalize_trace_quiet].
  exists params', w1. cbn [sv_store_Create redis_service app] in *.
  destruct (run interp (Store.Create params') w1) as [w2 r1] eqn:H2.
  exists w2, r1. do 3 (split; [done|]). unfold bind_res in *.
  split; [intros ev Hev; apply elem_of_app; right; rewrite run_trace_bind;
          apply elem_of_app; by left|].
  rewrite run_bind, H2 in Hrun.
  rewrite (redis_run_bind _ _ _ _ _ H2), (redis_run_none (Store.Create params'))
    by (simpl; done). cbn [app].
  destruct r1 as [t|e]; [|by injection Hrun as <- <-].
  unfold dispatched. destruct (NewlyCreated t); cbn [negb] in *.
  2: { injection Hrun as <- <-. split; [done|]. by split; [intros t' [= ->]|]. }
  destruct (String.eqb (Status_ t) StatusPending) eqn:Ep; cbn [negb] in *.
  - eapply dispatch_tail in Hrun; [|apply PublishTask_command].
    destruct Hrun as (Ht & Hr & Hlog). split; [exact Ht|]. split; [exact Hr|].
    destruct Hlog as (a & Ha & Hlog). by exists a.
  - destruct (String.eqb (Status_ t) StatusScheduled) eqn:Es.
    + eapply dispatch_tail in Hrun; [|apply ScheduleTask_command].
      destruct Hrun as (Ht & Hr & Hlog). split; [exact Ht|]. split; [exact Hr|].
      destruct Hlog as (a & Ha & Hlog). by exists a.
    + change (Ret (Ok tt) ≫= ?f) with (f (Ok tt : result unit)) in *.
      apply run_bind_inv in Hrun as (w3 & [] & H3 & [= -> <-]).
      apply run_no_sql_eq in H3; [|apply no_sql_submitted].
      split; [done|]. split; [by intros t' [= ->]|]. split; [|done].
      apply redis_run_none. apply calls_ok_bind; [apply no_redis_submitted | done].
Qed.

(** What a submission has done, in all cases. *)
Lemma service_Create_outcome params w w' r :
  let m := service_Create s params in
  run interp m w = (w', r) ->
  (exists e, r = Err e /\ redis_run m w = [] /\
     (exists a e', Ev (Sql (InsertTask a)) (Err e') ∈ run_trace interp m w) /\
     (w_table w' = w_table w \/
      exists row, w_table w !! row_id row = None /\
        w_table w' = <[row_id row := row]> (w_table w))) \/
  (exists k row, r = Ok (task_of row false) /\ cp_IdempotencyKey params = Some k /\
     row_with_key k (w_table w) = Some row /\ w_table w' = w_table w /\ redis_run m w = []) \/
  (exists row, w_table w !! row_id row = None /\ w_table w' = <[row_id row := row]> (w_table w) /\
     (row_status row = StatusPending \/ row_status row = StatusScheduled) /\
     row_idempotency_key row = cp_IdempotencyKey params /\
     (forall t, r = Ok t -> t = task_of row true) /\
     dispatched (task_of row true) (redis_run m w) (is_Ok r)).
Proof.
  cbv zeta. intros Hrun. apply service_Create_inv in Hrun
    as (p & w1 & w2 & r1 & Hp & Hw1 & Hc & Hsub & Hw' & Hr).
  destruct r1 as [t|e]; destruct Hr as [Hr Hd].
  - right. unfold dispatched in Hd |- *. destruct (Create_ok _ _ _ _ Hc) as
      [(Hn & Ht & k & row & Hk & Hrow & ->) | (Hn & a & payload & now & -> & Ha & Hst & Hnone & _ & Ht)].
    + left. destruct Hd as [Hlog Hok]. destruct r as [t|e]; [|done].
      rewrite (Hr t eq_refl). exists k, row. rewrite <- Hp, <- Hw1. split; [done|].
      do 2 (split; [done|]). split; [congruence | done].
    + right. cbv zeta in *. eexists. rewrite <- Hp, <- Ha, Hw', <- Hw1.
      split; [exact Hnone|]. split; [exact Ht|]. by split.
  - subst r. left. exists e. split; [done|]. split; [done|].
    destruct (Create_err_cases _ _ _ _ Hc) as [(a & e' & He) Ht].
    split; [exists a, e'; by apply Hsub|]. rewrite Hw', <- Hw1.
    destruct Ht as [Ht | (a' & payload & now & _ & _ & Hnone & _ & Ht)]; [by left|].
    right. by eexists.
Qed.

(** C8: a submission that succeeds is dispatched exactly once, to the right
    place. When [Create] returns a task, either the idempotency key was
    known and nothing was written or sent, or the task is new, stored, and
    exactly one Redis command was issued and accepted: an addition to the
    stream with the task's id, type and trace id if it is [pending], an
    addition to the delay queue with score [run_at] if it is [scheduled]. *)
Theorem Create_dispatches_once params w w' t :
  run interp (service_Create s params) w = (w', Ok t) ->
  (NewlyCreated t = false /\ w_table w' = w_table w /\
     redis_run (service_Create s params) w = []) \/
  (NewlyCreated t = true /\ w_table w !! ID t = None /\
     (exists r, w_table w' = <[ID t := r]> (w_table w) /\ t = task_of r true) /\
     ((Status_ t = StatusPending /\ exists rid,
         redis_run (service_Create s params) w =
           [RedisEv (XAdd {| xa_Stream := streamName;
                             xa_Values := task_values
                               (mkTaskMessage (ID t) (Type_ t) (derefString (TraceID t)))
                          |}) (Ok rid)]) \/
      (Status_ t = StatusScheduled /\ exists n,
         redis_run (service_Create s params) w =
           [RedisEv (ZAdd scheduledKey (float64_of_Z (time_Unix (RunAt t))) (ID t)) (Ok n)]))).
Proof.
  intros Hrun. apply service_Create_inv in Hrun
    as (params' & w1 & w2 & r1 & _ & Hw1 & Hc & _ & Hw' & Hr).
  destruct r1 as [t1|e]; [|by destruct Hr].
  destruct Hr as [Heq Hd]. rewrite <- (Heq t eq_refl) in *. clear Heq t1.
  unfold dispatched in Hd.
  destruct (Create_ok _ _ _ _ Hc) as [(Hn & Ht & _) |
    (Hn & a & payload & now & Ht & _ & Hst & Hnone & _ & Hins)]; rewrite Hn in Hd.
  - left. destruct Hd as [Hlog _]. split; [done|]. split; [congruence | done].
  - right. cbv zeta in *. set (r := inserted_row a payload now) in *.
    assert (Hid : row_id r = ID t) by by rewrite Ht.
    rewrite Hid, Hw1 in *. split; [done|]. split; [done|].
    split; [exists r; split; [congruence | done]|].
    assert (Hs : Status_ t = StatusPending \/ Status_ t = StatusScheduled) by by rewrite Ht.
    destruct Hs as [Hs|Hs]; rewrite Hs in Hd; cbn in Hd.
    + left. split; [done|]. destruct Hd as ([rid|e] & Hok & Hlog); [|done]. by exists rid.
    + right. split; [done|]. destruct Hd as ([n|e] & Hok & Hlog); [|done]. by exists n.
Qed.

(** A submission that failed and yet changed the table has stored a row with
    its idempotency key. *)
Lemma stored_by_failure params w w1 e :
  run interp (service_Create s params) w = (w1, Err e) -> w_table w1 <> w_table w ->
  exists row, w_table w !! row_id row = None /\
    w_table w1 = <[row_id row := row]> (w_table w) /\
    (row_status row = StatusPending \/ row_status row = StatusScheduled) /\
    row_idempotency_key row = cp_IdempotencyKey params.
Proof.
  intros Hrun Hne. apply service_Create_inv in Hrun
    as (p & u1 & u2 & r1 & Hp & Hu1 & Hc & _ & Hu2 & _).
  destruct r1 as [t1|e1]; [destruct (Create_ok _ _ _ _ Hc) as [(_ & Ht & _) |
      (_ & a & payload & now & _ & Ha & Hst & Hnone & _ & Ht)]
    | destruct (Create_err_cases _ _ _ _ Hc) as [_ [Ht |
        (a & payload & now & Ha & Hst & Hnone & _ & Ht)]]]; try congruence;
    eexists; rewrite <- Hp, <- Ha, Hu2, <- Hu1; (split; [exact Hnone|]; by split).
Qed.

(** A submission with a key that is in use. *)
Lemma resubmission_run params k row w w' r :
  cp_IdempotencyKey params = Some k -> row_with_key k (w_table w) = Some row ->
  run interp (service_Create s params) w = (w', r) ->
  w_table w' = w_table w /\ redis_run (service_Create s params) w = [] /\
  match r with
  | Ok t => t = task_of row false
  | Err _ => exists a e, Ev (Sql (InsertTask a)) (Err e) ∈
                           run_trace interp (service_Create s params) w
  end.
Proof.
  intros Hk Hrow Hrun. apply service_Create_inv in Hrun
    as (p & w1 & w2 & r1 & Hp & Hw1 & Hc & Hsub & Hw' & Hr).
  rewrite <- Hp in Hk. rewrite <- Hw1 in Hrow.
  destruct (Create_known_key _ _ _ _ _ _ Hk Hrow Hc) as [Ht Hok].
  split; [congruence|]. destruct r1 as [t|e]; destruct Hr as [Hr Hd].
  - pose proof (Hok t eq_refl) as ->. destruct Hd as [Hlog Hr1]. split; [exact Hlog|].
    destruct r as [t|e]; [by apply Hr | done].
  - subst r. split; [exact Hd|]. destruct (Create_err_cases _ _ _ _ Hc) as [(a & e' & He) _].
    exists a, e'. by apply Hsub.
Qed.

(** C40: a failed dispatch strands the task. Suppose a submission with an
    idempotency key stored its row but returned an error, as it does when the
    command of its dispatch is refused. Then however the table evolves, every
    resubmission with the same key leaves the table as it is and sends
    nothing to Redis; and unless its statement fails it returns, as a success,
    the task of that very row in its current state. So no retry of the client
    ever makes up for the dispatch that failed. *)
Theorem resubmission_never_dispatches params params' k w w1 w2 w3 e r :
  table_wf (w_table w) ->
  cp_IdempotencyKey params = Some k -> cp_IdempotencyKey params' = Some k ->
  run interp (service_Create s params) w = (w1, Err e) ->
  w_table w1 <> w_table w ->
  rtc table_step (w_table w1) (w_table w2) ->
  run interp (service_Create s params') w2 = (w3, r) ->
  exists id,
    (exists r1, w_table w !! id = None /\ w_table w1 !! id = Some r1 /\
       (row_status r1 = StatusPending \/ row_status r1 = StatusScheduled)) /\
    w_table w3 = w_table w2 /\ redis_run (service_Create s params') w2 = [] /\
    match r with
    | Ok t => exists r2, w_table w2 !! id = Some r2 /\ t = task_of r2 false
    | Err _ => exists a e', Ev (Sql (InsertTask a)) (Err e') ∈
                              run_trace interp (service_Create s params') w2
    end.
Proof.
  intros Hwf Hk Hk' H1 Hne Hev H2.
  destruct (stored_by_failure _ _ _ _ H1 Hne) as (row & Hnone & Ht & Hst & Hrk).
  assert (Hwf1 : table_wf (w_table w1)).
  { pose proof (run_wf (service_Create s params) w Hwf) as H. by rewrite H1 in H. }
  destruct (key_kept k (row_id row) _ _ Hev Hwf1) as (_ & r2 & Hk2 & Hr2 & _).
  { exists row. rewrite Ht, lookup_insert_eq, Hrk. by split. }
  exists (row_id row). split; [exists row; by rewrite Ht, lookup_insert_eq|].
  destruct (resubmission_run _ _ _ _ _ _ Hk' Hk2 H2) as (Ht3 & Hlog & Hr).
  split; [exact Ht3|]. split; [exact Hlog|]. destruct r as [t|e']; [by exists r2 | exact Hr].
Qed.
End service_properties.
