(* ===== verification/Handlers.v ===== *)
(** * Task handlers

    src/internal/worker/handler.go (the registry), demo_echo.go and
    webhook_deliver.go. *)

From S2P Require Import Prelude GoStd Errors Task Effects Table Metrics Calls.
Local Open Scope Z_scope.

(** A [Handler] is any code run on a task: a program over the calls handlers
    may make, ending with [nil] ([None]) or an error. *)
Definition Handler := Task -> prog HCall (option error).

(** ** handler.go *)

Abbreviation HandlerRegistry := (gmap string Handler).

Definition NewHandlerRegistry : HandlerRegistry := ∅.

Section handlers.
Context {GT : GoText}.

Definition Register (taskType : string) (handler : option Handler) (r : HandlerRegistry)
  : HandlerRegistry * option error :=
  let normalizedTaskType := TrimSpace taskType in
  if String.eqb normalizedTaskType "" then (r, Some (ErrorString "task_type is required"))
  else match handler with
  | None => (r, Some (ErrorString ("handler for task_type " +:+
                                     strconv_Quote normalizedTaskType +:+ " is nil")))
  | Some handler =>
      match r !! normalizedTaskType with
      | Some _ => (r, Some (ErrorString ("handler already registered for task_type " +:+
                                           strconv_Quote normalizedTaskType)))
      | None => (<[normalizedTaskType := handler]> r, None)
      end
  end.

Definition Handle (r : HandlerRegistry) (taskModel : option Task)
  : prog HCall (option error) :=
  match taskModel with
  | None => Ret (Some (ErrorString "task is nil"))
  | Some taskModel =>
      let taskType := TrimSpace (Type_ taskModel) in
      match (r !! taskType : option Handler) with
      | None => Ret (NonRetryable (Some (UnknownTaskTypeError (Type_ taskModel))))
      | Some handler => handler taskModel
      end
  end.

(** ** demo_echo.go: it only logs *)
Definition DemoEchoHandler : Handler := fun _ => Ret None.
End handlers.

(** ** webhook_deliver.go *)

Record webhookDeliverPayload := mkWebhook {
  wp_URL : string;
  wp_Method : string;
  wp_Headers : gmap string string;
  wp_Body : option string;       (* a json.RawMessage, nil or not *)
}.

(** Decoding of the JSON payload, and the checks [http.NewRequest] makes of
    the method and the URL. *)
Class WebhookLib := {
  json_Unmarshal_webhook : string -> result webhookDeliverPayload;
  http_NewRequest : string -> string -> option error;
}.

Section webhook.
Context {GT : GoText} {WL : WebhookLib}.

Record WebhookDeliverHandler := mkWebhookHandler { wh_Timeout : Duration }.

Definition defaultWebhookTimeout : Duration := 10 * Second.

Definition parseWebhookDeliverPayload (raw : string) : result webhookDeliverPayload :=
  if String.eqb raw "" then
    Err (NonRetryableError (ErrorString "webhook payload is required"))
  else match json_Unmarshal_webhook raw with
  | Err e => Err (NonRetryableError (Errorf "decode webhook payload: " e ""))
  | Ok payload =>
      let url := TrimSpace (wp_URL payload) in
      let method := strings_ToUpper (TrimSpace (wp_Method payload)) in
      let method := if String.eqb method "" then "POST" else method in
      if String.eqb url "" then
        Err (NonRetryableError (ErrorString "webhook payload url is required"))
      else
        let body := match wp_Body payload with None => "null" | Some b => b end in
        Ok {| wp_URL := url; wp_Method := method; wp_Headers := wp_Headers payload;
              wp_Body := Some body |}
  end.

(** The classification of the response status. *)
Definition webhook_status (status : Z) : option error :=
  if (200 <=? status) && (status <? 300) then None
  else if (400 <=? status) && (status <? 500) then
    NonRetryable (Some (ErrorString ("webhook returned non-retryable status " +:+ fmt_d status)))
  else if 500 <=? status then
    Retryable (Some (ErrorString ("webhook returned retryable status " +:+ fmt_d status)))
  else
    Retryable (Some (ErrorString ("webhook returned unexpected status " +:+ fmt_d status))).

Definition webhook_Handle (h : WebhookDeliverHandler) : Handler := fun taskModel =>
  match parseWebhookDeliverPayload (Payload taskModel) with
  | Err e => Ret (Some e)
  | Ok payload =>
      let timeout := if wh_Timeout h <=? 0 then defaultWebhookTimeout else wh_Timeout h in
      match http_NewRequest (wp_Method payload) (wp_URL payload) with
      | Some e => Ret (Some (Errorf "create webhook request: " e ""))
      | None =>
          resp ← call (HttpDo timeout {| hr_Method := wp_Method payload;
                                         hr_URL := wp_URL payload;
                                         hr_Headers := wp_Headers payload;
                                         hr_Body := default "" (wp_Body payload) |});
          match resp with
          | Err e =>
              ctxErr ← call HttpCtxErr;
              Ret (match ctxErr with
                   | Some ce =>
                       if errors_Is ce DeadlineExceeded then
                         Retryable (Some (ErrorString
                           ("webhook request timed out after " +:+ duration_string timeout)))
                       else Retryable (Some (Errorf "webhook request failed: " e ""))
                   | None => Retryable (Some (Errorf "webhook request failed: " e ""))
                   end)
          | Ok status => Ret (webhook_status status)
          end
      end
  end.
End webhook.

(** ** Properties *)

Section handler_properties.
Context {GT : GoText}.

(** Registration. [Register] refuses a blank task type, a nil handler
    and a type already taken, and then leaves the registry as it was;
    otherwise exactly the trimmed type is added, no registered handler is
    ever replaced, and dispatch finds the handler for every spelling of the
    type up to surrounding white space. *)
Theorem Register_spec taskType handler r r' err :
  Register taskType handler r = (r', err) ->
  (err <> None <->
     TrimSpace taskType = "" \/ handler = None \/ is_Some (r !! TrimSpace taskType)) /\
  (err <> None -> r' = r) /\
  (forall h, handler = Some h -> err = None ->
     (forall t, TrimSpace (Type_ t) = TrimSpace taskType -> Handle r' (Some t) = h t) /\
     (forall t, TrimSpace (Type_ t) <> TrimSpace taskType ->
        Handle r' (Some t) = Handle r (Some t)) /\
     r ⊆ r').
Proof.
  unfold Register. destruct (String.eqb_spec (TrimSpace taskType) "") as [Hb|Hb].
  { intros [= <- <-]. split; [by split; [left|]|]. split; [done|]. by intros h _ Hn. }
  destruct handler as [h|].
  2: { intros [= <- <-]. split; [by split; [right; left|]|]. split; [done|]. by intros h. }
  destruct (r !! TrimSpace taskType) as [h'|] eqn:El; intros [= <- <-].
  { split; [split; [intros _; right; right; by eexists | done]|]. split; [done|].
    by intros h0 _ Hn. }
  split; [|split; [done|]].
  - split; [done|]. intros [H | [H | [h' H]]]; congruence.
  - intros h0 [= <-] _. split; [|split].
    + intros t Ht. unfold Handle. cbv zeta. by rewrite Ht, lookup_insert_eq.
    + intros t Ht. unfold Handle. cbv zeta. rewrite lookup_insert_ne; [done | congruence].
    + by apply insert_subseteq.
Qed.

Lemma Handle_unknown (r : HandlerRegistry) t :
  r !! TrimSpace (Type_ t) = None ->
  Handle r (Some t) = Ret (Some (NonRetryableError (UnknownTaskTypeError (Type_ t)))).
Proof. intros H. unfold Handle. cbv zeta. by rewrite H. Qed.

(** The classification of a handler's result. *)
Inductive verdict := Delivered | Permanent | Transient.
Definition classify (res : option error) : verdict :=
  match res with
  | None => Delivered
  | Some e => if IsNonRetryable e then Permanent else Transient
  end.

Lemma classify_status status :
  classify (webhook_status status) =
    if (200 <=? status) && (status <? 300) then Delivered
    else if (400 <=? status) && (status <? 500) then Permanent else Transient.
Proof.
  unfold webhook_status. destruct (_ && _); [done|]. destruct (_ && _); [done|].
  by destruct (500 <=? status).
Qed.

Context {WL : WebhookLib}.

Lemma parse_error_permanent raw e :
  parseWebhookDeliverPayload raw = Err e -> IsNonRetryable e = true.
Proof.
  unfold parseWebhookDeliverPayload. destruct (String.eqb raw ""); [by intros [= <-]|].
  destruct (json_Unmarshal_webhook raw) as [p|e']; [|by intros [= <-]].
  cbv zeta. by destruct (String.eqb (TrimSpace (wp_URL p)) ""); intros [= <-].
Qed.

Lemma parse_ok raw p :
  parseWebhookDeliverPayload raw = Ok p -> wp_URL p <> "" /\ wp_Method p <> "".
Proof.
  unfold parseWebhookDeliverPayload. destruct (String.eqb raw ""); [done|].
  destruct (json_Unmarshal_webhook raw) as [p'|e']; [|done]. cbv zeta.
  destruct (String.eqb_spec (TrimSpace (wp_URL p')) "") as [|Hu]; [done|].
  intros [= <-]. split; [done|]. simpl.
  by destruct (String.eqb_spec (strings_ToUpper (TrimSpace (wp_Method p'))) "").
Qed.

(** C32: what a webhook delivery reports. Against any HTTP peer: a payload
    that is empty, does not decode or has no URL is a permanent failure and
    makes no request; otherwise at most one request is made, to the URL of
    the payload, with the method POST unless given, under a positive timeout
    (ten seconds unless configured), and its outcome decides: a 2xx status
    is a success, a 4xx status a permanent failure, any other status and
    any transport error (timeouts included) a transient one. A request that
    cannot be built is transient as well, and is not sent. The errors of
    net/http are assumed not to be the worker's own [NonRetryableError]. *)
Theorem webhook_classification {W} (peer : forall A, HCall A -> W -> W * A) h t w :
  (forall e method url, http_NewRequest method url = Some e -> IsNonRetryable e = false) ->
  (forall timeout req w e, (peer _ (HttpDo timeout req) w).2 = Err e ->
     IsNonRetryable e = false) ->
  let res := (run peer (webhook_Handle h t) w).2 in
  let trace := run_trace peer (webhook_Handle h t) w in
  match parseWebhookDeliverPayload (Payload t) with
  | Err _ => classify res = Permanent /\ trace = []
  | Ok p =>
      wp_URL p <> "" /\ wp_Method p <> "" /\
      match http_NewRequest (wp_Method p) (wp_URL p) with
      | Some _ => classify res = Transient /\ trace = []
      | None => exists timeout resp rest,
          let req := {| hr_Method := wp_Method p; hr_URL := wp_URL p;
                        hr_Headers := wp_Headers p; hr_Body := default "" (wp_Body p) |} in
          trace = Ev (HttpDo timeout req) resp :: rest /\
          (0 < wh_Timeout h -> timeout = wh_Timeout h) /\
          (wh_Timeout h <= 0 -> timeout = 10 * Second) /\
          (forall timeout' req' resp', Ev (HttpDo timeout' req') resp' ∉ rest) /\
          classify res =
            match resp with
            | Ok status =>
                if (200 <=? status) && (status <? 300) then Delivered
                else if (400 <=? status) && (status <? 500) then Permanent else Transient
            | Err _ => Transient
            end
      end
  end.
Proof.
  intros Hnew Hpeer. cbv zeta. unfold webhook_Handle.
  destruct (parseWebhookDeliverPayload (Payload t)) as [p|e] eqn:Ep.
  2: { apply parse_error_permanent in Ep. simpl. by rewrite Ep. }
  destruct (parse_ok _ _ Ep) as [Hu Hm]. split; [done|]. split; [done|].
  destruct (http_NewRequest (wp_Method p) (wp_URL p)) as [e|] eqn:En.
  { simpl. by rewrite (Hnew _ _ _ En). }
  set (timeout := if wh_Timeout h <=? 0 then defaultWebhookTimeout else wh_Timeout h).
  assert (Ht : (0 < wh_Timeout h -> timeout = wh_Timeout h) /\
               (wh_Timeout h <= 0 -> timeout = 10 * Second)).
  { unfold timeout. destruct (Z.leb_spec (wh_Timeout h) 0); split; (done || lia). }
  destruct Ht as [Ht1 Ht2]. cbn [run run_trace mbind prog_mbind prog_bind call].
  set (req := mkHttpRequest _ _ _ _).
  pose proof (Hpeer timeout req w) as Herr.
  destruct (peer _ (HttpDo timeout req) w) as [w1 [status|e]] eqn:Eq; cbn.
  - exists timeout, (Ok status), []. do 3 (split; [done|]). split; [|apply classify_status].
    intros ???. apply not_elem_of_nil.
  - destruct (peer _ HttpCtxErr w1) as [w2 ce] eqn:Ec. cbn.
    eexists timeout, (Err e), _. do 3 (split; [done|]). split.
    + intros ??? H%list_elem_of_singleton. inversion H.
    + specialize (Herr e eq_refl). destruct ce as [ce|]; [destruct (errors_Is ce _)|];
        simpl; by rewrite ?Herr.
Qed.
End handler_properties.
