(* ===== verification/Worker.v ===== *)
(** * The worker

    src/internal/worker/worker.go: what one goroutine does with one stream
    message, and the bookkeeping of the polling loop. *)

From S2P Require Import Prelude GoStd Errors Task Effects Table Metrics Calls Store Lifecycle.
From S2P Require Import Queue Handlers.
Local Open Scope Z_scope.

(** The interface [Consumer]. *)
Record Consumer := mkConsumerI {
  EnsureGroup_ : prog Call (result unit);
  ReadBatch_ : Z -> prog Call (result (list StreamMessage));
  ClaimPending_ : Duration -> Z -> prog Call (result (list StreamMessage));
  Ack_ : string -> prog Call (result unit);
}.

(** Its implementation by package [queue]. *)
Definition redis_consumer `{!GoText} (c : RedisStreamConsumer) : Consumer :=
  {| EnsureGroup_ := EnsureGroup c;
     ReadBatch_ := ReadBatch c;
     ClaimPending_ := ClaimPending c;
     Ack_ := Ack c |}.

Record Worker := mkWorker {
  wk_consumer : Consumer;
  wk_store : TaskStore;
  wk_handlers : HandlerRegistry;
  wk_name : string;
  wk_metrics : bool;                                  (* metrics != nil *)
  wk_deadPublisher : option (DeadTaskMessage -> prog Call (result unit));
  wk_concurrency : Z;
  wk_batchSize : Z;
  wk_pendingMinIdle : Duration;
  wk_pendingClaimBatch : Z;
  wk_pendingRecoveryTick : Duration;
  wk_lastPendingRecovery : Time;
}.

Definition defaultWorkerConcurrency : Z := 4.
Definition defaultWorkerBatchSize : Z := 10.

Definition New (consumer : Consumer) (store : TaskStore) (name : string) : Worker :=
  {| wk_consumer := consumer;
     wk_store := store;
     wk_handlers := NewHandlerRegistry;
     wk_name := name;
     wk_metrics := false;
     wk_deadPublisher := None;
     wk_concurrency := defaultWorkerConcurrency;
     wk_batchSize := defaultWorkerBatchSize;
     wk_pendingMinIdle := 30 * Second;
     wk_pendingClaimBatch := 10;
     wk_pendingRecoveryTick := 5 * Second;
     wk_lastPendingRecovery := zero_time |}.

(** The builder methods. The semaphore of the worker is a channel of capacity
    [wk_concurrency]. *)
Definition WithConcurrency (n : Z) (w : Worker) : Worker :=
  if 0 <? n then
    let 'mkWorker c s h nm m d _ b mi cb rt l := w in mkWorker c s h nm m d n b mi cb rt l
  else w.

Definition WithBatchSize (n : Z) (w : Worker) : Worker :=
  if 0 <? n then
    let 'mkWorker c s h nm m d k _ mi cb rt l := w in mkWorker c s h nm m d k n mi cb rt l
  else w.

Definition WithHandlerRegistry (registry : option HandlerRegistry) (w : Worker) : Worker :=
  match registry with
  | Some registry =>
      let 'mkWorker c s _ nm m d k b mi cb rt l := w in
      mkWorker c s registry nm m d k b mi cb rt l
  | None => w
  end.

Definition WithPendingRecovery (minIdle : Duration) (batch : Z) (tick : Duration)
    (w : Worker) : Worker :=
  let 'mkWorker c s h nm m d k b _ _ _ l := w in
  mkWorker c s h nm m d k b minIdle batch tick l.

Definition WithMetrics (registry : bool) (w : Worker) : Worker :=
  let 'mkWorker c s h nm _ d k b mi cb rt l := w in
  mkWorker c s h nm registry d k b mi cb rt l.

Definition WithDeadPublisher (publisher : option (DeadTaskMessage -> prog Call (result unit)))
    (w : Worker) : Worker :=
  let 'mkWorker c s h nm m _ k b mi cb rt l := w in
  mkWorker c s h nm m publisher k b mi cb rt l.

(** [if w.metrics != nil { w.metrics.op(time.Since(start)) }]. *)
Definition record_since (enabled : bool) (op : Duration -> MetricOp) (start : Time)
  : prog Call unit :=
  if enabled then now ← call TimeNow; report (op (time_Sub now start)) else Ret tt.

Definition record (enabled : bool) (op : MetricOp) : prog Call unit :=
  if enabled then report op else Ret tt.

Section worker.
Context {GT : GoText}.

Definition executeWithTimeout (w : Worker) (runningTask : Task)
  : prog Call (option error) :=
  let timeout := duration_mul (TimeoutSeconds runningTask) Second in
  let timeout := if timeout <=? 0 then 300 * Second else timeout in
  _ ← call (WithTimeout timeout);
  err ← translate (fun A c => Handler_ c) (Handle (wk_handlers w) (Some runningTask));
  ctxErr ← call ExecCtxErr;
  Ret (match ctxErr with
       | Some ce =>
           if errors_Is ce DeadlineExceeded then
             Some (ErrorString ("task execution timed out after " +:+
                                  duration_string timeout))
           else err
       | None => err
       end).

Definition handleExecutionFailure (w : Worker) (runningTask : Task) (traceID : string)
    (executionErr : error) : prog Call (result unit) :=
  let failure := error_Error executionErr in
  let* failedTask := @ts_MarkFailed (wk_store w) (ID runningTask) failure in
  now ← call TimeNow;
  let decision := DecideFailure now (RetryCount failedTask) (MaxRetries failedTask) in
  let decision := if IsNonRetryable executionErr
                  then mkDecision StatusDead (RetryCount failedTask) None
                  else decision in
  let* finalTask := @ts_CompleteFailure (wk_store w) (ID failedTask) decision failure in
  _ ← (if String.eqb (Status_ finalTask) StatusRetrying then record (wk_metrics w) TaskRetried
       else if String.eqb (Status_ finalTask) StatusDead then record (wk_metrics w) TaskDead
       else Ret tt);
  match wk_deadPublisher w with
  | Some publish =>
      if String.eqb (Status_ finalTask) StatusDead then
        _ ← publish {| dm_ID := ID runningTask;
                       dm_Type := Type_ runningTask;
                       dm_TraceID := traceID;
                       dm_LastError := failure;
                       dm_RetryCount := RetryCount finalTask |};
        Ret (Ok tt)
      else Ret (Ok tt)
  | None => Ret (Ok tt)
  end.

(** The claim of the task: a message recovered from another consumer whose
    task is still [running] is taken over as it is, any other message must
    win the transition from [pending]. *)
Definition claim_task (w : Worker) (message : StreamMessage) (currentTask : Task)
  : prog Call (result Task) :=
  if sm_Recovered message && String.eqb (Status_ currentTask) StatusRunning then
    _ ← record_since (wk_metrics w) TaskStarted (CreatedAt currentTask);
    Ret (Ok currentTask)
  else
    let* runningTask := @ts_Transition (wk_store w) (tm_ID (sm_Task message))
                          StatusPending StatusRunning (Some (wk_name w)) in
    _ ← record_since (wk_metrics w) TaskStarted (CreatedAt runningTask);
    Ret (Ok runningTask).

Definition handleMessage (w : Worker) (message : StreamMessage) : prog Call (result unit) :=
  let traceID := tm_TraceID (sm_Task message) in
  let* currentTask := @ts_Get (wk_store w) (tm_ID (sm_Task message)) in
  let traceID := if String.eqb traceID "" then default traceID (TraceID currentTask)
                 else traceID in
  if IsTerminal (Status_ currentTask) then Ack_ (wk_consumer w) (sm_RedisID message)
  else
    let* runningTask := claim_task w message currentTask in
    executionStartedAt ← call TimeNow;
    execErr ← executeWithTimeout w runningTask;
    match execErr with
    | Some err =>
        let* _ := handleExecutionFailure w runningTask traceID err in
        _ ← record_since (wk_metrics w) TaskFailed executionStartedAt;
        Ack_ (wk_consumer w) (sm_RedisID message)
    | None =>
        let* _ := @ts_Transition (wk_store w) (tm_ID (sm_Task message))
                    StatusRunning StatusSuccess (Some (wk_name w)) in
        _ ← record_since (wk_metrics w) TaskSucceeded executionStartedAt;
        Ack_ (wk_consumer w) (sm_RedisID message)
    end.

Definition shouldRecoverPending (w : Worker) (now : Time) : bool * Worker :=
  if (wk_pendingMinIdle w <=? 0) || (wk_pendingClaimBatch w <=? 0) ||
     (wk_pendingRecoveryTick w <=? 0) then (false, w)
  else if time_IsZero (wk_lastPendingRecovery w) ||
          (wk_pendingRecoveryTick w <=? time_Sub now (wk_lastPendingRecovery w)) then
    (true, {| wk_consumer := wk_consumer w;
              wk_store := wk_store w;
              wk_handlers := wk_handlers w;
              wk_name := wk_name w;
              wk_metrics := wk_metrics w;
              wk_deadPublisher := wk_deadPublisher w;
              wk_concurrency := wk_concurrency w;
              wk_batchSize := wk_batchSize w;
              wk_pendingMinIdle := wk_pendingMinIdle w;
              wk_pendingClaimBatch := wk_pendingClaimBatch w;
              wk_pendingRecoveryTick := wk_pendingRecoveryTick w;
              wk_lastPendingRecovery := now |})
  else (false, w).
End worker.

(** The worker the application builds (src/internal/app/app.go): the
    Postgres store, a Redis consumer group and, unless absent, a dead
    stream. *)
Definition redis_worker `{!GoText} (c : RedisStreamConsumer) (deadStream : option string)
    (handlers : HandlerRegistry) (name : string) (metrics : bool)
    (concurrency batchSize : Z) : Worker :=
  {| wk_consumer := redis_consumer c;
     wk_store := store_TaskStore;
     wk_handlers := handlers;
     wk_name := name;
     wk_metrics := metrics;
     wk_deadPublisher := PublishDead <$> deadStream;
     wk_concurrency := concurrency;
     wk_batchSize := batchSize;
     wk_pendingMinIdle := 30 * Second;
     wk_pendingClaimBatch := 10;
     wk_pendingRecoveryTick := 5 * Second;
     wk_lastPendingRecovery := zero_time |}.

(** ** Events of interest *)

(** The message is acknowledged. *)
Definition is_ack (e : event Call) : bool :=
  match e with Ev c _ => match c with Redis (XAck _ _ _) => true | _ => false end end.

(** A handler is about to run. *)
Definition is_exec (e : event Call) : bool :=
  match e with Ev c _ => match c with WithTimeout _ => true | _ => false end end.

(** Something is added to a stream. *)
Definition is_xadd (e : event Call) : bool :=
  match e with Ev c _ => match c with Redis (XAdd _) => true | _ => false end end.

(** The task of the message is settled: it was read in a terminal status,
    or its success, or the outcome of its failure, has been stored. *)
Definition settles (id : string) : event Call -> bool :=
  answered (fun A q r =>
    match q with
    | SelectTask i => String.eqb i id && IsTerminal (row_status r)
    | UpdateTransition i _ to _ => String.eqb i id && String.eqb to StatusSuccess
    | UpdateComplete i _ _ _ _ => String.eqb i id
    | _ => false
    end).

(** The right to execute the task is acquired: its transition from [pending]
    to [running] was won, or, for a recovered message, it was read
    [running]. *)
Definition claims (id : string) (recovered : bool) : event Call -> bool :=
  answered (fun A q r =>
    match q with
    | SelectTask i =>
        String.eqb i id && recovered && String.eqb (row_status r) StatusRunning
    | UpdateTransition i from to _ =>
        String.eqb i id && String.eqb from StatusPending && String.eqb to StatusRunning
    | _ => false
    end).

(** The outcome of an execution is about to be stored. *)
Definition stores_outcome (e : event Call) : bool :=
  match e with
  | Ev c _ =>
      match c with
      | Sql (UpdateTransition _ _ to _) => String.eqb to StatusSuccess
      | Sql (UpdateFailed _ _) => true
      | _ => false
      end
  end.

(** A failure was finalized as [dead]. *)
Definition declares_dead : event Call -> bool :=
  answered (fun A q r =>
    match q with
    | UpdateComplete _ _ _ _ _ => String.eqb (row_status r) StatusDead
    | _ => false
    end).



(** The discipline of [handleMessage], four precedences watched side by
    side: acknowledge only a settled task, execute only a claimed one, store
    an outcome only of an execution, publish only the dead. *)
Definition discipline (id : string) (recovered : bool) :
    (bool * bool) * (bool * bool) -> event Call -> option ((bool * bool) * (bool * bool)) :=
  prod_step
    (prod_step (guard_step (settles id) is_ack) (guard_step (claims id recovered) is_exec))
    (prod_step (guard_step is_exec stores_outcome) (guard_step declares_dead is_xadd)).

(** An answer without a row leaves the discipline where it is. *)
Ltac quiet_answer :=
  intros [[|? ?]|?] ?; try done; (split; [done|]);
  unfold discipline, prod_step, guard_step; cbn; by rewrite ?orb_false_r.

Section walk.
Context {GT : GoText}.
Context (c : RedisStreamConsumer) (deadStream : option string)
        (handlers : HandlerRegistry) (name : string) (metrics : bool)
        (concurrency batchSize : Z).
Local Abbreviation w :=
  (redis_worker c deadStream handlers name metrics concurrency batchSize).
Context (id : string) (recovered : bool).
Local Abbreviation step := (assume_step misidentified (discipline id recovered)).

(** A call the discipline does not look at leaves it where it is. *)
Lemma step_ignored {A} (k : Call A) s x :
  (forall x, settles id (Ev k x) = false /\ claims id recovered (Ev k x) = false /\
             declares_dead (Ev k x) = false) ->
  (forall x, is_ack (Ev k x) = false /\ is_exec (Ev k x) = false /\
             stores_outcome (Ev k x) = false /\ is_xadd (Ev k x) = false) ->
  discipline id recovered s (Ev k x) = Some s.
Proof.
  intros H1 H2. destruct s as [[s1 s2] [s3 s4]]. unfold discipline, prod_step, guard_step.
  destruct (H1 x) as (-> & -> & ->), (H2 x) as (-> & -> & -> & ->). cbn.
  by rewrite !orb_false_r.
Qed.

Lemma wlp_now {B} (k : Time -> prog Call B) Q s :
  (forall x, wlp step (k x) Q (Some s)) -> wlp step (now ← call TimeNow; k now) Q (Some s).
Proof.
  intros Hk. apply (wlp_call misidentified _ TimeNow k); [done|]. intros x. exists s.
  split; [by apply step_ignored | apply Hk].
Qed.

Lemma wlp_record b op Q s : Q (Some s) tt -> wlp step (record b op) Q (Some s).
Proof.
  intros HQ. unfold record. destruct b; [|done].
  eapply wlp_mono; [|apply (wlp_for_each step (fun s' => s' = Some s));
    [intros u ? -> | reflexivity]]; [by intros ? [] ->|].
  apply (wlp_call misidentified _ (Metric u) Ret); [done|]. intros []. exists s.
  by split; [apply step_ignored|].
Qed.

Lemma wlp_record_since b op start Q s :
  Q (Some s) tt -> wlp step (record_since b op start) Q (Some s).
Proof.
  intros HQ. unfold record_since. destruct b; [|done]. apply wlp_now. intros t.
  by apply (wlp_record true).
Qed.

(** The execution of the handler needs the claim, and is one execution. *)
Lemma wlp_execute t Q s1 s3 s4 :
  (forall err, Q (Some ((s1, true), (true, s4))) err) ->
  wlp step (executeWithTimeout w t) Q (Some ((s1, true), (s3, s4))).
Proof.
  intros HQ. unfold executeWithTimeout.
  eapply (wlp_call misidentified _ (WithTimeout _)); [done|]. intros [].
  exists ((s1, true), (true, s4)). split.
  { unfold discipline, prod_step, guard_step. cbn. by rewrite !orb_false_r, orb_true_r. }
  apply wlp_bind, wlp_translate.
  - intros A hc x. split; [done | by apply step_ignored].
  - intros err. eapply (wlp_call misidentified _ ExecCtxErr); [done|]. intros x.
    eexists. split; [by apply step_ignored|]. apply HQ.
Qed.

Lemma wlp_Ack rid s2 s3 s4 :
  wlp step (Ack_ (wk_consumer w) rid) (fun _ _ => True) (Some ((true, s2), (s3, s4))).
Proof.
  eapply (wlp_call misidentified _ (Redis (XAck _ _ _))); [done|]. intros x.
  eexists. split; [|apply wlp_Ret; exact I].
  unfold discipline, prod_step, guard_step. cbn. reflexivity.
Qed.

Lemma wlp_failure t traceID e Q s1 s2 :
  ID t = id ->
  (forall e s, Q s (Err e)) -> (forall s4, Q (Some ((true, s2), (true, s4))) (Ok tt)) ->
  (forall r, Q None r) ->
  wlp step (handleExecutionFailure w t traceID e) Q (Some ((s1, s2), (true, false))).
Proof.
  intros Hid Herr Hok Hsink. unfold handleExecutionFailure. apply wlp_bind_res.
  apply wlp_row_method.
  - quiet_answer.
  - intros r rest Hr. cbn in Hr. apply negb_false_iff, String.eqb_eq in Hr.
    exists ((s1, s2), (true, false)). split.
    { unfold discipline, prod_step, guard_step; cbn; by rewrite !orb_false_r. }
    apply wlp_now. intros now. apply wlp_bind_res.
    set (d := if IsNonRetryable e then _ else _).
    assert (Hd : fd_Status d = StatusRetrying \/ fd_Status d = StatusDead).
    { unfold d. destruct (IsNonRetryable e); [by right|]. apply DecideFailure_status. }
    cbn [ts_CompleteFailure wk_store redis_worker store_TaskStore].
    rewrite (CompleteFailure_stmt _ _ _ Hd). apply wlp_row_method.
    + quiet_answer.
    + intros r2 rest2 Hr2.
      exists ((true, s2), (true, String.eqb (row_status r2) StatusDead)). split.
      { unfold discipline, prod_step, guard_step; cbn.
        rewrite Hr, Hid, String.eqb_refl. by rewrite !orb_false_r, orb_true_r. }
      apply wlp_bind. eapply wlp_mono; [|].
      2: { instantiate (1 := fun s _ => s = Some ((true, s2),
             (true, String.eqb (row_status r2) StatusDead))).
           cbn [Status_ task_of].
           repeat case_match; try (by apply wlp_record); by apply wlp_Ret. }
      intros s [] ->. cbn [wk_deadPublisher redis_worker Status_ task_of].
      destruct deadStream as [ds|]; cbn [fmap option_fmap option_map]; [|by apply wlp_Ret].
      destruct (String.eqb (row_status r2) StatusDead); [|by apply wlp_Ret].
      apply wlp_bind. eapply (wlp_call misidentified _ (Redis (XAdd _))); [done|].
      intros x. eexists. split.
      { unfold discipline, prod_step, guard_step; cbn; rewrite ?orb_false_r; reflexivity. }
      do 2 apply wlp_Ret. apply Hok.
    + intros e'. apply Herr.
    + intros [a|e']; [|apply Hsink]. apply wlp_sink. apply Hsink.
  - intros e'. apply Herr.
  - intros [a|e']; [|apply Hsink]. apply wlp_sink. apply Hsink.
Qed.

(** The claim, after the task was read with its claim flag at [b]. *)
Lemma wlp_claim message cur b Q :
  tm_ID (sm_Task message) = id -> sm_Recovered message = recovered ->
  ID cur = id -> b = recovered && String.eqb (Status_ cur) StatusRunning ->
  (forall t, ID t = id -> Q (Some ((false, true), (false, false))) (Ok t)) ->
  (forall e, Q (Some ((false, b), (false, false))) (Err e)) -> (forall r, Q None r) ->
  wlp step (claim_task w message cur) Q (Some ((false, b), (false, false))).
Proof.
  intros Hid Hrec Hcur Hb Hok Herr Hsink. unfold claim_task. rewrite Hrec, <- Hb.
  destruct b.
  { apply wlp_bind. apply wlp_record_since. apply wlp_Ret. by apply Hok. }
  apply wlp_bind_res. cbn [ts_Transition wk_store redis_worker store_TaskStore].
  rewrite Transition_stmt by done. apply wlp_row_method.
  - quiet_answer.
  - intros r rest Hr. cbn in Hr. apply negb_false_iff, String.eqb_eq in Hr.
    exists ((false, true), (false, false)). split.
    { unfold discipline, prod_step, guard_step; cbn. by rewrite Hid, String.eqb_refl. }
    apply wlp_bind, wlp_record_since, wlp_Ret, Hok. simpl. congruence.
  - intros e. apply Herr.
  - intros [a|e']; [|apply Hsink]. apply wlp_sink. apply Hsink.
Qed.

(** [handleMessage] keeps the discipline. *)
Lemma handleMessage_discipline message :
  tm_ID (sm_Task message) = id -> sm_Recovered message = recovered ->
  passes misidentified (discipline id recovered) ((false, false), (false, false))
    (handleMessage w message).
Proof.
  intros Hid Hrec. unfold passes, handleMessage. apply wlp_bind_res.
  cbn [ts_Get wk_store redis_worker store_TaskStore]. rewrite Hid. apply wlp_row_method.
  - quiet_answer.
  - intros r rest Hr. cbn in Hr. apply negb_false_iff, String.eqb_eq in Hr.
    exists ((IsTerminal (row_status r), recovered && String.eqb (row_status r) StatusRunning),
            (false, false)). split.
    { unfold discipline, prod_step, guard_step; cbn. by rewrite String.eqb_refl. }
    cbn [Status_ task_of]. destruct (IsTerminal (row_status r)); [apply wlp_Ack|].
    apply wlp_bind_res. apply wlp_claim; try done.
    + intros t Ht. apply wlp_now. intros started. apply wlp_bind, wlp_execute.
      intros [err|].
      * apply wlp_bind_res, wlp_failure; try done.
        -- intros s4. apply wlp_bind, wlp_record_since, wlp_Ack.
        -- intros [a|e']; [|done]. by apply wlp_sink.
      * apply wlp_bind_res. cbn [ts_Transition wk_store redis_worker store_TaskStore].
        rewrite Transition_stmt by done. apply wlp_row_method.
        -- quiet_answer.
        -- intros r2 rest2 _. exists ((true, true), (true, false)). split.
           { unfold discipline, prod_step, guard_step; cbn. by rewrite String.eqb_refl. }
           apply wlp_bind, wlp_record_since, wlp_Ack.
        -- done.
        -- intros [a|e']; [|done]. by apply wlp_sink.
    + intros [a|e']; [|done]. by apply wlp_sink.
  - done.
  - intros [a|e']; [|done]. by apply wlp_sink.
Qed.
End walk.

(** ** Properties on traces *)

Section worker_traces.
Context {GT : GoText}.
Context (c : RedisStreamConsumer) (deadStream : option string)
        (handlers : HandlerRegistry) (name : string) (metrics : bool)
        (concurrency batchSize : Z).
Local Abbreviation w :=
  (redis_worker c deadStream handlers name metrics concurrency batchSize).

(** A trace of the handling of [message] in which the database answers
    with the rows it is asked for. *)
Definition honest_trace (message : StreamMessage) (t : list (event Call)) : Prop :=
  traces (handleMessage w message) t /\ forall e, e ∈ t -> misidentified e = false.

Lemma honest_discipline message t :
  honest_trace message t ->
  observe (discipline (tm_ID (sm_Task message)) (sm_Recovered message))
    ((false, false), (false, false)) t <> None.
Proof.
  intros [Ht Hb]. eapply passes_sound; [|exact Ht|exact Hb].
  by apply handleMessage_discipline.
Qed.

(** C3: a message is acknowledged only when its task is settled. In every
    sequence of calls and answers, other goroutines interleaved as they
    may be, an XACK is preceded by an answer that shows the task of the
    message read in a terminal status, stored as [success], or its failure
    finalized. *)
Theorem ack_only_settled message pre e post :
  honest_trace message (pre ++ e :: post) -> is_ack e = true ->
  exists e', e' ∈ pre /\ settles (tm_ID (sm_Task message)) e' = true.
Proof.
  intros H%honest_discipline He. unfold discipline in H.
  apply observe_prod in H as [[H _]%observe_prod _]. by eapply guard_precedes in H.
Qed.

(** C4: a handler runs only on a claimed task. In every sequence of calls
    and answers, the execution of a handler is preceded by the transition
    of the task from [pending] to [running], won by this very goroutine, or,
    for a recovered message only, by the task having been read
    [running]. *)
Theorem exec_only_claimed message pre e post :
  honest_trace message (pre ++ e :: post) -> is_exec e = true ->
  exists e', e' ∈ pre /\
    claims (tm_ID (sm_Task message)) (sm_Recovered message) e' = true.
Proof.
  intros H%honest_discipline He. unfold discipline in H.
  apply observe_prod in H as [[_ H]%observe_prod _]. by eapply guard_precedes in H.
Qed.

(** C9: outcomes come from executions and only the dead are published. In
    every sequence of calls and answers, a statement that stores a success
    or a failure is preceded by an execution of the handler, and an addition
    to a stream by a failure finalized as [dead]. *)
Theorem outcome_only_executed message pre e post :
  honest_trace message (pre ++ e :: post) ->
  (stores_outcome e = true -> exists e', e' ∈ pre /\ is_exec e' = true) /\
  (is_xadd e = true -> exists e', e' ∈ pre /\ declares_dead e' = true).
Proof.
  intros H%honest_discipline. unfold discipline in H.
  apply observe_prod in H as [_ [H1 H2]%observe_prod].
  split; intros He; by eapply guard_precedes in He.
Qed.
End worker_traces.

(** ** What [handleMessage] does to the table *)

Section worker_outcome.
Context {GT : GoText} {PG : Postgres} {X : Type} {EV : Env X}.
Context (w : Worker) (HS : TaskStoreContract (wk_store w)).

(** The consumer and the dead-letter publisher talk to Redis, not to
    Postgres. *)
Context (Hack : forall rid, calls_ok no_sql (Ack_ (wk_consumer w) rid))
        (Hdead : forall publish m, wk_deadPublisher w = Some publish ->
                   calls_ok no_sql (publish m)).
Implicit Type world : World X.

Lemma no_sql_record b op : calls_ok no_sql (record b op).
Proof. destruct b; [|done]. by destruct op. Qed.

Lemma no_sql_record_since b op start : calls_ok no_sql (record_since b op start).
Proof. destruct b; [|done]. split; [done|]. intros now. apply (no_sql_record true). Qed.

Lemma no_sql_execute t : calls_ok no_sql (executeWithTimeout w t).
Proof.
  unfold executeWithTimeout. split; [done|]. intros x.
  apply (calls_ok_bind no_sql); [by apply calls_ok_translate | done].
Qed.

(** The decision for a failed execution. *)
Definition failure_decision (now : Time) (r : Row) (err : error) : FailureDecision :=
  if IsNonRetryable err then mkDecision StatusDead (row_retry_count r) None
  else DecideFailure now (row_retry_count r) (row_max_retries r).

(** [after_execution id r0 t res t']: the row [r0] of task [id] was executed
    with result [res], and table [t] (which holds [r0]) has become [t']. *)
Definition after_execution (id : string) (r0 : Row) (t : table) (res : option error)
    (t' : table) : Prop :=
  exists now, match res with
  | None => t' = <[id := set_transition StatusSuccess (Some (wk_name w)) now r0]> t
  | Some err => exists now1 now2,
      let d := failure_decision now r0 err in
      t' = <[id := set_complete (fd_Status d) (fd_RetryCount d) (fd_NextRetryAt d)
                     (error_Error err) now2 (set_failed (error_Error err) now1 r0)]> t
  end.

Lemma failure_ok t traceID err world world' r0 :
  t = task_of r0 false -> w_table world !! row_id r0 = Some r0 ->
  run interp (handleExecutionFailure w t traceID err) world = (world', Ok tt) ->
  after_execution (row_id r0) r0 (w_table world) (Some err) (w_table world').
Proof.
  intros -> Hr0 Hrun. unfold handleExecutionFailure in Hrun.
  apply run_bind_res_inv in Hrun as (w1 & t1 & H1 & Hrun).
  apply tsc_MarkFailed in H1 as (_ & r1 & (r & now1 & Hr & _ & -> & _ & Ht1) & ->).
  simpl in Hr. rewrite Hr0 in Hr. injection Hr as <-.
  apply run_bind_inv in Hrun as (w2 & now & H2 & Hrun).
  apply run_no_sql_eq in H2; [|done].
  apply run_bind_res_inv in Hrun as (w3 & t2 & H3 & Hrun).
  assert (Hend : w_table world' = w_table w3).
  { eapply run_no_sql_eq; [|exact Hrun]. apply calls_ok_bind.
    - destruct (String.eqb _ StatusRetrying); [apply no_sql_record|].
      destruct (String.eqb _ StatusDead); [apply no_sql_record | done].
    - intros x. destruct (wk_deadPublisher w) as [publish|] eqn:Ep; [|done].
      destruct (String.eqb _ StatusDead); [|done].
      apply calls_ok_bind; [by eapply Hdead | done]. }
  clear Hrun.
  apply tsc_CompleteFailure in H3 as (_ & r2 & (r & now2 & Hr & _ & -> & _ & Ht3) & ->).
  rewrite H2, Ht1 in Hr. simpl in Hr. rewrite lookup_insert_eq in Hr. injection Hr as <-.
  exists now, now1, now2. cbv zeta. rewrite Hend, Ht3, H2, Ht1. simpl.
  rewrite insert_insert_eq. done.
Qed.

(** How a message's task is claimed: the row [r] becomes [r0]. *)
Definition claimed (message : StreamMessage) (r r0 : Row) : Prop :=
  (sm_Recovered message = true /\ row_status r = StatusRunning /\ r0 = r) \/
  (row_status r = StatusPending /\
   exists now, r0 = set_transition StatusRunning (Some (wk_name w)) now r).

Lemma claimed_id message r r0 : claimed message r r0 -> row_id r0 = row_id r.
Proof. by intros [(_ & _ & ->) | (_ & now & ->)]. Qed.

Lemma claim_outcome message r world world' t :
  w_table world !! tm_ID (sm_Task message) = Some r ->
  run interp (claim_task w message (task_of r false)) world = (world', Ok t) ->
  exists r0, t = task_of r0 false /\ claimed message r r0 /\
    w_table world' = <[tm_ID (sm_Task message) := r0]> (w_table world).
Proof using HS.
  intros Hr Hrun. unfold claim_task in Hrun. cbn [Status_ task_of] in Hrun.
  destruct (sm_Recovered message && String.eqb (row_status r) StatusRunning) eqn:Eb.
  - apply andb_true_iff in Eb as [Hrec Hst%String.eqb_eq].
    apply run_bind_inv in Hrun as (w3 & [] & H3 & [= -> <-]).
    apply run_no_sql_eq in H3; [|apply no_sql_record_since].
    exists r. split; [done|]. split; [by left|]. by rewrite H3, insert_id.
  - apply run_bind_res_inv in Hrun as (w3 & t0 & H2 & H3).
    apply tsc_Transition in H2 as (_ & r0 & (r' & now & Hr' & [Hst _] & -> & _ & Ht) & ->).
    apply run_bind_inv in H3 as (w4 & [] & H3 & [= -> <-]).
    apply run_no_sql_eq in H3; [|apply no_sql_record_since].
    rewrite Hr in Hr'. injection Hr' as <-.
    eexists. split; [done|]. split; [right; eauto|]. by rewrite H3, Ht.
Qed.

(** C5: what a handled message has done. When [handleMessage] returns nil,
    the task existed, and either it was terminal already and the table is
    unchanged, or this worker claimed it (won it from [pending], or took
    over a [running] task for a recovered message), ran its handler once,
    and the row of the task is now the claimed row made [success] when the
    handler succeeded, and otherwise the claimed row failed with the
    handler's error and finalized by the retry policy: [dead] with an
    unchanged retry counter for a non-retryable error, the decision of
    [DecideFailure] for any other. No other row is touched. *)
Theorem handleMessage_outcome message world world' :
  table_wf (w_table world) ->
  run interp (handleMessage w message) world = (world', Ok tt) ->
  exists r, w_table world !! tm_ID (sm_Task message) = Some r /\
    ((IsTerminal (row_status r) = true /\ w_table world' = w_table world) \/
     (exists r0 t1 w1 w2 res,
        IsTerminal (row_status r) = false /\
        claimed message r r0 /\
        t1 = <[tm_ID (sm_Task message) := r0]> (w_table world) /\
        run interp (executeWithTimeout w (task_of r0 false)) w1 = (w2, res) /\
        after_execution (tm_ID (sm_Task message)) r0 t1 res (w_table world'))).
Proof.
  intros Hwf Hrun.
  unfold handleMessage in Hrun. apply run_bind_res_inv in Hrun as (w1 & cur & H1 & Hrun).
  apply tsc_Get in H1 as (_ & Ht1 & r & Hr & ->). exists r. split; [done|].
  cbn [Status_ task_of] in Hrun. destruct (IsTerminal (row_status r)) eqn:Et.
  { left. split; [done|]. apply run_no_sql_eq in Hrun; [congruence | apply Hack]. }
  right. apply run_bind_res_inv in Hrun as (w2 & t0 & H2 & Hrun).
  rewrite <- Ht1 in Hr. apply (claim_outcome _ _ _ _ _ Hr) in H2 as (r0 & -> & Hr0 & Ht2).
  rewrite Ht1 in Hr, Ht2.
  assert (Hid : row_id r0 = tm_ID (sm_Task message))
    by (rewrite (claimed_id _ _ _ Hr0); exact (wf_id _ Hwf _ _ Hr)).
  apply run_bind_inv in Hrun as (w3 & started & H3 & Hrun).
  apply run_no_sql_eq in H3; [|done].
  apply run_bind_inv in Hrun as (w4 & res & H4 & Hrun).
  pose proof (run_no_sql_eq _ _ _ _ (no_sql_execute _) H4) as Ht4.
  assert (Ht4' : w_table w4 = <[tm_ID (sm_Task message) := r0]> (w_table world)) by congruence.
  exists r0, (<[tm_ID (sm_Task message) := r0]> (w_table world)), w3, w4, res.
  do 4 (split; [done|]). rewrite <- Ht4'. destruct res as [err|].
  - apply run_bind_res_inv in Hrun as (w5 & [] & H5 & Hrun).
    apply run_no_sql_eq in Hrun;
      [|apply calls_ok_bind; [apply no_sql_record_since | intros; apply Hack]].
    rewrite Hrun, <- Hid. eapply failure_ok; [done| |exact H5].
    rewrite Ht4', Hid. apply lookup_insert_eq.
  - apply run_bind_res_inv in Hrun as (w5 & t5 & H5 & Hrun).
    apply run_no_sql_eq in Hrun;
      [|apply calls_ok_bind; [apply no_sql_record_since | intros; apply Hack]].
    apply tsc_Transition in H5 as (_ & r5 & (r' & now & Hr' & _ & -> & _ & Ht5) & _).
    rewrite Ht4', lookup_insert_eq in Hr'. injection Hr' as <-.
    exists now. by rewrite Hrun.
Qed.
End worker_outcome.
