(* ===== verification/Scheduler.v ===== *)
(** * The scheduler

    src/internal/scheduler/scheduler.go: recovery of expired running tasks,
    dispatch of due delayed tasks from the Redis sorted set, and dispatch of
    due retries from Postgres. *)

From S2P Require Import Prelude GoStd Errors Task Effects Table Metrics Calls Store Lifecycle.
From S2P Require Import Queue.
Local Open Scope Z_scope.

(** The interface [ScheduledQueue]. *)
Record ScheduledQueue := mkScheduledQueue {
  sq_DueTaskIDs : Time -> Z -> prog Call (result (list string));
  sq_Remove : string -> prog Call (result unit);
}.

(** Its implementation by package [queue]. *)
Definition redis_scheduled_queue (key : string) : ScheduledQueue :=
  {| sq_DueTaskIDs := DueTaskIDs key; sq_Remove := Remove key |}.

Record Scheduler := mkScheduler {
  sc_store : SchedulerStore;
  sc_publisher : TaskMessage -> prog Call (result unit);
  sc_scheduledQueue : ScheduledQueue;
  sc_deadPublisher : option (DeadTaskMessage -> prog Call (result unit));
  sc_interval : Duration;
  sc_batchSize : Z;
}.

Definition scheduler_New (store : SchedulerStore)
    (publisher : TaskMessage -> prog Call (result unit)) (scheduledQueue : ScheduledQueue)
    (interval : Duration) (batchSize : Z) : Scheduler :=
  {| sc_store := store;
     sc_publisher := publisher;
     sc_scheduledQueue := scheduledQueue;
     sc_deadPublisher := None;
     sc_interval := interval;
     sc_batchSize := batchSize |}.

Definition scheduler_WithDeadPublisher (s : Scheduler)
    (publisher : option (DeadTaskMessage -> prog Call (result unit))) : Scheduler :=
  {| sc_store := sc_store s;
     sc_publisher := sc_publisher s;
     sc_scheduledQueue := sc_scheduledQueue s;
     sc_deadPublisher := publisher;
     sc_interval := sc_interval s;
     sc_batchSize := sc_batchSize s |}.

Definition recoverRunningTask (s : Scheduler) (now : Time) (expiredTask : Task)
  : prog Call (result unit) :=
  let store := @ss_TaskStore (sc_store s) in
  let failure := "running timeout recovery: task exceeded timeout_seconds=" +:+
                   fmt_d (TimeoutSeconds expiredTask) in
  r ← @ts_MarkFailed store (ID expiredTask) failure;
  match r with
  | Err e =>
      if errors_Is e ErrNotFound then Ret (Ok tt)
      else Ret (Err (Errorf "mark expired running task failed: " e ""))
  | Ok failedTask =>
      let decision := DecideFailure now (RetryCount failedTask) (MaxRetries failedTask) in
      r ← @ts_CompleteFailure store (ID failedTask) decision failure;
      match r with
      | Err e =>
          if errors_Is e ErrNotFound then Ret (Ok tt)
          else Ret (Err (Errorf "complete expired running task failure: " e ""))
      | Ok finalTask =>
          match sc_deadPublisher s with
          | Some publish =>
              if String.eqb (Status_ finalTask) StatusDead then
                _ ← publish {| dm_ID := ID finalTask;
                               dm_Type := Type_ expiredTask;
                               dm_TraceID := default "" (TraceID expiredTask);
                               dm_LastError := failure;
                               dm_RetryCount := RetryCount finalTask |};
                Ret (Ok tt)
              else Ret (Ok tt)
          | None => Ret (Ok tt)
          end
      end
  end.

(** An error on one task is logged and the loop goes on. *)
Definition recoverExpiredRunning (s : Scheduler) (now : Time) : prog Call (result unit) :=
  r ← @ss_ExpiredRunning (sc_store s) now (sc_batchSize s);
  match r with
  | Err e => Ret (Err (Errorf "scan expired running tasks: " e ""))
  | Ok expiredTasks =>
      _ ← for_each (fun expiredTask => _ ← recoverRunningTask s now expiredTask; Ret tt)
            expiredTasks;
      Ret (Ok tt)
  end.

Definition scheduleTask (s : Scheduler) (dueTask : Task) : prog Call (result unit) :=
  if negb (String.eqb (Status_ dueTask) StatusScheduled) &&
     negb (String.eqb (Status_ dueTask) StatusRetrying) then
    Ret (Err (ErrorString ("unsupported dispatchable task status " +:+ Status_ dueTask)))
  else
    r ← @ts_Transition (@ss_TaskStore (sc_store s)) (ID dueTask) (Status_ dueTask)
          StatusPending None;
    match r with
    | Err e =>
        if errors_Is e ErrNotFound then Ret (Ok tt)
        else Ret (Err (Errorf "transition dispatchable task to pending: " e ""))
    | Ok pendingTask =>
        r ← sc_publisher s {| tm_ID := ID pendingTask;
                              tm_Type := Type_ pendingTask;
                              tm_TraceID := default "" (TraceID pendingTask) |};
        match r with
        | Err e => Ret (Err (Errorf "publish dispatchable task: " e ""))
        | Ok _ => Ret (Ok tt)
        end
    end.

Definition scheduleZSetTask (s : Scheduler) (taskID : string) : prog Call (result unit) :=
  r ← @ts_Get (@ss_TaskStore (sc_store s)) taskID;
  match r with
  | Err e =>
      if errors_Is e ErrNotFound then sq_Remove (sc_scheduledQueue s) taskID
      else Ret (Err (Errorf "get scheduled zset task: " e ""))
  | Ok dueTask =>
      if negb (String.eqb (Status_ dueTask) StatusScheduled) then
        sq_Remove (sc_scheduledQueue s) taskID
      else
        let* _ := scheduleTask s dueTask in
        sq_Remove (sc_scheduledQueue s) taskID
  end.

Definition scheduleDueZSetTasks (s : Scheduler) (now : Time) : prog Call (result unit) :=
  r ← sq_DueTaskIDs (sc_scheduledQueue s) now (sc_batchSize s);
  match r with
  | Err e => Ret (Err (Errorf "scan due scheduled zset tasks: " e ""))
  | Ok dueTaskIDs =>
      _ ← for_each (fun taskID => _ ← scheduleZSetTask s taskID; Ret tt) dueTaskIDs;
      Ret (Ok tt)
  end.

Definition Tick (s : Scheduler) : prog Call (result unit) :=
  now ← call TimeNow;
  let* _ := recoverExpiredRunning s now in
  let* _ := scheduleDueZSetTasks s now in
  r ← @ss_DueRetrying (sc_store s) now (sc_batchSize s);
  match r with
  | Err e => Ret (Err (Errorf "scan due retrying tasks: " e ""))
  | Ok dueRetryingTasks =>
      _ ← for_each (fun dueTask => _ ← scheduleTask s dueTask; Ret tt) dueRetryingTasks;
      Ret (Ok tt)
  end.

(** The scheduler the application builds (src/internal/app/app.go). *)
Definition redis_scheduler (streamName scheduledKey : string) (deadStream : option string)
    (interval : Duration) (batchSize : Z) : Scheduler :=
  {| sc_store := store_SchedulerStore;
     sc_publisher := PublishTask streamName;
     sc_scheduledQueue := redis_scheduled_queue scheduledKey;
     sc_deadPublisher := PublishDead <$> deadStream;
     sc_interval := interval;
     sc_batchSize := batchSize |}.

(** ** Events of interest *)

(** The message of task [i] is added to a stream (a dead letter, which has a
    retry count, is not such a message). *)
Definition publishes_task (i : string) (e : event Call) : bool :=
  match e with
  | Ev c _ =>
      match c with
      | Redis (XAdd a) =>
          match xa_Values a !! "task_id", xa_Values a !! "retry_count" with
          | Some (RString j), None => String.eqb j i
          | _, _ => false
          end
      | _ => false
      end
  end.

(** Task [i] was moved to [pending]. *)
Definition made_pending (i : string) : event Call -> bool :=
  answered (fun A q r =>
    match q with
    | UpdateTransition j _ to _ => String.eqb j i && String.eqb to StatusPending
    | _ => false
    end).

(** A statement marks task [i] failed. *)
Definition marks_failed (i : string) (e : event Call) : bool :=
  match e with
  | Ev c _ => match c with Sql (UpdateFailed j _) => String.eqb j i | _ => false end
  end.

Section scheduler_traces.
Context (streamName scheduledKey : string) (deadStream : option string)
        (interval : Duration) (batchSize : Z).
Local Abbreviation s := (redis_scheduler streamName scheduledKey deadStream interval batchSize).
Context (i : string).
Local Abbreviation mon := (guard_step (made_pending i) (publishes_task i)).
Local Abbreviation step := (assume_step misidentified mon).

Lemma guard_ignored {A} (c : Call A) b x :
  made_pending i (Ev c x) = false -> publishes_task i (Ev c x) = false ->
  mon b (Ev c x) = Some b.
Proof. intros H1 H2. unfold guard_step. by rewrite H1, H2, orb_false_r. Qed.

(** Calls and methods the monitor ignores. *)
Lemma wlp_ignored {A B} (c : Call A) (k : A -> prog Call B) Q b :
  (forall x, misidentified (Ev c x) = false) -> (forall x, made_pending i (Ev c x) = false) ->
  (forall x, publishes_task i (Ev c x) = false) ->
  (forall x, wlp step (k x) Q (Some b)) -> wlp step (Vis c k) Q (Some b).
Proof.
  intros Hb H1 H2 Hk. apply wlp_call; [done|]. intros x. exists b.
  split; [by apply guard_ignored | apply Hk].
Qed.

Lemma wlp_method (stmt : Stmt (list Row)) (Q : option bool -> result Task -> Prop) b :
  (forall x, no_row x = true -> misidentified (Ev (Sql stmt) x) = false) ->
  (forall x, made_pending i (Ev (Sql stmt) x) = false) ->
  (forall r, Q (Some b) (Ok (task_of r false))) ->
  (forall e, Q (Some b) (Err e)) -> (forall r, Q None r) ->
  wlp step (row ← query_row stmt; Ret (not_found (scanTask row))) Q (Some b).
Proof.
  intros Hn Hp Hok Herr Hsink. apply wlp_row_method; try done.
  - intros x Hx. split; [by apply Hn | by apply guard_ignored].
  - intros r rest _. exists b. split; [by apply guard_ignored | apply Hok].
Qed.

Ltac never_row := intros [[|? ?]|?]; done.
Ltac by_sink := let r := fresh in intros r; by apply wlp_sink.

Lemma recoverRunningTask_safe now t b :
  wlp step (recoverRunningTask s now t) (fun _ _ => True) b.
Proof.
  destruct b as [b|]; [|by apply wlp_sink]. unfold recoverRunningTask.
  cbn [ts_MarkFailed ss_TaskStore sc_store redis_scheduler store_SchedulerStore
       store_TaskStore ts_CompleteFailure sc_deadPublisher].
  apply wlp_bind. apply wlp_method; [no_row_tac|never_row| | |by_sink].
  2: { intros e. by destruct (errors_Is e ErrNotFound). }
  intros r. apply wlp_bind. rewrite CompleteFailure_stmt by apply DecideFailure_status.
  apply wlp_method; [no_row_tac|never_row| | |by_sink].
  2: { intros e. by destruct (errors_Is e ErrNotFound). }
  intros r2. destruct deadStream as [ds|]; [|done]. cbn [fmap option_fmap option_map].
  destruct (String.eqb _ StatusDead); [|done]. apply wlp_bind.
  eapply (wlp_ignored (Redis (XAdd _))); try done. intros x. unfold publishes_task.
  cbn [xa_Values]. assert (Hd : forall m, is_Some (dead_values m !! "retry_count")).
  { intros m. unfold dead_values. repeat case_match; simplify_map_eq; by eexists. }
  destruct (Hd (mkDeadTaskMessage (ID (task_of r2 false)) (Type_ t) (default "" (TraceID t))
    ("running timeout recovery: task exceeded timeout_seconds=" +:+ fmt_d (TimeoutSeconds t))
    (RetryCount (task_of r2 false)))) as [v ->].
  by repeat case_match.
Qed.

Lemma scheduleTask_safe t b : wlp step (scheduleTask s t) (fun _ _ => True) b.
Proof.
  destruct b as [b|]; [|by apply wlp_sink]. unfold scheduleTask.
  cbn [ss_TaskStore sc_store redis_scheduler store_SchedulerStore store_TaskStore
       ts_Transition sc_publisher].
  destruct (negb _ && negb _) eqn:Est; [done|].
  assert (Hc : CanTransition (Status_ t) StatusPending = true).
  { apply andb_false_iff in Est as [H|H]; apply negb_false_iff, String.eqb_eq in H;
      by rewrite H. }
  apply wlp_bind. rewrite (Transition_stmt _ _ _ _ Hc).
  apply wlp_row_method; [| | |by_sink].
  - intros [[|? ?]|?] Hx; try done; (split; [done|]); by apply guard_ignored.
  - intros r rest Hr. cbn in Hr. apply negb_false_iff, String.eqb_eq in Hr.
    exists (b || String.eqb (ID t) i). split.
    { unfold guard_step. cbn. by rewrite andb_true_r. }
    apply wlp_bind. apply wlp_call; [done|]. intros x.
    exists (b || String.eqb (ID t) i). split.
    { unfold guard_step. cbn [made_pending answered publishes_task xa_Values].
      rewrite !lookup_task_values. cbn [String.eqb Ascii.eqb Bool.eqb andb tm_ID].
      cbn. rewrite Hr. by destruct (String.eqb (ID t) i), b. }
    apply wlp_Ret. by destruct x.
  - intros e. by destruct (errors_Is e ErrNotFound).
Qed.

Lemma scheduleZSetTask_safe id b : wlp step (scheduleZSetTask s id) (fun _ _ => True) b.
Proof.
  destruct b as [b|]; [|by apply wlp_sink]. unfold scheduleZSetTask.
  cbn [ss_TaskStore sc_store redis_scheduler store_SchedulerStore store_TaskStore
       ts_Get sc_scheduledQueue redis_scheduled_queue sq_Remove].
  assert (Hrm : forall b, wlp step (Remove scheduledKey id) (fun _ _ => True) b).
  { intros [b'|]; [|by apply wlp_sink]. by eapply (wlp_ignored (Redis (ZRem _ _))). }
  apply wlp_bind. apply wlp_method; [no_row_tac|never_row| | |by_sink].
  - intros r. destruct (negb _); [apply Hrm|]. apply wlp_bind_res.
    eapply wlp_mono; [|apply scheduleTask_safe]. intros s' [[]|e] _; [apply Hrm | done].
  - intros e. destruct (errors_Is e ErrNotFound); [apply Hrm | done].
Qed.

Lemma loop_safe {A} (f : A -> prog Call (result unit)) xs b :
  (forall x b, wlp step (f x) (fun _ _ => True) b) ->
  wlp step (for_each (fun x => _ ← f x; Ret tt) xs) (fun _ _ => True) b.
Proof.
  intros Hf. eapply wlp_for_each with (I := fun _ => True); [|done].
  intros x b' _. apply wlp_bind. eapply wlp_mono; [|apply Hf]. done.
Qed.

(** A scan, then a loop over what it returned. *)
Lemma scan_loop_safe {A B} (c : Call A) (k : A -> prog Call B) b :
  (forall x, misidentified (Ev c x) = false) -> (forall x, made_pending i (Ev c x) = false) ->
  (forall x, publishes_task i (Ev c x) = false) ->
  (forall x b, wlp step (k x) (fun _ _ => True) b) ->
  wlp step (Vis c k) (fun _ _ => True) b.
Proof.
  intros Hb H1 H2 Hk. destruct b as [b|]; [|by apply wlp_sink]. by apply wlp_ignored.
Qed.

Lemma Tick_safe : passes misidentified mon false (Tick s).
Proof.
  unfold passes, Tick.
  apply (scan_loop_safe TimeNow); [done..|]. intros now b.
  apply wlp_bind_res. eapply wlp_mono with (Q := fun _ _ => True).
  2: { unfold recoverExpiredRunning.
       apply (scan_loop_safe (Sql (SelectExpiredRunning now batchSize))); [by intros [|]..|].
       intros [ts|e] b'; [|done]. apply wlp_bind.
       eapply wlp_mono; [|apply loop_safe; intros; apply recoverRunningTask_safe]. done. }
  intros b1 [[]|e] _; [|done].
  apply wlp_bind_res. eapply wlp_mono with (Q := fun _ _ => True).
  2: { unfold scheduleDueZSetTasks. apply wlp_bind.
       eapply wlp_mono with (Q := fun _ _ => True).
       - intros b' [ids|e] _; [|done]. apply wlp_bind.
         eapply wlp_mono; [|apply loop_safe; intros; apply scheduleZSetTask_safe]. done.
       - cbn [sc_scheduledQueue redis_scheduler redis_scheduled_queue sq_DueTaskIDs
              sc_batchSize]. unfold DueTaskIDs. destruct (batchSize <=? 0); [done|].
         by apply (scan_loop_safe (Redis (ZRangeArgs _))). }
  intros b2 [[]|e] _; [|done].
  apply (scan_loop_safe (Sql (SelectDueRetrying now batchSize))); [by intros [|]..|].
  intros [ts|e] b'; [|done]. apply wlp_bind.
  eapply wlp_mono; [|apply loop_safe; intros; apply scheduleTask_safe]. done.
Qed.
End scheduler_traces.

(** ** Properties *)

(** C10: a due task is published only after it was moved to [pending]. In
    every sequence of calls and answers of a tick, other goroutines
    interleaved as they may be, the addition of the message of task [i] to a
    stream is preceded by a transition of that very task to [pending] that
    this tick has won. *)
Theorem dispatch_only_transitioned streamName scheduledKey deadStream interval batchSize
    i pre e post :
  traces (Tick (redis_scheduler streamName scheduledKey deadStream interval batchSize))
    (pre ++ e :: post) ->
  (forall e', e' ∈ pre ++ e :: post -> misidentified e' = false) ->
  publishes_task i e = true ->
  exists e', e' ∈ pre /\ made_pending i e' = true.
Proof.
  intros Ht Hb He. eapply guard_precedes; [|exact He].
  eapply passes_sound; [apply Tick_safe | exact Ht | exact Hb].
Qed.

Definition no_metric (A : Type) (c : Call A) : Prop :=
  match c with Metric _ => False | _ => True end.

Section scheduler_runs.
Context {PG : Postgres} {X : Type} {EV : Env X}.
Implicit Type world : World X.

Lemma interp_no_metric {A} (c : Call A) world :
  no_metric A c -> w_metrics (interp A c world).1 = w_metrics world.
Proof.
  destruct c; simpl; try done; unfold ask; intros _; try by case_match.
  unfold exec_sql. repeat case_match; done.
Qed.

(** The scheduler's code reports to no metrics registry. *)
Lemma Tick_no_metric streamName scheduledKey deadStream interval batchSize :
  calls_ok no_metric
    (Tick (redis_scheduler streamName scheduledKey deadStream interval batchSize)).
Proof.
  assert (Hmethod : forall (q : Stmt (list Row)),
    calls_ok no_metric (row ← query_row q; Ret (not_found (scanTask row)))) by done.
  assert (Hcomplete : forall id d f, calls_ok no_metric (CompleteFailure id d f))
    by (intros; unfold CompleteFailure; by case_match).
  assert (Htrans : forall id from to wk, calls_ok no_metric (Transition id from to wk))
    by (intros; unfold Transition; by case_match).
  assert (Htask : forall t, calls_ok no_metric
    (scheduleTask (redis_scheduler streamName scheduledKey deadStream interval batchSize) t)).
  { intros t. unfold scheduleTask. case_match; [done|]. apply calls_ok_bind; [apply Htrans|].
    intros [p|e]; [|by case_match]. apply calls_ok_bind; [done|]. by intros [u|e]. }
  unfold Tick. split; [done|]. intros now. apply calls_ok_bind_res; [|intros _;
    apply calls_ok_bind_res; [|intros _; split; [done|]]].
  - unfold recoverExpiredRunning. split; [done|]. intros [ts|e]; [|done].
    apply calls_ok_bind; [|done]. apply calls_ok_for_each. intros t.
    apply calls_ok_bind; [|done]. unfold recoverRunningTask.
    apply calls_ok_bind; [apply Hmethod|]. intros [ft|e]; [|by case_match].
    apply calls_ok_bind; [apply Hcomplete|]. intros [fin|e]; [|by case_match].
    cbn [sc_deadPublisher redis_scheduler]. destruct deadStream; [|done]. cbn.
    by case_match.
  - unfold scheduleDueZSetTasks. apply calls_ok_bind.
    { cbn. unfold DueTaskIDs. by case_match. }
    intros [ids|e]; [|done]. apply calls_ok_bind; [|done]. apply calls_ok_for_each.
    intros id. apply calls_ok_bind; [|done]. unfold scheduleZSetTask.
    apply calls_ok_bind; [apply Hmethod|]. intros [t|e]; [|by case_match].
    case_match; [done|]. apply calls_ok_bind_res; [apply Htask | done].
  - intros [ts|e]; [|done]. apply calls_ok_bind; [|done]. apply calls_ok_for_each.
    intros t. apply calls_ok_bind; [apply Htask | done].
Qed.

(** Recovery by the scheduler is not counted. Whatever a tick does — in
    particular when it sends tasks to [retrying] or [dead] — the metrics
    registry, with its counters of retried and dead tasks, stays as it
    was. *)
Theorem Tick_metrics_unchanged streamName scheduledKey deadStream interval batchSize world :
  w_metrics (run interp (Tick (redis_scheduler streamName scheduledKey deadStream
                                 interval batchSize)) world).1 = w_metrics world.
Proof.
  apply (run_preserves_ok no_metric interp (fun w => w_metrics w = w_metrics world));
    [|apply Tick_no_metric | done].
  intros A c w Hc Hw. by rewrite interp_no_metric.
Qed.

(** C30: errors on one task do not stop the recovery of the others. Once the
    scan has returned, a failure statement is attempted on every expired
    task it returned, whatever happens to the others, and the phase itself
    succeeds. *)
Theorem recover_attempts_all (s : Scheduler) now world world1 ts :
  sc_store s = store_SchedulerStore ->
  run interp (@ss_ExpiredRunning (sc_store s) now (sc_batchSize s)) world = (world1, Ok ts) ->
  (run interp (recoverExpiredRunning s now) world).2 = Ok tt /\
  forall t, t ∈ ts -> exists e,
    e ∈ run_trace interp (recoverExpiredRunning s now) world /\ marks_failed (ID t) e = true.
Proof.
  intros Hst Hrun. unfold recoverExpiredRunning. split.
  - rewrite run_bind, Hrun, run_bind. by destruct (run interp (for_each _ ts) world1).
  - intros t Ht. rewrite run_trace_bind, Hrun. cbn [fst snd].
    destruct (run_trace_for_each interp
      (fun expiredTask => _ ← recoverRunningTask s now expiredTask; Ret tt) ts world1 t Ht)
      as [w' Hsub].
    assert (He : exists e, e ∈ run_trace interp (_ ← recoverRunningTask s now t; Ret tt) w'
                           /\ marks_failed (ID t) e = true).
    { unfold recoverRunningTask. rewrite Hst.
      cbn [ts_MarkFailed ss_TaskStore store_SchedulerStore store_TaskStore].
      unfold MarkFailed, query_row. cbn [run_trace mbind prog_mbind prog_bind call].
      destruct (interp _ (Sql (UpdateFailed _ _)) w') as [w2 x] eqn:E.
      eexists. split; [left|]. cbn. apply String.eqb_refl. }
    destruct He as (e & He & Hm). exists e. split; [|done].
    apply elem_of_app. right. rewrite run_trace_bind. apply elem_of_app. left. by apply Hsub.
Qed.

(** The dead letter of a recovered task: one command if the task is dead and
    there is a stream for it, none otherwise. *)
Definition dead_letter (deadStream : option string) (t : Task) (r : Row)
    (log : list redis_event) : Prop :=
  match deadStream with
  | Some stream =>
      if String.eqb (row_status r) StatusDead then
        exists a, log = [RedisEv (XAdd {| xa_Stream := stream;
          xa_Values := dead_values
            {| dm_ID := row_id r; dm_Type := Type_ t; dm_TraceID := default "" (TraceID t);
               dm_LastError := default "" (row_last_error r);
               dm_RetryCount := row_retry_count r |} |}) a]
      else log = []
  | None => log = []
  end.

Lemma publish_dead_run streamName scheduledKey deadStream interval batchSize t r f world world' res :
  row_last_error r = Some f ->
  let s := redis_scheduler streamName scheduledKey deadStream interval batchSize in
  let m : prog Call (result unit) := match sc_deadPublisher s with
           | Some publish =>
               if String.eqb (Status_ (task_of r false)) StatusDead then
                 _ ← publish {| dm_ID := ID (task_of r false); dm_Type := Type_ t;
                                dm_TraceID := default "" (TraceID t); dm_LastError := f;
                                dm_RetryCount := RetryCount (task_of r false) |};
                 Ret (Ok tt)
               else Ret (Ok tt)
           | None => Ret (Ok tt)
           end in
  run interp m world = (world', res) ->
  res = Ok tt /\ w_table world' = w_table world /\
  dead_letter deadStream t r (redis_run m world).
Proof.
  intros Hf. cbv zeta. cbn [sc_deadPublisher redis_scheduler]. unfold dead_letter. rewrite Hf.
  destruct deadStream as [stream|]; cbn [fmap option_fmap option_map]; [|by intros [= <- <-]].
  cbn [Status_ task_of]. destruct (String.eqb _ StatusDead); [|by intros [= <- <-]].
  intros Hrun. apply run_bind_inv in Hrun as (w1 & x & H1 & [= -> <-]). split; [done|].
  rewrite (redis_run_bind _ _ _ _ _ H1). apply PublishDead_command in H1 as (Ht & _ & a & Hlog & _).
  split; [done|]. exists a. by rewrite Hlog.
Qed.

(** C11: the outcome of a recovery, case by case. Recovering a task whose row
    is not running any more changes nothing and succeeds. If the first
    statement is answered with an error, the recovery fails with that error
    and the row is as it was, or (its answer lost) marked failed. Otherwise
    a running row was marked failed: if the second statement is answered
    with an error, the recovery fails with it and the row is [failed], or
    finalized; if not, the row is finalized by [DecideFailure] at the
    tick's time and, if that made it [dead], one dead letter is sent. No
    other row is touched, and Redis sees no other command. *)
Theorem recoverRunningTask_outcome {PL : PostgresLaws} streamName scheduledKey deadStream
    interval batchSize now t world world' r :
  let m := recoverRunningTask
             (redis_scheduler streamName scheduledKey deadStream interval batchSize) now t in
  let failure := "running timeout recovery: task exceeded timeout_seconds="
                   +:+ fmt_d (TimeoutSeconds t) in
  driver_faults -> table_wf (w_table world) -> run interp m world = (world', r) ->
  (r = Ok tt /\ w_table world' = w_table world /\ redis_run m world = [] /\
     forall r0, w_table world !! ID t = Some r0 -> row_status r0 <> StatusRunning) \/
  (exists e, Ev (Sql (UpdateFailed (ID t) failure)) (Err e) ∈ run_trace interp m world /\
     r = Err (Errorf "mark expired running task failed: " e "") /\ redis_run m world = [] /\
     (w_table world' = w_table world \/
      exists r0 now1, w_table world !! ID t = Some r0 /\ row_status r0 = StatusRunning /\
        w_table world' = <[ID t := set_failed failure now1 r0]> (w_table world))) \/
  (exists r0 now1, w_table world !! ID t = Some r0 /\ row_status r0 = StatusRunning /\
     let failed := set_failed failure now1 r0 in
     let d := DecideFailure now (row_retry_count r0) (row_max_retries r0) in
     let final now2 := set_complete (fd_Status d) (fd_RetryCount d) (fd_NextRetryAt d) failure
                         now2 failed in
     (exists e, Ev (Sql (UpdateComplete (ID t) (fd_Status d) (fd_RetryCount d)
                           (fd_NextRetryAt d) failure)) (Err e) ∈ run_trace interp m world /\
        r = Err (Errorf "complete expired running task failure: " e "") /\
        redis_run m world = [] /\
        (w_table world' = <[ID t := failed]> (w_table world) \/
         exists now2, w_table world' = <[ID t := final now2]> (w_table world))) \/
     (r = Ok tt /\ exists now2, w_table world' = <[ID t := final now2]> (w_table world) /\
        dead_letter deadStream t (final now2) (redis_run m world))).
Proof.
  cbv zeta. intros Hf Hwf Hrun. unfold recoverRunningTask in *.
  cbn [ts_MarkFailed ts_CompleteFailure ss_TaskStore sc_store redis_scheduler
       store_SchedulerStore store_TaskStore] in *.
  set (failure := "running timeout recovery: task exceeded timeout_seconds="
                   +:+ fmt_d (TimeoutSeconds t)) in *.
  apply run_bind_inv in Hrun as (w1 & r1 & H1 & Hrun).
  rewrite run_trace_bind, (redis_run_bind _ _ _ _ _ H1), H1. cbn [fst snd].
  rewrite (redis_run_none (MarkFailed _ _)) by (simpl; done). rewrite app_nil_l.
  apply (update_method_run (UpdateFailed (ID t) failure) (ID t)
    (fun r => String.eqb (row_status r) "running") (set_failed failure)) in H1
    as [(e & He & -> & Hn & Ht) | [(-> & Ht & Hno) | (r0 & now1 & Hr0 & Hst & -> & Ht)]];
    [| | |exact Hf | by left].
  - rewrite Hn in *. injection Hrun as <- <-. right. left. exists e.
    split; [apply elem_of_app; by left|]. do 2 (split; [done|]).
    destruct Ht as [Ht | (r0 & now1 & Hr0 & Hst%String.eqb_eq & Ht)]; [by left|].
    right. by exists r0, now1.
  - injection Hrun as <- <-. left. do 3 (split; [done|]).
    intros r0 Hr0. apply String.eqb_neq, (Hno r0 Hr0).
  - right. right. exists r0, now1. split; [done|]. split; [by apply String.eqb_eq|].
    cbn [ID RetryCount MaxRetries task_of row_id row_retry_count row_max_retries set_failed] in *.
    rewrite (wf_id _ Hwf _ _ Hr0) in *.
    set (d := DecideFailure now (row_retry_count r0) (row_max_retries r0)) in *.
    rewrite CompleteFailure_stmt in * by apply DecideFailure_status.
    apply run_bind_inv in Hrun as (w2 & r2 & H2 & Hrun).
    rewrite run_trace_bind, (redis_run_bind _ _ _ _ _ H2), redis_run_none by (simpl; done).
    rewrite app_nil_l. set (q := UpdateComplete _ _ _ _ _) in *.
    apply (update_method_run q (ID t) (fun r => String.eqb (row_status r) "failed")
      (set_complete (fd_Status d) (fd_RetryCount d) (fd_NextRetryAt d) failure)) in H2
      as [(e & He & -> & Hn & Hs) | [(-> & _ & Hno) | (r3 & now2 & Hr3 & _ & -> & Hs)]];
      [| | |exact Hf | intros ? ? ?; simpl; destruct (negb _); [right; by exists "int4" | by left]].
    + left. rewrite Hn in *. injection Hrun as <- <-. exists e.
      split; [apply elem_of_app; right; apply elem_of_app; by left|]. do 2 (split; [done|]).
      destruct Hs as [Hs | (r3 & now2 & Hr3 & _ & Hs)]; [left; congruence|].
      right. exists now2. rewrite Ht, lookup_insert_eq in Hr3. injection Hr3 as <-.
      by rewrite Hs, Ht, insert_insert_eq.
    + rewrite Ht in Hno. specialize (Hno _ (lookup_insert_eq _ _ _)). done.
    + right. rewrite Ht, lookup_insert_eq in Hr3. injection Hr3 as <-.
      eapply publish_dead_run in Hrun as (-> & Htab & Hlog); [|done].
      split; [done|]. exists now2. by rewrite Htab, Hs, Ht, insert_insert_eq.
Qed.
End scheduler_runs.
