(* ===== verification/Shutdown.v ===== *)
(** * A task interrupted by the shutdown

    [App.Run] cancels the context that its worker's goroutines pass to their
    handler and to every call of the store and of Redis. From then on the
    database driver refuses their statements. What this means for a task
    whose handler is running at that moment. *)

From S2P Require Import Prelude GoStd Errors Task Effects Table Metrics Calls Store.
From S2P Require Import Lifecycle Queue Service Handlers Worker Scheduler.
Local Open Scope Z_scope.

Section shutdown.
Context {GT : GoText} {PG : Postgres} {X : Type} {EV : Env X}.

(** The worlds in which the context is cancelled: pgx returns the context's
    error without sending the statement. *)
Context (cancelled : X -> Prop).
Hypothesis sql_refused : forall A (q : Stmt A) x,
  cancelled x -> exists e, se_fault (env_sql A q x).2 = Some (Lost e).
Implicit Type world : World X.

Lemma exec_sql_refused {A} (q : Stmt A) world :
  cancelled (w_ext world) ->
  exists e, exec_sql q world = (set_ext world (env_sql A q (w_ext world)).1, Err e).
Proof using sql_refused.
  intros Hc. destruct (sql_refused A q _ Hc) as (e & He). unfold exec_sql.
  destruct (env_sql A q (w_ext world)) as [x se]. simpl in He. rewrite He. by exists e.
Qed.

(** The methods of the store that start with their statement. *)
Lemma row_refused (q : Stmt (list Row)) world :
  cancelled (w_ext world) -> exists e,
    run interp (row ← query_row q; Ret (not_found (scanTask row))) world =
      (set_ext world (env_sql _ q (w_ext world)).1, Err e).
Proof using sql_refused.
  intros Hc. destruct (exec_sql_refused q world Hc) as (e & He).
  cbn. rewrite He. cbn. unfold not_found. case_match; by eexists.
Qed.

(** Running handlers counts nothing. *)
Lemma execute_no_metric w t : calls_ok no_metric (executeWithTimeout w t).
Proof.
  split; [done|]. intros x. apply (calls_ok_bind no_metric); [by apply calls_ok_translate | done].
Qed.

Context (c : RedisStreamConsumer) (deadStream : option string) (handlers : HandlerRegistry).
Context (name : string) (metrics : bool) (concurrency batchSize : Z).
Local Abbreviation w := (redis_worker c deadStream handlers name metrics concurrency batchSize).

Definition timed_execution (t : Task) : prog Call (option error) :=
  _ ← call TimeNow; executeWithTimeout w t.

Lemma after_handler_refused message cur t world world1 world2 world3 res :
  run interp (Get (tm_ID (sm_Task message))) world = (world1, Ok cur) ->
  IsTerminal (Status_ cur) = false ->
  run interp (claim_task w message cur) world1 = (world2, Ok t) ->
  run interp (timed_execution t) world2 = (world3, res) ->
  cancelled (w_ext world3) ->
  exists (q : Stmt (list Row)) e, run interp (handleMessage w message) world =
    (set_ext world3 (env_sql _ q (w_ext world3)).1, Err e).
Proof using sql_refused.
  intros H1 Ht H2 H3 Hc. unfold handleMessage. rewrite run_bind_res.
  cbn [wk_store redis_worker store_TaskStore ts_Get]. rewrite H1, Ht.
  rewrite run_bind_res, H2. unfold timed_execution in H3. rewrite run_bind in H3 |- *.
  destruct (run interp (call TimeNow) world2) as [wt started]. rewrite run_bind, H3.
  destruct res as [err|].
  - unfold handleExecutionFailure. rewrite run_bind_res, run_bind_res.
    destruct (row_refused (UpdateFailed (ID t) (error_Error err)) world3 Hc) as (e & He).
    eexists _, e. cbn [wk_store redis_worker store_TaskStore ts_MarkFailed]. unfold MarkFailed.
    by rewrite He.
  - rewrite run_bind_res.
    destruct (row_refused (UpdateTransition (tm_ID (sm_Task message)) StatusRunning StatusSuccess
      (Some name)) world3 Hc) as (e & He).
    eexists _, e. cbn [wk_store wk_name redis_worker store_TaskStore ts_Transition].
    unfold Transition. change (negb (CanTransition StatusRunning StatusSuccess)) with false.
    cbv iota. by rewrite He.
Qed.

(** C22: a task interrupted by the shutdown. Suppose a worker has claimed the
    task of a message, and the context has been cancelled by the time its
    handler returns, whatever the handler did and returned. Then
    [handleMessage] makes one more call, the statement that would have
    recorded the outcome, which is refused; it returns an error; the message
    is not acknowledged, nothing is published and no outcome is counted; and
    the task is left [running], for the recovery of another worker or of the
    scheduler, also when the handler had succeeded. *)
Theorem interrupted_stays_running message cur t world world1 world2 world3 res :
  run interp (Get (tm_ID (sm_Task message))) world = (world1, Ok cur) ->
  IsTerminal (Status_ cur) = false ->
  run interp (claim_task w message cur) world1 = (world2, Ok t) ->
  run interp (timed_execution t) world2 = (world3, res) ->
  cancelled (w_ext world3) ->
  exists (q : Stmt (list Row)) e r0,
    run interp (handleMessage w message) world =
      (set_ext world3 (env_sql _ q (w_ext world3)).1, Err e) /\
    row_status r0 = StatusRunning /\ t = task_of r0 false /\
    w_table world3 = <[tm_ID (sm_Task message) := r0]> (w_table world) /\
    w_metrics world3 = w_metrics world2.
Proof using sql_refused.
  intros H1 Ht H2 H3 Hc.
  destruct (after_handler_refused _ _ _ _ _ _ _ _ H1 Ht H2 H3 Hc) as (q & e & Hm).
  pose proof H1 as H1'. apply (tsc_Get (TaskStoreContract := store_contract)) in H1'
    as (_ & Ht1 & r & Hr & ->).
  rewrite <- Ht1 in Hr.
  apply (claim_outcome w store_contract _ _ _ _ _ Hr) in H2 as (r0 & -> & Hr0 & Ht2).
  exists q, e, r0. split; [exact Hm|]. split.
  { by destruct Hr0 as [(_ & Hs & ->) | (_ & now & ->)]. }
  split; [done|]. assert (Hno : calls_ok no_sql (timed_execution (task_of r0 false)))
    by (split; [done|]; intros ?; apply no_sql_execute).
  split.
  - rewrite (run_no_sql_eq _ _ _ _ Hno H3). congruence.
  - pose proof (run_preserves_ok no_metric interp (fun v => w_metrics v = w_metrics world2)
      (timed_execution (task_of r0 false)) world2) as Hp.
    rewrite H3 in Hp. apply Hp; [|by split; [|intros ?; apply execute_no_metric]|done].
    intros A cl v Hv. by rewrite interp_no_metric.
Qed.
End shutdown.
