(* ===== verification/Statements.v ===== *)
(** * What the programs issue

    For each operation of the application, the calls it can make, whatever
    the answers: a predicate on calls that admits every read, every transition
    the code asks for and every insertion of a [pending] or [scheduled] row
    admits all the calls of these operations. *)

From S2P Require Import Prelude GoStd Errors Task Effects Table Metrics Calls Store Lifecycle.
From S2P Require Import Queue Service Handlers Worker Scheduler.
Local Open Scope Z_scope.

Section single.
Context {GT : GoText}.
Context (ok : forall A, Call A -> Prop).

(** The methods that do not write, and the bookkeeping, are harmless for
    predicates that admit every call but the [UPDATE]s and the [INSERT]. *)
Definition reads_ok : Prop :=
  forall A (c : Call A),
    match c with
    | Sql q => match q with
               | InsertTask _ | UpdateTransition _ _ _ _ | UpdateFailed _ _
               | UpdateComplete _ _ _ _ _ => True
               | _ => ok A c
               end
    | _ => ok A c
    end.
Context (Hreads : reads_ok).

Lemma query_row_ok {A} (q : Stmt (list A)) (f : result A -> result Task) :
  ok _ (Sql q) -> calls_ok ok (row ← query_row q; Ret (f row)).
Proof. intros Hq. unfold query_row. by repeat split. Qed.

Lemma Get_ok id : calls_ok ok (Store.Get id).
Proof. unfold Store.Get. apply query_row_ok. apply (Hreads _ (Sql (SelectTask id))). Qed.

Lemma report_ok op : calls_ok ok (report op).
Proof.
  apply calls_ok_for_each. intros u. split; [apply (Hreads _ (Metric u)) | done].
Qed.

Lemma record_ok b op : calls_ok ok (record b op).
Proof. unfold record. destruct b; [apply report_ok | done]. Qed.

Lemma TimeNow_ok : calls_ok ok (call TimeNow).
Proof. split; [apply (Hreads _ TimeNow) | done]. Qed.

Lemma record_since_ok b op start : calls_ok ok (record_since b op start).
Proof.
  unfold record_since. destruct b; [|done]. apply calls_ok_bind; [apply TimeNow_ok|].
  intros now. apply report_ok.
Qed.

Lemma redis_call_ok {A B} (c : RedisCmd A) (f : result A -> result B) :
  calls_ok ok (r ← call (Redis c); Ret (f r)).
Proof. split; [apply (Hreads _ (Redis c)) | done]. Qed.

Lemma execute_ok w t : calls_ok ok (executeWithTimeout w t).
Proof.
  unfold executeWithTimeout. split; [apply (Hreads _ (WithTimeout _))|]. intros [].
  apply calls_ok_bind.
  - apply calls_ok_translate. intros A hc. apply (Hreads _ (Handler_ hc)).
  - intros err. split; [apply (Hreads _ ExecCtxErr) | done].
Qed.

Lemma Transition_ok id from to worker :
  (CanTransition from to = true -> ok _ (Sql (UpdateTransition id from to worker))) ->
  calls_ok ok (Transition id from to worker).
Proof.
  intros H. unfold Transition. destruct (CanTransition from to); [|done].
  by apply query_row_ok, H.
Qed.

Context (Htrans : forall id from to worker,
           from = StatusScheduled /\ to = StatusPending \/
           from = StatusRetrying /\ to = StatusPending \/
           from = StatusPending /\ to = StatusRunning /\ is_Some worker \/
           from = StatusRunning /\ to = StatusSuccess ->
           ok _ (Sql (UpdateTransition id from to worker))).

Lemma claim_task_ok c deadStream handlers name metrics concurrency batchSize message t :
  calls_ok ok (claim_task (redis_worker c deadStream handlers name metrics
                             concurrency batchSize) message t).
Proof.
  unfold claim_task. destruct (_ && _).
  - apply calls_ok_bind; [apply record_since_ok | done].
  - apply calls_ok_bind_res.
    + apply Transition_ok. intros _. apply Htrans. do 2 right. left. by repeat split.
    + intros t'. apply calls_ok_bind; [apply record_since_ok | done].
Qed.

Lemma scheduleTask_ok s t :
  sc_store s = store_SchedulerStore -> (forall m, calls_ok ok (sc_publisher s m)) ->
  calls_ok ok (scheduleTask s t).
Proof.
  intros Hst Hpub. unfold scheduleTask. rewrite Hst. destruct (negb _ && negb _) eqn:Es; [done|].
  apply calls_ok_bind.
  - apply Transition_ok. intros _. apply Htrans.
    apply andb_false_iff in Es as [H%negb_false_iff%String.eqb_eq |
                                   H%negb_false_iff%String.eqb_eq]; rewrite H; auto.
  - intros [p|e]; [|by destruct (errors_Is e _)]. apply calls_ok_bind; [apply Hpub|].
    by intros [u|e].
Qed.

Lemma scheduleZSetTask_ok s id :
  sc_store s = store_SchedulerStore -> (forall m, calls_ok ok (sc_publisher s m)) ->
  (forall id, calls_ok ok (sq_Remove (sc_scheduledQueue s) id)) ->
  calls_ok ok (scheduleZSetTask s id).
Proof.
  intros Hst Hpub Hrm. unfold scheduleZSetTask. apply calls_ok_bind.
  - rewrite Hst. apply Get_ok.
  - intros [t|e]; [|by destruct (errors_Is e _)]. destruct (negb _); [apply Hrm|].
    apply calls_ok_bind_res; [by apply scheduleTask_ok | auto].
Qed.

Context (Hinsert : forall a, ins_status a = StatusPending \/ ins_status a = StatusScheduled ->
           ok _ (Sql (InsertTask a))).

Lemma Create_calls_ok params : calls_ok ok (Store.Create params).
Proof.
  unfold Store.Create. split; [apply (Hreads _ TimeNow)|]. intros now.
  apply calls_ok_bind; [split; [apply (Hreads _ (RandRead 16)) | done]|]. intros id.
  apply query_row_ok, Hinsert. simpl. destruct (time_After _ _); auto.
Qed.

Lemma service_Create_ok streamName scheduledKey metrics params :
  calls_ok ok (service_Create (redis_service streamName scheduledKey metrics) params).
Proof.
  assert (Hrand : calls_ok ok newTraceID).
  { split; [apply (Hreads _ (RandRead 8)) | done]. }
  assert (Hsub : calls_ok ok (submitted (redis_service streamName scheduledKey metrics))).
  { unfold submitted. destruct (sv_metrics _); [apply report_ok | done]. }
  unfold service_Create. apply calls_ok_bind.
  { unfold normalize_trace. destruct (cp_TraceID params); [destruct (String.eqb _ _)|];
      try done; by apply calls_ok_bind. }
  intros p. apply calls_ok_bind_res; [apply Create_calls_ok|]. intros t.
  destruct (negb (NewlyCreated t)); [done|].
  destruct (negb _); apply calls_ok_bind.
  - destruct (String.eqb _ _); [apply redis_call_ok | done].
  - intros [u|e]; [|done]. by apply calls_ok_bind.
  - apply redis_call_ok.
  - intros [u|e]; [|done]. by apply calls_ok_bind.
Qed.

Context (Hfailed : forall id failure, ok _ (Sql (UpdateFailed id failure))).
Context (Hcomplete : forall id status rc next failure,
           status = StatusRetrying /\ is_Some next \/ status = StatusDead /\ next = None ->
           ok _ (Sql (UpdateComplete id status rc next failure))).

Lemma MarkFailed_ok id failure : calls_ok ok (MarkFailed id failure).
Proof. apply query_row_ok, Hfailed. Qed.

(** The decisions the code finalizes failures with. *)
Definition sound_decision (d : FailureDecision) : Prop :=
  fd_Status d = StatusRetrying /\ is_Some (fd_NextRetryAt d) \/
  fd_Status d = StatusDead /\ fd_NextRetryAt d = None.

Lemma DecideFailure_sound now rc max : sound_decision (DecideFailure now rc max).
Proof. unfold DecideFailure. destruct (_ >? _); [by right | left; by split]. Qed.

Lemma CompleteFailure_ok id d failure :
  sound_decision d -> calls_ok ok (CompleteFailure id d failure).
Proof.
  intros Hd. unfold CompleteFailure. destruct (_ && _); [done|].
  by apply query_row_ok, Hcomplete.
Qed.

Lemma PublishDead_ok stream m : calls_ok ok (PublishDead stream m).
Proof. apply redis_call_ok. Qed.

Section handle.
Context (c : RedisStreamConsumer) (deadStream : option string)
        (handlers : HandlerRegistry) (name : string) (metrics : bool)
        (concurrency batchSize : Z).
Local Abbreviation w :=
  (redis_worker c deadStream handlers name metrics concurrency batchSize).

(** The dead letter, when there is a dead stream. *)
Lemma publish_dead_ok (b : bool) m :
  calls_ok ok (match wk_deadPublisher w with
               | Some publish =>
                   if b then _ ← publish m; Ret (Ok tt) else Ret (Ok tt)
               | None => Ret (Ok tt : result unit)
               end).
Proof.
  cbn [wk_deadPublisher redis_worker]. destruct deadStream as [ds|]; [|done].
  destruct b; [|done]. apply calls_ok_bind; [apply PublishDead_ok | done].
Qed.

Lemma handleExecutionFailure_ok t traceID e :
  calls_ok ok (handleExecutionFailure w t traceID e).
Proof.
  unfold handleExecutionFailure. apply calls_ok_bind_res; [apply MarkFailed_ok|].
  intros ft. apply calls_ok_bind; [apply TimeNow_ok|]. intros now.
  apply calls_ok_bind_res.
  { apply CompleteFailure_ok. destruct (IsNonRetryable e); [by right|].
    apply DecideFailure_sound. }
  intros fin. apply calls_ok_bind; [|intros _; apply publish_dead_ok].
  destruct (String.eqb _ _); [apply record_ok|].
  destruct (String.eqb _ _); [apply record_ok | done].
Qed.

Lemma handleMessage_ok message : calls_ok ok (handleMessage w message).
Proof.
  unfold handleMessage. apply calls_ok_bind_res; [apply Get_ok|]. intros cur.
  destruct (IsTerminal _); [apply redis_call_ok|].
  apply calls_ok_bind_res; [apply claim_task_ok|]. intros t.
  apply calls_ok_bind; [apply TimeNow_ok|]. intros started.
  apply calls_ok_bind; [apply execute_ok|]. intros [err|]; apply calls_ok_bind_res.
  - apply handleExecutionFailure_ok.
  - intros _. apply calls_ok_bind; [apply record_since_ok|]. intros _. apply redis_call_ok.
  - apply Transition_ok. intros _. apply Htrans. auto.
  - intros t'. apply calls_ok_bind; [apply record_since_ok|]. intros _.
    apply redis_call_ok.
Qed.
End handle.

Section tick.
Context (streamName scheduledKey : string) (deadStream : option string)
        (interval : Duration) (batchSize : Z).
Local Abbreviation s :=
  (redis_scheduler streamName scheduledKey deadStream interval batchSize).

Lemma recoverRunningTask_ok now t : calls_ok ok (recoverRunningTask s now t).
Proof.
  unfold recoverRunningTask. apply calls_ok_bind; [apply MarkFailed_ok|].
  intros [ft|e]; [|by destruct (errors_Is e _)].
  apply calls_ok_bind; [apply CompleteFailure_ok, DecideFailure_sound|].
  intros [fin|e]; [|by destruct (errors_Is e _)]. cbn [sc_deadPublisher redis_scheduler].
  destruct deadStream as [ds|]; [|done]. destruct (String.eqb _ _); [|done].
  apply calls_ok_bind; [apply PublishDead_ok | done].
Qed.

(** A loop whose body logs its errors. *)
Lemma loop_ok {A} (f : A -> prog Call (result unit)) xs :
  (forall x, calls_ok ok (f x)) ->
  calls_ok ok (_ ← for_each (fun x => _ ← f x; Ret tt) xs; Ret (Ok tt : result unit)).
Proof.
  intros Hf. apply calls_ok_bind; [|done]. apply calls_ok_for_each. intros x.
  by apply calls_ok_bind.
Qed.

Lemma Tick_phases_ok :
  (forall now, calls_ok ok (scheduleDueZSetTasks s now)) /\
  (forall now, calls_ok ok (r ← @ss_DueRetrying (sc_store s) now (sc_batchSize s);
     match r with
     | Err e => Ret (Err (Errorf "scan due retrying tasks: " e ""))
     | Ok due => _ ← for_each (fun t => _ ← scheduleTask s t; Ret tt) due; Ret (Ok tt)
     end)).
Proof.
  assert (Hpub : forall m, calls_ok ok (sc_publisher s m)) by (intros; apply redis_call_ok).
  split; intros now.
  - unfold scheduleDueZSetTasks. apply calls_ok_bind.
    { cbn. unfold DueTaskIDs. destruct (batchSize <=? 0); [done | apply redis_call_ok]. }
    intros [ids|e]; [|done]. apply loop_ok. intros id.
    apply scheduleZSetTask_ok; [done | exact Hpub | intros; apply redis_call_ok].
  - split; [apply (Hreads _ (Sql (SelectDueRetrying now batchSize)))|].
    intros [ts|e]; [|done]. apply loop_ok. intros t. by apply scheduleTask_ok.
Qed.

Lemma Tick_ok : calls_ok ok (Tick s).
Proof.
  unfold Tick. split; [apply (Hreads _ TimeNow)|]. intros now.
  apply calls_ok_bind_res; [|intros _; apply calls_ok_bind_res; intros;
                             apply Tick_phases_ok].
  unfold recoverExpiredRunning.
  split; [apply (Hreads _ (Sql (SelectExpiredRunning now batchSize)))|].
  intros [ts|e]; [|done]. apply loop_ok. intros t. apply recoverRunningTask_ok.
Qed.
End tick.
End single.
