(* ===== verification/Http.v ===== *)
(** * The HTTP API

    src/internal/httpserver: the task endpoints (tasks.go) and the data behind
    the dashboard (dashboard.go; what its pages make of them is in
    Dashboard.v). A handler is a program that ends with the
    response it writes: a status and a body. *)

From S2P Require Import Prelude GoStd Json Errors Task Effects Table Metrics Calls Store Lifecycle.
From S2P Require Import Queue Service Handlers Worker Scheduler Statements.
Local Open Scope Z_scope.

(** ** Requests and responses (tasks.go) *)

Record createTaskRequest := mkCreateTaskRequest {
  rq_TaskType : string;
  rq_Payload : string;              (* a json.RawMessage; absent is empty *)
  rq_IdempotencyKey : option string;
  rq_TraceID : option string;
  rq_RunAt : option Time;
  rq_TimeoutSeconds : Z;
  rq_MaxRetries : Z;
}.

Record taskResponse := mkTaskResponse {
  tr_ID : string;
  tr_TaskType : string;
  tr_Payload : string;
  tr_Status : Status;
  tr_IdempotencyKey : option string;
  tr_TraceID : option string;
  tr_RunAt : Time;
  tr_TimeoutSeconds : Z;
  tr_MaxRetries : Z;
  tr_RetryCount : Z;
  tr_NextRetryAt : option Time;
  tr_LastError : option string;
  tr_WorkerID : option string;
  tr_StartedAt : option Time;
  tr_FinishedAt : option Time;
  tr_CreatedAt : Time;
  tr_UpdatedAt : Time;
}.

Definition toTaskResponse (task : Task) : taskResponse :=
  {| tr_ID := ID task;
     tr_TaskType := Type_ task;
     tr_Payload := Payload task;
     tr_Status := Status_ task;
     tr_IdempotencyKey := IdempotencyKey task;
     tr_TraceID := TraceID task;
     tr_RunAt := RunAt task;
     tr_TimeoutSeconds := TimeoutSeconds task;
     tr_MaxRetries := MaxRetries task;
     tr_RetryCount := RetryCount task;
     tr_NextRetryAt := NextRetryAt task;
     tr_LastError := LastError task;
     tr_WorkerID := WorkerID task;
     tr_StartedAt := StartedAt task;
     tr_FinishedAt := FinishedAt task;
     tr_CreatedAt := CreatedAt task;
     tr_UpdatedAt := UpdatedAt task |}.

(** ** The dashboard (dashboard.go) *)

Record statusCountView := mkStatusCount { sv_Status : Status; sv_Count : Z }.

Record dashboardView := mkDashboardView {
  dv_GeneratedAt : Time;
  dv_TotalTasks : Z;
  dv_StatusCounts : list statusCountView;
  dv_Snapshot : Snapshot;
  dv_RecentTasks : list Task;
  dv_RecentFailed : list Task;
  dv_RecentDead : list Task;
}.

(** What is encoded in a response: JSON or text, or the page rendered from a
    view by the embedded templates. *)
Inductive body :=
| TaskBody (t : taskResponse)
| ErrorBody (message : string)       (* errorResponse, as JSON *)
| TextBody (message : string)        (* http.Error *)
| DashboardPage (view : dashboardView)
| TaskPage (t : Task)
| RawBody (text : string)            (* written as it is *)
| LocationHeader (url : string)      (* a redirect by the router, less the query *)
| AllowHeader (methods : list string).

Record response := mkResponse { rs_status : Z; rs_body : body }.

Definition StatusOK : Z := 200.
Definition StatusCreated : Z := 201.
Definition StatusBadRequest : Z := 400.
Definition StatusNotFound : Z := 404.
Definition StatusInternalServerError : Z := 500.

Definition writeError (status : Z) (message : string) : response :=
  mkResponse status (ErrorBody message).

Definition http_Error (status : Z) (message : string) : response :=
  mkResponse status (TextBody message).

(** What package encoding/json does with a request body: [Decode], with
    unknown fields disallowed. *)
Class JSON := { json_Decode_createTask : string -> result createTaskRequest }.

(** The interface [TaskStore] of the server. *)
Record HttpStore := mkHttpStore {
  hs_Create : CreateTaskParams -> prog Call (result Task);
  hs_Get : string -> prog Call (result Task);
  hs_MetricsSnapshot : Time -> prog Call (result Snapshot);
  hs_CountByStatus : prog Call (result (gmap Status Z));
  hs_RecentByStatus : Status -> Z -> prog Call (result (list Task));
  hs_Recent : Z -> prog Call (result (list Task));
}.

(** The service of the application: it passes the reads of the dashboard on
    to the store (service.go). *)
Definition service_HttpStore (s : Service) : HttpStore :=
  {| hs_Create := service_Create s;
     hs_Get := service_Get s;
     hs_MetricsSnapshot := MetricsSnapshot;
     hs_CountByStatus := CountByStatus;
     hs_RecentByStatus := RecentByStatus;
     hs_Recent := Recent |}.

Section http.
Context {J : JSON}.

(** A present but blank string is an error, any other is trimmed. *)
Definition trim_optional (value : option string) (message : string)
  : result (option string) :=
  match value with
  | None => Ok None
  | Some v =>
      if String.eqb (TrimSpace v) "" then Err (ErrorString message)
      else Ok (Some (TrimSpace v))
  end.

Definition validateCreateTaskRequest (req : createTaskRequest)
  : prog Call (result CreateTaskParams) :=
  let taskType := TrimSpace (rq_TaskType req) in
  if String.eqb taskType "" then Ret (Err (ErrorString "task_type is required"))
  else
    let payload := if String.eqb (rq_Payload req) "" then "{}" else rq_Payload req in
    if negb (json_Valid payload) then Ret (Err (ErrorString "payload must be valid json"))
    else
      let* key := Ret (trim_optional (rq_IdempotencyKey req)
                         "idempotency_key cannot be blank") in
      let* traceID := Ret (trim_optional (rq_TraceID req) "trace_id cannot be blank") in
      now ← call TimeNow;
      let runAt := default now (rq_RunAt req) in
      let timeoutSeconds := if rq_TimeoutSeconds req =? 0 then 300
                            else rq_TimeoutSeconds req in
      if timeoutSeconds <? 0 then
        Ret (Err (ErrorString "timeout_seconds must be positive"))
      else
        let maxRetries := if rq_MaxRetries req =? 0 then 3 else rq_MaxRetries req in
        if maxRetries <? 0 then
          Ret (Err (ErrorString "max_retries cannot be negative"))
        else Ret (Ok {| cp_Type := taskType;
                        cp_Payload := payload;
                        cp_IdempotencyKey := key;
                        cp_TraceID := traceID;
                        cp_RunAt := runAt;
                        cp_TimeoutSeconds := timeoutSeconds;
                        cp_MaxRetries := maxRetries |}).

Context {GT : GoText}.

Definition handleCreateTask (s : HttpStore) (requestBody : string) : prog Call response :=
  match json_Decode_createTask requestBody with
  | Err _ => Ret (writeError StatusBadRequest "invalid json body")
  | Ok req =>
      params ← validateCreateTaskRequest req;
      match params with
      | Err e => Ret (writeError StatusBadRequest (error_Error e))
      | Ok params =>
          created ← hs_Create s params;
          Ret (match created with
               | Err _ => writeError StatusInternalServerError "database write failed"
               | Ok created => mkResponse StatusCreated (TaskBody (toTaskResponse created))
               end)
      end
  end.

(** The common text of [handleGetTask] and [handleDashboardTaskDetail]. *)
Definition get_task (s : HttpStore) (pathID : string) (fail : Z -> string -> response)
    (failed : string) (page : Task -> body) : prog Call response :=
  let id := TrimSpace pathID in
  if String.eqb id "" then Ret (fail StatusBadRequest "task id is required")
  else
    found ← hs_Get s id;
    Ret (match found with
         | Err e =>
             if errors_Is e ErrNotFound then fail StatusNotFound "task not found"
             else fail StatusInternalServerError failed
         | Ok found => mkResponse StatusOK (page found)
         end).

Definition handleGetTask (s : HttpStore) (pathID : string) : prog Call response :=
  get_task s pathID writeError "database read failed"
    (fun t => TaskBody (toTaskResponse t)).

Definition handleDashboardTaskDetail (s : HttpStore) (pathID : string)
  : prog Call response :=
  get_task s pathID http_Error "load task detail failed" TaskPage.

Definition recentDashboardLimit : Z := 5.
Definition recentTaskListLimit : Z := 10.

Definition dashboardStatusCounts (counts : gmap Status Z) : list statusCountView :=
  map (fun status => mkStatusCount status (default 0 (counts !! status)))
    [StatusScheduled; StatusPending; StatusRunning; StatusSuccess; StatusFailed;
     StatusRetrying; StatusDead].

(** [if err != nil { http.Error(w, message, 500); return }]. *)
Definition or_500 {A} (m : prog Call (result A)) (message : string)
    (k : A -> prog Call response) : prog Call response :=
  r ← m;
  match r with
  | Err _ => Ret (http_Error StatusInternalServerError message)
  | Ok a => k a
  end.

Definition handleDashboard (s : HttpStore) : prog Call response :=
  now ← call TimeNow;
  or_500 (hs_CountByStatus s) "load dashboard status counts failed" (fun counts =>
  or_500 (hs_MetricsSnapshot s now) "load dashboard metrics snapshot failed" (fun snapshot =>
  or_500 (hs_RecentByStatus s StatusFailed recentDashboardLimit)
    "load recent failed tasks failed" (fun recentFailed =>
  or_500 (hs_RecentByStatus s StatusDead recentDashboardLimit)
    "load recent dead tasks failed" (fun recentDead =>
  or_500 (hs_Recent s recentTaskListLimit) "load recent tasks failed" (fun recentTasks =>
    let statusCounts := dashboardStatusCounts counts in
    let total := foldl (fun total count => wrap64 (total + sv_Count count)) 0 statusCounts in
    Ret (mkResponse StatusOK (DashboardPage
      {| dv_GeneratedAt := now;
         dv_TotalTasks := total;
         dv_StatusCounts := statusCounts;
         dv_Snapshot := snapshot;
         dv_RecentTasks := recentTasks;
         dv_RecentFailed := recentFailed;
         dv_RecentDead := recentDead |}))))))).

Definition dashboardStringValue (value : option string) : string :=
  match value with
  | None => "-"
  | Some v => if String.eqb v "" then "-" else v
  end.

Definition dashboardLastError (value : option string) : string := dashboardStringValue value.

Definition dashboardTaskDetailPath (id : string) : string := "/dashboard/tasks/" +:+ id.
Definition dashboardTaskStatusClass (status : Status) : string := status.
End http.

(** ** Properties *)

Section http_properties.
Context {J : JSON} {GT : GoText} {PG : Postgres} {X : Type} {EV : Env X}.
Implicit Type w : World X.

Definition blank (value : option string) : Prop :=
  exists v, value = Some v /\ TrimSpace v = "".

Lemma trim_optional_cases value message :
  (blank value /\ trim_optional value message = Err (ErrorString message)) \/
  (~ blank value /\ trim_optional value message = Ok (TrimSpace <$> value)).
Proof.
  unfold trim_optional, blank. destruct value as [v|]; simpl.
  - destruct (String.eqb_spec (TrimSpace v) ""); [left; eauto|].
    right. split; [|done]. intros (v' & [= <-] & ?). done.
  - right. split; [|done]. by intros (v' & ? & _).
Qed.

Lemma validate_quiet req :
  calls_ok no_sql (validateCreateTaskRequest req) /\
  calls_ok no_redis (validateCreateTaskRequest req).
Proof.
  unfold validateCreateTaskRequest. destruct (String.eqb _ _); [done|].
  destruct (negb _); [done|].
  destruct (trim_optional (rq_IdempotencyKey req) _); [|done].
  destruct (trim_optional (rq_TraceID req) _); [|done].
  split; (split; [done|]); intros now; by repeat case_match.
Qed.

(** The row [Create] makes of the parameters. *)
Definition row_of_params (p : CreateTaskParams) (id status payload : string) (now : Time)
  : Row :=
  inserted_row {| ins_id := id; ins_task_type := cp_Type p; ins_payload := cp_Payload p;
                  ins_status := status; ins_idempotency_key := cp_IdempotencyKey p;
                  ins_trace_id := cp_TraceID p; ins_run_at := cp_RunAt p;
                  ins_timeout_seconds := cp_TimeoutSeconds p;
                  ins_max_retries := cp_MaxRetries p |} payload now.

Lemma row_of_params_check p id status payload now :
  status = StatusPending \/ status = StatusScheduled ->
  0 < cp_TimeoutSeconds p -> 0 <= cp_MaxRetries p ->
  row_check (row_of_params p id status payload now) = true.
Proof.
  intros Hs Ht Hm. unfold row_check, tasks_status_check, tasks_timeout_seconds_check,
    tasks_max_retries_check, tasks_retry_count_check. simpl.
  apply Z.ltb_lt in Ht. apply Z.leb_le in Hm. rewrite Ht, Hm.
  by destruct Hs as [-> | ->].
Qed.

(** C33: what the API accepts. A request is refused exactly when its task
    type is blank, its payload is not valid JSON, its idempotency key or
    trace id is present but blank, or its timeout or retry budget is
    negative. An accepted one is normalized: type, key and trace id trimmed
    (so the type is found by the handler registry as it is stored), absent or
    zero timeout and budget replaced by 300 and 3 (a budget of zero cannot
    be asked for), and the row made of it violates no CHECK constraint. *)
Theorem validate_spec req w w' r :
  run interp (validateCreateTaskRequest req) w = (w', r) ->
  let payload := if String.eqb (rq_Payload req) "" then "{}" else rq_Payload req in
  (is_Ok r = false <->
     TrimSpace (rq_TaskType req) = "" \/ json_Valid payload = false \/
     blank (rq_IdempotencyKey req) \/ blank (rq_TraceID req) \/
     rq_TimeoutSeconds req < 0 \/ rq_MaxRetries req < 0) /\
  (forall p, r = Ok p ->
     cp_Type p = TrimSpace (rq_TaskType req) /\ TrimSpace (cp_Type p) = cp_Type p /\
     cp_Payload p = payload /\
     cp_IdempotencyKey p = TrimSpace <$> rq_IdempotencyKey req /\
     cp_TraceID p = TrimSpace <$> rq_TraceID req /\
     (forall t, rq_RunAt req = Some t -> cp_RunAt p = t) /\
     cp_TimeoutSeconds p = (if rq_TimeoutSeconds req =? 0 then 300 else rq_TimeoutSeconds req) /\
     cp_MaxRetries p = (if rq_MaxRetries req =? 0 then 3 else rq_MaxRetries req) /\
     0 < cp_MaxRetries p /\
     forall id status jsonb now, status = StatusPending \/ status = StatusScheduled ->
       row_check (row_of_params p id status jsonb now) = true).
Proof.
  intros Hrun. cbv zeta. unfold validateCreateTaskRequest in Hrun.
  destruct (String.eqb_spec (TrimSpace (rq_TaskType req)) "") as [Ht|Ht].
  { injection Hrun as <- <-. split; [split; [by left | done] | done]. }
  set (payload := if String.eqb (rq_Payload req) "" then "{}" else rq_Payload req) in *.
  destruct (json_Valid payload) eqn:Hj; cbn [negb] in Hrun.
  2: { injection Hrun as <- <-. split; [split; [auto | done] | done]. }
  destruct (trim_optional_cases (rq_IdempotencyKey req) "idempotency_key cannot be blank")
    as [[Hk Ek] | [Hk Ek]]; rewrite Ek in Hrun.
  { injection Hrun as <- <-. split; [split; [auto | done] | done]. }
  destruct (trim_optional_cases (rq_TraceID req) "trace_id cannot be blank")
    as [[Hi Ei] | [Hi Ei]]; rewrite Ei in Hrun.
  { injection Hrun as <- <-. split; [split; [auto 6 | done] | done]. }
  cbn [bind_res mbind prog_mbind prog_bind] in Hrun. unfold bind_res in Hrun.
  cbn [mbind prog_mbind prog_bind call run interp ask] in Hrun. unfold ask in Hrun.
  destruct (env_time (w_ext w)) as [x now].
  destruct (Z.ltb_spec (if rq_TimeoutSeconds req =? 0 then 300 else rq_TimeoutSeconds req) 0)
    as [Hto|Hto].
  { injection Hrun as <- <-. split; [|done]. split; [intros _ | done].
    do 4 right. left. destruct (Z.eqb_spec (rq_TimeoutSeconds req) 0); lia. }
  destruct (Z.ltb_spec (if rq_MaxRetries req =? 0 then 3 else rq_MaxRetries req) 0)
    as [Hmx|Hmx].
  { injection Hrun as <- <-. split; [|done]. split; [intros _ | done].
    do 5 right. destruct (Z.eqb_spec (rq_MaxRetries req) 0); lia. }
  injection Hrun as <- <-. split.
  { split; [done|]. destruct (Z.eqb_spec (rq_TimeoutSeconds req) 0);
      destruct (Z.eqb_spec (rq_MaxRetries req) 0); intros [?|[?|[?|[?|[?|?]]]]];
      done || congruence || lia. }
  intros p [= <-]. cbn.
  do 2 (split; [done || apply TrimSpace_idemp|]). do 3 (split; [done|]).
  split; [by intros t ->|]. do 2 (split; [done|]).
  split; [destruct (Z.eqb_spec (rq_MaxRetries req) 0); lia|].
  intros id status jsonb t Hst. apply row_of_params_check; simpl; [done| |done].
  destruct (Z.eqb_spec (rq_TimeoutSeconds req) 0); lia.
Qed.

Lemma validate_key req w w' p :
  run interp (validateCreateTaskRequest req) w = (w', Ok p) ->
  cp_IdempotencyKey p = TrimSpace <$> rq_IdempotencyKey req.
Proof.
  unfold validateCreateTaskRequest. destruct (String.eqb _ _); [done|].
  destruct (negb _); [done|].
  destruct (trim_optional_cases (rq_IdempotencyKey req) "idempotency_key cannot be blank")
    as [[_ ->] | [_ ->]]; [done|].
  destruct (trim_optional (rq_TraceID req) _); [|done].
  unfold bind_res. cbn [mbind prog_mbind prog_bind call run interp]. unfold ask.
  destruct (env_time (w_ext w)) as [x now].
  destruct (Z.ltb _ 0); [done|]. destruct (Z.ltb _ 0); [done|]. by intros [= _ <-].
Qed.

(** C34: what [POST /tasks] answers, case by case. A body that is not decoded
    or not accepted is a 400, and nothing was written or sent. Otherwise: if
    the request's key is in use, the answer is 201 with the task of the row
    that has the key, and nothing was written or sent (also when that task
    was never dispatched). If a new row was stored under the request's key,
    its one dispatch command was issued, and the answer is 201 with the new
    task if Redis accepted the command and 500 if it did not. If the
    [INSERT] was answered with an error, the answer is the same 500, nothing
    was sent, and nothing was stored unless only the answer was lost. *)
Theorem handleCreateTask_answers streamName scheduledKey metrics requestBody w w' resp :
  let m := handleCreateTask
             (service_HttpStore (redis_service streamName scheduledKey metrics)) requestBody in
  let created row := mkResponse StatusCreated (TaskBody (toTaskResponse (task_of row false))) in
  let failed := writeError StatusInternalServerError "database write failed" in
  run interp m w = (w', resp) ->
  (rs_status resp = StatusBadRequest /\ w_table w' = w_table w /\ redis_run m w = [] /\
     forall req, json_Decode_createTask requestBody = Ok req ->
       is_Ok (run interp (validateCreateTaskRequest req) w).2 = false) \/
  (exists req, json_Decode_createTask requestBody = Ok req /\
     is_Ok (run interp (validateCreateTaskRequest req) w).2 = true /\
     let key := TrimSpace <$> rq_IdempotencyKey req in
     ((exists k row, key = Some k /\ row_with_key k (w_table w) = Some row /\
         resp = created row /\ w_table w' = w_table w /\ redis_run m w = []) \/
      (exists row accepted, w_table w !! row_id row = None /\
         w_table w' = <[row_id row := row]> (w_table w) /\ row_idempotency_key row = key /\
         (row_status row = StatusPending \/ row_status row = StatusScheduled) /\
         dispatched streamName scheduledKey (task_of row true) (redis_run m w) accepted /\
         resp = if accepted then created row else failed) \/
      (resp = failed /\ redis_run m w = [] /\
         (exists a e, Ev (Sql (InsertTask a)) (Err e) ∈ run_trace interp m w) /\
         (w_table w' = w_table w \/
          exists row, w_table w !! row_id row = None /\
            w_table w' = <[row_id row := row]> (w_table w))))).
Proof.
  cbv zeta. unfold handleCreateTask.
  destruct (json_Decode_createTask requestBody) as [req|e].
  2: { intros [= <- <-]. by left. }
  intros Hrun. apply run_bind_inv in Hrun as (w1 & vr & Hv & Hrun).
  destruct (validate_quiet req) as [Hq1 Hq2].
  rewrite (redis_run_bind _ _ _ _ _ Hv), (redis_run_none _ _ Hq2), run_trace_bind, Hv.
  cbn [fst snd]. rewrite app_nil_l.
  pose proof (run_no_sql_eq _ _ _ _ Hq1 Hv) as Ht1. destruct vr as [p|e].
  2: { injection Hrun as <- <-. left. do 3 (split; [done|]). intros r [= <-]. by rewrite Hv. }
  right. exists req. split; [done|]. split; [by rewrite Hv|]. apply validate_key in Hv. rewrite <- Hv, <- Ht1.
  apply run_bind_inv in Hrun as (w2 & cr & Hc & [= -> <-]).
  cbn [hs_Create service_HttpStore] in *.
  rewrite (redis_run_bind _ _ _ _ _ Hc), run_trace_bind, Hc. cbn [fst snd].
  change (redis_run (Ret ?a) ?w0) with (@nil redis_event). cbn [run_trace]. rewrite !app_nil_r.
  destruct (service_Create_outcome _ _ _ _ _ _ _ Hc) as [(e & -> & Hlog & (a & e' & He) & Ht) |
    [(k & row & -> & Hk & Hrow & Ht & Hlog) | (row & Hn & Ht & Hst & Hk & Hok & Hd)]].
  - right. right. do 2 (split; [done|]). split; [|exact Ht].
    exists a, e'. apply elem_of_app. by right.
  - left. exists k, row. by do 4 (split; [done|]).
  - right. left. exists row, (is_Ok cr). do 5 (split; [done|]).
    destruct cr as [t|e]; [|done]. by rewrite (Hok t eq_refl).
Qed.

(** ** Reads *)

Lemma Get_answer id w w' r :
  driver_faults -> run interp (Store.Get id) w = (w', r) ->
  w_table w' = w_table w /\
  match r with
  | Ok t => exists row, w_table w !! id = Some row /\ t = task_of row false
  | Err e => errors_Is e ErrNotFound = true -> w_table w !! id = None
  end.
Proof.
  intros Hf Hrun. destruct (tsc_Get (TaskStoreContract := store_contract) id w w' r Hrun)
    as (_ & Ht & Hr). split; [done|]. destruct r as [t|e]; [done|]. clear Hr.
  unfold Store.Get in Hrun. apply run_bind_inv in Hrun as (w1 & row & H1 & [= _ Hr]).
  apply run_query_row in H1 as (r0 & H1 & ->). unfold exec_sql in H1.
  specialize (Hf _ (SelectTask id) (w_ext w)).
  destruct (env_sql _ (SelectTask id) (w_ext w)) as [x se]. simpl in Hf.
  assert (Herr : forall e', errors_Is e' ErrNoRows = false -> errors_Is e' ErrNotFound = false ->
    r0 = Err e' -> errors_Is e ErrNotFound = true -> w_table w !! id = None).
  { intros e' Hn1 Hn2 -> He. unfold not_found in Hr. simpl in Hr. rewrite Hn1 in Hr.
    injection Hr as <-. congruence. }
  destruct (se_fault se) as [[e'|e']|]; simpl in H1.
  - destruct Hf as [Hn1 Hn2]. apply (Herr e'); [done|done|]. by injection H1.
  - destruct Hf as [Hn1 Hn2]. apply (Herr e'); [done|done|]. by injection H1.
  - destruct (w_table w !! id) as [row|]; [|done]. injection H1 as _ <-. done.
Qed.

(** What [GET /tasks/{id}] answers. When the driver's errors are not the
    store's own sentinels, a request for a non-blank id changes nothing and
    is answered 200 with the row of that id, 404 exactly when there is no
    such row, or 500; a blank id is a 400. *)
Theorem handleGetTask_answers s pathID w w' resp :
  driver_faults ->
  run interp (handleGetTask (service_HttpStore s) pathID) w = (w', resp) ->
  sv_store_Get s = Store.Get ->
  let id := TrimSpace pathID in
  w_table w' = w_table w /\
  ((id = "" /\ resp = writeError StatusBadRequest "task id is required") \/
   (id <> "" /\ exists r, w_table w !! id = Some r /\
      resp = mkResponse StatusOK (TaskBody (toTaskResponse (task_of r false)))) \/
   (id <> "" /\ w_table w !! id = None /\
      resp = writeError StatusNotFound "task not found") \/
   (id <> "" /\ resp = writeError StatusInternalServerError "database read failed")).
Proof.
  intros Hf Hrun Hs. cbv zeta. unfold handleGetTask, get_task in Hrun.
  destruct (String.eqb_spec (TrimSpace pathID) "") as [Hid|Hid].
  { injection Hrun as <- <-. auto. }
  apply run_bind_inv in Hrun as (w1 & r & H1 & [= -> <-]).
  cbn [hs_Get service_HttpStore] in H1. unfold service_Get in H1. rewrite Hs in H1.
  apply Get_answer in H1 as [Ht Hr]; [|done]. split; [done|]. right.
  destruct r as [t|e].
  - destruct Hr as (row & Hrow & ->). left. eauto.
  - right. destruct (errors_Is e ErrNotFound); auto.
Qed.

(** ** The dashboard *)

Definition all_statuses : list Status :=
  [StatusScheduled; StatusPending; StatusRunning; StatusSuccess; StatusFailed;
   StatusRetrying; StatusDead].

Definition sum_counts (f : Status -> Z) : Z := foldr Z.add 0 (f <$> all_statuses).

(** The seven counts of rows with valid statuses add up to the rows. *)
Lemma status_counts_total rows :
  (forall r, r ∈ rows -> row_status r ∈ all_statuses) ->
  sum_counts (fun s => count_where (fun r => String.eqb (row_status r) s) rows) =
    Z.of_nat (length rows).
Proof.
  induction rows as [|r rows IH]; intros H; [done|].
  assert (Hc : forall s, count_where (fun r => String.eqb (row_status r) s) (r :: rows) =
    (if String.eqb (row_status r) s then 1 else 0) +
    count_where (fun r => String.eqb (row_status r) s) rows).
  { intros s. unfold count_where. rewrite filter_cons.
    destruct (String.eqb (row_status r) s); case_decide; simpl; done || lia. }
  assert (IH' := IH (fun x Hx => H x (list_elem_of_further x r rows Hx))). clear IH.
  specialize (H r (list_elem_of_here r rows)).
  unfold sum_counts in *. simpl in *. rewrite !Hc. rewrite Nat2Z.inj_succ, <- IH'.
  unfold all_statuses in H. rewrite !elem_of_cons, elem_of_nil in H.
  destruct H as [->|[->|[->|[->|[->|[->|[->|[]]]]]]]]; simpl; lia.
Qed.

Lemma row_check_status r : row_check r = true -> row_status r ∈ all_statuses.
Proof.
  unfold row_check, tasks_status_check. intros H. zbool.
  by apply bool_decide_eq_true in H.
Qed.

(** The running total of the page never overflows on the way to its sum. *)
Lemma total_no_overflow (f : Status -> Z) l acc :
  (forall s, 0 <= f s) -> 0 <= acc -> acc + foldr Z.add 0 (f <$> l) <= MaxInt64 ->
  foldl (fun total c => wrap64 (total + sv_Count c)) acc
    ((fun s => mkStatusCount s (f s)) <$> l) = acc + foldr Z.add 0 (f <$> l).
Proof.
  intros Hf. revert acc. induction l as [|s l IH]; intros acc Ha Hb; [simpl; lia|].
  rewrite !fmap_cons in *. cbn [foldr foldl sv_Count] in *.
  assert (Hl : 0 <= foldr Z.add 0 (f <$> l)).
  { clear -Hf. induction l as [|s l IH]; [done|]. rewrite fmap_cons. cbn [foldr].
    specialize (Hf s). lia. }
  pose proof (Hf s). rewrite wrap64_id by (unfold int64_range, MinInt64, MaxInt64 in *; lia).
  rewrite IH; lia.
Qed.

Context {EL : EnvLaws X}.

(** C36: the dashboard adds up. When the page is rendered, nothing was
    changed, the counts are those of the seven statuses, in order, and their
    total is the number of rows of the table: no task is left out or counted
    twice. *)
Theorem dashboard_adds_up s w w' view :
  table_wf (w_table w) -> Z.of_nat (size (w_table w)) <= MaxInt64 ->
  run interp (handleDashboard (service_HttpStore s)) w =
    (w', mkResponse StatusOK (DashboardPage view)) ->
  w_table w' = w_table w /\
  sv_Status <$> dv_StatusCounts view = all_statuses /\
  dv_TotalTasks view = Z.of_nat (size (w_table w)).
Proof.
  intros Hwf Hsize Hrun. unfold handleDashboard in Hrun.
  apply run_bind_inv in Hrun as (w1 & now & H1 & Hrun).
  apply run_no_sql_eq in H1; [|done].
  unfold or_500 in Hrun. apply run_bind_inv in Hrun as (w2 & rc & H2 & Hrun).
  destruct rc as [counts|e]; [|done].
  apply CountByStatus_counts in H2 as [Ht2 Hc].
  apply run_bind_inv in Hrun as (w3 & rs & H3 & Hrun). destruct rs as [snap|e]; [|done].
  apply MetricsSnapshot_counts in H3 as [Ht3 _].
  apply run_bind_inv in Hrun as (w4 & rf & H4 & Hrun). destruct rf as [failed|e]; [|done].
  apply run_bind_inv in Hrun as (w5 & rd & H5 & Hrun). destruct rd as [dead|e]; [|done].
  apply run_bind_inv in Hrun as (w6 & rr & H6 & Hrun). destruct rr as [recent|e]; [|done].
  apply query_tasks_reading in H4, H5, H6; [|done..].
  assert (Hret : forall a, run interp (Ret a) w6 = (w', mkResponse StatusOK (DashboardPage view)) ->
    w6 = w' /\ a = mkResponse StatusOK (DashboardPage view)).
  { intros a [= -> ->]. done. }
  apply Hret in Hrun as [<- Hview]. clear Hret.
  assert (Hpage : forall v v', mkResponse StatusOK (DashboardPage v) =
    mkResponse StatusOK (DashboardPage v') -> v = v') by (by intros v v' [= ->]).
  apply Hpage in Hview as <-. clear Hpage. cbn [dv_StatusCounts dv_TotalTasks].
  split; [congruence|]. split; [done|].
  rewrite H1 in Hc.
  assert (Hf : forall s, 0 <= default 0 (counts !! s)).
  { intros st. rewrite Hc. unfold count_where. lia. }
  pose proof (status_counts_total (snd <$> map_to_list (w_table w))) as Htot.
  rewrite length_fmap, length_map_to_list in Htot.
  assert (Hsum : sum_counts (fun st => default 0 (counts !! st)) =
                 Z.of_nat (size (w_table w))).
  { rewrite <- Htot.
    - unfold sum_counts. f_equal. apply list_fmap_ext. intros i st _. apply Hc.
    - intros r ([id r'] & -> & Hin%elem_of_map_to_list)%list_elem_of_fmap.
      apply row_check_status. by apply (wf_check _ Hwf _ _ Hin). }
  pose proof (total_no_overflow (fun st => default 0 (counts !! st)) all_statuses 0 Hf) as Hno.
  fold (sum_counts (fun st => default 0 (counts !! st))) in Hno. rewrite Hsum in Hno.
  etrans; [apply Hno; lia | lia].
Qed.
End http_properties.

(** ** What the handlers issue *)

Section http_calls.
Context {J : JSON} {GT : GoText}.
Context (ok : forall A, Call A -> Prop) (Hreads : reads_ok ok).
Context (Hinsert : forall a, ins_status a = StatusPending \/ ins_status a = StatusScheduled ->
           ok _ (Sql (InsertTask a))).
Context (streamName scheduledKey : string) (metrics : bool).
Local Abbreviation s := (service_HttpStore (redis_service streamName scheduledKey metrics)).

Lemma validate_ok req : calls_ok ok (validateCreateTaskRequest req).
Proof.
  unfold validateCreateTaskRequest. destruct (String.eqb _ _); [done|].
  destruct (negb _); [done|].
  destruct (trim_optional (rq_IdempotencyKey req) _); [|done].
  destruct (trim_optional (rq_TraceID req) _); [|done].
  split; [apply (Hreads _ TimeNow)|]. intros now. by repeat case_match.
Qed.

Lemma handleCreateTask_ok requestBody : calls_ok ok (handleCreateTask s requestBody).
Proof.
  unfold handleCreateTask. destruct (json_Decode_createTask requestBody); [|done].
  apply calls_ok_bind; [apply validate_ok|]. intros [p|e]; [|done].
  apply calls_ok_bind; [by apply service_Create_ok | done].
Qed.

Lemma get_task_ok pathID fail failed page :
  calls_ok ok (get_task s pathID fail failed page).
Proof.
  unfold get_task. destruct (String.eqb _ _); [done|].
  apply calls_ok_bind; [by apply Get_ok | done].
Qed.

Lemma or_500_ok {A} (m : prog Call (result A)) message k :
  calls_ok ok m -> (forall a, calls_ok ok (k a)) -> calls_ok ok (or_500 m message k).
Proof. intros Hm Hk. apply calls_ok_bind; [done|]. by intros [a|e]. Qed.

Lemma handleDashboard_ok : calls_ok ok (handleDashboard s).
Proof.
  split; [apply (Hreads _ TimeNow)|]. intros now.
  apply or_500_ok; [split; [apply (Hreads _ (Sql SelectCountByStatus)) | done]|]. intros counts.
  apply or_500_ok; [split; [apply (Hreads _ (Sql (SelectMetricsSnapshot now))) | done]|].
  intros snap.
  assert (Hrecent : forall st n, calls_ok ok (hs_RecentByStatus s st n)).
  { intros st n. split; [apply (Hreads _ (Sql (SelectRecentByStatus st n))) | done]. }
  apply or_500_ok; [apply Hrecent|]. intros failed.
  apply or_500_ok; [apply Hrecent|]. intros dead.
  apply or_500_ok; [split; [apply (Hreads _ (Sql (SelectRecent recentTaskListLimit))) | done]|].
  done.
Qed.
End http_calls.
