(* ===== verification/Dashboard.v ===== *)
(** * What the dashboard prints

    The functions that src/internal/httpserver/dashboard.go gives to its page
    templates for times and payloads. *)

From S2P Require Import Prelude Text GoStd Json Calendar.
Local Open Scope Z_scope.

Definition formatDashboardTime (value : Time) : string :=
  if time_IsZero value then "-" else format_utc value.

Definition formatDashboardOptionalTime (value : option Time) : string :=
  match value with None => "-" | Some value => formatDashboardTime value end.

Definition dashboardPrettyJSON (payload : string) : string :=
  if String.eqb payload "" then "{}"
  else match json_Indent payload with None => payload | Some formatted => formatted end.

(** C20: times. A missing time and Go's zero time are shown as a dash. Any other
    time of the years 1 to 9999 is shown as a text that a reader takes back
    to the very second: the calendar, the leap years and the padding of every
    field are right. *)
Theorem formatDashboardTime_roundtrip t :
  zero_time <= t < 253402300800 * Second ->
  formatDashboardOptionalTime None = "-" /\
  (t = zero_time -> formatDashboardOptionalTime (Some t) = "-") /\
  (t <> zero_time ->
     parse_utc (formatDashboardOptionalTime (Some t)) = Some (time_Unix t * Second)).
Proof.
  intros Ht. cbn [formatDashboardOptionalTime]. unfold formatDashboardTime, time_IsZero.
  split; [done|]. split; [by intros ->|]. intros Hz. apply Z.eqb_neq in Hz. rewrite Hz.
  apply parse_format_utc. unfold time_Unix, zero_time, last_day, days_before_year, Second in *.
  assert (Hs : -62135596800 <= t / 1000000000 < 253402300800).
  { split; [apply Z.div_le_lower_bound | apply Z.div_lt_upper_bound]; lia. }
  assert (Hd : -719162 <= t / 1000000000 / 86400 < 2932897).
  { split; [apply Z.div_le_lower_bound | apply Z.div_lt_upper_bound]; lia. }
  change (365 * (10000 - 1) + (10000 - 1) / 4 - (10000 - 1) / 100 + (10000 - 1) / 400 - 1)
    with 3652058. lia.
Qed.

Lemma pretty_Valid payload :
  json_Valid payload = true -> dashboardPrettyJSON payload = layout false 0 (tokens payload).
Proof.
  intros Hv. unfold dashboardPrettyJSON. rewrite Indent_Valid, Hv.
  destruct (String.eqb_spec payload "") as [->|]; [discriminate Hv | done].
Qed.

(** C19: payloads. The detail page shows an empty payload as an empty object and
    a text that is not JSON as it is. The layout of a JSON text is a JSON text
    with the same tokens (every byte of every string, number and bracket, in
    order, is kept: only space between tokens is changed), and is left as it
    is when laid out again, so it depends on the tokens alone. *)
Theorem dashboardPrettyJSON_faithful payload :
  let out := dashboardPrettyJSON payload in
  (payload = "" -> out = "{}") /\
  (payload <> "" -> json_Valid payload = false -> out = payload) /\
  (json_Valid payload = true ->
     json_Valid out = true /\ tokens out = tokens payload /\ dashboardPrettyJSON out = out).
Proof.
  cbv zeta. split; [by intros ->|]. split.
  - intros Hn Hv. unfold dashboardPrettyJSON. rewrite Indent_Valid, Hv.
    by apply String.eqb_neq in Hn as ->.
  - intros Hv. destruct (Indent_tokens payload Hv) as [Hv2 Ht].
    rewrite (pretty_Valid payload Hv). split; [exact Hv2|]. split; [exact Ht|].
    by rewrite (pretty_Valid _ Hv2), Ht.
Qed.

Lemma formatDashboardTime_roundtrip_witness :
  formatDashboardTime (1709210096 * Second + 7) = "2024-02-29 12:34:56 UTC" /\
  parse_utc (formatDashboardOptionalTime (Some (1709210096 * Second + 7))) =
    Some (1709210096 * Second).
Proof.
  split; [vm_compute; reflexivity|].
  refine (proj2 (proj2 (formatDashboardTime_roundtrip (1709210096 * Second + 7) _)) _).
  - unfold zero_time, Second. lia.
  - unfold zero_time, Second. lia.
Defined.
