(* ===== verification/Server.v ===== *)
(** * The HTTP server

    src/internal/httpserver/server.go and metrics.go: the routes, as
    [http.ServeMux] dispatches them, and the handler of [/metrics].

    The router is the one of net/http: patterns are a method and the segments
    of a path; a literal segment is preferred to a wildcard, a wildcard to the
    rest ([matchPath], as routing_tree.go walks its tree); paths are cleaned
    first ([cleanPath]). A request is its method, its escaped path, which
    starts with a slash in every request but [CONNECT] and [OPTIONS *], and
    its body; no pattern names a host. *)

From Stdlib Require Import Ascii.
From S2P Require Import Prelude Text GoStd Url Errors Task Effects Table Metrics Float Calls.
From S2P Require Import Exposition Store Lifecycle Queue Service Handlers Worker Scheduler.
From S2P Require Import Statements Http.
Local Open Scope Z_scope.

(** ** The handler of /metrics *)

Definition handleMetrics (provider : option (Time -> prog Call (result Snapshot)))
  : prog Call response :=
  written ← WritePrometheus provider (fun text w => (w +:+ text, None)) "";
  Ret (match written.2 with
       | None => mkResponse StatusOK (RawBody written.1)
       | Some _ => http_Error StatusInternalServerError "collect metrics failed"
       end).

(** ** Patterns *)

Inductive pattern_segment :=
| Literal (s : string)
| Wildcard                     (* {id} *)
| Multi.                       (* the rest of the path: a trailing slash *)

Inductive endpoint :=
| Healthz | Dashboard | DashboardTask | PostTasks | GetTask | GetMetrics.

Record route := mkRoute {
  rt_method : string;
  rt_path : list pattern_segment;
  rt_endpoint : endpoint;
}.

(** The patterns of [New]; [/metrics] only with a registry. *)
Definition routes (registry : bool) : list route :=
  [mkRoute "GET" [Literal "healthz"] Healthz;
   mkRoute "GET" [Multi] Dashboard;
   mkRoute "GET" [Literal "dashboard"] Dashboard;
   mkRoute "GET" [Literal "dashboard"; Literal "tasks"; Wildcard] DashboardTask;
   mkRoute "POST" [Literal "tasks"] PostTasks;
   mkRoute "GET" [Literal "tasks"; Wildcard] GetTask] ++
  (if registry then [mkRoute "GET" [Literal "metrics"] GetMetrics] else []).

(** ** http.ServeMux *)

(** A node of the tree: what is left of the patterns that lead to it. *)
Abbreviation node := (list (list pattern_segment * endpoint)).

Definition child_literal (seg : string) (n : node) : node :=
  omap (fun p => match p.1 with
                 | Literal s :: rest => if String.eqb seg s then Some (rest, p.2) else None
                 | _ => None
                 end) n.

Definition child_wildcard (n : node) : node :=
  omap (fun p => match p.1 with Wildcard :: rest => Some (rest, p.2) | _ => None end) n.

Definition child_multi (n : node) : option endpoint :=
  head (omap (fun p => match p.1 with [Multi] => Some p.2 | _ => None end) n).

Definition leaf (n : node) : option endpoint :=
  head (omap (fun p => match p.1 with [] => Some p.2 | _ => None end) n).

Definition or_else {A} (a b : option A) : option A :=
  match a with Some _ => a | None => b end.

(** [matchPath]: the endpoint and the values of its wildcards. *)
Fixpoint matchPath (segs : list string) (n : node) (matches : list string)
  : option (endpoint * list string) :=
  match segs with
  | [] => (fun e => (e, matches)) <$> leaf n
  | seg :: rest =>
      or_else (matchPath rest (child_literal seg n) matches)
        (or_else
           (if String.eqb seg "/" then None
            else matchPath rest (child_wildcard n) (matches ++ [seg]))
           ((fun e => (e, matches)) <$> child_multi n))
  end.

Definition tree (registry : bool) (method : string) : node :=
  map (fun r => (rt_path r, rt_endpoint r))
    (filter (fun r => String.eqb (rt_method r) method = true) (routes registry)).

(** A segment is unescaped if it can be. *)
Definition pathUnescape (s : string) : string := default s (unescape false s).

(** The segments of a path that starts with a slash; a final slash is a
    segment of its own. *)
Fixpoint segments_of (pieces : list string) : list string :=
  match pieces with
  | [] => []
  | [last] => if String.eqb last "" then ["/"] else [pathUnescape last]
  | piece :: rest => pathUnescape piece :: segments_of rest
  end.

Definition drop_slash (path : string) : string :=
  match path with String _ rest => rest | "" => "" end.

Definition segments (path : string) : list string :=
  if String.eqb path "" then [] else segments_of (split_on "/" (drop_slash path)).

(** [matchMethodAndPath]: GET patterns match HEAD too. *)
Definition match_route (registry : bool) (method path : string)
  : option (endpoint * list string) :=
  or_else (matchPath (segments path) (tree registry method) [])
    (if String.eqb method "HEAD" then matchPath (segments path) (tree registry "GET") [] else None).

(** ** Cleaning a path *)

(** [path.Clean] on the pieces of a rooted path, on a stack. *)
Definition clean_pieces (pieces : list string) : list string :=
  rev (foldl (fun stack piece =>
         if String.eqb piece "" || String.eqb piece "." then stack
         else if String.eqb piece ".." then tail stack
         else piece :: stack) [] pieces).

Definition path_of (pieces : list string) : string := "/" +:+ String.concat "/" pieces.

Definition ends_with_slash (s : string) : bool :=
  negb (String.eqb s "") && String.eqb (List.last (split_on "/" s) "") "".

Definition cleanPath (p : string) : string :=
  if String.eqb p "" then "/"
  else
    let p := if starts_with_slash p then p else String "/" p in
    let np := path_of (clean_pieces (split_on "/" (drop_slash p))) in
    if ends_with_slash p && negb (String.eqb np "/") then np +:+ "/" else np.

(** ** Dispatch *)

Inductive dispatch :=
| ServeBy (e : endpoint) (values : list string)
| Redirect (path : string)      (* to url.URL{Path: path}, the query left as it is *)
| MethodNotAllowed (allowed : list string)
| NotFound.

(** [matchingMethods]: the methods of the patterns that match the path, with
    or without a final slash, sorted. *)
Definition matchingMethods (registry : bool) (path : string) : list string :=
  let matched method :=
    match matchPath (segments path) (tree registry method) [] with
    | Some _ => true
    | None =>
        negb (ends_with_slash path) &&
        match matchPath (segments (path +:+ "/")) (tree registry method) [] with
        | Some _ => true | None => false
        end
    end in
  (if matched "GET" then ["GET"; "HEAD"] else []) ++ (if matched "POST" then ["POST"] else []).

(** [findHandler]. No pattern but [GET /] ends in a slash, so that the
    redirect from [/tree] to [/tree/] never applies. *)
Definition findHandler (registry : bool) (method escapedPath : string) : dispatch :=
  let path := if String.eqb method "CONNECT" then escapedPath else cleanPath escapedPath in
  if negb (String.eqb path escapedPath) then Redirect path
  else match match_route registry method path with
       | Some (e, values) => ServeBy e values
       | None =>
           match matchingMethods registry path with
           | [] => NotFound
           | allowed => MethodNotAllowed allowed
           end
       end.

Record request := mkRequest { rq_method : string; rq_path : string; rq_body : string }.

(** The status of the router's redirects has changed between versions of
    net/http. *)
Class NetHTTP := { http_redirect_status : Z }.

Definition StatusMethodNotAllowed : Z := 405.

(** What the server answers to a request, [metrics] being its registry's
    snapshot provider if it has a registry. *)
Definition serve `{!JSON} `{!GoText} `{!NetHTTP} (s : HttpStore)
    (metrics : option (option (Time -> prog Call (result Snapshot)))) (req : request)
  : prog Call response :=
  match findHandler (bool_decide (is_Some metrics)) (rq_method req) (rq_path req) with
  | ServeBy e values =>
      let id := default "" (head values) in                 (* r.PathValue("id") *)
      match e with
      | Healthz => Ret (mkResponse StatusOK (RawBody "ok"))
      | Dashboard => handleDashboard s
      | DashboardTask => handleDashboardTaskDetail s id
      | PostTasks => handleCreateTask s (rq_body req)
      | GetTask => handleGetTask s id
      | GetMetrics => handleMetrics (default None metrics)
      end
  | Redirect path =>                              (* RedirectHandler(u.String(), ...) *)
      Ret (mkResponse http_redirect_status (LocationHeader (Url.escapedPath path)))
  | MethodNotAllowed allowed => Ret (mkResponse StatusMethodNotAllowed (AllowHeader allowed))
  | NotFound => Ret (http_Error StatusNotFound "404 page not found")
  end.

(** ** The routes, as a table *)

(** Where a GET request for a path with these segments goes. *)
Definition get_endpoint (registry : bool) (segs : list string) : endpoint * list string :=
  match segs with
  | [a] =>
      if String.eqb a "healthz" then (Healthz, [])
      else if String.eqb a "dashboard" then (Dashboard, [])
      else if registry && String.eqb a "metrics" then (GetMetrics, [])
      else (Dashboard, [])
  | [a; id] =>
      if String.eqb a "tasks" && negb (String.eqb id "/") then (GetTask, [id]) else (Dashboard, [])
  | [a; b; id] =>
      if String.eqb a "dashboard" && String.eqb b "tasks" && negb (String.eqb id "/")
      then (DashboardTask, [id]) else (Dashboard, [])
  | _ => (Dashboard, [])
  end.

Definition is_post_tasks (segs : list string) : bool :=
  match segs with [a] => String.eqb a "tasks" | _ => false end.

Lemma matchPath_nil segs matches : matchPath segs [] matches = None.
Proof.
  revert matches. induction segs as [|seg segs IH]; intros matches; [done|]. cbn.
  rewrite !IH. by destruct (String.eqb seg "/").
Qed.

Lemma matchPath_cons seg rest n matches :
  matchPath (seg :: rest) n matches =
    or_else (matchPath rest (child_literal seg n) matches)
      (or_else
         (if String.eqb seg "/" then None
          else matchPath rest (child_wildcard n) (matches ++ [seg]))
         ((fun e => (e, matches)) <$> child_multi n)).
Proof. done. Qed.

(** What follows the first segment of a GET request. *)
Definition get_node (registry : bool) (a : string) : node :=
  if String.eqb a "healthz" then [([], Healthz)]
  else if String.eqb a "dashboard" then
    [([], Dashboard); ([Literal "tasks"; Wildcard], DashboardTask)]
  else if String.eqb a "tasks" then [([Wildcard], GetTask)]
  else if registry && String.eqb a "metrics" then [([], GetMetrics)]
  else [].

Definition get_tree (registry : bool) : node :=
  [([Literal "healthz"], Healthz); ([Multi], Dashboard); ([Literal "dashboard"], Dashboard);
   ([Literal "dashboard"; Literal "tasks"; Wildcard], DashboardTask);
   ([Literal "tasks"; Wildcard], GetTask)] ++
  (if registry then [([Literal "metrics"], GetMetrics)] else []).

Lemma tree_get registry : tree registry "GET" = get_tree registry.
Proof. destruct registry; vm_compute; reflexivity. Qed.

Lemma tree_post registry : tree registry "POST" = [([Literal "tasks"], PostTasks)].
Proof. destruct registry; vm_compute; reflexivity. Qed.

Lemma get_child registry a : child_literal a (get_tree registry) = get_node registry a.
Proof.
  unfold child_literal, get_tree, get_node.
  destruct (String.eqb_spec a "healthz") as [->|H1]; [by destruct registry|].
  destruct (String.eqb_spec a "dashboard") as [->|H2]; [by destruct registry|].
  destruct (String.eqb_spec a "tasks") as [->|H3]; [by destruct registry|].
  apply String.eqb_neq in H1, H2, H3.
  destruct registry; cbn -[String.eqb]; rewrite ?H1, ?H2, ?H3; [|done].
  by destruct (String.eqb a "metrics").
Qed.

(** A pattern that has ended matches the empty rest only. *)
Lemma matchPath_leaf e segs :
  matchPath segs [([], e)] [] = match segs with [] => Some (e, []) | _ => None end.
Proof.
  destruct segs as [|a segs]; [done|]. rewrite matchPath_cons. cbn -[matchPath].
  rewrite !matchPath_nil. by destruct (String.eqb a "/").
Qed.

(** [/x/{id}], after the [x]. *)
Lemma matchPath_wildcard e segs :
  matchPath segs [([Wildcard], e)] [] =
    match segs with [id] => if String.eqb id "/" then None else Some (e, [id]) | _ => None end.
Proof.
  destruct segs as [|id segs]; [done|]. rewrite matchPath_cons. cbn -[matchPath].
  rewrite matchPath_nil. destruct (String.eqb id "/"); [by destruct segs|].
  destruct segs as [|b segs]; [done|]. rewrite matchPath_cons. cbn -[matchPath].
  rewrite !matchPath_nil. by destruct (String.eqb b "/").
Qed.

Lemma matchPath_literal_wildcard s e segs :
  matchPath segs [([Literal s; Wildcard], e)] [] =
    match segs with
    | [a; id] => if String.eqb a s && negb (String.eqb id "/") then Some (e, [id]) else None
    | _ => None
    end.
Proof.
  destruct segs as [|a segs]; [done|]. rewrite matchPath_cons. cbn -[matchPath String.eqb].
  rewrite matchPath_nil. destruct (String.eqb a s); cbn -[matchPath String.eqb].
  - rewrite matchPath_wildcard. destruct segs as [|id [|]]; cbn -[String.eqb];
      try (by destruct (String.eqb a "/")).
    destruct (String.eqb id "/"); [by destruct (String.eqb a "/") | done].
  - rewrite matchPath_nil. destruct (String.eqb a "/"); by destruct segs as [|id [|]].
Qed.

Lemma matchPath_skip_leaf e n segs :
  matchPath segs (([], e) :: n) [] = match segs with [] => Some (e, []) | _ => matchPath segs n [] end.
Proof. by destruct segs. Qed.

Lemma matchPath_get registry segs :
  segs <> [] -> matchPath segs (tree registry "GET") [] = Some (get_endpoint registry segs).
Proof.
  intros Hs. destruct segs as [|a rest]; [done|]. clear Hs.
  rewrite tree_get, matchPath_cons, get_child.
  assert (Hw : child_wildcard (get_tree registry) = []) by (by destruct registry).
  assert (Hm : child_multi (get_tree registry) = Some Dashboard) by (by destruct registry).
  rewrite Hw, Hm, matchPath_nil. unfold get_node, get_endpoint.
  destruct (String.eqb_spec a "healthz") as [->|_].
  { rewrite matchPath_leaf. by destruct rest as [|b [|c [|]]]. }
  destruct (String.eqb_spec a "dashboard") as [->|_].
  { rewrite matchPath_skip_leaf, matchPath_literal_wildcard.
    destruct rest as [|b [|id [|]]]; try done. cbn -[String.eqb].
    by destruct (String.eqb b "tasks" && negb (String.eqb id "/")). }
  destruct (String.eqb_spec a "tasks") as [->|_].
  { rewrite matchPath_wildcard, andb_false_r.
    destruct rest as [|id [|c [|]]]; try done. by destruct (String.eqb id "/"). }
  destruct registry; cbn -[String.eqb matchPath].
  - destruct (String.eqb a "metrics"); [rewrite matchPath_leaf|rewrite matchPath_nil];
      destruct rest as [|b [|c [|]]]; by destruct (String.eqb a "/").
  - rewrite matchPath_nil. destruct rest as [|b [|c [|]]]; by destruct (String.eqb a "/").
Qed.

Lemma matchPath_post registry segs :
  matchPath segs (tree registry "POST") [] =
    if is_post_tasks segs then Some (PostTasks, []) else None.
Proof.
  rewrite tree_post. destruct segs as [|a rest]; [done|]. rewrite matchPath_cons.
  cbn -[matchPath String.eqb]. rewrite matchPath_nil.
  destruct (String.eqb a "tasks"); cbn -[matchPath String.eqb].
  - rewrite matchPath_leaf. destruct rest as [|]; [done|]. by destruct (String.eqb a "/").
  - rewrite matchPath_nil. destruct (String.eqb a "/"); by destruct rest.
Qed.

Lemma tree_other registry method :
  method <> "GET" -> method <> "POST" -> tree registry method = [].
Proof.
  intros Hg Hp. unfold tree, routes.
  apply String.eqb_neq in Hg, Hp. rewrite String.eqb_sym in Hg, Hp.
  destruct registry; cbn [app]; rewrite !filter_cons; cbn [rt_method]; rewrite ?Hg, ?Hp; by cbn.
Qed.

(** ** Clean paths *)

Definition proper (piece : string) : Prop :=
  piece <> "" /\ piece <> "." /\ piece <> ".." /\ avoids "/" piece = true.

Lemma clean_pieces_proper pieces :
  Forall (fun piece => avoids "/" piece = true) pieces -> Forall proper (clean_pieces pieces).
Proof.
  intros Hp. unfold clean_pieces. apply Forall_rev.
  enough (H : forall stack, Forall proper stack -> Forall proper (foldl (fun stack piece =>
    if String.eqb piece "" || String.eqb piece "." then stack
    else if String.eqb piece ".." then tail stack else piece :: stack) stack pieces))
    by (apply H; constructor).
  induction Hp as [|piece pieces Hpiece _ IH]; intros stack Hs; [done|]. cbn. apply IH.
  destruct (String.eqb_spec piece ""), (String.eqb_spec piece "."), (String.eqb_spec piece "..");
    cbn; try done; [by destruct Hs | by constructor].
Qed.

Lemma clean_pieces_id pieces :
  Forall proper pieces -> clean_pieces pieces = pieces /\ clean_pieces (pieces ++ [""]) = pieces.
Proof.
  intros Hp. unfold clean_pieces. rewrite foldl_app. cbn.
  enough (H : forall stack, foldl (fun stack piece =>
    if String.eqb piece "" || String.eqb piece "." then stack
    else if String.eqb piece ".." then tail stack else piece :: stack) stack pieces
    = rev pieces ++ stack) by (rewrite H, app_nil_r, rev_involutive; done).
  induction Hp as [|piece pieces (H1 & H2 & H3 & _) _ IH]; intros stack; [done|]. cbn.
  apply String.eqb_neq in H1, H2, H3. rewrite H1, H2, H3. cbn.
  by rewrite IH, <- app_assoc.
Qed.

Lemma ends_with_slash_path pieces :
  pieces <> [] -> Forall proper pieces ->
  ends_with_slash (path_of pieces) = false /\ path_of pieces <> "/" /\
  split_on "/" (drop_slash (path_of pieces)) = pieces.
Proof.
  intros Hne Hp.
  assert (Hs : split_on "/" (String.concat "/" pieces) = pieces).
  { apply split_on_join; [done|]. eapply Forall_impl; [exact Hp|]. by intros ? (_ & _ & _ & ?). }
  unfold ends_with_slash, path_of.
  change ("/" +:+ ?s) with (String "/" s). cbn [split_on drop_slash String.eqb negb andb].
  rewrite Ascii.eqb_refl, Hs. split_and!; [|intros [= H]|done].
  - apply String.eqb_neq. destruct (exists_last Hne) as (l & x & ->).
    change (List.last ("" :: l ++ [x]) "") with (List.last (("" :: l) ++ [x]) "").
    rewrite last_last. apply Forall_app in Hp as [_ Hx]. by apply Forall_singleton in Hx as (? & _).
  - rewrite H in Hs. cbn in Hs. subst pieces. by apply Forall_singleton in Hp as (? & _).
Qed.

Lemma cleanPath_cases p :
  cleanPath p = "/" \/ exists pieces, pieces <> [] /\ Forall proper pieces /\
    (cleanPath p = path_of pieces \/ cleanPath p = path_of pieces +:+ "/").
Proof.
  unfold cleanPath. destruct (String.eqb p ""); [by left|].
  set (q := if starts_with_slash p then p else _).
  pose proof (clean_pieces_proper _ (split_on_avoids "/" (drop_slash q))) as Hp.
  destruct (clean_pieces _) as [|piece pieces] eqn:E.
  - left. cbn. by rewrite andb_false_r.
  - right. exists (piece :: pieces). split_and!; [done | exact Hp|].
    destruct (_ && _); auto.
Qed.

Lemma cleanPath_path pieces :
  pieces <> [] -> Forall proper pieces ->
  cleanPath (path_of pieces) = path_of pieces /\
  cleanPath (path_of pieces +:+ "/") = path_of pieces +:+ "/".
Proof.
  intros Hne Hp. destruct (ends_with_slash_path pieces Hne Hp) as (He & Hn & Hs).
  destruct (clean_pieces_id pieces Hp) as [Hc Hc'].
  assert (Hq : forall q, q = path_of pieces \/ q = path_of pieces +:+ "/" ->
            String.eqb q "" = false /\ starts_with_slash q = true) by (by intros q [-> | ->]).
  split.
  - unfold cleanPath. destruct (Hq (path_of pieces)) as [-> ->]; [by left|].
    by rewrite Hs, Hc, He.
  - unfold cleanPath. destruct (Hq (path_of pieces +:+ "/")) as [-> ->]; [by right|].
    change (drop_slash (path_of pieces +:+ "/"))
      with (drop_slash (path_of pieces) +:+ String "/" "").
    rewrite split_on_snoc, Hs, Hc'. apply String.eqb_neq in Hn. rewrite Hn.
    unfold ends_with_slash. rewrite split_on_snoc, last_last. by destruct (Hq (path_of pieces +:+ "/")) as [-> _]; [right|].
Qed.

Lemma cleanPath_idemp p : cleanPath (cleanPath p) = cleanPath p.
Proof.
  destruct (cleanPath_cases p) as [-> | (pieces & Hne & Hp & [-> | ->])];
    [by vm_compute | by apply cleanPath_path..].
Qed.

Lemma cleanPath_starts p : exists rest, cleanPath p = String "/" rest.
Proof.
  destruct (cleanPath_cases p) as [-> | (pieces & _ & _ & [-> | ->])]; by eexists.
Qed.

(** ** The router's table *)

Lemma segments_nonempty rest : segments (String "/" rest) <> [].
Proof.
  unfold segments. cbn [String.eqb drop_slash].
  destruct (split_on "/" rest) as [|a [|b l]] eqn:E; [by destruct (split_on_nonempty "/" rest)| |done].
  cbn. by destruct (String.eqb a "").
Qed.

Lemma segments_snoc rest : is_post_tasks (segments (String "/" rest +:+ "/")) = false.
Proof.
  unfold segments. rewrite append_cons. cbn [String.eqb drop_slash].
  change "/" with (String "/" ""). rewrite split_on_snoc.
  destruct (split_on "/" rest) as [|a [|b l]] eqn:E; [by destruct (split_on_nonempty "/" rest)| |].
  - done.
  - cbn. by destruct l.
Qed.

(** The table the patterns amount to, for a path that is clean. *)
Definition table_dispatch (registry : bool) (method path : string) : dispatch :=
  let segs := segments path in
  if String.eqb method "GET" || String.eqb method "HEAD" then
    let (e, values) := get_endpoint registry segs in ServeBy e values
  else if String.eqb method "POST" && is_post_tasks segs then ServeBy PostTasks []
  else MethodNotAllowed (["GET"; "HEAD"] ++ (if is_post_tasks segs then ["POST"] else [])).

Lemma matchingMethods_eq registry rest :
  matchingMethods registry (String "/" rest) =
    ["GET"; "HEAD"] ++ (if is_post_tasks (segments (String "/" rest)) then ["POST"] else []).
Proof.
  unfold matchingMethods. rewrite (matchPath_get registry (segments _)) by apply segments_nonempty.
  rewrite !matchPath_post, segments_snoc. destruct (is_post_tasks _); [done|].
  by rewrite andb_false_r.
Qed.

Lemma findHandler_clean registry method p :
  method <> "CONNECT" -> cleanPath p = p ->
  findHandler registry method p = table_dispatch registry method p.
Proof.
  intros Hm Hp. unfold findHandler, table_dispatch. apply String.eqb_neq in Hm. rewrite Hm, Hp.
  rewrite String.eqb_refl. cbn [negb]. destruct (cleanPath_starts p) as [rest Hr].
  rewrite Hp in Hr. subst p. rewrite matchingMethods_eq. unfold match_route.
  pose proof (matchPath_get registry _ (segments_nonempty rest)) as Hget.
  pose proof (matchPath_post registry (segments (String "/" rest))) as Hpost.
  destruct (String.eqb_spec method "GET") as [->|Hg].
  { rewrite Hget. cbn. by destruct (get_endpoint _ _). }
  destruct (String.eqb_spec method "HEAD") as [->|Hh].
  { rewrite tree_other, matchPath_nil, Hget by done. cbn. by destruct (get_endpoint _ _). }
  destruct (String.eqb_spec method "POST") as [->|Ho].
  { rewrite Hpost. by destruct (is_post_tasks _). }
  by rewrite tree_other, matchPath_nil by done.
Qed.

(** C16: the routes. For every request but [CONNECT], whatever its path: if
    the path is not clean, the client is redirected to the clean one, which
    is not redirected again; otherwise the router's walk over the registered
    patterns (literal, wildcard, prefix) agrees with the table one would
    write by hand: [/healthz], [/metrics], [/dashboard], [/tasks/{id}],
    [/dashboard/tasks/{id}] for GET and HEAD, every other GET being the
    dashboard; [POST /tasks]; and 405 with the methods allowed for anything
    else. No request gets the router's own 404. *)
Theorem findHandler_spec registry method p :
  method <> "CONNECT" ->
  (cleanPath p <> p ->
     findHandler registry method p = Redirect (cleanPath p) /\
     findHandler registry method (cleanPath p) = table_dispatch registry method (cleanPath p)) /\
  (cleanPath p = p -> findHandler registry method p = table_dispatch registry method p) /\
  findHandler registry method p <> NotFound.
Proof.
  intros Hm. pose proof (findHandler_clean registry method (cleanPath p) Hm (cleanPath_idemp p)).
  assert (Hdirty : cleanPath p <> p -> findHandler registry method p = Redirect (cleanPath p)).
  { intros Hp. unfold findHandler. apply String.eqb_neq in Hm, Hp. by rewrite Hm, Hp. }
  assert (Hclean : cleanPath p = p ->
    findHandler registry method p = table_dispatch registry method p)
    by (intros; by apply findHandler_clean).
  split; [intros Hp; split; [by apply Hdirty | done]|]. split; [exact Hclean|].
  destruct (String.eqb_spec (cleanPath p) p) as [Hp|Hp].
  - rewrite Hclean by done. unfold table_dispatch.
    destruct (_ || _); [by destruct (get_endpoint _ _)|]. by destruct (_ && _).
  - by rewrite Hdirty.
Qed.

(** ** The links of the dashboard *)

Lemma unescape_plain_text s : avoids "%" s = true -> unescape false s = Some s.
Proof.
  induction s as [|c s IH]; [done|]. cbn [avoids]. intros [Hc%negb_true_iff Hs]%andb_true_iff.
  by rewrite unescape_plain, IH by done.
Qed.

Lemma hex_avoids d bs :
  forallb (fun n => negb (Ascii.eqb (hex_digit n) d)) (seq 0 16) = true ->
  avoids d (hex_EncodeToString bs) = true.
Proof.
  intros Hd. rewrite forallb_forall in Hd.
  assert (H : forall n, (n < 16)%nat -> negb (Ascii.eqb (hex_digit n) d) = true)
    by (intros n Hn; apply Hd, in_seq; lia).
  induction bs as [|b bs IH]; [done|]. cbn [hex_EncodeToString avoids].
  rewrite IH, !H; [done | by apply Nat.mod_upper_bound|].
  apply Nat.Div0.div_lt_upper_bound. pose proof (Byte.to_N_bounded b). lia.
Qed.

(** C21: the dashboard's links lead to their tasks. The path that the page
    links to for a task of this program (an id made by [newID], whatever the
    random bytes) is routed, as it is, to the detail page of that very id. *)
Theorem dashboard_link_roundtrip registry bytes :
  let id := "task_" +:+ hex_EncodeToString bytes in
  findHandler registry "GET" (dashboardTaskDetailPath id) = ServeBy DashboardTask [id].
Proof.
  cbv zeta. set (id := "task_" +:+ hex_EncodeToString bytes).
  assert (Ha : avoids "/" id = true /\ avoids "%" id = true)
    by (unfold id; rewrite !avoids_app, !hex_avoids by (by vm_compute); done).
  destruct Ha as [Hs Hpc].
  assert (Hprop : Forall proper ["dashboard"; "tasks"; id])
    by (repeat constructor; try done; exact Hs).
  change (dashboardTaskDetailPath id) with (path_of ["dashboard"; "tasks"; id]).
  destruct (cleanPath_path ["dashboard"; "tasks"; id]) as [Hc _]; [done..|].
  rewrite findHandler_clean by done. unfold table_dispatch, segments.
  destruct (ends_with_slash_path ["dashboard"; "tasks"; id]) as (_ & _ & ->); [done..|].
  change (segments_of ["dashboard"; "tasks"; id]) with ["dashboard"; "tasks"; pathUnescape id].
  unfold pathUnescape. by rewrite unescape_plain_text.
Qed.

(** ** What a scrape shows *)

Section scrape.
Context {PG : Postgres} {X : Type} {EV : Env X} {EL : EnvLaws X} {PL : PostgresLaws}.
Implicit Type w : World X.

(** The tasks a worker could take now, as [MetricsSnapshot] counts them. *)
Definition backlog (now : Time) (t : table) : Z :=
  Z.of_nat (size (filter (fun kr => in_backlog (pg_time now) kr.2 = true) t)).
Definition running (t : table) : Z :=
  Z.of_nat (size (filter (fun kr => row_status kr.2 = StatusRunning) t)).

(** How the snapshot statement of a scrape is answered, if it is not. *)
Definition scrape_fault w : option fault :=
  let (x, now) := env_time (w_ext w) in
  se_fault (env_sql _ (SelectMetricsSnapshot now) x).2.

Lemma WritePrometheus_run w w' out :
  run interp (WritePrometheus (Some MetricsSnapshot) (fun text acc => (acc +:+ text, None)) "") w =
    (w', out) ->
  let now := (env_time (w_ext w)).2 in
  w_table w' = w_table w /\
  match scrape_fault w with
  | Some _ => (exists e, out = ("", Some e)) /\ w_metrics w' = w_metrics w
  | None =>
      w_metrics w' = setGauge "gotaskqueue_worker_running_tasks"
                       (float64_of_Z (running (w_table w)))
                       (setGauge "gotaskqueue_queue_backlog"
                          (float64_of_Z (backlog now (w_table w))) (w_metrics w)) /\
      out = (concat_text (exposition (w_metrics w')), None)
  end.
Proof.
  unfold WritePrometheus, refresh, scrape_fault. cbv zeta. intros Hrun.
  apply run_bind_inv in Hrun as (w2 & r & Hr & Hrun). rewrite run_bind, run_call in Hr.
  cbn [interp] in Hr. unfold ask in Hr. destruct (env_time (w_ext w)) as [x now].
  cbn [fst snd] in *. rewrite run_bind_res in Hr.
  pose proof (MetricsSnapshot_is_Ok now (set_ext w x)) as Hok.
  destruct (run interp (MetricsSnapshot now) (set_ext w x)) as [w3 s] eqn:Es.
  apply MetricsSnapshot_counts in Es as (Ht3 & Hm3 & Hs). cbn in Ht3, Hm3, Hs, Hok.
  destruct (se_fault _) as [f|]; destruct s as [s|e]; try discriminate Hok.
  - injection Hr as <- <-. injection Hrun as <- <-. by eauto.
  - cbn in Hr. injection Hr as <- <-. cbn in Hrun. injection Hrun as <- <-.
    cbn [w_table w_metrics]. split; [done|].
    destruct Hs as [Hq Hg]. unfold backlog, running. rewrite Hq, Hg, Hm3.
    split; [done|]. by rewrite write_all_accepting.
Qed.

Lemma pool_registry_wf starts (c c' : config Call (World X)) :
  registry_wf (w_metrics (cf_state c)) -> rtc (pool_step interp starts) c c' ->
  registry_wf (w_metrics (cf_state c')).
Proof.
  intros Hc Hs. induction Hs as [c | c1 c2 c3 [v ps tr i A cl k _ | v ps tr p _] _ IH]; [done| |];
    apply IH; [by apply interp_registry_wf | exact Hc].
Qed.

(** C17: what a scrape shows. Start with a new registry and let any goroutines
    run, in any interleaving; then [GET /metrics] changes no task. If its
    snapshot statement is not answered, it answers 500 and leaves the metrics
    alone. Otherwise it answers a text which, read by a scraper, is exactly
    the ten metrics the registry was made with, each once and under its type,
    with the counters and summaries as they are, the backlog gauge equal to
    the number of rows a worker could take at the time of the scrape, and the
    running gauge equal to the number of [running] rows. *)
Theorem handleMetrics_answers starts (c0 c : config Call (World X)) w' resp :
  w_metrics (cf_state c0) = NewRegistry ->
  rtc (pool_step interp starts) c0 c ->
  let w := cf_state c in
  let now := (env_time (w_ext w)).2 in
  run interp (handleMetrics (Some MetricsSnapshot)) w = (w', resp) ->
  w_table w' = w_table w /\
  match scrape_fault w with
  | Some _ =>
      resp = http_Error StatusInternalServerError "collect metrics failed" /\
      w_metrics w' = w_metrics w
  | None => exists text,
      resp = mkResponse StatusOK (RawBody text) /\
      parse_exposition text = Some (families (w_metrics w')) /\
      reg_counters (w_metrics w') = reg_counters (w_metrics w) /\
      reg_summaries (w_metrics w') = reg_summaries (w_metrics w) /\
      gauge (w_metrics w') "gotaskqueue_queue_backlog" =
        float64_of_Z (backlog now (w_table w)) /\
      gauge (w_metrics w') "gotaskqueue_worker_running_tasks" =
        float64_of_Z (running (w_table w))
  end.
Proof.
  intros Hnew Hpool w now Hrun.
  assert (Hwf : registry_wf (w_metrics w))
    by (apply (pool_registry_wf starts c0); [by rewrite Hnew | exact Hpool]).
  unfold handleMetrics in Hrun.
  apply run_bind_inv in Hrun as (w1 & out & Hw & Hrun). injection Hrun as <- <-.
  apply WritePrometheus_run in Hw as [Ht Hw]. fold now in Hw. split; [exact Ht|].
  destruct (scrape_fault w); [by destruct Hw as [(e & ->) Hm]|]. destruct Hw as [Hm ->].
  assert (Hwf' : registry_wf (w_metrics w1)).
  { rewrite Hm. change (registry_wf (apply_metric (SetRunningTasks (float64_of_Z (running (w_table w))))
      (apply_metric (SetQueueBacklog (float64_of_Z (backlog now (w_table w)))) (w_metrics w)))).
    by do 2 apply apply_metric_wf. }
  eexists. split; [done|]. split; [by apply parse_concat|].
  rewrite Hm. unfold gauge, setGauge. cbn [reg_gauges reg_counters reg_summaries].
  by rewrite lookup_insert_eq, lookup_insert_ne, lookup_insert_eq.
Qed.
End scrape.

(** ** What requests issue *)

Section server_calls.
Context {J : JSON} {GT : GoText} {NH : NetHTTP}.
Context (ok : forall A, Call A -> Prop) (Hreads : reads_ok ok).
Context (Hinsert : forall a, ins_status a = StatusPending \/ ins_status a = StatusScheduled ->
           ok _ (Sql (InsertTask a))).

Lemma handleMetrics_ok : calls_ok ok (handleMetrics (Some MetricsSnapshot)).
Proof.
  unfold handleMetrics, WritePrometheus. apply calls_ok_bind; [|done]. apply calls_ok_bind.
  - split; [apply (Hreads _ TimeNow)|]. intros now.
    split; [apply (Hreads _ (Sql (SelectMetricsSnapshot now)))|]. intros [[|row rows]|e]; try done.
    split; [apply (Hreads _ (Metric _))|]. intros [].
    split; [apply (Hreads _ (Metric _)) | done].
  - intros [u|e]; [|done]. split; [apply (Hreads _ ReadMetrics) | done].
Qed.

Lemma serve_ok streamName scheduledKey metrics req :
  calls_ok ok (serve (service_HttpStore (redis_service streamName scheduledKey metrics))
                 (Some (Some MetricsSnapshot)) req).
Proof.
  unfold serve. destruct (findHandler _ _ _) as [[] values| | |]; try done.
  - by apply handleDashboard_ok.
  - by apply get_task_ok.
  - by apply handleCreateTask_ok.
  - by apply get_task_ok.
  - apply handleMetrics_ok.
Qed.
End server_calls.
