(* ===== verification/Config.v ===== *)
(** * Configuration

    src/internal/config/config.go: the settings read from the environment
    variables of the process. *)

From S2P Require Import Prelude GoStd.
Local Open Scope Z_scope.

Record HTTPConfig := mkHTTPConfig { Addr : string }.

Record RedisConfig := mkRedisConfig {
  redis_Addr : string;
  StreamName : string;
  ScheduledSetKey : string;
  DeadStreamName : string;
  ConsumerGroup : string;
  ConsumerName : string;
}.

Record PostgresConfig := mkPostgresConfig {
  Host : string;
  Port : string;
  Database : string;
  User : string;
  Password : string;
  SSLMode : string;
}.

Record PrometheusConfig := mkPrometheusConfig { URL : string }.

Record SchedulerConfig := mkSchedulerConfig { IntervalSeconds : Z; sched_BatchSize : Z }.

Record WorkerConfig := mkWorkerConfig { Concurrency : Z; work_BatchSize : Z }.

Record Config := mkConfiguration {
  cfg_HTTP : HTTPConfig;
  cfg_Redis : RedisConfig;
  cfg_Postgres : PostgresConfig;
  cfg_Prometheus : PrometheusConfig;
  cfg_Scheduler : SchedulerConfig;
  cfg_Worker : WorkerConfig;
}.

(** The environment of the process: [os.Getenv] gives the empty string for a
    variable that is not set. *)
Definition Environ := string -> string.

Definition env (getenv : Environ) (key fallback : string) : string :=
  let value := getenv key in
  if String.eqb value "" then fallback else value.

Definition digit (c : Ascii.ascii) : Z := Z.of_nat (Ascii.nat_of_ascii c) - 48.
Definition is_digit (c : Ascii.ascii) : bool := (0 <=? digit c) && (digit c <=? 9).

(** The loop of [envInt] over the characters: [None] is the return from
    inside it. A byte of a multi-byte character is no digit, and neither is
    the character. *)
Fixpoint parse_digits (value : string) (parsed : Z) : option Z :=
  match value with
  | EmptyString => Some parsed
  | String char rest =>
      if negb (is_digit char) then None
      else parse_digits rest (wrap64 (wrap64 (parsed * 10) + digit char))
  end.

Definition envInt (getenv : Environ) (key : string) (fallback : Z) : Z :=
  let value := getenv key in
  if String.eqb value "" then fallback
  else match parse_digits value 0 with
  | None => fallback
  | Some parsed => if parsed <=? 0 then fallback else parsed
  end.

Definition Load (getenv : Environ) : Config :=
  {| cfg_HTTP := {| Addr := env getenv "HTTP_ADDR" ":8080" |};
     cfg_Redis :=
       {| redis_Addr := env getenv "REDIS_ADDR" "localhost:6380";
          StreamName := env getenv "REDIS_STREAM_NAME" "tasks:stream";
          ScheduledSetKey := env getenv "REDIS_SCHEDULED_SET_KEY" "tasks:scheduled";
          DeadStreamName := env getenv "REDIS_DEAD_STREAM_NAME" "tasks:dead";
          ConsumerGroup := env getenv "REDIS_CONSUMER_GROUP" "gotaskqueue-workers";
          ConsumerName := env getenv "REDIS_CONSUMER_NAME" "gotaskqueue-worker-1" |};
     cfg_Postgres :=
       {| Host := env getenv "POSTGRES_HOST" "localhost";
          Port := env getenv "POSTGRES_PORT" "5432";
          Database := env getenv "POSTGRES_DB" "gotaskqueue";
          User := env getenv "POSTGRES_USER" "gotaskqueue";
          Password := env getenv "POSTGRES_PASSWORD" "gotaskqueue";
          SSLMode := env getenv "POSTGRES_SSLMODE" "disable" |};
     cfg_Prometheus := {| URL := env getenv "PROMETHEUS_URL" "http://localhost:9090" |};
     cfg_Scheduler :=
       {| IntervalSeconds := envInt getenv "SCHEDULER_INTERVAL_SECONDS" 2;
          sched_BatchSize := envInt getenv "SCHEDULER_BATCH_SIZE" 100 |};
     cfg_Worker :=
       {| Concurrency := envInt getenv "WORKER_CONCURRENCY" 4;
          work_BatchSize := envInt getenv "WORKER_BATCH_SIZE" 10 |} |}.

(** ** Reading decimals *)

(** The number a string of digits denotes. *)
Fixpoint decimal (value : string) (acc : Z) : Z :=
  match value with
  | EmptyString => acc
  | String char rest => decimal rest (acc * 10 + digit char)
  end.

Fixpoint all_digits (value : string) : bool :=
  match value with
  | EmptyString => true
  | String char rest => is_digit char && all_digits rest
  end.

Lemma wrap64_congr a b : (a - b) mod 2^64 = 0 -> wrap64 a = wrap64 b.
Proof.
  intros H. unfold wrap64. f_equal. apply Z.mod_divide in H as [k Hk]; [|lia].
  replace (a + 2 ^ 63) with (b + 2 ^ 63 + k * 2 ^ 64) by lia. by rewrite Z_mod_plus_full.
Qed.

Lemma wrap64_mod a : (wrap64 a - a) mod 2^64 = 0.
Proof.
  unfold wrap64. pose proof (Z.div_mod (a + 2^63) (2^64)) as H.
  replace ((a + 2 ^ 63) mod 2 ^ 64 - 2 ^ 63 - a) with ((- ((a + 2^63) / 2^64)) * 2^64) by lia.
  apply Z.mod_mul. lia.
Qed.

(** The loop is decimal reading modulo 2^64. *)
Lemma parse_digits_spec value parsed :
  parse_digits value (wrap64 parsed) =
    if all_digits value then Some (wrap64 (decimal value parsed)) else None.
Proof.
  revert parsed. induction value as [|c rest IH]; intros parsed; simpl; [done|].
  destruct (is_digit c); simpl; [|done]. rewrite <- IH. f_equal. apply wrap64_congr.
  pose proof (wrap64_mod (wrap64 parsed * 10)) as H1. pose proof (wrap64_mod parsed) as H2.
  apply Z.mod_divide in H1 as [k1 H1]; [|lia]. apply Z.mod_divide in H2 as [k2 H2]; [|lia].
  replace (wrap64 (wrap64 parsed * 10) + digit c - (parsed * 10 + digit c))
    with ((k1 + k2 * 10) * 2^64) by lia.
  apply Z.mod_mul. lia.
Qed.

(** ** Properties *)

(** C37: [envInt] on every value. A variable that is unset, has a character
    that is no digit, or denotes a number whose 64-bit value is not positive
    gives the fallback; any other gives the number it denotes, modulo 2^64: the
    number itself up to 2^63-1, and some other positive number for, e.g.,
    2^64+1, which is read as 1. The result is positive whenever the fallback
    is. *)
Theorem envInt_spec getenv key fallback :
  let n := decimal (getenv key) 0 in
  envInt getenv key fallback =
    (if negb (String.eqb (getenv key) "") && all_digits (getenv key) && (0 <? wrap64 n)
     then wrap64 n else fallback) /\
  (0 < fallback -> 0 < envInt getenv key fallback) /\
  (n <= MaxInt64 -> envInt getenv key fallback = n \/ envInt getenv key fallback = fallback) /\
  (getenv key = "18446744073709551617" -> envInt getenv key fallback = 1).
Proof.
  cbv zeta.
  assert (H : envInt getenv key fallback =
    (if negb (String.eqb (getenv key) "") && all_digits (getenv key) &&
        (0 <? wrap64 (decimal (getenv key) 0))
     then wrap64 (decimal (getenv key) 0) else fallback)).
  { unfold envInt. destruct (String.eqb (getenv key) ""); [done|]. simpl.
    change 0 with (wrap64 0) at 1. rewrite parse_digits_spec.
    destruct (all_digits (getenv key)); [|done]. simpl.
    rewrite Z.leb_antisym. by destruct (0 <? _). }
  split; [exact H|]. rewrite H.
  assert (Hneg : forall s acc, 0 <= acc -> all_digits s = true -> 0 <= decimal s acc).
  { clear. induction s as [|c s IH]; intros acc Ha; simpl; [done|].
    intros [Hc Hs]%andb_true_iff. unfold is_digit in Hc. zbool. apply IH; [lia | done]. }
  split; [|split].
  - intros Hf. destruct (_ && _) eqn:E; [|done]. zbool. lia.
  - intros Hn. destruct (_ && _) eqn:E; [left|by right]. zbool.
    apply wrap64_id. unfold int64_range, MinInt64, MaxInt64 in *.
    assert (0 <= decimal (getenv key) 0) by (by apply Hneg). lia.
  - intros ->. reflexivity.
Qed.

Lemma envInt_spec_witness :
  envInt (fun _ => "18446744073709551617") "WORKER_CONCURRENCY" 4 = 1 /\
  0 < envInt (fun _ => "many") "WORKER_CONCURRENCY" 4.
Proof.
  split.
  - apply (envInt_spec (fun _ => "18446744073709551617") "WORKER_CONCURRENCY" 4). reflexivity.
  - apply (envInt_spec (fun _ => "many") "WORKER_CONCURRENCY" 4). lia.
Defined.
