(* ===== verification/Dependencies.v ===== *)
(** * Connections

    src/internal/dependencies/dependencies.go: opening and closing the Redis
    client and the Postgres pool, and the connection string, with the part of
    net/url it is made by ([URL.String], [UserPassword], [Values.Encode]). *)

From S2P Require Import Prelude GoStd Text Url Errors Effects Config.
From Stdlib Require Import Ascii.
Local Open Scope Z_scope.

Definition postgresDSN (cfg : PostgresConfig) : string :=
  let query := "sslmode=" +:+ escape encodeQueryComponent (SSLMode cfg) in
  url_String "postgres" (User cfg) (Password cfg) (Host cfg +:+ ":" +:+ Port cfg)
    (Database cfg) query.

(** ** Connect and Close *)

(** The calls to the two client libraries. [redis.NewClient] cannot fail; it
    opens a client that must be closed, as a pool returned by [pgxpool.New]
    must. *)
Inductive DepCall : Type -> Type :=
| RedisNewClient (addr : string) : DepCall unit
| RedisPing : DepCall (option error)
| RedisClose : DepCall (option error)
| PgxpoolNew (dsn : string) : DepCall (result unit)
| PostgresPing : DepCall (option error)
| PostgresClose : DepCall unit.

(** The fields are pointers: whether they are non-nil. *)
Record Dependencies := mkDependencies { dep_Redis : bool; dep_Postgres : bool }.

Definition Connect (cfg : Config) : prog DepCall (result Dependencies) :=
  _ ← call (RedisNewClient (redis_Addr (cfg_Redis cfg)));
  err ← call RedisPing;
  match err with
  | Some e =>
      _ ← call RedisClose;
      Ret (Err (Errorf ("connect redis at " +:+ redis_Addr (cfg_Redis cfg) +:+ ": ") e ""))
  | None =>
      pool ← call (PgxpoolNew (postgresDSN (cfg_Postgres cfg)));
      match pool with
      | Err e =>
          _ ← call RedisClose;
          Ret (Err (Errorf "create postgres pool: " e ""))
      | Ok _ =>
          err ← call PostgresPing;
          match err with
          | Some e =>
              _ ← call PostgresClose;
              _ ← call RedisClose;
              let p := cfg_Postgres cfg in
              Ret (Err (Errorf ("connect postgres at " +:+ Host p +:+ ":" +:+ Port p +:+ "/" +:+
                                  Database p +:+ ": ") e ""))
          | None => Ret (Ok (mkDependencies true true))
          end
      end
  end.

(** [None] is the nil pointer. *)
Definition Close (d : option Dependencies) : prog DepCall unit :=
  match d with
  | None => Ret tt
  | Some d =>
      _ ← (if dep_Redis d then _ ← call RedisClose; Ret tt else Ret tt);
      if dep_Postgres d then call PostgresClose else Ret tt
  end.

(** ** Reading a connection string

    What a reader of URLs does, to state what [postgresDSN] must achieve:
    the parts are found by the first delimiter, then decoded. *)
Record dsn := mkDSN {
  dsn_user : string;
  dsn_password : string;
  dsn_host : string;
  dsn_database : string;
  dsn_sslmode : string;
}.

Definition parse_dsn (s : string) : option dsn :=
  '(scheme, s) ← cut ":" s;
  '(slashes, s) ← cut "@" s;
  userinfo ← match slashes with String "/" (String "/" ui) => Some ui | _ => None end;
  '(user, password) ← cut ":" userinfo;
  '(hostpath, query) ← cut "?" s;
  let (host, path) := default (hostpath, "") (cut "/" hostpath) in
  '(key, sslmode) ← cut "=" query;
  user ← unescape false user;
  password ← unescape false password;
  host ← unescape false host;
  path ← unescape false path;
  sslmode ← unescape true sslmode;
  Some (mkDSN user password host path sslmode).

(** ** Round trip *)

(** A leading slash of the database's name is the path's own. *)
Definition database_of (path : string) : string :=
  match path with String "/" p => p | _ => path end.

Lemma escapedPath_cases path :
  (path = "" /\ escapedPath path = "") \/
  (exists p, path = String "/" p /\ escapedPath path = String "/" (escape encodePath p)) \/
  (path <> "" /\ database_of path = path /\ starts_with_slash (escapedPath path) = false /\
   escapedPath path <> "").
Proof.
  destruct path as [|c path]; [by left|]. right. unfold escapedPath.
  destruct (String.eqb_spec (String c path) "*") as [[= -> ->]|Hn]; [by right|].
  destruct (Ascii.eqb_spec c "/") as [->|Hc]; [left; by exists path|]. right.
  assert (Hb : Ascii.eqb c "/" || match escape_char encodePath c with
               | String d _ => negb (Ascii.eqb d "/") | "" => false end = true).
  { clear Hc Hn. revert c. apply bytes_checked. by vm_compute. }
  apply Ascii.eqb_neq in Hc. rewrite Hc in Hb. cbn [escape orb] in *.
  destruct (escape_char encodePath c) as [|d e]; [done|]. rewrite append_cons. cbn.
  apply negb_true_iff in Hb. split_and!; try done. unfold database_of.
  revert Hc. clear. by destruct c as [[] [] [] [] [] [] [] []].
Qed.

(** The part of the string after the host, up to the query. *)
Definition path_part (host path : string) : string :=
  (if negb (String.eqb (escapedPath path) "") && negb (starts_with_slash (escapedPath path)) &&
      negb (String.eqb host "") then "/" else "") +:+ escapedPath path.

Lemma path_part_cut h host path :
  host <> "" -> avoids "/" h = true ->
  exists p, default (h +:+ path_part host path, "") (cut "/" (h +:+ path_part host path)) = (h, p) /\
    unescape false p = Some (database_of path).
Proof.
  intros Hh Ha. unfold path_part. apply String.eqb_neq in Hh. rewrite Hh.
  destruct (escapedPath_cases path) as [[-> ->] | [(p & -> & ->) | (Hne & Hdb & Hs & He)]].
  - exists "". cbn [String.eqb negb andb]. rewrite append_empty.
    by rewrite append_nil, cut_none.
  - exists (escape encodePath p). cbn [starts_with_slash Ascii.eqb]. rewrite andb_false_r.
    cbn [andb]. rewrite append_empty, cut_app by done.
    split; [done | apply (unescape_escape encodePath)].
  - exists (escapedPath path). apply String.eqb_neq in He. rewrite He, Hs. cbn [negb andb].
    rewrite append_cons, append_empty, cut_app by done.
    by rewrite unescape_escapedPath, Hdb.
Qed.

(** C18: the connection string says what was configured. Whatever bytes the
    configured user, password, host, port, database and SSL mode are made of,
    a reader that splits the string at the URL's delimiters and decodes the
    parts gets them back (the database's name without a leading slash): no
    character of a password can end the user information or change the host. *)
Theorem postgresDSN_roundtrip (cfg : PostgresConfig) :
  parse_dsn (postgresDSN cfg) =
    Some (mkDSN (User cfg) (Password cfg) (Host cfg +:+ ":" +:+ Port cfg)
            (database_of (Database cfg)) (SSLMode cfg)).
Proof.
  unfold parse_dsn, postgresDSN, url_String. set (host := Host cfg +:+ ":" +:+ Port cfg).
  assert (Hh : host <> "") by (unfold host; by destruct (Host cfg)).
  set (u := escape encodeUserPassword (User cfg)).
  set (pw := escape encodeUserPassword (Password cfg)).
  set (h := escape encodeHost host). set (q := escape encodeQueryComponent (SSLMode cfg)).
  assert (Hu : forall d, one_of ":@?/" d = true -> avoids d u = true /\ avoids d pw = true)
    by (intros d Hd; split; by apply safe_avoids).
  destruct (Hu "@"%char eq_refl) as [Hu1 Hp1]. destruct (Hu ":"%char eq_refl) as [Hu2 Hp2].
  assert (Hq : String.eqb ("sslmode=" +:+ q) "" = false) by done. rewrite Hq.
  replace ("postgres" +:+ "://" +:+ (u +:+ ":" +:+ pw) +:+ "@" +:+ h +:+ _)
    with ("postgres" +:+ String ":" ((String "/" (String "/" (u +:+ String ":" pw))) +:+
            String "@" ((h +:+ path_part host (Database cfg)) +:+ String "?"
              ("sslmode" +:+ String "=" q)))) by (unfold path_part; rewrite !append_cons, !append_assoc; reflexivity).
  rewrite cut_app by done. cbn [mbind option_bind].
  rewrite cut_app by (cbn; rewrite avoids_app, Hu1; cbn; exact Hp1). cbn [mbind option_bind].
  rewrite (cut_app ":" u pw) by exact Hu2. cbn [mbind option_bind].
  rewrite (cut_app "?").
  2: { unfold h, path_part. rewrite avoids_app, (safe_avoids encodeHost) by done.
       rewrite avoids_app, path_avoids. by destruct (negb _ && negb _ && negb _). }
  cbn [mbind option_bind].
  destruct (path_part_cut h host (Database cfg)) as (p & -> & Hp); [done | by apply safe_avoids|].
  rewrite cut_app by done. cbn [mbind option_bind].
  unfold u, pw, h, q. rewrite !(unescape_escape encodeUserPassword).
  rewrite (unescape_escape encodeHost). cbn [mbind option_bind].
  rewrite Hp. cbn [mbind option_bind].
  by rewrite (unescape_escape encodeQueryComponent).
Qed.
