(* ===== verification/App.v ===== *)
(** * Wiring

    src/internal/app/app.go: the components the application builds from its
    configuration. *)

From S2P Require Import Prelude GoStd Errors Task Effects Table Metrics Calls Store Queue.
From S2P Require Import Service Handlers Worker Scheduler Config.
Local Open Scope Z_scope.

Section app.
Context {GT : GoText} {WL : WebhookLib}.

Definition taskService (cfg : Config) : Service :=
  service_WithMetrics true
    (NewService Store.Create Store.Get (PublishTask (StreamName (cfg_Redis cfg)))
       (ScheduleTask (ScheduledSetKey (cfg_Redis cfg)))).

Definition streamConsumer (cfg : Config) : RedisStreamConsumer :=
  {| c_streamName := StreamName (cfg_Redis cfg);
     c_groupName := ConsumerGroup (cfg_Redis cfg);
     c_consumer := ConsumerName (cfg_Redis cfg);
     c_block := 5 * Second |}.

(** The two registrations; an error of either ends the application. *)
Definition handlerRegistry : result HandlerRegistry :=
  let (r, err) := Register "demo.echo" (Some DemoEchoHandler) NewHandlerRegistry in
  match err with
  | Some e => Err e
  | None =>
      let (r, err) := Register "webhook.deliver"
                        (Some (webhook_Handle {| wh_Timeout := 0 |})) r in
      match err with Some e => Err e | None => Ok r end
  end.

Definition deadPublisher (cfg : Config) : DeadTaskMessage -> prog Call (result unit) :=
  PublishDead (DeadStreamName (cfg_Redis cfg)).

Definition workerRunner (cfg : Config) (handlers : HandlerRegistry) : Worker :=
  WithDeadPublisher (Some (deadPublisher cfg))
    (WithMetrics true
      (WithBatchSize (work_BatchSize (cfg_Worker cfg))
        (WithConcurrency (Concurrency (cfg_Worker cfg))
          (WithHandlerRegistry (Some handlers)
            (New (redis_consumer (streamConsumer cfg)) store_TaskStore
                 (ConsumerName (cfg_Redis cfg))))))).

Definition schedulerRunner (cfg : Config) : Scheduler :=
  scheduler_WithDeadPublisher
    (scheduler_New store_SchedulerStore (PublishTask (StreamName (cfg_Redis cfg)))
       (redis_scheduled_queue (ScheduledSetKey (cfg_Redis cfg)))
       (duration_mul (IntervalSeconds (cfg_Scheduler cfg)) Second)
       (sched_BatchSize (cfg_Scheduler cfg)))
    (Some (deadPublisher cfg)).

Definition app_handlers : HandlerRegistry :=
  <["webhook.deliver" := webhook_Handle {| wh_Timeout := 0 |}]>
    (<["demo.echo" := DemoEchoHandler]> ∅).

Lemma handlerRegistry_ok : handlerRegistry = Ok app_handlers.
Proof.
  unfold handlerRegistry, Register.
  replace (TrimSpace "demo.echo") with "demo.echo" by (vm_compute; reflexivity).
  replace (TrimSpace "webhook.deliver") with "webhook.deliver" by (vm_compute; reflexivity).
  unfold NewHandlerRegistry. rewrite lookup_empty. cbn [String.eqb].
  by rewrite lookup_insert_ne, lookup_empty.
Qed.

Lemma envInt_pos getenv key fallback : 0 < fallback -> 0 < envInt getenv key fallback.
Proof.
  intros Hf. unfold envInt. destruct (String.eqb _ _); [done|].
  destruct (parse_digits _ _); [|done]. zcases.
Qed.

Lemma workerRunner_eq cfg handlers :
  0 < Concurrency (cfg_Worker cfg) -> 0 < work_BatchSize (cfg_Worker cfg) ->
  workerRunner cfg handlers =
    redis_worker (streamConsumer cfg) (Some (DeadStreamName (cfg_Redis cfg))) handlers
      (ConsumerName (cfg_Redis cfg)) true (Concurrency (cfg_Worker cfg))
      (work_BatchSize (cfg_Worker cfg)).
Proof.
  intros H1 H2. unfold workerRunner, WithConcurrency, WithBatchSize.
  by rewrite (proj2 (Z.ltb_lt _ _) H1), (proj2 (Z.ltb_lt _ _) H2).
Qed.

Lemma interval_pos n : 0 < n < 2^33 -> 0 < duration_mul n Second.
Proof.
  intros Hn. unfold duration_mul. change Second with 1000000000.
  rewrite wrap64_id; unfold int64_range, MinInt64, MaxInt64; lia.
Qed.

(** ** Properties *)

(** What the application wires together. From any environment, the
    process registers its two handlers without error, and its service,
    worker and scheduler are those the theorems are about: all on the same
    store, stream, delay queue and dead stream, the worker with a positive
    number of slots and a positive batch size, the scheduler with a
    positive batch size and, for an interval below 2^33 seconds, a positive
    interval (which [time.NewTicker] requires). *)
Theorem app_wiring getenv :
  let cfg := Load getenv in
  let redis := cfg_Redis cfg in
  exists handlers,
    handlerRegistry = Ok handlers /\
    is_Some (handlers !! "demo.echo") /\ is_Some (handlers !! "webhook.deliver") /\
    taskService cfg = redis_service (StreamName redis) (ScheduledSetKey redis) true /\
    (exists concurrency batchSize, 0 < concurrency /\ 0 < batchSize /\
       workerRunner cfg handlers =
         redis_worker (streamConsumer cfg) (Some (DeadStreamName redis)) handlers
           (ConsumerName redis) true concurrency batchSize) /\
    (exists interval batchSize, 0 < batchSize /\
       schedulerRunner cfg =
         redis_scheduler (StreamName redis) (ScheduledSetKey redis)
           (Some (DeadStreamName redis)) interval batchSize /\
       (IntervalSeconds (cfg_Scheduler cfg) < 2^33 -> 0 < interval)).
Proof.
  cbv zeta. exists app_handlers. split; [apply handlerRegistry_ok|].
  split; [eexists; unfold app_handlers; by rewrite lookup_insert_ne, lookup_insert_eq|].
  split; [eexists; apply lookup_insert_eq|]. split; [done|].
  set (cfg := Load getenv).
  assert (H1 : 0 < Concurrency (cfg_Worker cfg)) by (by apply envInt_pos).
  assert (H2 : 0 < work_BatchSize (cfg_Worker cfg)) by (by apply envInt_pos).
  split; [do 2 eexists; split; [exact H1|]; split; [exact H2 | by apply workerRunner_eq]|].
  exists (duration_mul (IntervalSeconds (cfg_Scheduler cfg)) Second),
    (sched_BatchSize (cfg_Scheduler cfg)).
  split; [by apply envInt_pos|]. split; [done|]. intros Hi. apply interval_pos.
  split; [by apply envInt_pos | done].
Qed.
End app.
