(* ===== verification/Pool.v ===== *)
(** * Goroutines under watch

    Reasoning about pools of goroutines (Effects.v): each goroutine is
    watched by its own monitor, and an invariant relates the shared state,
    the monitors' states and the trace ([watched_invariant]); and an
    executable scheduler of pools, for concrete interleavings. *)

From S2P Require Import Prelude GoStd Errors Effects.

Section watched.
Context {E : Type -> Type} {W : Type} (h : forall X, E X -> W -> W * X).
Context (starts : prog E unit -> Prop).
Context {S : Type} (step : S -> event E -> option S) (s0 : S).
Context (ok : forall X, E X -> Prop).

(** Goroutine [p] keeps to its monitor, which is in state [s], and makes
    calls that are [ok] only. *)
Definition watched (s : S) (p : prog E unit) : Prop :=
  calls_ok ok p /\ wlp step p (fun _ _ => True) s.

(** An invariant of the shared state, the monitors and the trace is kept
    when every call that the monitors accept keeps it. *)
Lemma watched_invariant (I : W -> list S -> list (nat * event E) -> Prop) c c' ss :
  (forall p, starts p -> watched s0 p) ->
  (forall w ss tr, I w ss tr -> I w (ss ++ [s0]) tr) ->
  (forall w ss tr i s s' X (cl : E X),
     I w ss tr -> ss !! i = Some s -> ok X cl ->
     step s (Ev cl (h X cl w).2) = Some s' ->
     I (h X cl w).1 (<[i := s']> ss) ((i, Ev cl (h X cl w).2) :: tr)) ->
  rtc (pool_step h starts) c c' ->
  Forall2 watched ss (cf_threads c) -> I (cf_state c) ss (cf_trace c) ->
  exists ss', Forall2 watched ss' (cf_threads c') /\ I (cf_state c') ss' (cf_trace c').
Proof.
  intros Hst Hadd Hcall Hrtc. revert ss.
  induction Hrtc as [c | c1 c2 c3 Hstep _ IH]; intros ss Hss HI; [by exists ss|].
  destruct Hstep as [w ps tr i X cl k Hi | w ps tr p Hp]; simpl in *.
  - destruct (Forall2_lookup_r _ _ _ _ _ Hss Hi) as (s & Hs & [Hok Hw]).
    destruct Hok as [Hc Hk]. specialize (Hw (h X cl w).2).
    destruct (step s (Ev cl (h X cl w).2)) as [s'|] eqn:Es; [|done].
    apply (IH (<[i := s']> ss)).
    + apply Forall2_insert; [exact Hss|]. split; [apply Hk | exact Hw].
    + by eapply Hcall.
  - apply (IH (ss ++ [s0])); [|by apply Hadd].
    apply Forall2_app; [exact Hss|]. constructor; [by apply Hst | constructor].
Qed.
End watched.

(** ** Running an interleaving

    [pool_exec sched c]: one call of each goroutine listed in [sched], in turn. *)
Section exec.
Context {E : Type -> Type} {W : Type} (h : forall X, E X -> W -> W * X).
Context (starts : prog E unit -> Prop).

Definition pool_exec1 (i : nat) (c : config E W) : config E W :=
  match cf_threads c !! i with
  | Some (Vis cl k) =>
      let (w, x) := h _ cl (cf_state c) in
      mkConfig w (<[i := k x]> (cf_threads c)) ((i, Ev cl x) :: cf_trace c)
  | _ => c
  end.

Definition pool_exec (sched : list nat) (c : config E W) : config E W :=
  foldl (fun c i => pool_exec1 i c) c sched.

Lemma pool_exec1_steps i c : rtc (pool_step h starts) c (pool_exec1 i c).
Proof.
  unfold pool_exec1. destruct (cf_threads c !! i) as [[a|X cl k]|] eqn:Ei; try reflexivity.
  apply rtc_once. destruct c as [w ps tr]; simpl in *.
  pose proof (pool_call h starts w ps tr i X cl k Ei) as H.
  destruct (h X cl w) as [w' x]. exact H.
Qed.

Lemma pool_exec_steps sched c : rtc (pool_step h starts) c (pool_exec sched c).
Proof.
  revert c. induction sched as [|i sched IH]; intros c; [reflexivity|]. simpl.
  etrans; [apply pool_exec1_steps | apply IH].
Qed.

(** Programs that can be started are started one after the other. *)
Lemma pool_starts ps w qs tr :
  Forall starts qs ->
  rtc (pool_step h starts) (mkConfig w ps tr) (mkConfig w (ps ++ qs) tr).
Proof.
  intros Hq. revert ps. induction Hq as [|q qs Hq _ IH]; intros ps.
  - by rewrite app_nil_r.
  - eapply rtc_l; [by apply pool_start|]. replace (ps ++ q :: qs) with ((ps ++ [q]) ++ qs);
      [apply IH | by rewrite <- app_assoc].
Qed.

(** One goroutine, [n] calls ahead: what is left of it, the state, and its
    events, the latest first. *)
Fixpoint advance {A} (n : nat) (p : prog E A) (w : W) : prog E A * W * list (event E) :=
  match n, p with
  | S n, Vis c k =>
      let (w1, x) := h _ c w in
      let '(p', w', es) := advance n (k x) w1 in (p', w', es ++ [Ev c x])
  | _, _ => (p, w, [])
  end.

Lemma advance_steps n p w ps tr i :
  ps !! i = Some p ->
  let '(p', w', es) := advance n p w in
  rtc (pool_step h starts) (mkConfig w ps tr)
    (mkConfig w' (<[i := p']> ps) ((pair i <$> es) ++ tr)).
Proof.
  revert p w ps tr. induction n as [|n IH]; intros p w ps tr Hi.
  { simpl. by rewrite list_insert_id. }
  destruct p as [a|X c k]; simpl; [by rewrite list_insert_id|].
  pose proof (pool_call h starts w ps tr i X c k Hi) as H1.
  destruct (h X c w) as [w1 x]. cbn [fst snd] in H1.
  specialize (IH (k x) w1 (<[i := k x]> ps) ((i, Ev c x) :: tr)).
  destruct (advance n (k x) w1) as [[p' w'] es].
  eapply rtc_l; [exact H1|]. rewrite fmap_app, <- app_assoc. simpl.
  rewrite list_insert_insert_eq in IH. apply IH. apply list_lookup_insert_eq.
  by eapply lookup_lt_Some.
Qed.
End exec.
