(* ===== verification/System.v ===== *)
(** * The whole system

    Any number of API servers, workers and schedulers, each with its own
    goroutines, on one Postgres and one Redis: the interleavings of the
    programs of the other files, call by call. Handlers of messages, ticks and
    HTTP requests may start at any time and as often as they like; a
    goroutine that is never scheduled again stands for a crashed one. *)

From S2P Require Import Prelude GoStd Errors Task Effects Table Metrics Calls Store Lifecycle.
From S2P Require Import Queue Service Handlers Worker Scheduler Statements Http Server Pool.
Local Open Scope Z_scope.

(** The body of a goroutine: run [m]; its result is logged, or sent to the
    HTTP client. *)
Definition in_background {A} (m : prog Call A) : prog Call unit := _ ← m; Ret tt.

Section starts.
Context {GT : GoText} {J : JSON} {NH : NetHTTP}.

(** What a process of the application may start: the handling of a message
    the worker has read or claimed, a tick of the scheduler, the answer to an
    HTTP request, and a single call that is no statement. *)
Inductive system_starts : prog Call unit -> Prop :=
| starts_handle c deadStream handlers name metrics concurrency batchSize message :
    system_starts (in_background (handleMessage
      (redis_worker c deadStream handlers name metrics concurrency batchSize) message))
| starts_tick streamName scheduledKey deadStream interval batchSize :
    system_starts (in_background (Tick
      (redis_scheduler streamName scheduledKey deadStream interval batchSize)))
| starts_request streamName scheduledKey metrics req :
    system_starts (in_background (serve
      (service_HttpStore (redis_service streamName scheduledKey metrics))
      (Some (Some MetricsSnapshot)) req))
| starts_other A (c : Call A) : no_sql A c -> system_starts (in_background (call c)).
End starts.

(** ** The life of the tasks, whatever the interleaving *)

Section lifecycle.
Context {GT : GoText} {J : JSON} {NH : NetHTTP}.

Lemma reads_lifecycle : reads_ok lifecycle_call.
Proof. intros A c. destruct c; try exact I. by destruct q. Qed.

Lemma starts_lifecycle p : system_starts p -> calls_ok lifecycle_call p.
Proof.
  assert (Ht : forall id from to worker,
    from = StatusScheduled /\ to = StatusPending \/
    from = StatusRetrying /\ to = StatusPending \/
    from = StatusPending /\ to = StatusRunning /\ is_Some worker \/
    from = StatusRunning /\ to = StatusSuccess ->
    lifecycle_call _ (Sql (UpdateTransition id from to worker))) by done.
  pose proof reads_lifecycle as Hr.
  intros []; (apply calls_ok_bind; [|done]); try done.
  - by apply handleMessage_ok.
  - by apply Tick_ok.
  - by apply serve_ok.
  - split; [|done]. by destruct c.
Qed.

Context {PG : Postgres} {X : Type} {EV : Env X}.

(** C2: the life of every task, in every interleaving. Start from any
    well-formed table with no goroutine in flight, and let any number of
    workers, schedulers and API servers run, interleaved call by call in any
    way, with any answers of Redis, of the clock and of the handlers, lost
    connections and crashes included. Then no task disappears, its identity
    columns never change, its status only moves along the status machine of
    status.go, a task that is [success] or [dead] never changes again, and
    the bookkeeping columns always fit the status: a retry time exactly when
    [retrying], a finish time exactly when terminal, a start time and a
    worker once started, an error once failed. *)
Theorem system_lifecycle (w w' : World X) ps tr :
  table_wf (w_table w) -> table_inv (w_table w) ->
  rtc (pool_step interp system_starts) (mkConfig w [] []) (mkConfig w' ps tr) ->
  table_evolves (w_table w) (w_table w') /\ table_inv (w_table w') /\
  table_wf (w_table w').
Proof.
  intros Hwf Hinv Hsteps.
  apply (pool_invariant interp system_starts lifecycle_call
    (fun w1 => table_evolves (w_table w) (w_table w1) /\ table_inv (w_table w1) /\
               table_wf (w_table w1)) _ _ starts_lifecycle) in Hsteps; [done| |done|done].
  intros A c w1 Hc (He & Hi & Hw). split; [|split].
  - etrans; [exact He | by apply interp_evolves].
  - by apply interp_inv.
  - by apply interp_wf.
Qed.
End lifecycle.
