(* ===== verification/Retries.v ===== *)
(** * The retry budget of the whole system

    A worker or scheduler that has marked a task [failed] owns the decision of
    how the failure ends until it has issued the statement that finalizes it.
    [hold_step] watches one goroutine: it holds the row it marked, finalizes
    only a row it holds, and with the counters of that row. Over all
    goroutines, at most one holds a row at a time, and the row does not change
    in between ([held_ok]); so every way back from [failed] costs exactly one
    retry, which bounds the executions of a task in every interleaving
    ([executions_within_budget]), no write is ever refused by the schema
    ([updates_accepted]), and a failed row that nobody holds is lost
    ([failed_row_is_lost]). The claims that the budget counts are not needed
    to execute a task again: [recovered_double_execution]. *)

From S2P Require Import Prelude GoStd Errors Task Effects Table Metrics Calls Store Lifecycle.
From S2P Require Import Queue Service Handlers Worker Scheduler Statements Http Server Pool System.
Local Open Scope Z_scope.

(** ** One goroutine *)

(** How the code finalizes the failure of row [r]. *)
Definition completes (r : Row) (status : Status) (rc : Z) : bool :=
  (String.eqb status StatusRetrying && (rc =? wrap64 (row_retry_count r + 1)) &&
   (rc <=? row_max_retries r)) ||
  (String.eqb status StatusDead && ((rc =? row_retry_count r) || (rc =? row_max_retries r))).

Definition hold_step (s : option Row) (e : event Call) : option (option Row) :=
  match e with
  | Ev c x =>
      match c in Call A return A -> option (option Row) with
      | Sql q => fun x =>
          match q in Stmt B return result B -> option (option Row) with
          | UpdateFailed _ _ => fun x =>
              match s, x with
              | Some _, _ => None
              | None, Ok (r :: _) => Some (Some r)
              | None, _ => Some None
              end
          | UpdateComplete i status rc _ _ => fun _ =>
              match s with
              | Some r =>
                  if String.eqb i (row_id r) && completes r status rc then Some None else None
              | None => None
              end
          | _ => fun _ => Some s
          end x
      | _ => fun _ => Some s
      end x
  end.

(** Every call but the two [UPDATE]s of a failure is neutral. *)
Definition neutral (A : Type) (c : Call A) : Prop :=
  match c with
  | Sql q => match q with UpdateFailed _ _ | UpdateComplete _ _ _ _ _ => False | _ => True end
  | _ => True
  end.

Local Abbreviation step := (assume_step misidentified hold_step).

Lemma hold_neutral {A} (c : Call A) s x : neutral A c -> hold_step s (Ev c x) = Some s.
Proof. destruct c; try done. by destruct q. Qed.

Lemma wlp_quiet {A} (m : prog Call A) Q s :
  calls_ok neutral m -> (forall a, Q (Some s) a) -> (forall a, Q None a) ->
  wlp step m Q (Some s).
Proof.
  intros Hm HQ HN. induction m as [a | Y c k IH]; [apply HQ|]. destruct Hm as [Hc Hk].
  intros x. unfold assume_step at 1. destruct (misidentified (Ev c x)).
  - by apply wlp_sink.
  - rewrite (hold_neutral c s x Hc). by apply IH.
Qed.

(** A program that ends holding nothing, or in front of a dishonest
    database. *)
Definition releases {A} (m : prog Call A) : Prop :=
  wlp step m (fun s _ => s = Some None \/ s = None) (Some None).

Lemma releases_quiet {A} (m : prog Call A) : calls_ok neutral m -> releases m.
Proof. intros Hm. apply wlp_quiet; auto. Qed.

Lemma releases_bind {A B} (m : prog Call A) (f : A -> prog Call B) :
  releases m -> (forall a, releases (f a)) -> releases (m ≫= f).
Proof.
  intros Hm Hf. unfold releases in *. apply wlp_bind. eapply wlp_mono; [|exact Hm].
  intros s a [-> | ->]; [apply Hf|]. apply wlp_sink. auto.
Qed.

Lemma releases_bind_res {A B} (m : prog Call (result A)) (f : A -> prog Call (result B)) :
  releases m -> (forall a, releases (f a)) -> releases (bind_res m f).
Proof. intros Hm Hf. apply releases_bind; [done|]. intros [a|e]; [apply Hf | by left]. Qed.

Lemma releases_for_each {A} (f : A -> prog Call (result unit)) xs :
  (forall x, releases (f x)) ->
  releases (_ ← for_each (fun x => _ ← f x; Ret tt) xs; Ret (Ok tt : result unit)).
Proof.
  intros Hf. apply releases_bind; [|by left]. induction xs as [|x xs IH]; [by left|].
  apply releases_bind; [|done]. apply releases_bind; [done | by left].
Qed.

(** Marking a row failed and finalizing it, the shape shared by the worker
    and the scheduler. *)
Lemma releases_failure {A} id failure (g : error -> prog Call A) (now : prog Call Time)
    (d : Time -> Task -> FailureDecision) (k : result Task -> prog Call A) :
  (forall e, calls_ok neutral (g e)) -> (forall r, calls_ok neutral (k r)) ->
  calls_ok neutral now ->
  (forall t r, sound_decision (d t (task_of r false)) /\
     completes r (fd_Status (d t (task_of r false))) (fd_RetryCount (d t (task_of r false)))
       = true) ->
  releases (r ← MarkFailed id failure;
            match r with
            | Err e => g e
            | Ok ft => t ← now; r ← CompleteFailure (ID ft) (d t ft) failure; k r
            end).
Proof.
  intros Hg Hk Hnow Hd. unfold releases. apply wlp_bind.
  apply (wlp_row_method_to hold_step (UpdateFailed id failure) _ None None).
  - by intros [[|? ?]|?].
  - intros r rest _. exists (Some r). split; [done|]. apply wlp_bind.
    apply wlp_quiet; [done| |intros; apply wlp_sink; auto]. intros t.
    destruct (Hd t r) as [Hs Hc]. apply wlp_bind. rewrite CompleteFailure_stmt.
    2: { destruct Hs as [[-> _]|[-> _]]; auto. }
    assert (Hstep : forall x, hold_step (Some r) (Ev (Sql (UpdateComplete (ID (task_of r false))
      (fd_Status (d t (task_of r false))) (fd_RetryCount (d t (task_of r false)))
      (fd_NextRetryAt (d t (task_of r false))) failure)) x) = Some None).
    { intros x. simpl. by rewrite String.eqb_refl, Hc. }
    apply (wlp_row_method_to hold_step _ _ (Some r) None).
    + intros x Hx. split; [by destruct x as [[|? ?]|?] | apply Hstep].
    + intros r2 rest2 _. exists None. split; [apply Hstep|].
      apply wlp_quiet; [done | auto | auto].
    + intros e. apply wlp_quiet; [done | auto | auto].
    + intros x. apply wlp_sink. auto.
  - intros e. apply wlp_quiet; [done | auto | auto].
  - intros x. apply wlp_sink. auto.
Qed.

Lemma DecideFailure_completes now r :
  completes r (fd_Status (DecideFailure now (row_retry_count r) (row_max_retries r)))
    (fd_RetryCount (DecideFailure now (row_retry_count r) (row_max_retries r))) = true.
Proof.
  unfold DecideFailure, completes. destruct (Z.gtb_spec (wrap64 (row_retry_count r + 1))
    (row_max_retries r)) as [Hgt|Hle]; simpl; rewrite Z.eqb_refl, ?orb_true_r; [done|].
  apply Z.leb_le in Hle. by rewrite Hle.
Qed.

(** ** The programs of the system *)

Section programs.
Context {GT : GoText} {J : JSON} {NH : NetHTTP}.

Lemma neutral_reads : reads_ok neutral.
Proof. intros A c. destruct c; try exact I. by destruct q. Qed.

Lemma handleExecutionFailure_releases c deadStream handlers name metrics concurrency
    batchSize t traceID e :
  releases (handleExecutionFailure
    (redis_worker c deadStream handlers name metrics concurrency batchSize) t traceID e).
Proof.
  set (w := redis_worker _ _ _ _ _ _ _).
  apply (releases_failure (ID t) (error_Error e) (fun e => Ret (Err e)) (call TimeNow)
    (fun now ft => if IsNonRetryable e then mkDecision StatusDead (RetryCount ft) None
                   else DecideFailure now (RetryCount ft) (MaxRetries ft))
    (fun r => match r with Ok fin => _ | Err e => Ret (Err e) end)); [done| |done|].
  - intros [fin|e']; [|done]. apply calls_ok_bind.
    + destruct (String.eqb _ _); [|destruct (String.eqb _ _)]; try done;
        apply record_ok, neutral_reads.
    + intros _. apply publish_dead_ok, neutral_reads.
  - intros now r. destruct (IsNonRetryable e).
    + split; [by right|]. unfold completes. simpl. by rewrite Z.eqb_refl.
    + split; [apply DecideFailure_sound | apply DecideFailure_completes].
Qed.

Lemma handleMessage_releases c deadStream handlers name metrics concurrency batchSize
    message :
  releases (handleMessage
    (redis_worker c deadStream handlers name metrics concurrency batchSize) message).
Proof.
  set (w := redis_worker _ _ _ _ _ _ _). pose proof neutral_reads as Hr.
  assert (Hack : forall rid, calls_ok neutral (Ack_ (wk_consumer w) rid)).
  { intros rid. by apply redis_call_ok. }
  assert (Hrec : forall op start, releases (_ ← record_since (wk_metrics w) op start;
                                            Ack_ (wk_consumer w) (sm_RedisID message))).
  { intros op start. apply releases_quiet, calls_ok_bind; [by apply record_since_ok | done]. }
  unfold handleMessage. apply releases_bind_res; [by apply releases_quiet, Get_ok|].
  intros cur. destruct (IsTerminal _); [by apply releases_quiet|].
  apply releases_bind_res; [by apply releases_quiet, claim_task_ok|]. intros t.
  apply releases_bind; [by apply releases_quiet|]. intros started.
  apply releases_bind; [by apply releases_quiet, execute_ok|].
  intros [err|]; apply releases_bind_res; auto.
  - apply handleExecutionFailure_releases.
  - by apply releases_quiet, Transition_ok.
Qed.

Lemma Tick_releases streamName scheduledKey deadStream interval batchSize :
  releases (Tick (redis_scheduler streamName scheduledKey deadStream interval batchSize)).
Proof.
  set (s := redis_scheduler _ _ _ _ _). pose proof neutral_reads as Hr.
  destruct (Tick_phases_ok neutral Hr (fun _ _ _ _ _ => I)
              streamName scheduledKey deadStream interval batchSize) as [H1 H2].
  unfold Tick. apply releases_bind; [by apply releases_quiet|]. intros now.
  apply releases_bind_res; [|intros _; apply releases_bind_res;
    [apply releases_quiet, H1 | intros _; apply releases_quiet, H2]].
  unfold recoverExpiredRunning. apply releases_bind; [by apply releases_quiet|].
  intros [ts|e]; [|by left]. apply releases_for_each. intros t. unfold recoverRunningTask.
  set (failure := (_ +:+ _)).
  apply (releases_failure (ID t) failure
    (fun e => if errors_Is e ErrNotFound then Ret (Ok tt)
              else Ret (Err (Errorf "mark expired running task failed: " e "")))
    (Ret now) (fun now ft => DecideFailure now (RetryCount ft) (MaxRetries ft))
    (fun r => match r with
      | Err e => if errors_Is e ErrNotFound then Ret (Ok tt)
                 else Ret (Err (Errorf "complete expired running task failure: " e ""))
      | Ok fin => _ end)).
  - intros e. by destruct (errors_Is e _).
  - intros [fin|e]; [|by destruct (errors_Is e _)]. cbn [sc_deadPublisher s redis_scheduler].
    destruct deadStream as [ds|]; [|done]. destruct (String.eqb _ _); [|done].
    apply calls_ok_bind; [by apply PublishDead_ok | done].
  - done.
  - intros now' r. split; [apply DecideFailure_sound | apply DecideFailure_completes].
Qed.

Lemma starts_watched p :
  system_starts p -> watched step lifecycle_call (Some None) p.
Proof.
  intros Hp. split; [by apply starts_lifecycle|].
  eapply wlp_mono with (Q := fun s _ => s = Some None \/ s = None); [done|].
  change (releases p). pose proof neutral_reads as Hr.
  destruct Hp; apply releases_bind; try (by left).
  - apply handleMessage_releases.
  - apply Tick_releases.
  - by apply releases_quiet, serve_ok.
  - apply releases_quiet. split; [|done]. by destruct c.
Qed.
End programs.

(** ** All goroutines

    [holds ss j r]: goroutine [j] holds row [r]. *)
Definition holds (ss : list (option (option Row))) (j : nat) (r : Row) : Prop :=
  ss !! j = Some (Some (Some r)).

(** A held row is in the table, [failed], and held once. *)
Record held_ok (t : table) (ss : list (option (option Row))) : Prop := {
  ho_honest j : ss !! j <> Some None;
  ho_row j r : holds ss j r -> t !! row_id r = Some r /\ row_status r = StatusFailed;
  ho_once j j' r r' : holds ss j r -> holds ss j' r' -> row_id r = row_id r' -> j = j';
}.

Lemma held_ok_start t ss : held_ok t ss -> held_ok t (ss ++ [Some None]).
Proof.
  assert (Hsub : forall j s, (ss ++ [Some None]) !! j = Some s -> s <> Some None ->
                   ss !! j = Some s).
  { intros j s Hj Hs. apply lookup_app_Some in Hj as [Hj | [_ Hj]]; [done|].
    apply list_lookup_singleton_Some in Hj as [_ <-]. done. }
  intros [H1 H2 H3]. split.
  - intros j Hj. apply Hsub in Hj; [by eapply H1 | done].
  - intros j r Hj. apply H2 with j. by apply Hsub.
  - intros j j' r r' Hj Hj'. by apply H3; apply Hsub.
Qed.

(** Nothing happened to the held rows, and nothing new is held. *)
Lemma held_ok_keep t t' ss i s s' :
  held_ok t ss -> ss !! i = Some s -> s' = s \/ s' = Some None ->
  (forall j r, holds (<[i := s']> ss) j r -> holds ss j r -> t' !! row_id r = t !! row_id r) ->
  held_ok t' (<[i := s']> ss).
Proof.
  intros [H1 H2 H3] Hi Hs Ht.
  assert (Hsub : forall j r, holds (<[i := s']> ss) j r -> holds ss j r).
  { intros j r. unfold holds. rewrite list_lookup_insert. case_decide as Hd; [|done].
    destruct Hd as [-> _]. destruct Hs as [-> | ->]; congruence. }
  split.
  - intros j. rewrite list_lookup_insert. case_decide as Hd; [|done].
    destruct Hd as [-> _]. destruct Hs as [-> | ->]; [|done]. intros [= ->]. by eapply H1.
  - intros j r Hj. rewrite (Ht j r Hj (Hsub _ _ Hj)). by apply H2 with j, Hsub.
  - intros j j' r r' Hj Hj'. by apply H3; apply Hsub.
Qed.

(** A row that was not [failed] is replaced by a [failed] one and held. *)
Lemma held_ok_acquire t ss i s r r' :
  held_ok t ss -> ss !! i = Some s -> t !! row_id r' = Some r -> row_status r <> StatusFailed ->
  row_status r' = StatusFailed ->
  held_ok (<[row_id r' := r']> t) (<[i := Some (Some r')]> ss).
Proof.
  intros [H1 H2 H3] Hi Hr Hst Hst'.
  assert (Hne : forall j r0, holds ss j r0 -> row_id r0 <> row_id r').
  { intros j r0 Hj Heq. apply H2 in Hj as [Hr0 Hs0]. rewrite Heq in Hr0. congruence. }
  split.
  - intros j. rewrite list_lookup_insert. by case_decide as Hd.
  - intros j r0. unfold holds. rewrite list_lookup_insert. case_decide as Hd.
    + intros [= <-]. by rewrite lookup_insert_eq.
    + intros Hj. rewrite lookup_insert_ne; [by apply H2 with j|]. intros Heq.
      by eapply Hne.
  - intros j j' r0 r0'. unfold holds. rewrite !list_lookup_insert.
    repeat case_decide; intros; simplify_eq.
    + destruct_and?. congruence.
    + exfalso. by eapply Hne.
    + exfalso. by eapply Hne.
    + by eapply H3.
Qed.

(** ** Claims and their budget *)

(** The transition of task [id] from [pending] to [running] is won. *)
Definition won (id : string) : event Call -> bool :=
  answered (fun A q r =>
    match q with
    | UpdateTransition i from to _ =>
        String.eqb i id && String.eqb from StatusPending && String.eqb to StatusRunning
    | _ => false
    end).

(** How often it was won in a trace, by any goroutine. *)
Definition wins (id : string) (tr : list (nat * event Call)) : Z :=
  Z.of_nat (length (filter (fun ie => won id ie.2 = true) tr)).

(** A claimed task is between its claim and its next retry. *)
Definition claimed (status : Status) : bool :=
  negb (String.eqb status StatusScheduled || String.eqb status StatusPending ||
        String.eqb status StatusRetrying).

Definition spent (o : option Row) : Z :=
  match o with
  | None => 0
  | Some r => row_retry_count r + if claimed (row_status r) then 1 else 0
  end.

Definition wins_ok (t : table) (tr : list (nat * event Call)) : Prop :=
  forall id, wins id tr <= spent (t !! id).

Lemma wins_cons id i e tr :
  wins id ((i, e) :: tr) = wins id tr + if won id e then 1 else 0.
Proof.
  unfold wins. rewrite filter_cons. simpl. case_decide as Hd.
  - rewrite Hd. simpl. lia.
  - apply not_true_is_false in Hd. rewrite Hd. lia.
Qed.

(** One event and its effect on one row. *)
Lemma wins_ok_step t t' tr i e :
  wins_ok t tr ->
  (forall id, (if won id e then 1 else 0) <= spent (t' !! id) - spent (t !! id)) ->
  wins_ok t' ((i, e) :: tr).
Proof. intros Ht He id. rewrite wins_cons. specialize (Ht id). specialize (He id). lia. Qed.


Section pool.
Context {GT : GoText} {J : JSON} {NH : NetHTTP} {PG : Postgres} {X : Type} {EV : Env X}.

Record budgeted (t : table) (ss : list (option (option Row)))
    (tr : list (nat * event Call)) : Prop := {
  bd_wf : table_wf t;
  bd_held : held_ok t ss;
  bd_wins : wins_ok t tr;
}.

(** An event that changes no row and acquires nothing. *)
Lemma budgeted_same t ss tr i s s' e :
  budgeted t ss tr -> ss !! i = Some s -> s' = s \/ s' = Some None ->
  (forall id, won id e = false) ->
  budgeted t (<[i := s']> ss) ((i, e) :: tr).
Proof.
  intros [H1 H2 H3] Hi Hs Hw. split; [done| |].
  - by apply (held_ok_keep t t ss i s s').
  - apply wins_ok_step with t; [done|]. intros id. rewrite Hw. lia.
Qed.

(** An event that replaces row [id]. *)
Lemma budgeted_update t ss tr i s s' e id r r' :
  budgeted t ss tr -> ss !! i = Some s -> s' = s \/ s' = Some None ->
  t !! id = Some r -> table_wf (<[id := r']> t) ->
  (forall j rj, holds (<[i := s']> ss) j rj -> holds ss j rj -> row_id rj <> id) ->
  (forall id', id' <> id -> won id' e = false) ->
  (if won id e then 1 else 0) <= spent (Some r') - spent (Some r) ->
  budgeted (<[id := r']> t) (<[i := s']> ss) ((i, e) :: tr).
Proof.
  intros [H1 H2 H3] Hi Hs Hr Hwf Hh Hw Hsp. split; [done| |].
  - apply (held_ok_keep t _ ss i s s'); [done..|]. intros j rj Hj Hj'.
    rewrite lookup_insert_ne; [done|]. intros Heq. by eapply Hh.
  - apply wins_ok_step with t; [done|]. intros id'. rewrite lookup_insert. case_decide.
    + subst. by rewrite Hr.
    + rewrite Hw by done. lia.
Qed.

Lemma not_failed_not_held t ss i s' id r j rj :
  held_ok t ss -> t !! id = Some r -> row_status r <> StatusFailed ->
  holds (<[i := s']> ss) j rj -> holds ss j rj -> row_id rj <> id.
Proof. intros H Hr Hst _ Hj Heq. apply (ho_row _ _ H) in Hj as [Hrj Hf]. congruence. Qed.

Lemma no_row_not_won id i from to wk x :
  no_row x = true -> won id (Ev (Sql (UpdateTransition i from to wk)) x) = false.
Proof. by destruct x as [[|r l]|e]. Qed.

Lemma budgeted_insert (a : InsertArgs) (w w' : World X) x ss tr i s :
  (ins_status a = StatusPending \/ ins_status a = StatusScheduled) ->
  exec_sql (InsertTask a) w = (w', x) -> table_wf (w_table w') ->
  budgeted (w_table w) ss tr -> ss !! i = Some s ->
  budgeted (w_table w') (<[i := s]> ss) ((i, Ev (Sql (InsertTask a)) x) :: tr).
Proof.
  intros Ha Hx Hwf Hb Hi.
  assert (Hw : forall id, won id (Ev (Sql (InsertTask a)) x) = false) by by destruct x.
  assert (Hsame : w_table w' = w_table w ->
    budgeted (w_table w') (<[i := s]> ss) ((i, Ev (Sql (InsertTask a)) x) :: tr)).
  { intros ->. by eapply budgeted_same; [..|left|]. }
  destruct (exec_sql_cases _ _ _ _ Hx) as [_ [(e & _ & Ht) | (y & Ht & _)]]; [auto|].
  cbv zeta in Ht. simpl in Ht.
  destruct (exec_insert_cases a (se_now (env_sql _ (InsertTask a) y).2) (w_table w))
    as [(k & Hc) | [(k & r & _ & _ & Hc) | (payload & _ & _ & Hid & _ & Hc)]];
    rewrite Hc in Ht; simpl in Ht; [auto | auto |].
  destruct Hb as [H1 H2 H3]. split; [done| |].
  - apply (held_ok_keep (w_table w) _ ss i s s); [done | done | by left|].
    intros j r Hj Hj'. rewrite Ht, lookup_insert_ne; [done|]. intros Heq.
    apply (ho_row _ _ H2) in Hj' as [Hr _]. congruence.
  - apply wins_ok_step with (w_table w); [done|]. intros id. rewrite Hw, Ht, lookup_insert.
    case_decide; [|lia]. subst. rewrite Hid. simpl. destruct Ha as [-> | ->]; simpl; lia.
Qed.

Lemma budgeted_transition id from to wk (w w' : World X) x ss tr i s :
  lifecycle_stmt (UpdateTransition id from to wk) ->
  exec_sql (UpdateTransition id from to wk) w = (w', x) -> table_wf (w_table w') ->
  budgeted (w_table w) ss tr -> ss !! i = Some s ->
  budgeted (w_table w') (<[i := s]> ss)
    ((i, Ev (Sql (UpdateTransition id from to wk)) x) :: tr).
Proof.
  intros Hl Hx Hwf Hb Hi.
  destruct (exec_sql_update (UpdateTransition id from to wk) id
              (fun r => String.eqb (row_status r) from)
              (fun now => set_transition to wk now) w w' x) as [[Ht Hn] |
    (r & now & Hr & Hst%String.eqb_eq & _ & Ht & Hx')]; [by left | exact Hx| |].
  { rewrite Ht. eapply budgeted_same; [done|done|by left|].
    intros id'. by apply no_row_not_won. }
  rewrite Ht in *. eapply budgeted_update; [done|done|by left|exact Hr|done|..].
  - intros j rj. eapply not_failed_not_held; [apply Hb|exact Hr|]. rewrite Hst.
    destruct Hl as [[-> _]|[[-> _]|[[-> _]|[-> _]]]]; done.
  - intros id' Hne. destruct Hx' as [-> | Hx']; [|by apply no_row_not_won].
    simpl. by rewrite (proj2 (String.eqb_neq id id')) by congruence.
  - destruct Hx' as [-> | Hx']; [|rewrite no_row_not_won by done];
      simpl; rewrite Hst, ?String.eqb_refl;
      destruct Hl as [[-> ->]|[[-> ->]|[(-> & -> & _)|[-> ->]]]]; simpl; lia.
Qed.

Lemma budgeted_failed id failure (w w' : World X) x ss tr i s s' :
  exec_sql (UpdateFailed id failure) w = (w', x) -> table_wf (w_table w') ->
  budgeted (w_table w) ss tr -> ss !! i = Some (Some s) ->
  hold_step s (Ev (Sql (UpdateFailed id failure)) x) = Some s' ->
  budgeted (w_table w') (<[i := Some s']> ss)
    ((i, Ev (Sql (UpdateFailed id failure)) x) :: tr).
Proof.
  intros Hx Hwf Hb Hi Hs. simpl in Hs. destruct s as [|]; [done|].
  assert (Hw : forall id', won id' (Ev (Sql (UpdateFailed id failure)) x) = false).
  { intros id'. simpl. by destruct x as [[|? ?]|?]. }
  destruct (exec_sql_update (UpdateFailed id failure) id
              (fun r => String.eqb (row_status r) "running")
              (fun now => set_failed failure now) w w' x) as [[Ht Hn] |
    (r & now & Hr & Hst%String.eqb_eq & _ & Ht & Hx')]; [by left | exact Hx| |].
  { assert (s' = None) as -> by (by destruct x as [[|? ?]|?]; simplify_eq).
    rewrite Ht. eapply budgeted_same; [done|done|by right|done]. }
  assert (Hnf : row_status r <> StatusFailed) by (by rewrite Hst).
  assert (Hid : row_id r = id) by (by apply (wf_id _ (bd_wf _ _ _ Hb))).
  assert (Hsp : spent (Some (set_failed failure now r)) = spent (Some r))
    by (simpl; by rewrite Hst).
  rewrite Ht in *. destruct Hx' as [-> | Hx'].
  - injection Hs as <-. destruct Hb as [H1 H2 H3]. split; [done| |].
    + rewrite <- Hid. apply (held_ok_acquire (w_table w) ss i (Some None) r (set_failed failure now r));
        try done.
      simpl. by rewrite Hid.
    + apply wins_ok_step with (w_table w); [done|]. intros id'.
      rewrite Hw, lookup_insert. case_decide; [|lia]. subst id'. rewrite Hr, Hsp. lia.
  - assert (s' = None) as -> by (by destruct x as [[|? ?]|?]; simplify_eq).
    eapply budgeted_update; [done|done|by right|exact Hr|done|..].
    + intros j rj. eapply not_failed_not_held; [apply Hb|exact Hr|done].
    + intros id' _. apply Hw.
    + rewrite Hw, Hsp. lia.
Qed.

Lemma row_counts t id r :
  table_wf t -> t !! id = Some r -> 0 <= row_retry_count r <= row_max_retries r /\ row_max_retries r < 2^31.
Proof.
  intros Hwf Hr. pose proof (wf_check _ Hwf _ _ Hr) as Hc.
  pose proof (wf_typed _ Hwf _ _ Hr) as Ht.
  unfold row_check, tasks_retry_count_check in Hc. unfold row_typed, int4 in Ht.
  zbool. lia.
Qed.

(** Finalizing a held row costs one retry, or ends the task. *)
Lemma spent_complete t id r status rc next failure now :
  table_wf t -> t !! id = Some r -> row_status r = StatusFailed ->
  completes r status rc = true ->
  spent (Some r) <= spent (Some (set_complete status rc next failure now r)).
Proof.
  intros Hwf Hr Hst Hc. pose proof (row_counts _ _ _ Hwf Hr) as Hb. simpl. rewrite Hst.
  unfold completes in Hc. apply orb_true_iff in Hc as [Hc|Hc];
    [apply andb_true_iff in Hc as [Hc _]|];
    apply andb_true_iff in Hc as [->%String.eqb_eq Hc]; simpl.
  - zbool. rewrite Hc, wrap64_id by (unfold int64_range, MinInt64, MaxInt64; lia). lia.
  - apply orb_true_iff in Hc as [Hc|Hc]; zbool; lia.
Qed.

Lemma budgeted_complete id status rc next failure (w w' : World X) x ss tr i s s' :
  exec_sql (UpdateComplete id status rc next failure) w = (w', x) -> table_wf (w_table w') ->
  budgeted (w_table w) ss tr -> ss !! i = Some (Some s) ->
  hold_step s (Ev (Sql (UpdateComplete id status rc next failure)) x) = Some s' ->
  budgeted (w_table w') (<[i := Some s']> ss)
    ((i, Ev (Sql (UpdateComplete id status rc next failure)) x) :: tr).
Proof.
  intros Hx Hwf Hb Hi Hs. simpl in Hs. destruct s as [rh|]; [|done].
  destruct (String.eqb_spec id (row_id rh)) as [->|]; [|done]. simpl in Hs.
  destruct (completes rh status rc) eqn:Hc; [|done]. injection Hs as <-.
  assert (Hw : forall id', won id' (Ev (Sql (UpdateComplete (row_id rh) status rc next failure)) x)
                 = false) by (intros id'; simpl; by destruct x as [[|? ?]|?]).
  destruct (ho_row _ _ (bd_held _ _ _ Hb) _ _ Hi) as [Hrh Hst].
  destruct (exec_sql_update (UpdateComplete (row_id rh) status rc next failure) (row_id rh)
              (fun r => String.eqb (row_status r) "failed")
              (fun now => set_complete status rc next failure now) w w' x)
    as [[Ht Hn] | (r & now & Hr & _ & _ & Ht & Hx')].
  { intros now rows t. simpl. destruct (negb (int4 rc)); eauto. }
  { exact Hx. }
  { rewrite Ht. eapply budgeted_same; [done|done|by right|done]. }
  assert (r = rh) as -> by congruence. rewrite Ht in *.
  eapply budgeted_update; [done|done|by right|exact Hr|done|..].
  - intros j rj Hj Hj' Heq.
    assert (j = i) as -> by (by eapply (ho_once _ _ (bd_held _ _ _ Hb))).
    unfold holds in Hj. rewrite list_lookup_insert in Hj. case_decide as Hd; [done|].
    apply Hd. split; [done|]. by eapply lookup_lt_Some.
  - intros id' _. apply Hw.
  - rewrite Hw. pose proof (spent_complete _ _ _ status rc next failure now (bd_wf _ _ _ Hb)
      Hrh Hst Hc). lia.
Qed.

(** Every call keeps the invariant. *)
Lemma budgeted_step (w : World X) ss tr i s s' A (c : Call A) :
  budgeted (w_table w) ss tr -> ss !! i = Some s -> lifecycle_call A c ->
  step s (Ev c (interp A c w).2) = Some s' ->
  budgeted (w_table (interp A c w).1) (<[i := s']> ss) ((i, Ev c (interp A c w).2) :: tr).
Proof.
  intros Hb Hi Hl Hs. destruct s as [s|]; [|by destruct (ho_honest _ _ (bd_held _ _ _ Hb) i)].
  unfold assume_step in Hs. rewrite interp_identifies in Hs by apply Hb.
  destruct (hold_step s _) as [s1|] eqn:Eh; [|done]. injection Hs as <-.
  pose proof (interp_wf c w (bd_wf _ _ _ Hb)) as Hwf.
  assert (Hquiet : w_table (interp A c w).1 = w_table w -> s1 = s ->
    (forall id, won id (Ev c (interp A c w).2) = false) ->
    budgeted (w_table (interp A c w).1) (<[i := Some s1]> ss)
      ((i, Ev c (interp A c w).2) :: tr)).
  { intros -> -> Hw. eapply budgeted_same; [done|done|by left|done]. }
  destruct c; try (apply Hquiet; [by apply interp_no_sql | by injection Eh | done]).
  simpl interp in *. destruct (exec_sql q w) as [w' x] eqn:Ex. simpl fst in *. simpl snd in *.
  assert (Hread : (forall now rows t, (exec_stmt q now rows t).1 = t) -> w_table w' = w_table w).
  { intros Hq. destruct (exec_sql_cases _ _ _ _ Ex) as [_ [(e & _ & Ht) | (y & Ht & _)]];
      [done|]. cbv zeta in Ht. by rewrite Hq in Ht. }
  destruct q; try (apply Hquiet; [by apply Hread | by injection Eh | by intros; destruct x as [[|? ?]|?]]).
  - injection Eh as <-. by eapply budgeted_insert.
  - injection Eh as <-. by eapply budgeted_transition.
  - by eapply budgeted_failed.
  - by eapply budgeted_complete.
Qed.

Local Abbreviation pstep := (pool_step interp system_starts).

Lemma budgeted_pool (w : World X) c' :
  table_wf (w_table w) -> rtc pstep (mkConfig w [] []) c' ->
  exists ss, Forall2 (watched step lifecycle_call) ss (cf_threads c') /\
             budgeted (w_table (cf_state c')) ss (cf_trace c').
Proof.
  intros Hwf Hsteps.
  destruct (watched_invariant interp system_starts step (Some None) lifecycle_call
    (fun w ss tr => budgeted (w_table w) ss tr) (mkConfig w [] []) c' [])
    as (ss & Hw & Hb); [apply starts_watched | | | done | constructor | | by exists ss].
  - intros w1 ss tr [H1 H2 H3]. split; [done | by apply held_ok_start | done].
  - intros w1 ss tr i s s' A c Hb Hi Hok Hs. by eapply budgeted_step.
  - split; [done | by split | ]. intros id. unfold wins. simpl.
    destruct (w_table w !! id) as [r|] eqn:Hr; simpl; [|lia].
    pose proof (row_counts _ _ _ Hwf Hr). destruct (claimed _); lia.
Qed.

(** C1: a task is executed within its retry budget, in every interleaving.
    However many workers, schedulers and API servers run, whatever messages
    (duplicated, late, recovered) they handle and whichever statements,
    answers or goroutines are lost, the transition of a task from [pending]
    to [running], without which no handler runs on a message that was not
    recovered, is won at most once per retry the row has recorded and once
    more, hence at most [max_retries] + 1 times; and never for a task that
    does not exist. *)
Theorem executions_within_budget (w w' : World X) ps tr id :
  table_wf (w_table w) -> rtc pstep (mkConfig w [] []) (mkConfig w' ps tr) ->
  match w_table w' !! id with
  | None => wins id tr = 0
  | Some r => wins id tr <= row_retry_count r + 1 <= row_max_retries r + 1
  end.
Proof.
  intros Hwf Hsteps. destruct (budgeted_pool _ _ Hwf Hsteps) as (ss & _ & [Hwf' _ Hw]).
  simpl in *. specialize (Hw id).
  destruct (w_table w' !! id) as [r|] eqn:Hr; simpl in Hw; [|unfold wins in *; lia].
  pose proof (row_counts _ _ _ Hwf' Hr). destruct (claimed _); lia.
Qed.

(** *** No write is refused

    [updates_rows q]: [q] is one of the store's three [UPDATE]s. *)
Definition updates_rows {A} (q : Stmt A) : bool :=
  match q with
  | UpdateTransition _ _ _ _ | UpdateFailed _ _ | UpdateComplete _ _ _ _ _ => true
  | _ => false
  end.

Lemma exec_update_accepted id guard set t :
  (forall r, t !! id = Some r -> guard r = true -> row_check (set r) = true) ->
  is_Ok (exec_update id guard set t).2 = true.
Proof.
  intros H. unfold exec_update. destruct (t !! id) as [r|]; [|done].
  destruct (guard r) eqn:Eg; [|done]. by rewrite (H r eq_refl Eg).
Qed.

(** The check on a row whose status alone, or whose counter, was replaced. *)
Lemma row_check_replaced r r' :
  row_check r = true -> tasks_status_check r' = true ->
  row_timeout_seconds r' = row_timeout_seconds r ->
  row_max_retries r' = row_max_retries r ->
  0 <= row_retry_count r' <= row_max_retries r ->
  row_check r' = true.
Proof.
  unfold row_check. intros H Hs Ht Hm Hb. rewrite Hs.
  unfold tasks_timeout_seconds_check, tasks_max_retries_check, tasks_retry_count_check in *.
  rewrite Ht, Hm. zbool. simpl. rewrite !andb_true_iff, !Z.leb_le, Z.ltb_lt. lia.
Qed.

Lemma completes_counts r status rc :
  0 <= row_retry_count r <= row_max_retries r -> row_max_retries r < 2 ^ 31 ->
  completes r status rc = true ->
  (status = StatusRetrying \/ status = StatusDead) /\ 0 <= rc <= row_max_retries r.
Proof.
  intros Hb Hm Hc. unfold completes in Hc. apply orb_true_iff in Hc as [Hc|Hc].
  - apply andb_true_iff in Hc as [[->%String.eqb_eq Hc]%andb_true_iff Hle]. zbool.
    rewrite wrap64_id in Hc by (unfold int64_range, MinInt64, MaxInt64; lia). split; [auto | lia].
  - apply andb_true_iff in Hc as [->%String.eqb_eq Hc]. apply orb_true_iff in Hc as [Hc|Hc];
      zbool; (split; [auto | lia]).
Qed.

(** C24: no write of the system violates the schema. Start from any
    well-formed table with no goroutine in flight, and let any workers,
    schedulers and API servers run, interleaved and interrupted in any way.
    Then whenever a goroutine is about to issue an [UPDATE], the database as
    it is then would accept it, at any transaction time: whatever the rows
    have become since the goroutine read what it writes, the CHECK
    constraints on status and retry count and the range of INTEGER are
    satisfied, so no error of [Transition], [MarkFailed] or
    [CompleteFailure] is ever one of a violated constraint. *)
Theorem updates_accepted (w w' : World X) ps tr i A (q : Stmt A) k :
  table_wf (w_table w) -> rtc pstep (mkConfig w [] []) (mkConfig w' ps tr) ->
  ps !! i = Some (Vis (Sql q) k) -> updates_rows q = true ->
  forall now rows, is_Ok (exec_stmt q now rows (w_table w')).2 = true.
Proof.
  intros Hwf Hsteps Hi Hq now rows.
  destruct (budgeted_pool _ _ Hwf Hsteps) as (ss & Hss & [Hwf' Hheld _]). cbn in *.
  destruct (Forall2_lookup_r _ _ _ _ _ Hss Hi) as (s & Hs & [[Hl _] Hw]).
  assert (Hrow : forall id r, w_table w' !! id = Some r ->
    row_check r = true /\ 0 <= row_retry_count r <= row_max_retries r).
  { intros id r Hr. split; [by eapply wf_check | by eapply row_counts]. }
  destruct q; try discriminate Hq; cbn [exec_stmt].
  - apply exec_update_accepted. intros r Hr _. destruct (Hrow _ _ Hr) as [Hc Hb].
    apply (row_check_replaced r); try done. unfold tasks_status_check. simpl.
    destruct Hl as [[_ ->]|[[_ ->]|[(_ & -> & _)|[_ ->]]]]; reflexivity.
  - apply exec_update_accepted. intros r Hr _. destruct (Hrow _ _ Hr) as [Hc Hb].
    by apply (row_check_replaced r).
  - (* the goroutine holds the row it finalizes *)
    destruct s as [s|]; [|by destruct (ho_honest _ _ Hheld i)].
    specialize (Hw (Err (Sentinel ErrNoRows))). unfold assume_step in Hw. cbn in Hw.
    destruct s as [rh|]; [|done]. destruct (String.eqb_spec id (row_id rh)) as [->|]; [|done].
    cbn [andb] in Hw. destruct (completes rh status retry_count) eqn:Hc; [clear Hw|done].
    destruct (ho_row _ _ Hheld _ _ Hs) as [Hr _]. destruct (row_counts _ _ _ Hwf' Hr) as [Hb Hm].
    destruct (completes_counts _ _ _ Hb Hm Hc) as [Hst Hrc].
    replace (negb (int4 retry_count)) with false by (unfold int4; zcases; simpl; lia).
    apply exec_update_accepted. intros r Hr' _. assert (r = rh) as -> by congruence.
    apply (row_check_replaced rh); [by eapply wf_check | | done | done | exact Hrc].
    by destruct Hst as [-> | ->].
Qed.

(** *** A failed row without an owner *)

Definition orphaned (id : string) (r : Row) (t : table) (ss : list (option (option Row)))
  : Prop :=
  t !! id = Some r /\ row_status r = StatusFailed /\ forall j rj, holds ss j rj -> row_id rj <> id.

(** What no goroutine holds, no statement changes. *)
Lemma orphan_kept (w : World X) ss tr i s s' A (c : Call A) id r :
  budgeted (w_table w) ss tr -> ss !! i = Some s -> lifecycle_call A c ->
  step s (Ev c (interp A c w).2) = Some s' ->
  orphaned id r (w_table w) ss -> w_table (interp A c w).1 !! id = Some r.
Proof.
  intros Hb Hi Hl Hs (Hr & Hst & Hh).
  destruct s as [s|]; [|by destruct (ho_honest _ _ (bd_held _ _ _ Hb) i)].
  unfold assume_step in Hs. rewrite interp_identifies in Hs by apply Hb.
  destruct (hold_step s _) as [s1|] eqn:Eh; [|done]. clear Hs s'.
  destruct (interp_table c w) as [-> | (B & q & now & rows & HP & ->)]; [done|].
  specialize (HP (fun B c => lifecycle_call B c /\
    match c with
    | Sql (UpdateComplete i _ _ _ _) => i <> id
    | _ => True
    end)).
  assert (Hq : lifecycle_stmt q /\
               match q with UpdateComplete i _ _ _ _ => i <> id | _ => True end).
  { apply HP. split; [done|]. destruct c; try done. destruct q0; try done. simpl in Eh.
    destruct s as [rh|]; [|done].
    destruct (String.eqb_spec id0 (row_id rh)) as [->|]; [|done]. by apply (Hh i). }
  clear HP Eh. destruct Hq as [Hq Hne].
  assert (Hupd : forall id' guard set, (guard r = true -> id' <> id) ->
    (exec_update id' guard set (w_table w)).1 !! id = Some r).
  { intros id' guard set Hg. destruct (exec_update_cases id' guard set (w_table w))
      as [-> | [[e ->] | (r' & Hr' & Hg' & _ & ->)]]; [done | done|]. simpl.
    rewrite lookup_insert_ne; [done|]. intros ->. rewrite Hr in Hr'. injection Hr' as <-.
    by apply Hg. }
  destruct q; simpl; try done.
  - destruct (exec_insert_cases a now (w_table w)) as [(k & ->) | [(k & r' & _ & _ & ->) |
      (payload & _ & _ & Hid & _ & ->)]]; simpl; [done | done|].
    rewrite lookup_insert_ne; [done | congruence].
  - apply Hupd. rewrite Hst. intros Hg%String.eqb_eq.
    destruct Hq as [[-> _]|[[-> _]|[[-> _]|[-> _]]]]; done.
  - apply Hupd. by rewrite Hst.
  - destruct (negb (int4 retry_count)); [done|]. by apply Hupd.
Qed.

(** A goroutine comes to hold only rows it has just marked failed. *)
Lemma new_holder (w : World X) ss i s s' A (c : Call A) j rj :
  step s (Ev c (interp A c w).2) = Some s' -> ss !! i = Some s ->
  holds (<[i := s']> ss) j rj ->
  holds ss j rj \/ exists id r now failure,
    w_table w !! id = Some r /\ row_status r = StatusRunning /\
    rj = set_failed failure now r.
Proof.
  intros Hs Hi. unfold holds. rewrite list_lookup_insert. case_decide as Hd; [|by left].
  destruct Hd as [-> _]. intros [= ->]. rewrite Hi. unfold assume_step in Hs.
  destruct s as [s|]; [|done]. destruct (misidentified _); [done|].
  destruct (hold_step s _) as [s1|] eqn:Eh; [|done]. injection Hs as ->.
  destruct c; try (left; by injection Eh as ->). simpl interp in Eh.
  destruct (exec_sql q w) as [w' x] eqn:Ex. simpl in Eh.
  destruct q; try (left; by injection Eh as ->).
  - destruct s as [|]; [done|]. right.
    destruct (exec_sql_update (UpdateFailed id failure) id
      (fun r => String.eqb (row_status r) "running") (fun now => set_failed failure now) w w' x)
      as [[_ Hn] | (r & now & Hr & Hst%String.eqb_eq & _ & _ & Hx)]; [by left|done|..].
    + by destruct x as [[|? ?]|?].
    + destruct Hx as [-> | Hn]; [|by destruct x as [[|? ?]|?]].
      injection Eh as <-. by exists id, r, now, failure.
  - destruct s as [rh|]; [|done]. by destruct (_ && _).
Qed.

(** C38: a row left [failed] is lost. Once a task is [failed] and no goroutine
    is in flight (the one that marked it failed was killed, or could not
    store how the failure ends), nothing the application can start from then
    on, in any interleaving, ever changes the row again: the task is neither
    retried nor declared dead, although the status machine allows both. *)
Theorem failed_row_is_lost (w w' : World X) ps tr id r :
  table_wf (w_table w) -> w_table w !! id = Some r -> row_status r = StatusFailed ->
  rtc pstep (mkConfig w [] []) (mkConfig w' ps tr) ->
  w_table w' !! id = Some r.
Proof.
  intros Hwf Hr Hst Hsteps.
  destruct (watched_invariant interp system_starts step (Some None) lifecycle_call
    (fun w ss tr => (exists tr', budgeted (w_table w) ss tr') /\
                    orphaned id r (w_table w) ss)
    (mkConfig w [] []) (mkConfig w' ps tr) [] starts_watched)
    as (ss & _ & _ & H & _); [| |exact Hsteps|constructor| |exact H].
  - intros w1 ss tr1 ([tr' [H1 H2 H3]] & Ho1 & Ho2 & Ho3). split.
    + exists tr'. split; [done | by apply held_ok_start | done].
    + split; [done|]. split; [done|]. intros j rj Hj. apply (Ho3 j).
      unfold holds in *. apply lookup_app_Some in Hj as [Hj | [_ Hj]]; [done|].
      by apply list_lookup_singleton_Some in Hj as [_ ?].
  - intros w1 ss tr1 i s s' A c ([tr' Hb] & Ho) Hi Hok Hs.
    split; [eexists; by eapply budgeted_step|].
    pose proof (orphan_kept _ _ _ _ _ _ _ _ _ _ Hb Hi Hok Hs Ho) as Hkeep.
    destruct Ho as (Ho1 & Ho2 & Ho3). split; [done|]. split; [done|]. intros j rj Hj.
    destruct (new_holder _ _ _ _ _ _ _ _ _ Hs Hi Hj) as [Hj' | (id' & r' & now & f & Hr' & Hst' & ->)];
      [by apply (Ho3 j)|].
    intros Heq. simpl in Heq. assert (row_id r' = id') as Hid by (by apply (wf_id _ (bd_wf _ _ _ Hb))).
    assert (r' = r) as -> by congruence. by rewrite Ho2 in Hst'.
  - split; [|split; [done|]; split; [done|]; intros j rj Hj; by destruct j].
    exists []. split; [done | by split | ]. intros id'. unfold wins. simpl.
    destruct (w_table w !! id') as [r'|] eqn:Hr'; simpl; [|lia].
    pose proof (row_counts _ _ _ Hwf Hr'). destruct (claimed _); lia.
Qed.

(** *** A running task taken over

    Goroutine [i] executes task [id]: it has read the task of its message,
    [id], and has entered a handler. *)
Definition reads_task (id : string) (e : event Call) : bool :=
  match e with
  | Ev c _ => match c with Sql (SelectTask j) => String.eqb j id | _ => false end
  end.

Definition has_event (i : nat) (p : event Call -> bool) (tr : list (nat * event Call)) : bool :=
  existsb (fun ie => Nat.eqb ie.1 i && p ie.2) tr.

Definition executes (id : string) (i : nat) (tr : list (nat * event Call)) : bool :=
  has_event i (reads_task id) tr && has_event i is_exec tr.

Lemma has_event_app i p es tr : has_event i p tr = true -> has_event i p (es ++ tr) = true.
Proof. unfold has_event. rewrite existsb_app. intros ->. by rewrite orb_true_r. Qed.

Lemma executes_app id i es tr : executes id i tr = true -> executes id i (es ++ tr) = true.
Proof.
  unfold executes. intros [H1 H2]%andb_true_iff. by rewrite !has_event_app.
Qed.

Lemma has_event_own i p es tr : existsb p es = true -> has_event i p ((pair i <$> es) ++ tr) = true.
Proof.
  unfold has_event. rewrite existsb_app. intros H. apply orb_true_iff. left.
  apply existsb_exists in H as (e & He & Hp). apply existsb_exists. exists (i, e).
  split; [|by rewrite Nat.eqb_refl]. apply list_elem_of_In, list_elem_of_fmap. exists e.
  split; [done | by apply list_elem_of_In].
Qed.

Lemma wins_app_none id i es tr :
  existsb (won id) es = false -> wins id ((pair i <$> es) ++ tr) = wins id tr.
Proof.
  induction es as [|e es IH]; [done|]. cbn [existsb]. intros [H1 H2]%orb_false_iff.
  rewrite fmap_cons. cbn [app]. rewrite wins_cons, IH, H1 by done. lia.
Qed.

(** The handling of a recovered message up to its handler. *)
Lemma takeover_advance c deadStream handlers name metrics concurrency batchSize message id r
    (w : World X) :
  tm_ID (sm_Task message) = id -> sm_Recovered message = true ->
  w_table w !! id = Some r -> row_status r = StatusRunning ->
  se_fault (env_sql _ (SelectTask id) (w_ext w)).2 = None ->
  let p := in_background (handleMessage
             (redis_worker c deadStream handlers name metrics concurrency batchSize) message) in
  let '(p', w', es) := advance interp (if metrics then 6%nat else 3%nat) p w in
  w_table w' = w_table w /\ existsb (reads_task id) es = true /\ existsb is_exec es = true /\
  forall id', existsb (won id') es = false.
Proof.
  intros <- Hrec Hr Hst Hf. cbv zeta. unfold in_background, handleMessage.
  cbn [wk_store redis_worker ts_Get store_TaskStore]. unfold Store.Get, query_row, claim_task.
  rewrite Hrec. unfold executeWithTimeout.
  destruct metrics; cbn -[duration_mul duration_string Handle translate handleExecutionFailure
    exec_stmt Transition];
    unfold exec_sql; destruct (env_sql _ _ (w_ext w)) as [x se]; cbn [snd] in Hf; rewrite Hf;
    cbn [exec_stmt]; rewrite Hr; cbn -[duration_mul duration_string Handle translate
      handleExecutionFailure Transition]; rewrite Hst.
  all: repeat (cbn -[duration_mul duration_string Handle translate handleExecutionFailure
                 Transition]; unfold ask; try destruct (env_time _) as [? ?]).
  all: rewrite String.eqb_refl; by repeat split.
Qed.

(** C39: a running task is executed a second time by a recovered message. In
    any configuration where goroutine [j] executes task [id] and the task's
    row is still [running], any worker of the application that handles a
    recovered message of the task (one it has claimed because it was pending
    for longer than [pendingMinIdle], 30 seconds, whatever the task's own
    timeout) can take the task over: with every other goroutine left exactly
    where it is, nothing written to the table and no further claim won, it
    enters the task's handler too. So two goroutines execute the task on one
    claim; the only thing needed is that its read of the task is answered. *)
Theorem recovered_double_execution (cfg : config Call (World X)) id r j
    c deadStream handlers name metrics concurrency batchSize message :
  let w := cf_state cfg in
  w_table w !! id = Some r -> row_status r = StatusRunning ->
  executes id j (cf_trace cfg) = true -> (j < length (cf_threads cfg))%nat ->
  tm_ID (sm_Task message) = id -> sm_Recovered message = true ->
  se_fault (env_sql _ (SelectTask id) (w_ext w)).2 = None ->
  let p := in_background (handleMessage
             (redis_worker c deadStream handlers name metrics concurrency batchSize) message) in
  exists cfg' j' q,
    rtc pstep cfg cfg' /\ j' <> j /\
    cf_threads cfg' = cf_threads cfg ++ [q] /\
    rtc pstep (mkConfig w (cf_threads cfg ++ [p]) (cf_trace cfg)) cfg' /\
    w_table (cf_state cfg') = w_table w /\
    executes id j (cf_trace cfg') = true /\ executes id j' (cf_trace cfg') = true /\
    forall id', wins id' (cf_trace cfg') = wins id' (cf_trace cfg).
Proof.
  intros w Hr Hst Hj Hlen Hid Hrec Hf p. destruct cfg as [v ps tr].
  cbn [cf_state cf_threads cf_trace] in *. subst w.
  pose proof (takeover_advance c deadStream handlers name metrics concurrency batchSize message
    id r v Hid Hrec Hr Hst Hf) as H. cbv zeta in H. fold p in H.
  set (n := if metrics then 6%nat else 3%nat) in H.
  pose proof (advance_steps interp system_starts n p v (ps ++ [p]) tr (length ps)
    (list_lookup_middle ps [] p _ eq_refl)) as Hs.
  destruct (advance interp n p v) as [[q w'] es]. 
  destruct H as (Ht & Hread & Hexec & Hwins).
  exists (mkConfig w' (ps ++ [q]) ((pair (length ps) <$> es) ++ tr)), (length ps), q.
  replace (<[length ps:=q]> (ps ++ [p])) with (ps ++ [q]) in Hs
    by (by rewrite insert_app_r_alt, Nat.sub_diag by done).
  split; [eapply rtc_l; [apply pool_start; constructor | exact Hs]|].
  split; [lia|]. split; [done|]. split; [exact Hs|]. split; [exact Ht|].
  split; [by apply executes_app|]. split.
  - unfold executes. cbn [cf_trace]. by rewrite !(has_event_own (length ps)).
  - intros id'. by apply wins_app_none.
Qed.
End pool.
