(* ===== verification/Loop.v ===== *)
(** * The polling loop of the worker

    src/internal/worker/worker.go: [Run], [recoverPending], [acquireSlot],
    [spawnHandle] and [wait]. The loop is a program over the calls of Calls.v
    and two of its own: taking a slot of the semaphore, and starting the
    goroutine that handles a message. A worker process ([proc]) is the loop,
    the slots in use and the goroutines in flight, as a step relation. *)

From S2P Require Import Prelude GoStd Errors Task Effects Table Metrics Calls Store.
From S2P Require Import Lifecycle Queue Service Handlers Worker Scheduler Statements Http Server Pool.
From S2P Require Import System.
Local Open Scope Z_scope.

Inductive LoopCall : Type -> Type :=
| Base (A : Type) (c : Call A) : LoopCall A
| AcquireSlot : LoopCall bool                 (* false: ctx.Done() was closed *)
| Spawn (message : StreamMessage) : LoopCall unit.
Arguments Base {A} c.

Definition base {A} (m : prog Call A) : prog LoopCall A := translate (fun A c => Base c) m.

(** How one turn of the loop ends: [continue], or [return]. *)
Inductive turn :=
| Continue
| Return (r : result unit).

Section loop.
Context {GT : GoText}.

Definition acquireSlot : prog LoopCall bool := call AcquireSlot.
Definition spawnHandle (message : StreamMessage) : prog LoopCall unit := call (Spawn message).

(** [for _, message := range messages { if !acquireSlot { return } spawn }]:
    whether the loop came to its end. *)
Fixpoint spawn_all (messages : list StreamMessage) : prog LoopCall bool :=
  match messages with
  | [] => Ret true
  | message :: rest =>
      ok ← acquireSlot;
      if negb (ok : bool) then Ret false
      else _ ← spawnHandle message; spawn_all rest
  end.

Definition recoverPending (w : Worker) : prog LoopCall (result unit) :=
  let* messages := base (ClaimPending_ (wk_consumer w) (wk_pendingMinIdle w)
                           (wk_pendingClaimBatch w)) in
  ok ← spawn_all messages;
  if negb (ok : bool) then
    ctxErr ← call (Base CtxErr);
    Ret (match ctxErr with None => Ok tt | Some e => Err e end : result unit)
  else Ret (Ok tt).

Definition wait (duration : Duration) : prog LoopCall unit := call (Base (Wait duration)).

(** The rest of a turn, once pending messages have been recovered. *)
Definition read_turn (w : Worker) : prog LoopCall turn :=
  r ← base (ReadBatch_ (wk_consumer w) (wk_batchSize w));
  match r with
  | Err e =>
      if errors_Is e ErrNoMessages then Ret Continue
      else if errors_Is e Canceled then Ret (Return (Ok tt))
      else _ ← wait (500 * Millisecond); Ret Continue
  | Ok messages =>
      ok ← spawn_all messages;
      Ret (if (ok : bool) then Continue else Return (Ok tt))
  end.

(** One turn of the loop of [Run]; the worker's [lastPendingRecovery] is
    updated on the way. *)
Definition run_turn (w : Worker) : prog LoopCall (Worker * turn) :=
  stopping ← call (Base CtxDone);
  if (stopping : bool) then Ret (w, Return (Ok tt))
  else
    now ← call (Base TimeNow);
    let (due, w') := shouldRecoverPending w now in
    if due then
      r ← recoverPending w';
      match r with
      | Err e =>
          if errors_Is e Canceled then Ret (w', Return (Ok tt))
          else _ ← wait (500 * Millisecond); Ret (w', Continue)
      | Ok _ => t ← read_turn w'; Ret (w', t)
      end
    else t ← read_turn w'; Ret (w', t).

(** What [Run] does before its loop. *)
Definition run_start (w : Worker) : prog LoopCall (Worker * turn) :=
  r ← base (EnsureGroup_ (wk_consumer w));
  Ret (w, match r with Ok _ => Continue | Err e => Return (Err e) end).

(** ** The process *)

Inductive control :=
| Looping (p : prog LoopCall (Worker * turn))
| Exited (r : result unit).

Record proc := mkProc {
  pr_control : control;
  pr_slots : Z;                          (* len(w.sem) *)
  pr_flight : list (prog Call unit);     (* the goroutines of w.wg *)
}.

Definition start (w : Worker) : proc := mkProc (Looping (run_start w)) 0 [].

Context {PG : Postgres} {X : Type} {EV : Env X}.
Context (w0 : Worker).

(** The steps of a worker process started as [w0] (whose concurrency,
    handlers and consumer never change). [Run] returns only when every
    goroutine has finished ([defer w.wg.Wait()]). *)
Inductive proc_step : World X * proc -> World X * proc -> Prop :=
| loop_call w A (c : Call A) k n gs :
    proc_step (w, mkProc (Looping (Vis (Base c) k)) n gs)
      ((interp A c w).1, mkProc (Looping (k (interp A c w).2)) n gs)
| loop_acquire w k n gs :
    n < wk_concurrency w0 ->
    proc_step (w, mkProc (Looping (Vis AcquireSlot k)) n gs)
      (w, mkProc (Looping (k true)) (n + 1) gs)
| loop_cancelled w k n gs :
    proc_step (w, mkProc (Looping (Vis AcquireSlot k)) n gs)
      (w, mkProc (Looping (k false)) n gs)
| loop_spawn w m k n gs :
    proc_step (w, mkProc (Looping (Vis (Spawn m) k)) n gs)
      (w, mkProc (Looping (k tt)) n (gs ++ [in_background (handleMessage w0 m)]))
| loop_next w w' n gs :
    proc_step (w, mkProc (Looping (Ret (w', Continue))) n gs)
      (w, mkProc (Looping (run_turn w')) n gs)
| loop_return w w' r n :
    proc_step (w, mkProc (Looping (Ret (w', Return r))) n [])
      (w, mkProc (Exited r) n [])
| flight_call w ctl n gs i A (c : Call A) k :
    gs !! i = Some (Vis c k) ->
    proc_step (w, mkProc ctl n gs)
      ((interp A c w).1, mkProc ctl n (<[i := k (interp A c w).2]> gs))
| flight_done w ctl n gs gs' :
    0 < n ->      (* the deferred [<-w.sem] blocks on an empty channel *)
    proc_step (w, mkProc ctl n (gs ++ Ret tt :: gs')) (w, mkProc ctl (n - 1) (gs ++ gs')).
End loop.

(** ** Slots *)

(** The monitor of one turn: [true] while it holds a slot it has not yet
    given to a goroutine. *)
Definition slot_step (have : bool) (e : event LoopCall) : option bool :=
  match e with
  | Ev c x =>
      match c in LoopCall A return A -> option bool with
      | Base _ => fun _ => if have then None else Some false
      | AcquireSlot => fun b => if have then None else Some b
      | Spawn _ => fun _ => if have then Some false else None
      end x
  end.

(** A piece of the loop that takes and gives slots one at a time. *)
Definition balanced {A} (p : prog LoopCall A) : Prop :=
  wlp slot_step p (fun have _ => have = false) false.

Lemma balanced_bind {A B} (m : prog LoopCall A) (f : A -> prog LoopCall B) :
  balanced m -> (forall a, balanced (f a)) -> balanced (m ≫= f).
Proof.
  intros Hm Hf. apply wlp_bind. eapply wlp_mono; [|exact Hm]. intros have a ->. apply Hf.
Qed.

Lemma balanced_bind_res {A B} (m : prog LoopCall (result A)) (f : A -> prog LoopCall (result B)) :
  balanced m -> (forall a, balanced (f a)) -> balanced (bind_res m f).
Proof. intros Hm Hf. apply balanced_bind; [done|]. by intros [a|e]. Qed.

Lemma balanced_base {A} (m : prog Call A) : balanced (base m).
Proof. induction m as [a | Y c k IH]; [done|]. intros x. apply IH. Qed.

Lemma balanced_call {A} (c : Call A) : balanced (call (Base c)).
Proof. intros x. done. Qed.

Lemma balanced_spawn_all messages : balanced (spawn_all messages).
Proof.
  induction messages as [|m ms IH]; [done|]. intros [|]; [|done]. intros []. exact IH.
Qed.

Section balanced.
Context {GT : GoText}.

Lemma balanced_wait d : balanced (wait d).
Proof. apply balanced_call. Qed.

Lemma balanced_read_turn w : balanced (read_turn w).
Proof.
  apply balanced_bind; [apply balanced_base|]. intros [messages|e].
  - apply balanced_bind; [apply balanced_spawn_all | done].
  - destruct (errors_Is e ErrNoMessages); [done|]. destruct (errors_Is e Canceled); [done|].
    apply balanced_bind; [apply balanced_wait | done].
Qed.

Lemma balanced_recoverPending w : balanced (recoverPending w).
Proof.
  apply balanced_bind_res; [apply balanced_base|]. intros messages.
  apply balanced_bind; [apply balanced_spawn_all|]. intros [|]; [done|].
  apply balanced_bind; [apply balanced_call | done].
Qed.

Lemma balanced_run_turn w : balanced (run_turn w).
Proof.
  apply balanced_bind; [apply balanced_call|]. intros [|]; [done|].
  apply balanced_bind; [apply balanced_call|]. intros now.
  destruct (shouldRecoverPending w now) as [[|] w'].
  - apply balanced_bind; [apply balanced_recoverPending|]. intros [u|e].
    + apply balanced_bind; [apply balanced_read_turn | done].
    + destruct (errors_Is e Canceled); [done|]. apply balanced_bind; [apply balanced_wait | done].
  - apply balanced_bind; [apply balanced_read_turn | done].
Qed.

Lemma balanced_run_start w : balanced (run_start w).
Proof. apply balanced_bind; [apply balanced_base | done]. Qed.

(** ** Errors *)

(** A turn never ends with an error of [Run]. *)
Definition no_error (r : Worker * turn) : Prop :=
  match r.2 with Return (Err _) => False | _ => True end.

(** The results a program can have, whatever the answers. *)
Fixpoint returns {E A} (Q : A -> Prop) (p : prog E A) : Prop :=
  match p with
  | Ret a => Q a
  | Vis c k => forall x, returns Q (k x)
  end.

Lemma returns_bind {E A B} (Q : B -> Prop) (m : prog E A) (f : A -> prog E B) :
  (forall a, returns Q (f a)) -> returns Q (m ≫= f).
Proof.
  intros Hf. induction m as [a | Y c k IH]; [apply Hf|]. intros x. apply IH.
Qed.

Lemma read_turn_returns w (w' : Worker) : returns no_error (t ← read_turn w; Ret (w', t)).
Proof.
  unfold read_turn. induction (ReadBatch_ (wk_consumer w) (wk_batchSize w)) as [r | Y c k IH];
    [|intros x; apply IH].
  destruct r as [messages|e]; simpl.
  - clear. induction messages as [|m ms IH]; [done|]. intros [|]; [|done]. intros []. apply IH.
  - destruct (errors_Is e ErrNoMessages); [done|]. by destruct (errors_Is e Canceled).
Qed.

Lemma run_turn_returns w : returns no_error (run_turn w).
Proof.
  intros [|]; [done|]. intros now. simpl.
  destruct (shouldRecoverPending w now) as [[|] w']; [|apply read_turn_returns].
  apply returns_bind. intros [u|e]; [apply read_turn_returns|].
  by destruct (errors_Is e Canceled).
Qed.
End balanced.

(** ** Any environment

    Between two steps of a process, anything else may change the world. *)
Inductive live_step {X P : Type} (step : World X * P -> World X * P -> Prop)
  : World X * P -> World X * P -> Prop :=
| live_own s s' : step s s' -> live_step step s s'
| live_others w w' p : live_step step (w, p) (w', p).

(** An invariant of the process that its own steps keep holds however the
    world changes. *)
Lemma live_invariant {X P : Type} (step : World X * P -> World X * P -> Prop) (I : P -> Prop) s s' :
  (forall w p w' p', I p -> step (w, p) (w', p') -> I p') ->
  rtc (live_step step) s s' -> I s.2 -> I s'.2.
Proof.
  intros Hstep. induction 1 as [s | s1 s2 s3 H12 _ IH]; [done|]. intros HI. apply IH.
  destruct H12 as [[w p] [w' p'] H | w w' p]; [by eapply Hstep | exact HI].
Qed.

Section process.
Context {GT : GoText} {PG : Postgres} {X : Type} {EV : Env X}.
Context (w0 : Worker).

(** The slots in use are the goroutines in flight and the one the loop holds. *)
Definition slots_inv (p : proc) : Prop :=
  0 <= pr_slots p <= wk_concurrency w0 /\
  match pr_control p with
  | Looping q =>
      exists have : bool, wlp slot_step q (fun h _ => h = false) have /\
        pr_slots p = Z.of_nat (length (pr_flight p)) + (if have then 1 else 0)
  | Exited _ => pr_slots p = 0 /\ pr_flight p = []
  end.

Lemma slots_step w p w' p' : slots_inv p -> proc_step w0 (w, p) (w', p') -> slots_inv p'.
Proof.
  unfold slots_inv. intros [Hb Hi] Hs.
  inversion Hs as [? A c k n gs | ? k n gs Hn | ? k n gs | ? m k n gs | ? w1 n gs | ? w1 r n
    | ? ctl n gs i A c k Hl | ? ctl n gs gs' Hpos]; subst; cbn [pr_control pr_slots pr_flight] in *.
  - destruct Hi as ([|] & Hq & Hn); specialize (Hq (interp A c w).2); [done|]. split; [lia|].
    by exists false.
  - destruct Hi as ([|] & Hq & Hn'); specialize (Hq true); [done|]. split; [lia|].
    exists true. split; [exact Hq | lia].
  - destruct Hi as ([|] & Hq & Hn'); specialize (Hq false); [done|]. split; [lia|].
    by exists false.
  - destruct Hi as ([|] & Hq & Hn'); specialize (Hq tt); [|done]. split; [lia|].
    exists false. split; [exact Hq|]. rewrite length_app. simpl. lia.
  - destruct Hi as ([|] & Hq & Hn'); [done|]. split; [lia|]. exists false.
    split; [apply balanced_run_turn | lia].
  - destruct Hi as ([|] & Hq & Hn'); [done|]. simpl in Hn'. by split; [lia|].
  - split; [lia|]. destruct ctl as [q|r].
    + destruct Hi as (have & Hq & Hn'). exists have. by rewrite length_insert.
    + destruct Hi as [_ ->]. done.
  - destruct ctl as [q|r].
    + destruct Hi as (have & Hq & Hn').
      assert (Hl : n - 1 = Z.of_nat (length (gs ++ gs')) + (if have then 1 else 0))
        by (rewrite length_app in *; simpl in Hn'; lia).
      split; [destruct have; lia | by exists have].
    + destruct Hi as [_ Hi]. by destruct gs.
Qed.

(** What the loop may end a turn with: an error only of [EnsureGroup]. *)
Inductive can_return {E : Type -> Type} {A : Type} : prog E A -> A -> Prop :=
| can_return_ret a : can_return (Ret a) a
| can_return_call B (c : E B) k x a : can_return (k x) a -> can_return (Vis c k) a.

Lemma can_return_returns {E A} (p : prog E A) : returns (can_return p) p.
Proof.
  assert (H : forall (Q : A -> Prop), (forall a, can_return p a -> Q a) -> returns Q p);
    [|by apply H].
  induction p as [a | Y c k IH]; intros Q HQ; [apply HQ; constructor|].
  intros x. apply IH. intros a Ha. apply HQ. by econstructor.
Qed.

Lemma returns_mono {E A} (Q Q' : A -> Prop) (p : prog E A) :
  (forall a, Q a -> Q' a) -> returns Q p -> returns Q' p.
Proof. intros HQ. induction p as [a | Y c k IH]; simpl; eauto. Qed.

Definition turn_result (r : Worker * turn) : Prop :=
  match r.2 with
  | Return (Err e) => can_return (EnsureGroup_ (wk_consumer w0)) (Err e)
  | _ => True
  end.

Lemma returns_base {A B} (Q : B -> Prop) (R : A -> Prop) (m : prog Call A) (f : A -> B) :
  (forall a, R a -> Q (f a)) -> returns R m -> returns Q (a ← base m; Ret (f a)).
Proof. intros HQ. induction m as [a | Y c k IH]; simpl; [apply HQ|]. intros H x. by apply IH. Qed.

Lemma run_start_returns : returns turn_result (run_start w0).
Proof.
  unfold run_start.
  apply (returns_base _ _ (EnsureGroup_ (wk_consumer w0))) with (2 := can_return_returns _).
  by intros [u|e].
Qed.

Definition result_inv (p : proc) : Prop :=
  match pr_control p with
  | Looping q => returns turn_result q
  | Exited r => turn_result (w0, Return r) /\ pr_flight p = []
  end.

Lemma result_step w p w' p' : result_inv p -> proc_step w0 (w, p) (w', p') -> result_inv p'.
Proof.
  unfold result_inv. intros Hi Hs.
  inversion Hs as [? A c k n gs | ? k n gs Hn | ? k n gs | ? m k n gs | ? w1 n gs | ? w1 r n
    | ? ctl n gs i A c k Hl | ? ctl n gs gs' Hpos]; subst; cbn [pr_control pr_flight] in *.
  1-4: apply Hi.
  - eapply returns_mono; [|apply run_turn_returns]. intros [w2 [|[|]]]; done.
  - done.
  - destruct ctl as [q|r]; [exact Hi|]. destruct Hi as [_ ->]. done.
  - destruct ctl as [q|r]; [exact Hi|]. destruct Hi as [_ Hi]. by destruct gs.
Qed.

Lemma slots_reachable (w w' : World X) (p : proc) :
  0 <= wk_concurrency w0 ->
  rtc (live_step (proc_step w0)) (w, start w0) (w', p) -> slots_inv p.
Proof.
  intros Hc Hs. apply live_invariant with (I := slots_inv) in Hs; [exact Hs | exact slots_step|].
  split; [simpl; lia|]. exists false. split; [apply balanced_run_start | done].
Qed.

(** C12: the concurrency of a worker is bounded by its configuration. Whatever
    the rest of the system does, at most [concurrency] messages are being
    handled at any time: the goroutines in flight never outnumber the slots
    in use, and those never exceed the capacity of the semaphore. *)
Theorem handlers_in_flight_bounded (w w' : World X) (p : proc) :
  0 <= wk_concurrency w0 ->
  rtc (live_step (proc_step w0)) (w, start w0) (w', p) ->
  Z.of_nat (length (pr_flight p)) <= pr_slots p <= wk_concurrency w0.
Proof.
  intros Hc Hs. destruct (slots_reachable w w' p Hc Hs) as [Hb Hi]. destruct (pr_control p).
  - destruct Hi as (have & _ & Hn). destruct have; lia.
  - destruct Hi as [Hn ->]. simpl. lia.
Qed.

(** C28: how the worker stops. Whatever happens, [Run] returns with no
    goroutine of the worker left in flight, and it returns an error only for
    a failure of [EnsureGroup]: errors of the loop (of reading, of claiming
    pending messages, cancellation included) are logged, or end it with
    [nil]. *)
Theorem run_returns (w w' : World X) (p : proc) (r : result unit) :
  rtc (live_step (proc_step w0)) (w, start w0) (w', p) ->
  pr_control p = Exited r ->
  pr_flight p = [] /\
  match r with
  | Ok _ => True
  | Err e => can_return (EnsureGroup_ (wk_consumer w0)) (Err e)
  end.
Proof.
  intros Hs Hp. apply live_invariant with (I := result_inv) in Hs; [|exact result_step|].
  - unfold result_inv in Hs. simpl in Hs. rewrite Hp in Hs. destruct Hs as [Hr Hf].
    split; [exact Hf|]. by destruct r.
  - exact run_start_returns.
Qed.
End process.

(** ** Shutdown

    One step of the goroutines in flight, whatever the answer of the call. *)
Inductive flight_step : list (prog Call unit) -> list (prog Call unit) -> Prop :=
| step_call gs i A (c : Call A) k x :
    gs !! i = Some (Vis c k) -> flight_step (<[i := k x]> gs) gs
| step_done gs gs' : flight_step (gs ++ gs') (gs ++ Ret tt :: gs').

Lemma flight_step_cons g gs gs' :
  flight_step gs' (g :: gs) ->
  match g with Ret _ => False | Vis c k => exists x, gs' = k x :: gs end \/
  (g = Ret tt /\ gs' = gs) \/
  (exists gs1, gs' = g :: gs1 /\ flight_step gs1 gs).
Proof.
  inversion 1 as [? i A c k x Hi | l1 l2 Hl]; subst.
  - destruct i as [|i]; simpl in *; [left; injection Hi as ->; by exists x|].
    right. right. eexists. split; [done|]. by econstructor.
  - destruct l1 as [|g1 l1]; simplify_eq/=; [by right; left|].
    right. right. eexists. split; [done|]. constructor.
Qed.

(** Goroutines are finite trees of calls: they cannot all together take
    infinitely many steps. *)
Lemma flight_acc gs : Acc flight_step gs.
Proof.
  induction gs as [|g gs IH].
  - constructor. intros gs'. inversion 1 as [? i | l1]; [done | by destruct l1].
  - revert gs IH. induction g as [a | A c k IHk]; intros gs Hgs;
      induction Hgs as [gs Hacc IH]; constructor; intros gs' Hs;
      destruct (flight_step_cons _ _ _ Hs) as [Hg | [[Hg ->] | (gs1 & -> & Hs1)]].
    + destruct Hg.
    + by constructor.
    + by apply IH.
    + destruct Hg as [x ->]. apply IHk. by constructor.
    + discriminate Hg.
    + by apply IH.
Qed.

Section shutdown.
Context {GT : GoText} {PG : Postgres} {X : Type} {EV : Env X}.
Context (w0 : Worker).

(** The worlds in which the context of [Run] is cancelled. *)
Context (cancelled : X -> Prop).
Hypothesis cancelled_done : forall x, cancelled x -> (env_ctx_done x).2 = true.

(** A step of the process in some such world: between its steps, anything
    may change the world, but not end the cancellation. *)
Definition stop_step (p' p : proc) : Prop :=
  exists w w' : World X, cancelled (w_ext w) /\ proc_step w0 (w, p) (w', p').

(** Steps of the goroutines leave the loop as it is: a process comes to an
    end if, whatever its goroutines have become, the next step of its loop
    leads to one that does. *)
Lemma control_acc ctl :
  (forall n gs p' w w', cancelled (w_ext w) -> proc_step w0 (w, mkProc ctl n gs) (w', p') ->
     Acc stop_step p' \/
     (pr_control p' = ctl /\ flight_step (pr_flight p') gs)) ->
  forall n gs, Acc stop_step (mkProc ctl n gs).
Proof.
  intros Hstep n gs. revert n. induction (flight_acc gs) as [gs _ IH]. intros n.
  constructor. intros p' (w & w' & Hc & Hs).
  destruct (Hstep n gs p' w w' Hc Hs) as [H | [Hctl Hf]]; [exact H|].
  destruct p' as [ctl' n' gs']. simpl in *. subst ctl'. by apply IH.
Qed.

(** What a step of the loop does to the process. *)
Definition call_next {A} (c : LoopCall A) (w : World X) n gs :
    (A -> prog LoopCall (Worker * turn)) -> proc -> Prop :=
  match c in LoopCall A return (A -> prog LoopCall (Worker * turn)) -> proc -> Prop with
  | Base c => fun k p => p = mkProc (Looping (k (interp _ c w).2)) n gs
  | AcquireSlot => fun k p => exists b n', p = mkProc (Looping (k b)) n' gs
  | Spawn m => fun k p =>
      p = mkProc (Looping (k tt)) n (gs ++ [in_background (handleMessage w0 m)])
  end.

Definition loop_next_proc (q : prog LoopCall (Worker * turn)) (w : World X) n gs (p : proc) : Prop :=
  match q with
  | Vis c k => call_next c w n gs k p
  | Ret (wk, Continue) => p = mkProc (Looping (run_turn wk)) n gs
  | Ret (_, Return r) => p = mkProc (Exited r) n gs
  end.

Lemma looping_step_inv q n gs w w' p :
  proc_step w0 (w, mkProc (Looping q) n gs) (w', p) ->
  loop_next_proc q w n gs p \/ (pr_control p = Looping q /\ flight_step (pr_flight p) gs).
Proof.
  intros Hs. inversion Hs as [? A c k ? ? | ? k ? ? Hn | ? k ? ? | ? m k ? ? | ? wk1 ? ? | ? wk1 r1 ?
    | ? ctl ? ? i A c k Hl | ? ctl ? l1 l2 Hpos]; subst; cbn [pr_control pr_flight].
  1-6: left; cbn; by eauto.
  - right. split; [done | by econstructor].
  - right. split; [done | constructor].
Qed.

Lemma looping_control_acc q :
  (forall n gs p w, cancelled (w_ext w) -> loop_next_proc q w n gs p -> Acc stop_step p) ->
  forall n gs, Acc stop_step (mkProc (Looping q) n gs).
Proof.
  intros Hq. apply control_acc. intros n gs p' w w' Hc Hs.
  destruct (looping_step_inv _ _ _ _ _ _ Hs) as [H|H]; [left; by eapply Hq | by right].
Qed.

Lemma exited_acc r n gs : Acc stop_step (mkProc (Exited r) n gs).
Proof.
  revert n gs. apply control_acc. intros n gs p' w w' _ Hs. right.
  inversion Hs as [| | | | | | ? ctl ? ? i A c k Hl | ? ctl ? l1 l2 Hpos]; subst;
    (split; [done | by econstructor]).
Qed.

Lemma returned_acc wk r n gs : Acc stop_step (mkProc (Looping (Ret (wk, Return r))) n gs).
Proof. revert n gs. apply looping_control_acc. intros n gs p w _ ->. apply exited_acc. Qed.

(** A turn of the loop first looks at the context. *)
Lemma turn_acc wk n gs : Acc stop_step (mkProc (Looping (run_turn wk)) n gs).
Proof using cancelled_done.
  revert n gs. apply looping_control_acc. intros n gs p w Hc ->. cbn [interp]. unfold ask.
  pose proof (cancelled_done _ Hc) as Hd. destruct (env_ctx_done (w_ext w)) as [x b].
  cbn [snd] in *. subst b. apply returned_acc.
Qed.

Lemma looping_acc q n gs : Acc stop_step (mkProc (Looping q) n gs).
Proof using cancelled_done.
  revert n gs. induction q as [[wk [|r]] | Y c k IH].
  - apply looping_control_acc. intros n gs p w _ ->. apply turn_acc.
  - apply returned_acc.
  - apply looping_control_acc. intros n gs p w _ H. destruct c; cbn in H.
    + subst p. apply IH.
    + destruct H as (b & n' & ->). apply IH.
    + subst p. apply IH.
Qed.

(** A process that keeps account of its slots is never stuck before its end. *)
Lemma slots_progress (w : World X) p :
  slots_inv w0 p ->
  (exists s', proc_step w0 (w, p) s') \/
  (exists r, pr_control p = Exited r) /\ pr_flight p = [] /\ pr_slots p = 0.
Proof.
  destruct p as [ctl n gs]. intros [Hb Hi]. cbn [pr_control pr_slots pr_flight] in *.
  destruct ctl as [q|r]; [left | by right; destruct Hi; eauto].
  destruct Hi as (have & Hq & Hn). destruct gs as [|[[]|A c k] gs].
  - destruct q as [[wk [|r]]|A c k]; [by eexists; constructor..|].
    destruct c; [by eexists; constructor | by eexists; apply loop_cancelled
      | by eexists; constructor].
  - eexists. apply (flight_done w0 w _ n [] gs). destruct have; simpl in Hn; lia.
  - eexists. by apply (flight_call w0 w _ n _ 0 A c k).
Qed.

Lemma stop_steps_slots p p' :
  slots_inv w0 p -> rtc (fun p1 p2 => stop_step p2 p1) p p' -> slots_inv w0 p'.
Proof.
  intros Hi. induction 1 as [q | q1 q2 q3 (w & w' & _ & Hs) _ IH]; [exact Hi|].
  apply IH. by eapply slots_step.
Qed.

(** C23: shutdown terminates. Let a worker run in any way, and cancel its
    context at any moment, wherever its loop and its goroutines are. From
    then on, whatever else happens to the world and whatever all further
    calls answer, the worker takes finitely many more steps, and it is never
    stuck on the way (no goroutine blocks giving its slot back, the deferred
    [wg.Wait] is not left waiting, and [acquireSlot], should the loop be in
    it, finds the context done) until [Run] has returned, no message is being
    handled and every slot is free. *)
Theorem shutdown_terminates (w w1 : World X) (p : proc) :
  0 <= wk_concurrency w0 ->
  rtc (live_step (proc_step w0)) (w, start w0) (w1, p) ->
  Acc stop_step p /\
  forall p', rtc (fun p1 p2 => stop_step p2 p1) p p' ->
    forall w2, cancelled (w_ext w2) ->
      (exists s', proc_step w0 (w2, p') s') \/
      (exists r, pr_control p' = Exited r) /\ pr_flight p' = [] /\ pr_slots p' = 0.
Proof using cancelled_done.
  intros Hc Hs. split.
  - destruct p as [[q|r] n gs]; [apply looping_acc | apply exited_acc].
  - intros p' Hp' w2 _. apply slots_progress. eapply stop_steps_slots; [|exact Hp'].
    exact (slots_reachable w0 w w1 p Hc Hs).
Qed.
End shutdown.
(** ** Running a process

    One scheduling decision: the loop goes on, or goroutine [i] does. A move
    that is not possible (no slot is free, goroutines are still in flight when
    the loop returns) leaves the process as it is. *)
Inductive move :=
| MoveLoop
| MoveFlight (i : nat).

Section exec.
Context {GT : GoText} {PG : Postgres} {X : Type} {EV : Env X}.
Context (w0 : Worker).

Definition loop_exec (w : World X) {A} (c : LoopCall A) :
    (A -> prog LoopCall (Worker * turn)) -> Z -> list (prog Call unit) -> World X * proc :=
  match c in LoopCall A
    return (A -> prog LoopCall (Worker * turn)) -> Z -> list (prog Call unit) -> World X * proc with
  | Base c => fun k n gs => ((interp _ c w).1, mkProc (Looping (k (interp _ c w).2)) n gs)
  | AcquireSlot => fun k n gs =>
      if n <? wk_concurrency w0 then (w, mkProc (Looping (k true)) (n + 1) gs)
      else (w, mkProc (Looping (Vis AcquireSlot k)) n gs)
  | Spawn m => fun k n gs =>
      (w, mkProc (Looping (k tt)) n (gs ++ [in_background (handleMessage w0 m)]))
  end.

Definition move_exec (s : World X * proc) (mv : move) : World X * proc :=
  let (w, p) := s in
  match mv, pr_control p with
  | MoveLoop, Looping (Vis c k) => loop_exec w c k (pr_slots p) (pr_flight p)
  | MoveLoop, Looping (Ret (w', Continue)) =>
      (w, mkProc (Looping (run_turn w')) (pr_slots p) (pr_flight p))
  | MoveLoop, Looping (Ret (_, Return r)) =>
      match pr_flight p with [] => (w, mkProc (Exited r) (pr_slots p) []) | _ => s end
  | MoveLoop, Exited _ => s
  | MoveFlight i, ctl =>
      match pr_flight p !! i with
      | Some (Vis c k) =>
          ((interp _ c w).1,
           mkProc ctl (pr_slots p) (<[i := k (interp _ c w).2]> (pr_flight p)))
      | Some (Ret _) =>
          if 0 <? pr_slots p then (w, mkProc ctl (pr_slots p - 1) (delete i (pr_flight p)))
          else s
      | None => s
      end
  end.

Definition proc_exec (moves : list move) (s : World X * proc) : World X * proc :=
  foldl move_exec s moves.

Lemma move_exec_steps s mv : rtc (proc_step w0) s (move_exec s mv).
Proof.
  destruct s as [w [ctl n gs]]. unfold move_exec; cbn [pr_control pr_slots pr_flight].
  destruct mv as [|i].
  - destruct ctl as [[[w' [|r]]|A c k]|r]; [by apply rtc_once; constructor| | |reflexivity].
    + destruct gs; [by apply rtc_once; constructor | reflexivity].
    + destruct c as [A c | | m]; simpl; try (by apply rtc_once; constructor).
      destruct (Z.ltb_spec n (wk_concurrency w0)); [by apply rtc_once; constructor | reflexivity].
  - destruct (gs !! i) as [[[]|A c k]|] eqn:Hi; [| |reflexivity].
    + apply list_elem_of_split_length in Hi as (l1 & l2 & -> & ->).
      rewrite delete_middle. destruct (Z.ltb_spec 0 n); [|reflexivity].
      by apply rtc_once; constructor.
    + apply rtc_once. by constructor.
Qed.

Lemma proc_exec_steps moves s : rtc (proc_step w0) s (proc_exec moves s).
Proof.
  revert s. induction moves as [|mv moves IH]; intros s; [reflexivity|].
  etrans; [apply move_exec_steps | apply IH].
Qed.
End exec.
