(* ===== verification/Processes.v ===== *)
(** * The processes of the application

    The scheduler's loop (src/internal/scheduler/scheduler.go, [Run]) as a
    step relation, as the worker's in Loop.v; and clusters of worker,
    scheduler and API processes, which start, run and crash at any time, on
    one Postgres and one Redis. Every execution of a cluster is an execution
    of the goroutine pool of System.v ([cluster_refines_pool]), so the
    theorems about pools hold of the processes as the code runs them. *)

From S2P Require Import Prelude GoStd Errors Task Effects Table Metrics Calls Store.
From S2P Require Import Lifecycle Queue Service Handlers Worker Scheduler Statements Http Server Pool.
From S2P Require Import System Loop.
Local Open Scope Z_scope.

(** ** The scheduler's loop *)

(** Where [Run] of the scheduler is: in its first tick, waiting in its
    [select], in a tick of the loop, returned, or panicking in
    [time.NewTicker]. *)
Inductive sched_proc :=
| FirstTick (p : prog Call (result unit))
| Waiting
| LoopTick (p : prog Call (result unit))
| Stopped (r : result unit)
| Panicked.

Definition sched_start (s : Scheduler) : sched_proc := FirstTick (Tick s).

(** [time.NewTicker(s.interval)], which panics unless the interval is positive. *)
Definition newTicker (s : Scheduler) : sched_proc :=
  if sc_interval s <=? 0 then Panicked else Waiting.

Section sched.
Context {PG : Postgres} {X : Type} {EV : Env X}.
Context (s0 : Scheduler).

Inductive sched_step : World X * sched_proc -> World X * sched_proc -> Prop :=
| first_call w A (c : Call A) k :
    sched_step (w, FirstTick (Vis c k)) ((interp A c w).1, FirstTick (k (interp A c w).2))
| first_done w r :
    sched_step (w, FirstTick (Ret r))
      (w, match r with Ok _ => newTicker s0 | Err e => Stopped (Err e) end)
| sched_tick w : sched_step (w, Waiting) (w, LoopTick (Tick s0))
| sched_cancelled w : sched_step (w, Waiting) (w, Stopped (Ok tt))
| tick_call w A (c : Call A) k :
    sched_step (w, LoopTick (Vis c k)) ((interp A c w).1, LoopTick (k (interp A c w).2))
| tick_done w r : sched_step (w, LoopTick (Ret r)) (w, Waiting).

(** The first tick of a run that started in [w] came to an end with [r]. *)
Definition first_tick_returned (w : World X) (r : result unit) : Prop :=
  exists w1, rtc (live_step sched_step) (w, sched_start s0) (w1, FirstTick (Ret r)).

(** Where a run is tells how its first tick ended. *)
Definition sched_history (w : World X) (p : sched_proc) : Prop :=
  match p with
  | FirstTick _ => True
  | Stopped (Err e) => first_tick_returned w (Err e)
  | Panicked => sc_interval s0 <= 0 /\ first_tick_returned w (Ok tt)
  | Waiting | LoopTick _ | Stopped (Ok _) =>
      0 < sc_interval s0 /\ first_tick_returned w (Ok tt)
  end.

Lemma sched_history_step w w1 p w2 p' :
  rtc (live_step sched_step) (w, sched_start s0) (w1, p) ->
  sched_history w p -> sched_step (w1, p) (w2, p') -> sched_history w p'.
Proof.
  intros Hr Hi Hs. inversion Hs as [? A c k | ? r | ? | ? | ? A c k | ? r]; subst; simpl in *;
    try exact Hi.
  destruct r as [[]|e]; [|by exists w2].
  assert (Hf : first_tick_returned w (Ok tt)) by by exists w2.
  unfold newTicker. zcases; simpl; (split; [lia | exact Hf]).
Qed.

Lemma sched_run_history w w' p :
  rtc (live_step sched_step) (w, sched_start s0) (w', p) -> sched_history w p.
Proof.
  intros Hs. change (sched_history w (w', p).2).
  refine (rtc_ind_r (R := live_step sched_step) (fun s => sched_history w s.2)
    (w, sched_start s0) I _ (w', p) Hs).
  intros s1 s2 H1 H12 IH. destruct H12 as [[w1 p1] [w2 p2] H | w1 w2 p1]; [|exact IH].
  by eapply sched_history_step.
Qed.

(** In the loop, or returned from it without an error. *)
Definition past_first_tick (p : sched_proc) : Prop :=
  match p with Waiting | LoopTick _ | Stopped (Ok _) => True | _ => False end.

Lemma past_first_tick_step w p w' p' :
  past_first_tick p -> sched_step (w, p) (w', p') -> past_first_tick p'.
Proof. intros Hp Hs. by inversion Hs; subst. Qed.

(** C29: how the scheduler stops. Whatever the rest of the system does, [Run]
    returns an error only if that is the error of its very first tick, and it
    reaches [time.NewTicker] only when that tick succeeded: there it panics
    if the interval is not positive, and otherwise enters its loop. Once it
    is in the loop, however the later ticks end — with errors or not — it
    only goes on, until it is cancelled and returns [nil]: it never returns
    an error and never panics from there. *)
Theorem scheduler_run_returns (w w' : World X) (p : sched_proc) :
  rtc (live_step sched_step) (w, sched_start s0) (w', p) ->
  match p with
  | FirstTick _ => True
  | Stopped (Err e) => first_tick_returned w (Err e)
  | Panicked => sc_interval s0 <= 0 /\ first_tick_returned w (Ok tt)
  | Stopped (Ok _) => 0 < sc_interval s0 /\ first_tick_returned w (Ok tt)
  | Waiting | LoopTick _ =>
      0 < sc_interval s0 /\ first_tick_returned w (Ok tt) /\
      (forall r w2 p2, p = LoopTick (Ret r) -> sched_step (w', p) (w2, p2) -> p2 = Waiting) /\
      (forall w2 p2, rtc (live_step sched_step) (w', p) (w2, p2) ->
         match p2 with
         | Waiting | LoopTick _ | Stopped (Ok _) => True
         | FirstTick _ | Stopped (Err _) | Panicked => False
         end)
  end.
Proof.
  intros Hs. pose proof (sched_run_history _ _ _ Hs) as Hh.
  assert (Hlater : past_first_tick p -> forall w2 p2,
    rtc (live_step sched_step) (w', p) (w2, p2) -> past_first_tick p2).
  { intros Hp w2 p2 H. by apply (live_invariant _ past_first_tick _ _ past_first_tick_step H). }
  assert (Hend : forall r w2 p2, p = LoopTick (Ret r) -> sched_step (w', p) (w2, p2) ->
    p2 = Waiting) by (intros r w2 p2 -> H; by inversion H).
  destruct p as [q| |q|[u|e]|]; try exact Hh; destruct Hh as [Hi Hf];
    (split; [exact Hi|]; split; [exact Hf|]; split; [exact Hend|];
     intros w2 p2 H2; specialize (Hlater I w2 p2 H2); by destruct p2 as [| | |[]|]).
Qed.
End sched.

(** The scheduler's loop, run for [fuel] steps on its own. *)
Definition sched_exec1 {X} {PG : Postgres} {EV : Env X} (s0 : Scheduler)
    (s : World X * sched_proc) : World X * sched_proc :=
  match s with
  | (w, FirstTick (Vis c k)) => ((interp _ c w).1, FirstTick (k (interp _ c w).2))
  | (w, FirstTick (Ret (Ok _))) => (w, newTicker s0)
  | (w, FirstTick (Ret (Err e))) => (w, Stopped (Err e))
  | (w, Waiting) => (w, LoopTick (Tick s0))
  | (w, LoopTick (Vis c k)) => ((interp _ c w).1, LoopTick (k (interp _ c w).2))
  | (w, LoopTick (Ret _)) => (w, Waiting)
  | _ => s
  end.

Fixpoint sched_exec {X} {PG : Postgres} {EV : Env X} (s0 : Scheduler) (fuel : nat)
    (s : World X * sched_proc) : World X * sched_proc :=
  match fuel with O => s | S fuel => sched_exec s0 fuel (sched_exec1 s0 s) end.

Lemma sched_exec_steps {X} {PG : Postgres} {EV : Env X} s0 fuel (s : World X * sched_proc) :
  rtc (sched_step s0) s (sched_exec s0 fuel s).
Proof.
  revert s. induction fuel as [|fuel IH]; intros s; [reflexivity|]. simpl.
  etrans; [|apply IH].
  destruct s as [w [[[u|e]|A c k]| |[r|A c k]|r|]]; simpl; try reflexivity;
    try (by apply rtc_once; constructor).
Qed.

(** ** Clusters *)

Inductive process :=
| WorkerProc (w0 : Worker) (p : proc)
| SchedulerProc (s0 : Scheduler) (p : sched_proc).

(** The goroutines of a process that handle messages or run a tick. *)
Definition sched_flight (p : sched_proc) : list (prog Call unit) :=
  match p with FirstTick q | LoopTick q => [in_background q] | _ => [] end.

Definition in_flight (p : process) : list (prog Call unit) :=
  match p with
  | WorkerProc _ p => pr_flight p
  | SchedulerProc _ p => sched_flight p
  end.

Record cluster (X : Type) := mkCluster {
  cl_world : World X;
  cl_processes : list process;
  cl_requests : list (prog Call unit);   (* the API servers' goroutines *)
}.
Arguments mkCluster {X}.
Arguments cl_world {X}.
Arguments cl_processes {X}.
Arguments cl_requests {X}.

Definition cluster_flight {X} (cl : cluster X) : list (prog Call unit) :=
  concat (in_flight <$> cl_processes cl) ++ cl_requests cl.

Section cluster.
Context {GT : GoText} {J : JSON} {NH : NetHTTP} {PG : Postgres} {X : Type} {EV : Env X}.

(** A process as the application builds it. *)
Inductive launched : process -> Prop :=
| launched_worker c deadStream handlers name metrics concurrency batchSize :
    let w0 := redis_worker c deadStream handlers name metrics concurrency batchSize in
    launched (WorkerProc w0 (start w0))
| launched_scheduler streamName scheduledKey deadStream interval batchSize :
    let s0 := redis_scheduler streamName scheduledKey deadStream interval batchSize in
    launched (SchedulerProc s0 (sched_start s0)).

Inductive process_step : World X * process -> World X * process -> Prop :=
| worker_steps w0 w p w' p' :
    proc_step w0 (w, p) (w', p') ->
    process_step (w, WorkerProc w0 p) (w', WorkerProc w0 p')
| scheduler_steps s0 w p w' p' :
    sched_step s0 (w, p) (w', p') ->
    process_step (w, SchedulerProc s0 p) (w', SchedulerProc s0 p').

(** A process starts, takes a step of its own, or is killed; a request
    reaches an API server, or one being handled makes a call. *)
Inductive cluster_step : cluster X -> cluster X -> Prop :=
| process_starts w ps rs p :
    launched p -> cluster_step (mkCluster w ps rs) (mkCluster w (ps ++ [p]) rs)
| process_steps w w' ps rs i p p' :
    ps !! i = Some p -> process_step (w, p) (w', p') ->
    cluster_step (mkCluster w ps rs) (mkCluster w' (<[i := p']> ps) rs)
| process_killed w ps rs i :
    cluster_step (mkCluster w ps rs) (mkCluster w (delete i ps) rs)
| request_starts w ps rs p :
    system_starts p -> cluster_step (mkCluster w ps rs) (mkCluster w ps (rs ++ [p]))
| request_call w ps rs i A (c : Call A) k :
    rs !! i = Some (Vis c k) ->
    cluster_step (mkCluster w ps rs)
      (mkCluster (interp A c w).1 ps (<[i := k (interp A c w).2]> rs)).
End cluster.

(** ** The loops call no statement *)

(** A call of the worker's loop is not a statement, and spawns nothing. *)
Definition loop_no_sql (A : Type) (c : LoopCall A) : Prop :=
  match c with Base c => no_sql _ c | _ => True end.

Section loop_ok.
Context {GT : GoText}.

Lemma base_ok {A} (m : prog Call A) : calls_ok no_sql m -> calls_ok loop_no_sql (base m).
Proof. induction m as [a | Y c k IH]; [done|]. intros [Hc Hk]. split; [exact Hc|]. intros x. by apply IH. Qed.

Lemma spawn_all_ok messages : calls_ok loop_no_sql (spawn_all messages).
Proof. induction messages as [|m ms IH]; [done|]. split; [done|]. by intros [|]. Qed.

Lemma EnsureGroup_ok c : calls_ok no_sql (EnsureGroup c).
Proof. by split. Qed.

Lemma consumer_ok c :
  calls_ok no_sql (EnsureGroup_ (redis_consumer c)) /\
  (forall n, calls_ok no_sql (ReadBatch_ (redis_consumer c) n)) /\
  (forall d n, calls_ok no_sql (ClaimPending_ (redis_consumer c) d n)).
Proof.
  split; [apply EnsureGroup_ok|].
  split; intros; (split; [done|]); intros [streams|e];
    cbn [mbind prog_mbind prog_bind].
  - destruct streams as [|st ?]; [done|]. simpl. by case_match.
  - destruct (errors_Is e RedisNil); [done|]. destruct (isNoGroup e); by repeat split.
  - by destruct streams.
  - destruct (isNoGroup e); by repeat split.
Qed.

Lemma read_turn_ok w c : wk_consumer w = redis_consumer c -> calls_ok loop_no_sql (read_turn w).
Proof.
  intros Hw. apply calls_ok_bind; [apply base_ok; rewrite Hw; apply consumer_ok|].
  intros [messages|e]; [apply calls_ok_bind; [apply spawn_all_ok | done]|].
  destruct (errors_Is e ErrNoMessages); [done|]. destruct (errors_Is e Canceled); [done|].
  by split.
Qed.

Lemma recoverPending_ok w c :
  wk_consumer w = redis_consumer c -> calls_ok loop_no_sql (recoverPending w).
Proof.
  intros Hw. apply calls_ok_bind_res; [apply base_ok; rewrite Hw; apply consumer_ok|].
  intros messages. apply calls_ok_bind; [apply spawn_all_ok|]. intros [|]; by split.
Qed.

Lemma shouldRecoverPending_consumer w now :
  wk_consumer (shouldRecoverPending w now).2 = wk_consumer w.
Proof. unfold shouldRecoverPending. repeat (case_match; try done). Qed.

Lemma run_turn_ok w c : wk_consumer w = redis_consumer c -> calls_ok loop_no_sql (run_turn w).
Proof.
  intros Hw. split; [done|]. intros [|]; [done|]. split; [done|]. intros now.
  cbn [mbind prog_mbind prog_bind]. pose proof (shouldRecoverPending_consumer w now) as Hc.
  destruct (shouldRecoverPending w now) as [[|] w']; simpl in Hc; rewrite Hw in Hc.
  - apply calls_ok_bind; [by eapply recoverPending_ok|]. intros [u|e].
    + apply calls_ok_bind; [by eapply read_turn_ok | done].
    + destruct (errors_Is e Canceled); by split.
  - apply calls_ok_bind; [by eapply read_turn_ok | done].
Qed.

(** A turn leaves the worker with the consumer it had. *)
Definition same_consumer (w : Worker) (r : Worker * turn) : Prop :=
  wk_consumer r.1 = wk_consumer w.

Lemma returns_after {A B} (Q : B -> Prop) (m : prog LoopCall A) (f : A -> B) :
  (forall a, Q (f a)) -> returns Q (a ← m; Ret (f a)).
Proof. intros HQ. by apply returns_bind. Qed.

Lemma run_turn_consumer w : returns (same_consumer w) (run_turn w).
Proof.
  intros [|]; [done|]. intros now. cbn [mbind prog_mbind prog_bind].
  pose proof (shouldRecoverPending_consumer w now) as Hc.
  destruct (shouldRecoverPending w now) as [[|] w']; simpl in Hc.
  - apply returns_bind. intros [u|e]; [by apply returns_after|].
    destruct (errors_Is e Canceled); [exact Hc|]. by intros x.
  - by apply returns_after.
Qed.
End loop_ok.

(** ** Threads of a pool, up to their order *)

Section threads.
Context {E : Type -> Type} {W : Type} (h : forall X, E X -> W -> W * X).
Context (starts : prog E unit -> Prop).

Lemma pool_call_sub w ps tr A (c : E A) k L :
  Vis c k :: L ⊆+ ps ->
  exists ps' tr', pool_step h starts (mkConfig w ps tr) (mkConfig (h A c w).1 ps' tr') /\
    k (h A c w).2 :: L ⊆+ ps'.
Proof.
  intros [rest Hperm]%submseteq_Permutation.
  assert (Hin : Vis c k ∈ ps) by (rewrite Hperm; left).
  apply list_elem_of_split in Hin as (l1 & l2 & ->).
  exists (<[length l1 := k (h A c w).2]> (l1 ++ Vis c k :: l2)). eexists. split.
  - apply pool_call. by apply list_lookup_middle.
  - rewrite insert_app_r_alt, Nat.sub_diag by done. simpl in *.
    rewrite <- !Permutation_middle in *. apply submseteq_skip.
    apply Permutation_cons_inv in Hperm. rewrite Hperm. apply submseteq_inserts_r. done.
Qed.

Lemma pool_start_sub w ps tr p L :
  starts p -> L ⊆+ ps ->
  exists ps' tr', pool_step h starts (mkConfig w ps tr) (mkConfig w ps' tr') /\
    p :: L ⊆+ ps'.
Proof.
  intros Hp Hsub. exists (ps ++ [p]), tr. split; [by constructor|].
  rewrite <- Permutation_cons_append. by apply submseteq_skip.
Qed.
End threads.

(** The goroutines [f x] of every [x] of a list. *)
Section flights.
Context {A B : Type} (f : A -> list B).

Lemma flight_perm (l : list A) i x :
  l !! i = Some x -> concat (f <$> l) ≡ₚ f x ++ concat (f <$> delete i l).
Proof.
  intros (l1 & l2 & -> & ->)%list_elem_of_split_length. rewrite delete_middle.
  rewrite !fmap_app, !concat_app, fmap_cons. simpl. by rewrite Permutation_app_swap_app.
Qed.

Lemma flight_insert_perm (l : list A) i x y :
  l !! i = Some x -> concat (f <$> <[i := y]> l) ≡ₚ f y ++ concat (f <$> delete i l).
Proof.
  intros (l1 & l2 & -> & ->)%list_elem_of_split_length.
  rewrite delete_middle, insert_app_r_alt, Nat.sub_diag by done. cbn [insert list_insert].
  rewrite !fmap_app, !concat_app, fmap_cons. simpl. by rewrite Permutation_app_swap_app.
Qed.

Lemma flight_delete (l : list A) i : concat (f <$> delete i l) ⊆+ concat (f <$> l).
Proof.
  revert i. induction l as [|x l IH]; intros [|i]; [done|done| |].
  - by apply submseteq_inserts_l.
  - apply submseteq_skips_l, IH.
Qed.
End flights.

(** ** The refinement *)

Section refinement.
Context {GT : GoText} {J : JSON} {NH : NetHTTP} {PG : Postgres} {X : Type} {EV : Env X}.

(** What a process the application launched looks like at any time. *)
Definition process_ok (p : process) : Prop :=
  match p with
  | WorkerProc w0 p =>
      (exists c deadStream handlers name metrics concurrency batchSize,
         w0 = redis_worker c deadStream handlers name metrics concurrency batchSize) /\
      match pr_control p with
      | Looping q => calls_ok loop_no_sql q /\ returns (same_consumer w0) q
      | Exited _ => True
      end
  | SchedulerProc s0 _ =>
      exists streamName scheduledKey deadStream interval batchSize,
        s0 = redis_scheduler streamName scheduledKey deadStream interval batchSize
  end.

Lemma launched_ok p : launched p -> process_ok p.
Proof.
  intros [c ds hs name mt cc bs w0 | st key ds iv bs s0]; simpl; [|by eauto 10].
  split; [by eauto 10|]. split.
  - by split.
  - by intros [u|e].
Qed.

Lemma worker_step_ok w0 w p w' p' :
  process_ok (WorkerProc w0 p) -> proc_step w0 (w, p) (w', p') -> process_ok (WorkerProc w0 p').
Proof.
  intros [Hw0 Hq] Hs. split; [exact Hw0|].
  inversion Hs as [? A c k n gs | ? k n gs Hn | ? k n gs | ? m k n gs | ? w1 n gs | ? w1 r n
    | ? ctl n gs i A c k Hl | ? ctl n gs gs']; subst; cbn [pr_control] in *; try exact Hq; try done.
  1-4: by destruct Hq as [[_ Hk] Hr].
  destruct Hq as [_ Hr]. unfold same_consumer in Hr; simpl in Hr.
  destruct Hw0 as (c & ds & hs & name & mt & cc & bs & ->). split; [eapply run_turn_ok; exact Hr|].
  eapply returns_mono; [|apply run_turn_consumer]. unfold same_consumer. congruence.
Qed.

Definition pool_steps := rtc (pool_step interp (system_starts (GT := GT) (J := J) (NH := NH))).

Lemma handle_starts w0 p m :
  process_ok (WorkerProc w0 p) -> system_starts (in_background (handleMessage w0 m)).
Proof. intros [(c & ds & hs & name & mt & cc & bs & ->) _]. constructor. Qed.

(** A call of the worker's loop is that of a goroutine of its own. *)
Lemma pool_loop_call w ps tr A (c : Call A) L :
  no_sql A c -> L ⊆+ ps ->
  exists ps' tr', pool_steps (mkConfig w ps tr) (mkConfig (interp A c w).1 ps' tr') /\
    L ⊆+ ps'.
Proof.
  intros Hc Hsub.
  destruct (pool_start_sub interp system_starts w ps tr _ L (starts_other A c Hc) Hsub)
    as (ps1 & tr1 & Hs1 & Hsub1).
  destruct (pool_call_sub interp system_starts w ps1 tr1 A c _ L Hsub1)
    as (ps2 & tr2 & Hs2 & Hsub2).
  exists ps2, tr2. split; [by eapply rtc_l, rtc_once|].
  etrans; [|exact Hsub2]. by apply submseteq_cons.
Qed.

Lemma insert_perm {A} (l : list A) i x y : l !! i = Some x -> <[i := y]> l ≡ₚ y :: delete i l.
Proof.
  intros (l1 & l2 & -> & ->)%list_elem_of_split_length.
  rewrite insert_app_r_alt, Nat.sub_diag, delete_middle by done. simpl.
  by rewrite Permutation_middle.
Qed.

(** [p']'s goroutines, with any others [L], are goroutines of a pool that the
    pool at hand can step to. *)
Definition simulated (w : World X) (ps : list (prog Call unit)) tr (w' : World X) p' L : Prop :=
  exists ps' tr', pool_steps (mkConfig w ps tr) (mkConfig w' ps' tr') /\
    in_flight p' ++ L ⊆+ ps'.

Lemma simulated_idle w ps tr p' L : in_flight p' ++ L ⊆+ ps -> simulated w ps tr w p' L.
Proof. intros H. exists ps, tr. by split. Qed.

Lemma worker_simulated w0 w p w' p' ps tr L :
  process_ok (WorkerProc w0 p) -> proc_step w0 (w, p) (w', p') ->
  in_flight (WorkerProc w0 p) ++ L ⊆+ ps ->
  simulated w ps tr w' (WorkerProc w0 p') L.
Proof.
  intros Hok Hs Hsub. simpl in Hsub.
  inversion Hs as [? A c k n gs | ? k n gs Hn | ? k n gs | ? m k n gs | ? w1 n gs | ? w1 r n
    | ? ctl n gs i A c k Hl | ? ctl n gs gs']; subst; cbn [pr_flight] in *;
    try (by apply simulated_idle).
  - destruct Hok as [_ [[Hc _] _]]. exact (pool_loop_call w ps tr A c _ Hc Hsub).
  - destruct (pool_start_sub interp system_starts w' ps tr _ _ (handle_starts _ _ m Hok) Hsub)
      as (ps1 & tr1 & Hs1 & Hsub1).
    exists ps1, tr1. split; [by apply rtc_once|]. simpl.
    by rewrite <- Permutation_cons_append.
  - rewrite (delete_Permutation _ _ _ Hl) in Hsub.
    destruct (pool_call_sub interp system_starts w ps tr A c k _ Hsub) as (ps1 & tr1 & Hs1 & Hsub1).
    exists ps1, tr1. split; [by apply rtc_once|]. simpl. by rewrite (insert_perm _ _ _ _ Hl).
  - apply simulated_idle. simpl. etrans; [|exact Hsub]. rewrite <- !app_assoc.
    apply submseteq_skips_l. simpl. by apply submseteq_cons.
Qed.

Lemma scheduler_simulated s0 w p w' p' ps tr L :
  process_ok (SchedulerProc s0 p) -> sched_step s0 (w, p) (w', p') ->
  in_flight (SchedulerProc s0 p) ++ L ⊆+ ps ->
  simulated w ps tr w' (SchedulerProc s0 p') L.
Proof.
  intros Hok Hs Hsub. inversion Hs as [? A c k | ? r | ? | ? | ? A c k | ? r]; subst.
  1, 5: destruct (pool_call_sub interp system_starts w ps tr A c (fun x => in_background (k x)) L)
    as (ps1 & tr1 & Hs1 & Hsub1); [exact Hsub|]; exists ps1, tr1; split; [by apply rtc_once | done].
  - apply simulated_idle. assert (HL : L ⊆+ ps)
      by (etrans; [|exact Hsub]; by apply submseteq_cons).
    destruct r; [|done]. unfold newTicker. by destruct (_ <=? 0).
  - destruct Hok as (st & key & ds & iv & bs & ->).
    destruct (pool_start_sub interp system_starts w' ps tr _ L
      (starts_tick st key ds iv bs) Hsub) as (ps1 & tr1 & Hs1 & Hsub1).
    exists ps1, tr1. split; [by apply rtc_once | exact Hsub1].
  - by apply simulated_idle.
  - apply simulated_idle. etrans; [|exact Hsub]. by apply submseteq_cons.
Qed.
Lemma process_simulated w p w' p' ps tr L :
  process_ok p -> process_step (w, p) (w', p') -> in_flight p ++ L ⊆+ ps ->
  process_ok p' /\ simulated w ps tr w' p' L.
Proof.
  intros Hok Hs Hsub. inversion Hs as [w0 ? q ? q' Hq | s0 ? q ? q' Hq]; subst.
  - split; [by eapply worker_step_ok | by eapply worker_simulated].
  - split; [exact Hok | by eapply scheduler_simulated].
Qed.

Definition cluster_inv (w : World X) (cl : cluster X) : Prop :=
  Forall process_ok (cl_processes cl) /\
  exists ps tr, pool_steps (mkConfig w [] []) (mkConfig (cl_world cl) ps tr) /\
    cluster_flight cl ⊆+ ps.

Lemma cluster_inv_step w cl cl' : cluster_inv w cl -> cluster_step cl cl' -> cluster_inv w cl'.
Proof.
  unfold cluster_inv, cluster_flight. intros (Hok & ps & tr & Hr & Hsub) Hs.
  destruct Hs as [v procs rs p Hp | v v' procs rs i p p' Hi Hp | v procs rs i
    | v procs rs p Hp | v procs rs i A c k Hi]; cbn [cl_world cl_processes cl_requests] in *.
  - pose proof (launched_ok p Hp) as Hpok. split; [by apply Forall_app; split; [|constructor]|].
    rewrite fmap_app, concat_app. cbn [fmap list_fmap concat]. rewrite app_nil_r.
    destruct Hp as [c ds hs name mt cc bs w0 | st key ds iv bs s0].
    + exists ps, tr. split; [exact Hr|]. by rewrite app_nil_r.
    + destruct (pool_start_sub interp system_starts v ps tr _ _ (starts_tick st key ds iv bs) Hsub)
        as (ps1 & tr1 & Hs1 & Hsub1).
      exists ps1, tr1. split; [by eapply rtc_r|]. etrans; [|exact Hsub1].
      rewrite <- app_assoc. cbn [in_flight sched_start app]. by rewrite Permutation_middle.
  - rewrite (flight_perm _ _ _ _ Hi), <- app_assoc in Hsub.
    destruct (process_simulated v p v' p' ps tr _ (Forall_lookup_1 _ _ _ _ Hok Hi) Hp Hsub)
      as (Hok' & ps1 & tr1 & Hs1 & Hsub1).
    split; [by apply Forall_insert|]. exists ps1, tr1. split; [by etrans|].
    by rewrite (flight_insert_perm _ _ _ _ _ Hi), <- app_assoc.
  - split; [by apply Forall_delete|]. exists ps, tr. split; [exact Hr|].
    etrans; [|exact Hsub]. by apply submseteq_skips_r, flight_delete.
  - split; [exact Hok|].
    destruct (pool_start_sub interp system_starts v ps tr _ _ Hp Hsub) as (ps1 & tr1 & Hs1 & Hsub1).
    exists ps1, tr1. split; [by eapply rtc_r|].
    by rewrite app_assoc, <- Permutation_cons_append.
  - split; [exact Hok|].
    rewrite (delete_Permutation _ _ _ Hi), <- Permutation_middle in Hsub.
    destruct (pool_call_sub interp system_starts v ps tr A c k _ Hsub) as (ps1 & tr1 & Hs1 & Hsub1).
    exists ps1, tr1. split; [by eapply rtc_r|].
    by rewrite (insert_perm _ _ _ _ Hi), <- Permutation_middle.
Qed.

(** The processes refine the pool. Start any number of workers,
    schedulers and API servers, at any times, let each run its loop as the
    code does (slots of the semaphore, pending recovery, waits, tickers),
    kill any of them at any time, and interleave all of it call by call: the
    world they reach is one that the pool of goroutines reaches, with every
    message being handled, every running tick and every request being served
    a goroutine of that pool. So what is proved of all pools of
    [system_starts] holds of the application's processes. *)
Theorem cluster_refines_pool (w : World X) (cl : cluster X) :
  rtc cluster_step (mkCluster w [] []) cl ->
  exists ps tr,
    rtc (pool_step interp system_starts) (mkConfig w [] []) (mkConfig (cl_world cl) ps tr) /\
    cluster_flight cl ⊆+ ps.
Proof.
  intros Hs.
  assert (H : cluster_inv w (mkCluster w [] [])) by (split; [constructor | by exists [], []]).
  revert H. induction Hs as [cl | c1 c2 c3 H12 _ IH]; [by intros [_ H]|].
  intros H. apply IH. by eapply cluster_inv_step.
Qed.
End refinement.
