(* ===== verification/Runtime.v ===== *)
(** * The application

    [App.Run] of src/internal/app/app.go and [main] of
    src/cmd/gotaskqueue/main.go: connect, build the components, start the
    three runners, wait for the first of them (or the signal) and shut down.
    The main goroutine is a program over its own calls ([AppCall]); the whole
    process, runners and goroutines included, is in Deployment.v. *)

From S2P Require Import Prelude GoStd Errors Task Effects Table Metrics Calls Store.
From S2P Require Import Lifecycle Queue Service Handlers Worker Scheduler Statements Http Server.
From S2P Require Import Config Dependencies App Pool System Loop Processes.
Local Open Scope Z_scope.

Inductive runner := ServerRunner | WorkerRunner | SchedulerRunner.

Definition runner_eqb (r r' : runner) : bool :=
  match r, r' with
  | ServerRunner, ServerRunner | WorkerRunner, WorkerRunner
  | SchedulerRunner, SchedulerRunner => true
  | _, _ => false
  end.

Definition mem (r : runner) (l : list runner) : bool := existsb (runner_eqb r) l.

(** What the main goroutine does besides the calls to the client libraries:
    [go] with a runner, its two kinds of [select], cancelling the context of
    the runners, making the context with the deadline of [shutdownTimeout],
    and [Server.Shutdown]. *)
Inductive AppCall : Type -> Type :=
| Dep (A : Type) (c : DepCall A) : AppCall A
| Go (r : runner) : AppCall unit
| SelectFirst : AppCall (option (runner * option error))     (* None: ctx.Done() *)
| CancelRunners : AppCall unit
| WithShutdownTimeout : AppCall unit
| ServerShutdown : AppCall (option error)
| SelectRunner (r : runner) : AppCall (option (option error)). (* None: the deadline *)
Arguments Dep {A} c.

Definition dep {A} (m : prog DepCall A) : prog AppCall A := translate (fun A c => Dep c) m.

(** [waitForRunner]: what it receives is only logged. *)
Definition waitForRunner (r : runner) : prog AppCall unit :=
  _ ← call (SelectRunner r); Ret tt.

(** The error the first event leaves for [Run] to return. *)
Definition early_error (first : option (runner * option error)) : option error :=
  match first with
  | None => None
  | Some (ServerRunner, Some e) => if errors_Is e ErrServerClosed then None else Some e
  | Some (_, err) => err
  end.

Definition done_first (first : option (runner * option error)) (r : runner) : bool :=
  match first with Some (r', _) => runner_eqb r r' | None => false end.

(** From the start of the runners on. *)
Definition run_runners : prog AppCall (result unit) :=
  _ ← call (Go ServerRunner);
  _ ← call (Go WorkerRunner);
  _ ← call (Go SchedulerRunner);
  first ← call SelectFirst;
  _ ← call CancelRunners;
  _ ← call WithShutdownTimeout;
  _ ← call ServerShutdown;
  _ ← (if done_first first ServerRunner then Ret tt else waitForRunner ServerRunner);
  _ ← (if done_first first WorkerRunner then Ret tt else waitForRunner WorkerRunner);
  _ ← (if done_first first SchedulerRunner then Ret tt else waitForRunner SchedulerRunner);
  _ ← call CancelRunners;                                   (* deferred *)
  Ret (match early_error first with None => Ok tt | Some e => Err e end).

Section run.
Context {GT : GoText} {WL : WebhookLib}.

(** [App.Run]. The components themselves are those of App.v. *)
Definition Run (cfg : Config) : prog AppCall (result unit) :=
  deps ← dep (Connect cfg);
  match deps with
  | Err e => Ret (Err e)
  | Ok deps =>
      r ← match handlerRegistry with
          | Err e => Ret (Err e)
          | Ok _ => run_runners
          end;
      _ ← dep (Close (Some deps));                          (* deferred *)
      Ret r
  end.

(** [main]: the exit status. *)
Definition main (getenv : Environ) : prog AppCall Z :=
  r ← Run (Load getenv);
  Ret (match r with Ok _ => 0 | Err _ => 1 end).
End run.

(** ** The discipline of the main goroutine

    What it holds and has done: the monitor of its calls. *)
Record app_trace := mkAppTrace {
  at_redis : bool;             (* the client is open *)
  at_postgres : bool;          (* the pool is open *)
  at_started : list runner;
  at_exited : list runner;     (* received from *)
  at_first : option (option (runner * option error));
  at_cancelled : bool;         (* the runners' context *)
  at_shutdown : option bool;   (* Server.Shutdown has returned, without an error? *)
  at_timeout : bool;           (* the deadline was met in a wait *)
}.

Definition app_trace0 : app_trace := mkAppTrace false false [] [] None false None false.

Definition set_redis (b : bool) (t : app_trace) : app_trace :=
  mkAppTrace b (at_postgres t) (at_started t) (at_exited t) (at_first t) (at_cancelled t)
    (at_shutdown t) (at_timeout t).
Definition set_postgres (b : bool) (t : app_trace) : app_trace :=
  mkAppTrace (at_redis t) b (at_started t) (at_exited t) (at_first t) (at_cancelled t)
    (at_shutdown t) (at_timeout t).
Definition add_started (r : runner) (t : app_trace) : app_trace :=
  mkAppTrace (at_redis t) (at_postgres t) (r :: at_started t) (at_exited t) (at_first t)
    (at_cancelled t) (at_shutdown t) (at_timeout t).
Definition add_exited (r : runner) (t : app_trace) : app_trace :=
  mkAppTrace (at_redis t) (at_postgres t) (at_started t) (r :: at_exited t) (at_first t)
    (at_cancelled t) (at_shutdown t) (at_timeout t).
Definition set_first (first : option (runner * option error)) (t : app_trace) : app_trace :=
  mkAppTrace (at_redis t) (at_postgres t) (at_started t) (at_exited t) (Some first)
    (at_cancelled t) (at_shutdown t) (at_timeout t).
Definition set_cancelled (t : app_trace) : app_trace :=
  mkAppTrace (at_redis t) (at_postgres t) (at_started t) (at_exited t) (at_first t) true
    (at_shutdown t) (at_timeout t).
Definition set_shutdown (b : bool) (t : app_trace) : app_trace :=
  mkAppTrace (at_redis t) (at_postgres t) (at_started t) (at_exited t) (at_first t)
    (at_cancelled t) (Some b) (at_timeout t).
Definition set_timeout (t : app_trace) : app_trace :=
  mkAppTrace (at_redis t) (at_postgres t) (at_started t) (at_exited t) (at_first t)
    (at_cancelled t) (at_shutdown t) true.

(** Every runner has been heard of. *)
Definition all_exited (t : app_trace) : bool :=
  forallb (fun r => mem r (at_exited t)) (at_started t).

Definition is_shut (t : app_trace) : bool :=
  match at_shutdown t with Some _ => true | None => false end.

Definition all_started (t : app_trace) : bool :=
  forallb (fun r => mem r (at_started t)) [ServerRunner; WorkerRunner; SchedulerRunner].

(** Connections may be closed only once no runner can use them any more, or
    the deadline has been met. *)
Definition may_close (t : app_trace) : bool :=
  match at_started t with
  | [] => true
  | _ => is_shut t && (all_exited t || at_timeout t)
  end.

Definition guard (b : bool) (t : app_trace) : option app_trace := if b then Some t else None.

(** Started, and not received from: its channel may still give a value. *)
Definition pending_runner (r : runner) (t : app_trace) : bool :=
  mem r (at_started t) && negb (mem r (at_exited t)).

Definition dep_step (t : app_trace) {A} (c : DepCall A) : A -> option app_trace :=
  match c in DepCall A return A -> option app_trace with
  | RedisNewClient _ => fun _ => guard (negb (at_redis t)) (set_redis true t)
  | RedisPing => fun _ => guard (at_redis t) t
  | RedisClose => fun _ => guard (at_redis t && may_close t) (set_redis false t)
  | PgxpoolNew _ => fun r => guard (negb (at_postgres t)) (set_postgres (is_Ok r) t)
  | PostgresPing => fun _ => guard (at_postgres t) t
  | PostgresClose => fun _ => guard (at_postgres t && may_close t) (set_postgres false t)
  end.

Definition app_trace_step (t : app_trace) (e : event AppCall) : option app_trace :=
  match e with
  | Ev c x =>
      match c in AppCall A return A -> option app_trace with
      | Dep c => dep_step t c
      | Go r => fun _ =>
          guard (at_redis t && at_postgres t && negb (mem r (at_started t)))
            (add_started r t)
      | SelectFirst => fun first =>
          match first with
          | Some (r, _) => guard (pending_runner r t) (set_first first (add_exited r t))
          | None => Some (set_first first t)
          end
      | CancelRunners => fun _ => Some (set_cancelled t)
      | WithShutdownTimeout => fun _ => guard (negb (at_timeout t)) t
      | ServerShutdown => fun err =>
          guard (at_cancelled t && all_started t)
            (set_shutdown (match err with None => true | Some _ => false end) t)
      | SelectRunner r => fun err =>
          guard (is_shut t && pending_runner r t)
            (match err with Some _ => add_exited r t | None => set_timeout t end)
      end x
  end.

(** [completes m t a]: [m] can make exactly the calls of [t], with the
    answers of [t], and then returns [a]. *)
Inductive completes {E A} : prog E A -> list (event E) -> A -> Prop :=
| completes_ret a : completes (Ret a) [] a
| completes_call X (c : E X) k x t a : completes (k x) t a -> completes (Vis c k) (Ev c x :: t) a.

Lemma completes_wlp {E S A} (step : S -> event E -> option S) (m : prog E A) Q s t a :
  wlp step m Q s -> completes m t a -> exists s', observe step s t = Some s' /\ Q s' a.
Proof.
  intros Hm Ht. revert s Hm. induction Ht as [a | X c k x t a _ IH]; intros s Hm.
  - by exists s.
  - specialize (Hm x). cbn. destruct (step s (Ev c x)) as [s'|]; [by apply IH | done].
Qed.

Section discipline.
Context {GT : GoText} {WL : WebhookLib}.

(** How the exit of [Run] must look. *)
Definition run_post (t : app_trace) (r : result unit) : Prop :=
  at_redis t = false /\ at_postgres t = false /\
  match at_first t with
  | None => at_started t = [] /\ exists e, r = Err e
  | Some first =>
      at_cancelled t = true /\ is_shut t = true /\
      (all_exited t = true \/ at_timeout t = true) /\
      r = match early_error first with None => Ok tt | Some e => Err e end
  end.

Lemma wlp_wait {A} r (k : prog AppCall A) Q t :
  is_shut t && pending_runner r t = true ->
  wlp app_trace_step k Q (add_exited r t) -> wlp app_trace_step k Q (set_timeout t) ->
  wlp app_trace_step (_ ← waitForRunner r; k) Q t.
Proof.
  intros Hg H1 H2 x. cbn [app_trace_step]. unfold guard. rewrite Hg. by destruct x.
Qed.

Lemma wlp_close {A} (r : A) (Q : app_trace -> A -> Prop) t :
  at_redis t = true -> at_postgres t = true -> may_close t = true ->
  Q (set_postgres false (set_redis false t)) r ->
  wlp app_trace_step (_ ← dep (Close (Some (mkDependencies true true))); Ret r) Q t.
Proof.
  intros Hr Hp Hc HQ x. cbn [app_trace_step dep_step]. rewrite Hr, Hc. cbn.
  intros []. cbn. assert (Hc' : may_close (set_redis false t) = true) by exact Hc.
  by rewrite Hp, Hc'.
Qed.

(** When the runners have been waited for, before the deferred closing. *)
Definition stopped_post (t : app_trace) (r : result unit) : Prop :=
  at_redis t = true /\ at_postgres t = true /\ may_close t = true /\ at_cancelled t = true /\
  is_shut t = true /\ (all_exited t = true \/ at_timeout t = true) /\
  exists first, at_first t = Some first /\
    r = match early_error first with None => Ok tt | Some e => Err e end.

Lemma wlp_waits first t b :
  t = mkAppTrace true true [SchedulerRunner; WorkerRunner; ServerRunner]
        match first with Some (r, _) => [r] | None => [] end (Some first) true (Some b) false ->
  wlp app_trace_step
    (_ ← (if done_first first ServerRunner then Ret tt else waitForRunner ServerRunner);
     _ ← (if done_first first WorkerRunner then Ret tt else waitForRunner WorkerRunner);
     _ ← (if done_first first SchedulerRunner then Ret tt else waitForRunner SchedulerRunner);
     _ ← call CancelRunners;
     Ret (match early_error first with None => Ok tt | Some e => Err e end)) stopped_post t.
Proof.
  intros ->. destruct first as [[[] err]|]; cbn [done_first runner_eqb].
  all: change (_ ← Ret tt; ?k) with k; repeat (apply wlp_wait; [reflexivity| |]);
    change (_ ← Ret tt; ?k) with k; repeat (apply wlp_wait; [reflexivity| |]).
  all: intros []; cbn -[early_error]; repeat (split; [reflexivity|]);
    (split; [by auto|]); by eexists.
Qed.

Lemma run_runners_wlp :
  wlp app_trace_step run_runners stopped_post (set_postgres true (set_redis true app_trace0)).
Proof.
  intros [] [] [] first. destruct first as [[[] err]|]; intros [] [] err2;
    by eapply wlp_waits.
Qed.

Lemma run_wlp cfg : wlp app_trace_step (Run cfg) run_post app_trace0.
Proof.
  unfold Run. rewrite handlerRegistry_ok.
  intros [] [e|]; [by intros ?; repeat (split; [done|]); eexists|].
  intros [[]|e]; [|by intros ?; repeat (split; [done|]); eexists].
  intros [e|]; [by intros ? ?; repeat (split; [done|]); eexists|].
  apply (wlp_bind _ _ run_runners). eapply wlp_mono; [|exact run_runners_wlp].
  intros t r (Hr & Hp & Hm & Hc & Hs & He & first & Hf & ->). apply wlp_close; try done.
  repeat (split; [done|]). cbn. by rewrite Hf.
Qed.

(** C15: what [Run] does, from start to end, whatever every call answers. A
    connection is used and closed only while it is open, and each is closed
    by the end, on every path; the runners are started once each, after both
    connections are open; [Server.Shutdown] comes after their context is
    cancelled; each runner's channel is received from at most once; nothing
    is closed before all runners have been heard of, or the deadline. [Run]
    returns an error exactly if it could not connect, and then starts
    nothing, or if the first runner to return did so with an error other
    than [http.ErrServerClosed] from the server. *)
Theorem Run_outcome cfg t r :
  completes (Run cfg) t r ->
  exists s, observe app_trace_step app_trace0 t = Some s /\ run_post s r.
Proof. apply completes_wlp, run_wlp. Qed.
End discipline.
