(* ===== verification/Deployment.v ===== *)
(** * The process, and deployments

    The whole process of the application as a step relation: the main
    goroutine of Runtime.v, the HTTP server with the requests it is serving,
    the worker of Loop.v and the scheduler of Processes.v; and deployments of
    any number of such processes. What a process does when it shuts down
    ([drained_before_close]); and every execution of a deployment is one of
    the goroutine pool of System.v ([deployment_refines_pool]). *)

From S2P Require Import Prelude GoStd Errors Task Effects Table Metrics Calls Store.
From S2P Require Import Lifecycle Queue Service Handlers Worker Scheduler Statements Http Server.
From S2P Require Import Config Dependencies App Pool System Loop Processes Runtime.
Local Open Scope Z_scope.

(** [Server.Run]: not started, in [ListenAndServe], or returned. *)
Inductive server_state :=
| NotServing
| Serving
| ServerExited (e : error).

Record app := mkApp {
  ap_main : prog AppCall Z;
  ap_redis : bool;                        (* the connections are open *)
  ap_postgres : bool;
  ap_server : server_state;
  ap_requests : list (prog Call unit);    (* being served *)
  ap_worker : option proc;
  ap_scheduler : option sched_proc;
  ap_forced : bool;                       (* Server.Shutdown returned an error *)
  ap_deadline : bool;                     (* a wait for a runner met the deadline *)
}.

Definition with_main (m : prog AppCall Z) (a : app) : app :=
  mkApp m (ap_redis a) (ap_postgres a) (ap_server a) (ap_requests a) (ap_worker a)
    (ap_scheduler a) (ap_forced a) (ap_deadline a).
Definition with_server (s : server_state) (a : app) : app :=
  mkApp (ap_main a) (ap_redis a) (ap_postgres a) s (ap_requests a) (ap_worker a)
    (ap_scheduler a) (ap_forced a) (ap_deadline a).
Definition with_requests (rs : list (prog Call unit)) (a : app) : app :=
  mkApp (ap_main a) (ap_redis a) (ap_postgres a) (ap_server a) rs (ap_worker a)
    (ap_scheduler a) (ap_forced a) (ap_deadline a).
Definition with_worker (p : proc) (a : app) : app :=
  mkApp (ap_main a) (ap_redis a) (ap_postgres a) (ap_server a) (ap_requests a) (Some p)
    (ap_scheduler a) (ap_forced a) (ap_deadline a).
Definition with_scheduler (p : sched_proc) (a : app) : app :=
  mkApp (ap_main a) (ap_redis a) (ap_postgres a) (ap_server a) (ap_requests a) (ap_worker a)
    (Some p) (ap_forced a) (ap_deadline a).
Definition with_open (redis postgres : bool) (a : app) : app :=
  mkApp (ap_main a) redis postgres (ap_server a) (ap_requests a) (ap_worker a)
    (ap_scheduler a) (ap_forced a) (ap_deadline a).
Definition with_forced (b : bool) (a : app) : app :=
  mkApp (ap_main a) (ap_redis a) (ap_postgres a) (ap_server a) (ap_requests a) (ap_worker a)
    (ap_scheduler a) b (ap_deadline a).
Definition with_deadline (a : app) : app :=
  mkApp (ap_main a) (ap_redis a) (ap_postgres a) (ap_server a) (ap_requests a) (ap_worker a)
    (ap_scheduler a) (ap_forced a) true.

Definition error_of (r : result unit) : option error :=
  match r with Ok _ => None | Err e => Some e end.

(** What a runner that has returned sends to its channel (which has room for
    it); a goroutine that receives from it gets this value. *)
Definition runner_exit (a : app) (r : runner) : option (option error) :=
  match r with
  | ServerRunner => match ap_server a with ServerExited e => Some (Some e) | _ => None end
  | WorkerRunner =>
      match ap_worker a with
      | Some p => match pr_control p with Exited r => Some (error_of r) | _ => None end
      | None => None
      end
  | SchedulerRunner =>
      match ap_scheduler a with Some (Stopped r) => Some (error_of r) | _ => None end
  end.

(** Opening and closing: the state after the call, given its answer. *)
Definition dep_effect (a : app) {A} (c : DepCall A) : A -> app :=
  match c in DepCall A return A -> app with
  | RedisNewClient _ => fun _ => with_open true (ap_postgres a) a
  | RedisClose => fun _ => with_open false (ap_postgres a) a
  | PgxpoolNew _ => fun r => with_open (ap_redis a) (is_Ok r) a
  | PostgresClose => fun _ => with_open (ap_redis a) false a
  | RedisPing | PostgresPing => fun _ => a
  end.

Section process.
Context {GT : GoText} {WL : WebhookLib} {J : JSON} {NH : NetHTTP}.
Context {PG : Postgres} {X : Type} {EV : Env X}.
Context (cfg : Config).

Definition app_worker : Worker := workerRunner cfg app_handlers.
Definition app_scheduler : Scheduler := schedulerRunner cfg.
Definition app_serve (req : request) : prog Call response :=
  serve (service_HttpStore (taskService cfg)) (Some (Some MetricsSnapshot)) req.

Definition go (r : runner) (a : app) : app :=
  match r with
  | ServerRunner => with_server Serving a
  | WorkerRunner => with_worker (start app_worker) a
  | SchedulerRunner => with_scheduler (sched_start app_scheduler) a
  end.

(** One step of the main goroutine. [Server.Shutdown] first closes the
    listener, upon which [Server.Run] returns; it returns [nil] when no
    request is being served any more, or an error, at the latest at the
    deadline. *)
Inductive main_step : app -> app -> Prop :=
| main_dep a A (c : DepCall A) k x :
    ap_main a = Vis (Dep c) k -> main_step a (with_main (k x) (dep_effect a c x))
| main_go a r k :
    ap_main a = Vis (Go r) k -> main_step a (with_main (k tt) (go r a))
| main_signal a k :
    ap_main a = Vis SelectFirst k -> main_step a (with_main (k None) a)
| main_first a r err k :
    ap_main a = Vis SelectFirst k -> runner_exit a r = Some err ->
    main_step a (with_main (k (Some (r, err))) a)
| main_cancel a k :
    ap_main a = Vis CancelRunners k -> main_step a (with_main (k tt) a)
| main_timeout a k :
    ap_main a = Vis WithShutdownTimeout k -> main_step a (with_main (k tt) a)
| main_shutdown_begin a k :
    ap_main a = Vis ServerShutdown k -> ap_server a = Serving ->
    main_step a (with_server (ServerExited (Sentinel ErrServerClosed)) a)
| main_shutdown a e k :
    ap_main a = Vis ServerShutdown k -> ap_server a = ServerExited e -> ap_requests a = [] ->
    main_step a (with_main (k None) a)
| main_shutdown_error a e err k :
    ap_main a = Vis ServerShutdown k -> ap_server a = ServerExited e ->
    main_step a (with_main (k (Some err)) (with_forced true a))
| main_received a r err k :
    ap_main a = Vis (SelectRunner r) k -> runner_exit a r = Some err ->
    main_step a (with_main (k (Some err)) a)
| main_deadline a r k :
    ap_main a = Vis (SelectRunner r) k ->
    main_step a (with_main (k None) (with_deadline a)).

(** One step of another goroutine. *)
Inductive background_step : World X * app -> World X * app -> Prop :=
| request_arrives w a req :
    ap_server a = Serving ->
    background_step (w, a)
      (w, with_requests (ap_requests a ++ [in_background (app_serve req)]) a)
| request_step w a i A (c : Call A) k :
    ap_requests a !! i = Some (Vis c k) ->
    background_step (w, a)
      ((interp A c w).1, with_requests (<[i := k (interp A c w).2]> (ap_requests a)) a)
| request_done w a i :
    ap_requests a !! i = Some (Ret tt) ->
    background_step (w, a) (w, with_requests (delete i (ap_requests a)) a)
| server_fails w a e :
    ap_server a = Serving -> background_step (w, a) (w, with_server (ServerExited e) a)
| worker_background w w' a p p' :
    ap_worker a = Some p -> proc_step app_worker (w, p) (w', p') ->
    background_step (w, a) (w', with_worker p' a)
| scheduler_background w w' a p p' :
    ap_scheduler a = Some p -> sched_step app_scheduler (w, p) (w', p') ->
    background_step (w, a) (w', with_scheduler p' a).

(** The process is gone once [main] has returned. *)
Definition alive (a : app) : Prop := match ap_main a with Ret _ => False | Vis _ _ => True end.

Inductive app_step : World X * app -> World X * app -> Prop :=
| step_main w a a' : main_step a a' -> app_step (w, a) (w, a')
| step_background s s' : alive s.2 -> background_step s s' -> app_step s s'.
End process.

(** A process is started with its environment variables. *)
Definition launch {GT : GoText} {WL : WebhookLib} (getenv : Environ) : app :=
  mkApp (main getenv) false false NotServing [] None None false false.

(** ** Draining *)

Lemma wlp_next {E S A} (step : S -> event E -> option S) B (c : E B) (k : B -> prog E A) Q s x :
  wlp step (Vis c k) Q s -> exists s', step s (Ev c x) = Some s' /\ wlp step (k x) Q s'.
Proof.
  intros H. specialize (H x). destruct (step s (Ev c x)) as [s'|] eqn:E1; [|done]. by exists s'.
Qed.

Lemma guard_Some b t t' : guard b t = Some t' -> b = true /\ t' = t.
Proof. unfold guard. destruct b; [|done]. by intros [= <-]. Qed.

Lemma mem_cons r r' l : mem r (r' :: l) = runner_eqb r r' || mem r l.
Proof. done. Qed.

(** Whether a runner has been started. *)
Definition started (a : app) (r : runner) : bool :=
  match r with
  | ServerRunner => match ap_server a with NotServing => false | _ => true end
  | WorkerRunner => match ap_worker a with None => false | Some _ => true end
  | SchedulerRunner => match ap_scheduler a with None => false | Some _ => true end
  end.

Definition shutdown_ok (b : option bool) (a : app) : Prop :=
  match b with
  | None => True
  | Some clean => is_Some (runner_exit a ServerRunner) /\
                  if clean then ap_requests a = [] else ap_forced a = true
  end.

(** Nothing started, or the connections are still open, or they may be closed. *)
Definition trace_ok (t : app_trace) : bool := (at_redis t && at_postgres t) || may_close t.

Section drain.
Context {GT : GoText} {WL : WebhookLib} {J : JSON} {NH : NetHTTP}.
Context {PG : Postgres} {X : Type} {EV : Env X}.

(** The process agrees with the trace of its main goroutine. *)
Record agrees (t : app_trace) (a : app) : Prop := {
  ag_redis : at_redis t = ap_redis a;
  ag_postgres : at_postgres t = ap_postgres a;
  ag_timeout : at_timeout t = ap_deadline a;
  ag_started r : mem r (at_started t) = started a r;
  ag_exited r : mem r (at_exited t) = true -> is_Some (runner_exit a r);
  ag_shutdown : shutdown_ok (at_shutdown t) a;
  ag_trace : trace_ok t = true;
  ag_all : is_shut t = true -> all_started t = true;
}.

Definition main_post (t : app_trace) (status : Z) : Prop :=
  at_redis t = false /\ at_postgres t = false /\
  (status = 0 \/ status = 1).

Definition app_inv (cfg : Config) (a : app) : Prop :=
  (exists t, wlp app_trace_step (ap_main a) main_post t /\ agrees t a) /\
  (forall p, ap_worker a = Some p -> result_inv (app_worker cfg) p).

Lemma launch_inv getenv : app_inv (Load getenv) (launch getenv).
Proof.
  split; [|done]. exists app_trace0. split.
  - unfold launch, main. cbn [ap_main]. apply wlp_bind.
    eapply wlp_mono; [|exact (run_wlp (Load getenv))]. intros t r (Hr & Hp & _).
    split_and!; [done | done|]. destruct r; auto.
  - split; try done; by intros [].
Qed.

Lemma may_close_exited r t : may_close t = true -> may_close (add_exited r t) = true.
Proof.
  unfold may_close, is_shut, all_exited. cbn [at_started at_shutdown at_timeout at_exited add_exited].
  destruct (at_started t) as [|r1 l]; [done|]. intros [-> H]%andb_true_iff. cbn [andb].
  apply orb_true_iff in H as [H | ->]; [|by rewrite orb_true_r]. apply orb_true_iff. left.
  apply forallb_forall. intros r2 Hr2. rewrite forallb_forall in H.
  rewrite mem_cons, (H r2 Hr2). by rewrite orb_true_r.
Qed.

Lemma dep_agrees t t' a A (c : DepCall A) x :
  agrees t a -> dep_step t c x = Some t' -> agrees t' (dep_effect a c x).
Proof.
  intros [Hr Hp Ht Hs He Hsh Hok Hal] Hst.
  destruct c; apply guard_Some in Hst as [Hg ->]; split; try done; try exact Hok;
    unfold trace_ok in *; cbn [at_redis at_postgres set_redis set_postgres] in *.
  - apply negb_true_iff in Hg. rewrite Hg in Hok. cbn in Hok. apply orb_true_iff. by right.
  - apply andb_true_iff in Hg as [_ Hg]. apply orb_true_iff. by right.
  - apply negb_true_iff in Hg. rewrite Hg, andb_false_r in Hok. cbn in Hok.
    apply orb_true_iff. by right.
  - apply andb_true_iff in Hg as [_ Hg]. apply orb_true_iff. by right.
Qed.

(** The runners' exits are for good. *)
Lemma runner_exit_worker w w' a p p' w0 r :
  ap_worker a = Some p -> proc_step (X := X) w0 (w, p) (w', p') ->
  is_Some (runner_exit a r) -> is_Some (runner_exit (with_worker p' a) r).
Proof.
  intros Hp Hs. destruct r; cbn; [done| |done]. rewrite Hp.
  inversion Hs; subst; cbn; try done; by destruct ctl.
Qed.

Lemma runner_exit_scheduler w w' a p p' s0 r :
  ap_scheduler a = Some p -> sched_step (X := X) s0 (w, p) (w', p') ->
  is_Some (runner_exit a r) -> is_Some (runner_exit (with_scheduler p' a) r).
Proof.
  intros Hp Hs. destruct r; cbn; [done|done|]. rewrite Hp. by inversion Hs; subst; cbn.
Qed.

(** Changes that leave alone what the trace tells. *)
Lemma agrees_keep t a a' :
  agrees t a ->
  ap_redis a' = ap_redis a -> ap_postgres a' = ap_postgres a -> ap_deadline a' = ap_deadline a ->
  (forall r, started a' r = started a r) ->
  (forall r, is_Some (runner_exit a r) -> is_Some (runner_exit a' r)) ->
  shutdown_ok (at_shutdown t) a' -> agrees t a'.
Proof.
  intros [Hr Hp Ht Hs He Hsh Hok Hal] H1 H2 H3 H4 H5 H6. split;
    [congruence | congruence | congruence | | | exact H6 | exact Hok | exact Hal].
  - intros r. by rewrite H4.
  - intros r Hm. by apply H5, He.
Qed.

Lemma shutdown_keep b a a' :
  shutdown_ok b a ->
  (is_Some (runner_exit a ServerRunner) -> is_Some (runner_exit a' ServerRunner)) ->
  (is_Some (runner_exit a ServerRunner) -> ap_requests a = [] -> ap_requests a' = []) ->
  ap_forced a' = ap_forced a -> shutdown_ok b a'.
Proof.
  destruct b as [[|]|]; [| |done]; cbn [shutdown_ok]; intros [He Hx] H1 H2 H3.
  - split; [by apply H1 | by apply H2].
  - split; [by apply H1 | congruence].
Qed.

Lemma background_agrees cfg t w a w' a' :
  agrees t a -> background_step (X := X) cfg (w, a) (w', a') -> agrees t a'.
Proof.
  intros Ha Hs. pose proof (ag_shutdown _ _ Ha) as Hsh.
  inversion Hs as [? ? req Hsrv | ? ? i A c k Hi | ? ? i Hi | ? ? e Hsrv
    | ? ? ? p p' Hp Hstep | ? ? ? p p' Hp Hstep]; subst; apply (agrees_keep t a _ Ha); try done.
  - apply (shutdown_keep _ a); try done. cbn. rewrite Hsrv. by intros [].
  - apply (shutdown_keep _ a); try done. cbn [with_requests ap_requests]. intros _ Hn.
    by rewrite Hn in Hi.
  - apply (shutdown_keep _ a); try done. cbn [with_requests ap_requests]. intros _ Hn.
    by rewrite Hn in Hi.
  - intros r. destruct r; cbn; [by rewrite Hsrv | done | done].
  - intros r Hr. destruct r; [by eexists | exact Hr | exact Hr].
  - by apply (shutdown_keep _ a).
  - intros r. destruct r; cbn; [done | by rewrite Hp | done].
  - intros r. by eapply runner_exit_worker.
  - intros r. destruct r; cbn; [done | done | by rewrite Hp].
  - intros r. by eapply runner_exit_scheduler.
Qed.

Lemma background_inv cfg w a w' a' :
  app_inv cfg a -> background_step (X := X) cfg (w, a) (w', a') -> app_inv cfg a'.
Proof.
  intros [(t & Hw & Ha) Hp] Hs. split.
  - exists t. split; [|by eapply background_agrees].
    by inversion Hs; subst.
  - inversion Hs as [| | | | ? ? ? p p' Hpa Hstep |]; subst; cbn [ap_worker with_worker
      with_requests with_server with_scheduler]; try exact Hp.
    intros q [= <-]. eapply result_step; [by apply Hp | exact Hstep].
Qed.

(** The main goroutine goes on: its trace follows. *)
Lemma go_agrees cfg t t' a r x :
  agrees t a -> app_trace_step t (Ev (Go r) x) = Some t' -> agrees t' (go cfg r a).
Proof.
  intros Ha [Hg ->]%guard_Some.
  apply andb_true_iff in Hg as [[Hr Hp]%andb_true_iff Hn].
  destruct Ha as [Har Hap Hat Has Hae Hash Haok Haal]. apply negb_true_iff in Hn. rewrite Has in Hn.
  split; cbn [at_redis at_postgres at_timeout at_started at_exited at_shutdown add_started].
  - by destruct r.
  - by destruct r.
  - by destruct r.
  - intros r'. rewrite mem_cons, Has. by destruct r, r'.
  - intros r' Hm. specialize (Hae r' Hm). destruct r, r'; cbn in *; try done;
      unfold started in Hn; destruct Hae as [? Hx]; by destruct (ap_server a), (ap_worker a),
        (ap_scheduler a).
  - destruct (at_shutdown t) as [b|]; [|done]. destruct Hash as [He Hx].
    destruct r; cbn in *; [by destruct (ap_server a), He | by destruct b | by destruct b].
  - unfold trace_ok. cbn [at_redis at_postgres add_started]. by rewrite Hr, Hp.
  - intros Hsd. specialize (Haal Hsd). unfold all_started in *. rewrite forallb_forall in Haal |- *.
    intros r' Hin. cbn [at_started add_started]. rewrite mem_cons, (Haal r' Hin). apply orb_true_r.
Qed.
Lemma received_agrees t a r err :
  agrees t a -> runner_exit a r = Some err -> agrees (add_exited r t) a.
Proof.
  intros [Hr Hp Ht Hs He Hsh Hok Hal] Hx. split; try done.
  - intros r'. cbn [at_exited add_exited]. rewrite mem_cons. intros [Hm|Hm]%orb_true_iff; [|by apply He].
    assert (r' = r) as -> by (by destruct r, r'). by eexists.
  - unfold trace_ok in *. cbn [at_redis at_postgres add_exited].
    apply orb_true_iff in Hok as [Hok|Hok]; apply orb_true_iff; [by left | right].
    by apply may_close_exited.
Qed.

(** The fields of a trace that [agrees] does not read. *)
Lemma agrees_other t t' a :
  agrees t a -> at_redis t' = at_redis t -> at_postgres t' = at_postgres t ->
  at_timeout t' = at_timeout t -> at_started t' = at_started t -> at_exited t' = at_exited t ->
  at_shutdown t' = at_shutdown t -> agrees t' a.
Proof.
  intros [Hr Hp Ht Hs He Hsh Hok Hal] H1 H2 H3 H4 H5 H6.
  split; [congruence | congruence | congruence | | | by rewrite H6 | |].
  - intros r. by rewrite H4.
  - intros r. rewrite H5. apply He.
  - unfold trace_ok, may_close, is_shut, all_exited in *. by rewrite H1, H2, H3, H4, H5, H6.
  - unfold is_shut, all_started in *. by rewrite H4, H6.
Qed.

Lemma shutdown_agrees t a a' b :
  agrees t a -> ap_redis a' = ap_redis a -> ap_postgres a' = ap_postgres a ->
  ap_deadline a' = ap_deadline a -> (forall r, started a' r = started a r) ->
  (forall r, runner_exit a' r = runner_exit a r) ->
  shutdown_ok (Some b) a' -> all_started t = true -> agrees (set_shutdown b t) a'.
Proof.
  intros [Hr Hp Ht Hs He Hsh Hok Hal] H1 H2 H3 H4 H5 H6 H7.
  split; [cbn; congruence | cbn; congruence | cbn; congruence | | | exact H6 | | by intros _].
  - intros r. rewrite H4. apply Hs.
  - intros r Hm. rewrite H5. by apply He.
  - unfold trace_ok, may_close, is_shut, all_exited in *. cbn. destruct (at_started t); [by rewrite orb_true_r|].
    destruct (at_redis t && at_postgres t); [done|]. by apply andb_true_iff in Hok as [_ Hok].
Qed.

Lemma timeout_agrees t a : agrees t a -> agrees (set_timeout t) (with_deadline a).
Proof.
  intros [Hr Hp Ht Hs He Hsh Hok Hal]. split; try done.
  unfold trace_ok, may_close, is_shut, all_exited in *. cbn. destruct (at_started t); [by rewrite orb_true_r|].
  destruct (at_redis t && at_postgres t); [done|]. apply andb_true_iff in Hok as [Hsd _].
  cbn. by rewrite Hsd, orb_true_r.
Qed.

Lemma with_main_agrees t a m : agrees t a -> agrees t (with_main m a).
Proof. intros Ha. by apply (agrees_keep t a _ Ha); try apply (ag_shutdown _ _ Ha). Qed.

Lemma main_inv cfg a a' : app_inv cfg a -> main_step cfg a a' -> app_inv cfg a'.
Proof.
  intros [(t & Hw & Ha) Hp] Hs.
  assert (Hnext : forall B (c : AppCall B) k x, ap_main a = Vis c k ->
    exists t', app_trace_step t (Ev c x) = Some t' /\ wlp app_trace_step (k x) main_post t').
  { intros B c k x Hm. rewrite Hm in Hw. exact (wlp_next _ _ c k _ _ x Hw). }
  inversion Hs as [? A c k x Hm | ? r k Hm | ? k Hm | ? r err k Hm Hx | ? k Hm | ? k Hm
    | ? k Hm Hsrv | ? e k Hm Hsrv Hreq | ? e err k Hm Hsrv | ? r err k Hm Hx | ? r k Hm]; subst.
  7: { split; [|exact Hp]. exists t. split; [exact Hw|].
       apply (agrees_keep t a _ Ha); try done.
       - intros r. destruct r; cbn; [by rewrite Hsrv | done | done].
       - intros r Hr. destruct r; [by eexists | exact Hr | exact Hr].
       - apply (shutdown_keep _ a); try done; first [apply (ag_shutdown _ _ Ha) | by eexists]. }
  all: (split; [|first [exact Hp | intros q; destruct r; cbn; try apply Hp;
    intros [= <-]; apply run_start_returns | by destruct c]]).
  - destruct (Hnext _ _ _ x Hm) as (t' & Ht' & Hk). exists t'. split; [exact Hk|].
    apply with_main_agrees. by eapply dep_agrees.
  - destruct (Hnext _ _ _ tt Hm) as (t' & Ht' & Hk). exists t'. split; [exact Hk|].
    apply with_main_agrees. by eapply go_agrees.
  - destruct (Hnext _ _ _ None Hm) as (t' & [= <-] & Hk). eexists. split; [exact Hk|].
    apply with_main_agrees. by apply (agrees_other t).
  - destruct (Hnext _ _ _ (Some (r, err)) Hm) as (t' & Ht' & Hk).
    apply guard_Some in Ht' as [_ ->]. eexists. split; [exact Hk|].
    apply with_main_agrees. apply (agrees_other (add_exited r t)); try done.
    by eapply received_agrees.
  - destruct (Hnext _ _ _ tt Hm) as (t' & [= <-] & Hk). eexists. split; [exact Hk|].
    apply with_main_agrees. by apply (agrees_other t).
  - destruct (Hnext _ _ _ tt Hm) as (t' & Ht' & Hk). apply guard_Some in Ht' as [_ ->].
    exists t. split; [exact Hk | by apply with_main_agrees].
  - destruct (Hnext _ _ _ None Hm) as (t' & Ht' & Hk).
    apply guard_Some in Ht' as [[_ Hal]%andb_true_iff ->].
    eexists. split; [exact Hk|]. apply with_main_agrees. apply (shutdown_agrees t a); try done.
    split; [|exact Hreq]. cbn. rewrite Hsrv. by eexists.
  - destruct (Hnext _ _ _ (Some err) Hm) as (t' & Ht' & Hk).
    apply guard_Some in Ht' as [[_ Hal]%andb_true_iff ->].
    eexists. split; [exact Hk|]. apply with_main_agrees. apply (shutdown_agrees t a); try done.
    split; [|done]. cbn. rewrite Hsrv. by eexists.
  - destruct (Hnext _ _ _ (Some err) Hm) as (t' & Ht' & Hk). apply guard_Some in Ht' as [_ ->].
    eexists. split; [exact Hk|]. apply with_main_agrees. by eapply received_agrees.
  - destruct (Hnext _ _ _ None Hm) as (t' & Ht' & Hk). apply guard_Some in Ht' as [_ ->].
    eexists. split; [exact Hk|]. apply with_main_agrees. by apply timeout_agrees.
Qed.
Lemma app_inv_step cfg w a w' a' :
  app_inv cfg a -> app_step (X := X) cfg (w, a) (w', a') -> app_inv cfg a'.
Proof.
  intros Hi Hs. inversion Hs as [? ? ? Hm | ? ? _ Hb]; subst;
    [by eapply main_inv | by eapply background_inv].
Qed.

(** Every goroutine of the process has finished: the server has returned and
    served its last request (unless [Server.Shutdown] gave up waiting for
    it), the worker and the scheduler have returned, and no message is being
    handled. *)
Definition drained (a : app) : Prop :=
  (exists e, ap_server a = ServerExited e) /\ (ap_requests a = [] \/ ap_forced a = true) /\
  (exists p r, ap_worker a = Some p /\ pr_control p = Exited r /\ pr_flight p = []) /\
  (exists r, ap_scheduler a = Some (Stopped r)).

Lemma all_exited_drained cfg t a :
  app_inv cfg a -> agrees t a -> is_shut t = true -> all_exited t = true ->
  (forall r, started a r = true) -> drained a.
Proof.
  intros [_ Hp] Ha Hsh Hall Hst.
  assert (Hex : forall r, is_Some (runner_exit a r)).
  { intros r. apply (ag_exited _ _ Ha). unfold all_exited in Hall. rewrite forallb_forall in Hall.
    apply Hall. pose proof (ag_started _ _ Ha r) as Hm. rewrite (Hst r) in Hm.
    apply existsb_exists in Hm as (r' & Hin & Heq). by destruct r, r'. }
  pose proof (ag_shutdown _ _ Ha) as Hs. unfold is_shut in Hsh.
  destruct (at_shutdown t) as [b|]; [|done]. destruct Hs as [_ Hreq].
  pose proof (Hex ServerRunner) as [es Hes]. pose proof (Hex WorkerRunner) as [ew Hew].
  pose proof (Hex SchedulerRunner) as [ec Hec]. cbn in Hes, Hew, Hec. split_and!.
  - destruct (ap_server a); try discriminate Hes. by eexists.
  - destruct b; auto.
  - destruct (ap_worker a) as [p|] eqn:Hw; [|done]. destruct (pr_control p) as [q|r] eqn:Hc; [done|].
    exists p, r. pose proof (Hp p eq_refl) as Hi. unfold result_inv in Hi. rewrite Hc in Hi.
    by destruct Hi.
  - destruct (ap_scheduler a) as [[]|]; try discriminate Hec. by eexists.
Qed.

(** C13: the process drains before it disconnects. Run the program from any
    environment variables, with any answers of the libraries, any failures of
    its runners, any requests and messages, and anything else happening to
    the world. Whenever one of its connections is closed, then nothing was
    ever started, or the shutdown deadline was met, or the process is
    drained: no message is being handled, no tick is running, no request is
    being served. And when [main] returns, both connections are closed, and
    the exit status is 0 or 1. *)
Theorem drained_before_close getenv (w w' : World X) (a : app) :
  rtc (live_step (app_step (Load getenv))) (w, launch getenv) (w', a) ->
  (ap_redis a = false \/ ap_postgres a = false ->
     (forall r, started a r = false) \/ ap_deadline a = true \/ drained a) /\
  (forall status, ap_main a = Ret status ->
     ap_redis a = false /\ ap_postgres a = false /\ (status = 0 \/ status = 1)).
Proof.
  intros Hs. apply live_invariant with (I := app_inv (Load getenv)) in Hs;
    [|intros ????; apply app_inv_step | apply launch_inv].
  simpl in Hs. pose proof Hs as [(t & Hw & Ha) _]. split.
  - intros Hc. pose proof (ag_trace _ _ Ha) as Hok. unfold trace_ok in Hok.
    rewrite (ag_redis _ _ Ha), (ag_postgres _ _ Ha) in Hok.
    assert (Hm : may_close t = true)
      by (by destruct Hc as [Hc|Hc]; rewrite Hc, ?andb_false_r in Hok).
    unfold may_close in Hm. destruct (at_started t) as [|r l] eqn:Hst.
    { left. intros r. rewrite <- (ag_started _ _ Ha), Hst. done. }
    right. apply andb_true_iff in Hm as [Hsh Hex]. apply orb_true_iff in Hex as [Hex|Hto].
    + right. apply (all_exited_drained _ t a Hs Ha Hsh Hex). intros r'.
      rewrite <- (ag_started _ _ Ha). pose proof (ag_all _ _ Ha Hsh) as Hall.
      unfold all_started in Hall. rewrite forallb_forall in Hall. apply Hall.
      destruct r'; simpl; auto.
    + left. by rewrite <- (ag_timeout _ _ Ha).
  - intros status Hm. rewrite Hm in Hw. destruct Hw as (Hr & Hp & Hst).
    by rewrite <- (ag_redis _ _ Ha), <- (ag_postgres _ _ Ha).
Qed.
End drain.

(** ** Deployments *)

(** Any number of processes, each with its environment variables, on one
    Postgres and one Redis. *)
Record deployment (X : Type) := mkDeployment {
  dp_world : World X;
  dp_apps : list (Environ * app);
}.
Arguments mkDeployment {X}.
Arguments dp_world {X}.
Arguments dp_apps {X}.

Section deployment.
Context {GT : GoText} {WL : WebhookLib} {J : JSON} {NH : NetHTTP}.
Context {PG : Postgres} {X : Type} {EV : Env X}.

(** The goroutines of a process that may talk to the database: of its
    messages, its tick, its requests. *)
Definition worker_flight (a : app) : list (prog Call unit) :=
  match ap_worker a with Some p => pr_flight p | None => [] end.
Definition scheduler_flight (a : app) : list (prog Call unit) :=
  match ap_scheduler a with
  | Some p => sched_flight p
  | None => []
  end.
Definition app_flight (a : app) : list (prog Call unit) :=
  worker_flight a ++ scheduler_flight a ++ ap_requests a.

Lemma requests_flight rs a :
  app_flight (with_requests rs a) = worker_flight a ++ scheduler_flight a ++ rs.
Proof. done. Qed.

(** A process is started, takes a step, or is killed. *)
Inductive deployment_step : deployment X -> deployment X -> Prop :=
| app_starts w apps getenv :
    deployment_step (mkDeployment w apps) (mkDeployment w (apps ++ [(getenv, launch getenv)]))
| app_steps w w' apps i getenv a a' :
    apps !! i = Some (getenv, a) -> app_step (Load getenv) (w, a) (w', a') ->
    deployment_step (mkDeployment w apps) (mkDeployment w' (<[i := (getenv, a')]> apps))
| app_killed w apps i :
    deployment_step (mkDeployment w apps) (mkDeployment w (delete i apps)).

Definition deployment_flight (d : deployment X) : list (prog Call unit) :=
  concat ((fun x => app_flight x.2) <$> dp_apps d).

(** The programs the application starts are those of System.v. *)
Lemma Tick_starts cfg : system_starts (in_background (Tick (app_scheduler cfg))).
Proof.
  exact (starts_tick (StreamName (cfg_Redis cfg)) (ScheduledSetKey (cfg_Redis cfg))
    (Some (DeadStreamName (cfg_Redis cfg))) (duration_mul (IntervalSeconds (cfg_Scheduler cfg)) Second)
    (sched_BatchSize (cfg_Scheduler cfg))).
Qed.

Lemma serve_starts cfg req : system_starts (in_background (app_serve cfg req)).
Proof.
  exact (starts_request (StreamName (cfg_Redis cfg)) (ScheduledSetKey (cfg_Redis cfg)) true req).
Qed.

Lemma app_scheduler_ok cfg p : process_ok (SchedulerProc (app_scheduler cfg) p).
Proof.
  exists (StreamName (cfg_Redis cfg)), (ScheduledSetKey (cfg_Redis cfg)),
    (Some (DeadStreamName (cfg_Redis cfg))). by do 2 eexists.
Qed.

Lemma app_worker_ok getenv :
  process_ok (WorkerProc (app_worker (Load getenv)) (start (app_worker (Load getenv)))).
Proof.
  apply launched_ok. unfold app_worker. rewrite workerRunner_eq by (by apply envInt_pos).
  constructor.
Qed.

(** What is known of a process. *)
Definition app_ok (cfg : Config) (a : app) : Prop :=
  forall p, ap_worker a = Some p -> process_ok (WorkerProc (app_worker cfg) p).

(** [simulated_app]: the pool can follow a step of the process. *)
Definition simulated_app (w : World X) ps tr (w' : World X) (a' : app) L : Prop :=
  exists ps' tr', pool_steps (mkConfig w ps tr) (mkConfig w' ps' tr') /\ app_flight a' ++ L ⊆+ ps'.

Lemma simulated_same w ps tr a' L : app_flight a' ++ L ⊆+ ps -> simulated_app w ps tr w a' L.
Proof. intros H. exists ps, tr. by split. Qed.

Lemma simulated_started w ps tr a' L L0 p :
  system_starts p -> L0 ⊆+ ps -> app_flight a' ++ L ≡ₚ p :: L0 -> simulated_app w ps tr w a' L.
Proof.
  intros Hp Hsub Heq.
  destruct (pool_start_sub interp system_starts w ps tr p L0 Hp Hsub) as (ps1 & tr1 & Hs & Hsub1).
  exists ps1, tr1. split; [by apply rtc_once | by rewrite Heq].
Qed.

Section app_simulation.
Context (cfg : Config).
Hypothesis worker_ok : process_ok (WorkerProc (app_worker cfg) (start (app_worker cfg))).

Lemma go_simulated w ps tr a r m L :
  app_flight a ++ L ⊆+ ps -> app_ok cfg a ->
  app_ok cfg (with_main m (go cfg r a)) /\
  simulated_app w ps tr w (with_main m (go cfg r a)) L.
Proof using worker_ok.
  unfold app_flight. rewrite <- !app_assoc. intros Hsub Hok. destruct r; split; try exact Hok.
  - apply simulated_same. unfold app_flight. rewrite <- !app_assoc. exact Hsub.
  - intros p [= <-]. exact worker_ok.
  - apply simulated_same. etrans; [|exact Hsub]. unfold app_flight. rewrite <- !app_assoc. cbn.
    apply submseteq_inserts_l. reflexivity.
  - apply (simulated_started _ _ _ _ _ (worker_flight a ++ ap_requests a ++ L)
      (in_background (Tick (app_scheduler cfg))) (Tick_starts cfg)).
    + etrans; [|exact Hsub]. apply submseteq_skips_l, submseteq_inserts_l. reflexivity.
    + unfold app_flight. rewrite <- !app_assoc. symmetry. apply Permutation_middle.
Qed.

Lemma main_simulated w ps tr a a' L :
  app_flight a ++ L ⊆+ ps -> app_ok cfg a -> main_step cfg a a' ->
  app_ok cfg a' /\ simulated_app w ps tr w a' L.
Proof using worker_ok.
  intros Hsub Hok Hs. destruct Hs as [a A c k x Hm | a r k Hm | | | | | | | | |];
    try (split; [exact Hok | by apply simulated_same]).
  - destruct c; (split; [exact Hok | by apply simulated_same]).
  - by apply go_simulated.
Qed.

Lemma background_simulated w ps tr a w' a' L :
  app_flight a ++ L ⊆+ ps -> app_ok cfg a -> background_step (X := X) cfg (w, a) (w', a') ->
  app_ok cfg a' /\ simulated_app w ps tr w' a' L.
Proof.
  intros Hsub Hok Hs.
  inversion Hs as [? ? req Hsrv | ? ? i A c k Hi | ? ? i Hi | ? ? e Hsrv
    | ? ? ? p p' Hp Hstep | ? ? ? p p' Hp Hstep]; subst; unfold app_flight in Hsub.
  - split; [exact Hok|]. apply (simulated_started _ _ _ _ _ _ _ (serve_starts cfg req) Hsub).
    rewrite requests_flight, <- !app_assoc. cbn. by rewrite !Permutation_middle.
  - split; [exact Hok|].
    rewrite (delete_Permutation _ _ _ Hi), <- !app_assoc in Hsub. cbn in Hsub.
    rewrite <- !Permutation_middle in Hsub.
    destruct (pool_call_sub interp system_starts w ps tr A c k _ Hsub) as (ps1 & tr1 & Hs1 & Hsub1).
    exists ps1, tr1. split; [by apply rtc_once|].
    rewrite requests_flight, (insert_perm _ _ _ _ Hi), <- !app_assoc. cbn. by rewrite <- !Permutation_middle.
  - split; [exact Hok|]. apply simulated_same. etrans; [|exact Hsub].
    rewrite requests_flight. apply submseteq_skips_r. do 2 apply submseteq_skips_l.
    apply submseteq_delete.
  - split; [exact Hok | by apply simulated_same].
  - pose proof (Hok p Hp) as Hpok. split; [intros q [= <-]; by eapply worker_step_ok|].
    unfold worker_flight in Hsub. rewrite Hp, <- !app_assoc in Hsub.
    destruct (worker_simulated _ _ _ _ _ _ tr _ Hpok Hstep Hsub) as (ps1 & tr1 & Hs1 & Hsub1).
    exists ps1, tr1. split; [exact Hs1|]. unfold app_flight. by rewrite <- !app_assoc.
  - split; [exact Hok|]. unfold scheduler_flight in Hsub.
    rewrite Hp, <- !app_assoc, Permutation_app_swap_app in Hsub.
    destruct (scheduler_simulated _ _ _ _ _ _ tr _ (app_scheduler_ok cfg p) Hstep Hsub)
      as (ps1 & tr1 & Hs1 & Hsub1).
    exists ps1, tr1. split; [exact Hs1|]. unfold app_flight.
    rewrite <- !app_assoc, Permutation_app_swap_app. exact Hsub1.
Qed.

Lemma app_simulated w ps tr a w' a' L :
  app_flight a ++ L ⊆+ ps -> app_ok cfg a -> app_step (X := X) cfg (w, a) (w', a') ->
  app_ok cfg a' /\ simulated_app w ps tr w' a' L.
Proof using worker_ok.
  intros Hsub Hok Hs. inversion Hs as [? ? ? Hm | ? ? _ Hb]; subst;
    [by eapply main_simulated | by eapply background_simulated].
Qed.
End app_simulation.

Definition deployment_inv (w : World X) (d : deployment X) : Prop :=
  Forall (fun x => app_ok (Load x.1) x.2) (dp_apps d) /\
  exists ps tr, pool_steps (mkConfig w [] []) (mkConfig (dp_world d) ps tr) /\
    deployment_flight d ⊆+ ps.

Lemma deployment_inv_step w d d' :
  deployment_inv w d -> deployment_step d d' -> deployment_inv w d'.
Proof.
  unfold deployment_inv, deployment_flight. intros (Hok & ps & tr & Hr & Hsub) Hs.
  destruct Hs as [v apps getenv | v v' apps i getenv a a' Hi Ha | v apps i];
    cbn [dp_world dp_apps] in *.
  - split; [apply Forall_app; split; [exact Hok|]; by constructor|].
    exists ps, tr. split; [exact Hr|]. by rewrite fmap_app, concat_app, app_nil_r.
  - rewrite (flight_perm _ _ _ _ Hi), <- app_assoc in Hsub || rewrite (flight_perm _ _ _ _ Hi) in Hsub.
    destruct (app_simulated (Load getenv) (app_worker_ok getenv) v ps tr a v' a' _ Hsub
      (Forall_lookup_1 _ _ _ _ Hok Hi) Ha) as (Hok' & ps1 & tr1 & Hs1 & Hsub1).
    split; [by apply Forall_insert|]. exists ps1, tr1. split; [by etrans|].
    by rewrite (flight_insert_perm _ _ _ _ _ Hi).
  - split; [by apply Forall_delete|]. exists ps, tr. split; [exact Hr|].
    etrans; [apply flight_delete | exact Hsub].
Qed.

(** C14: deployments refine the pool of goroutines. Start any number of
    processes of the program, at any times and with any environment
    variables; let each connect, start its server, its worker and its
    scheduler, serve any requests, fail, shut down on a signal, or be killed
    at any point; and interleave all of it call by call. The world they
    reach is one that the pool of System.v reaches, and every message being
    handled, running tick and request being served is a goroutine of it. So
    what is proved of all those pools (the life of the tasks, the schema, the
    retry budget) holds of every deployment. *)
Theorem deployment_refines_pool (w : World X) (d : deployment X) :
  rtc deployment_step (mkDeployment w []) d ->
  exists ps tr,
    rtc (pool_step interp system_starts) (mkConfig w [] []) (mkConfig (dp_world d) ps tr) /\
    deployment_flight d ⊆+ ps.
Proof.
  intros Hs.
  assert (H : deployment_inv w (mkDeployment w [])) by (split; [constructor | by exists [], []]).
  revert H. induction Hs as [d | d1 d2 d3 H12 _ IH]; [by intros [_ H]|].
  intros H. apply IH. by eapply deployment_inv_step.
Qed.
End deployment.
