(* ===== verification/Interleavings.v ===== *)
(** * Concrete interleavings

    Runs of the system in the environment of Scenario.v, computed. *)

From S2P Require Import Prelude GoStd Errors Task Effects Table Metrics Calls Store Scenario.
From S2P Require Import Lifecycle Queue Service Handlers Worker Scheduler Statements Http Server Pool.
From S2P Require Import System Retries.
Local Open Scope Z_scope.

(** A decoder of request bodies that takes the body for the task type. *)
#[export] Instance plain_json : JSON := {|
  json_Decode_createTask s := Ok (mkCreateTaskRequest s "" None None None 0 0) |}.

#[export] Instance plain_http : NetHTTP := {| http_redirect_status := 301 |}.

Definition echo_registry : HandlerRegistry :=
  (Register "demo.echo" (Some DemoEchoHandler) NewHandlerRegistry).1.

Definition worker1 : Worker :=
  redis_worker (mkConsumer "tasks" "workers" "w1" (5 * Second)) (Some "tasks.dead")
    echo_registry "w1" true 4 10.
Definition worker2 : Worker :=
  redis_worker (mkConsumer "tasks" "workers" "w2" (5 * Second)) (Some "tasks.dead")
    echo_registry "w2" true 4 10.

Definition message_of (r : Row) (recovered : bool) : StreamMessage :=
  {| sm_RedisID := "1-0"; sm_Recovered := recovered;
     sm_Task := mkTaskMessage (row_id r) (row_task_type r) "" |}.

Local Abbreviation pstep := (pool_step interp system_starts (W := World Outside)).

Definition two_handlers (recovered : bool) : list (prog Call unit) :=
  [in_background (handleMessage worker1 (message_of row_pending false));
   in_background (handleMessage worker2 (message_of row_pending recovered))].

Lemma two_handlers_start w sched recovered :
  rtc pstep (mkConfig w [] []) (pool_exec interp sched (mkConfig w (two_handlers recovered) [])).
Proof.
  etrans; [apply (pool_starts interp system_starts [] w (two_handlers recovered) [])|].
  - repeat constructor.
  - apply pool_exec_steps.
Qed.

Definition start_world (r : Row) : World Outside := world_at 1000000 (one_task r).

(** The first goroutine wins the task and starts its handler; the second then
    handles the task's message from its start to its end; the first goes
    on. *)
Definition overtaking : list nat := repeat 0%nat 7 ++ repeat 1%nat 12 ++ repeat 0%nat 9.

(** ** Witnesses *)

Lemma config_eta {E W} (c : config E W) :
  c = mkConfig (cf_state c) (cf_threads c) (cf_trace c).
Proof. by destruct c. Qed.

(** Where that interleaving of two handlers, the second one's message being
    [recovered] or a duplicate, ends. *)
Definition overtaken (recovered : bool) : config Call (World Outside) :=
  pool_exec interp overtaking (mkConfig (start_world row_pending) (two_handlers recovered) []).

Lemma overtaken_reached recovered :
  rtc pstep (mkConfig (start_world row_pending) [] [])
    (mkConfig (cf_state (overtaken recovered)) (cf_threads (overtaken recovered))
       (cf_trace (overtaken recovered))).
Proof. rewrite <- config_eta. apply two_handlers_start. Qed.

Lemma start_world_wf r :
  row_check r = true -> row_typed r = true -> table_wf (w_table (start_world r)).
Proof. apply one_task_wf. Qed.

Lemma row_pending_inv : table_inv (w_table (start_world row_pending)).
Proof.
  intros id r Hr. simpl in Hr. unfold one_task in Hr.
  apply lookup_singleton_Some in Hr as [_ <-].
  split; simpl; try done; try (split; [intros [? [=]] | done]); intros; destruct_or?; done.
Qed.

Lemma system_lifecycle_witness :
  table_evolves (one_task row_pending) (w_table (cf_state (overtaken true))) /\
  (row_status <$> w_table (cf_state (overtaken true)) !! "task_1") = Some StatusSuccess.
Proof.
  split; [|vm_compute; reflexivity].
  apply (system_lifecycle (start_world row_pending) (cf_state (overtaken true))
           (cf_threads (overtaken true)) (cf_trace (overtaken true))).
  - by apply start_world_wf.
  - apply row_pending_inv.
  - apply overtaken_reached.
Defined.

Lemma executions_within_budget_witness :
  wins "task_1" (cf_trace (overtaken false)) = 1 /\
  match w_table (cf_state (overtaken false)) !! "task_1" with
  | None => wins "task_1" (cf_trace (overtaken false)) = 0
  | Some r => wins "task_1" (cf_trace (overtaken false)) <= row_retry_count r + 1
              <= row_max_retries r + 1
  end.
Proof.
  split; [vm_compute; reflexivity|].
  apply (executions_within_budget (start_world row_pending) (cf_state (overtaken false))
           (cf_threads (overtaken false)) (cf_trace (overtaken false)) "task_1").
  - by apply start_world_wf.
  - apply overtaken_reached.
Defined.

(** A row that was marked [failed] and not finalized. *)
Definition row_failed : Row :=
  set_failed "boom" 20 (set_transition StatusRunning (Some "w1") 10 row_pending).

Definition after_failed : config Call (World Outside) :=
  pool_exec interp overtaking (mkConfig (start_world row_failed) (two_handlers true) []).

Lemma failed_row_is_lost_witness :
  length (cf_trace after_failed) = 4%nat /\
  w_table (cf_state after_failed) !! "task_1" = Some row_failed.
Proof.
  split; [vm_compute; reflexivity|].
  apply (failed_row_is_lost (start_world row_failed) (cf_state after_failed)
           (cf_threads after_failed) (cf_trace after_failed) "task_1" row_failed).
  - by apply start_world_wf.
  - reflexivity.
  - reflexivity.
  - rewrite <- config_eta. apply two_handlers_start.
Defined.
