(* ===== verification/Witnesses.v ===== *)
(** * The theorems at work

    Each theorem with hypotheses, applied to a concrete run in the environment
    of Scenario.v: the hypotheses can hold, together, of the code. *)

From S2P Require Import Prelude GoStd Json Errors Task Effects Table Metrics Calls Store Scenario.
From S2P Require Import Lifecycle Queue Service Handlers Worker Scheduler Statements Http Server.
From S2P Require Import Config App Pool System Retries Loop Processes Interleavings.
Local Open Scope Z_scope.

(** ** Reading off runs *)

Definition world_after {A} (m : prog Call A) (w : World Outside) : World Outside :=
  (run interp m w).1.

Definition some_task : Task := task_of row_pending false.

Definition task_after (m : prog Call (result Task)) (w : World Outside) : Task :=
  match (run interp m w).2 with Ok t => t | Err _ => some_task end.

Definition tasks_after (m : prog Call (result (list Task))) (w : World Outside) : list Task :=
  match (run interp m w).2 with Ok ts => ts | Err _ => [] end.

Definition error_after {A} (m : prog Call (result A)) (w : World Outside) : error :=
  match (run interp m w).2 with Ok _ => ErrorString "" | Err e => e end.

Lemma run_task m w :
  is_Ok (run interp m w).2 = true -> run interp m w = (world_after m w, Ok (task_after m w)).
Proof. unfold world_after, task_after. by destruct (run interp m w) as [w' [t|e]]. Qed.

Lemma run_tasks m w :
  is_Ok (run interp m w).2 = true -> run interp m w = (world_after m w, Ok (tasks_after m w)).
Proof. unfold world_after, tasks_after. by destruct (run interp m w) as [w' [t|e]]. Qed.

Lemma run_error {A} (m : prog Call (result A)) w :
  is_Ok (run interp m w).2 = false -> run interp m w = (world_after m w, Err (error_after m w)).
Proof. unfold world_after, error_after. by destruct (run interp m w) as [w' [t|e]]. Qed.

Lemma run_unit (m : prog Call (result unit)) w :
  is_Ok (run interp m w).2 = true -> run interp m w = (world_after m w, Ok tt).
Proof. unfold world_after. by destruct (run interp m w) as [w' [[]|e]]. Qed.

Lemma run_any {A} (m : prog Call A) w : run interp m w = (world_after m w, (run interp m w).2).
Proof. unfold world_after. by destruct (run interp m w). Qed.

(** ** Rows and tables *)

Definition row_running : Row := set_transition StatusRunning (Some "w1") 10 row_pending.
Definition row_retrying : Row :=
  set_complete StatusRetrying 1 (Some (2 * Second)) "boom" 30 row_failed.

(** Another task, to make tables of two. *)
Definition renamed (id key : string) (r : Row) : Row :=
  {| row_id := id; row_task_type := row_task_type r; row_payload := row_payload r;
     row_status := row_status r; row_idempotency_key := Some key;
     row_trace_id := row_trace_id r; row_run_at := row_run_at r;
     row_timeout_seconds := row_timeout_seconds r; row_max_retries := row_max_retries r;
     row_retry_count := row_retry_count r; row_next_retry_at := row_next_retry_at r;
     row_last_error := row_last_error r; row_worker_id := row_worker_id r;
     row_started_at := row_started_at r; row_finished_at := row_finished_at r;
     row_created_at := row_created_at r; row_updated_at := row_updated_at r |}.

Definition two_tasks (r1 r2 : Row) : table := <[row_id r2 := r2]> (one_task r1).

Lemma two_tasks_wf r1 r2 :
  row_check r1 = true -> row_typed r1 = true -> row_check r2 = true -> row_typed r2 = true ->
  row_id r1 <> row_id r2 -> row_idempotency_key r1 <> row_idempotency_key r2 ->
  table_wf (two_tasks r1 r2).
Proof.
  intros H1 H1' H2 H2' Hid Hk. apply table_wf_insert; [by apply one_task_wf | done | done| |].
  - unfold one_task. by rewrite lookup_singleton_ne.
  - intros k Hk2. apply row_with_key_None. intros id r Hr Hr1. unfold one_task in Hr.
    apply lookup_singleton_Some in Hr as [_ <-]. congruence.
Qed.

(** ** The store *)

Lemma Transition_cas_witness :
  let m := Transition "task_1" StatusPending StatusRunning (Some "w1") in
  is_Ok (run interp m (start_world row_pending)).2 = true /\
  exists row now, w_table (start_world row_pending) !! "task_1" = Some row /\
    row_status row = StatusPending /\
    w_table (world_after m (start_world row_pending)) =
      <[("task_1" : string) := set_transition StatusRunning (Some "w1") now row]>
        (w_table (start_world row_pending)) /\
    task_after m (start_world row_pending) =
      task_of (set_transition StatusRunning (Some "w1") now row) false.
Proof.
  cbv zeta. split; [vm_compute; reflexivity|].
  refine (proj2 (Transition_cas "task_1" StatusPending StatusRunning (Some "w1")
    (start_world row_pending) _ (Ok _) _)).
  apply run_task. vm_compute. reflexivity.
Defined.

Definition params1 : CreateTaskParams :=
  mkCreateTaskParams "demo.echo" "{}" (Some "order-1") None 0 300 3.
Definition params_later : CreateTaskParams :=
  mkCreateTaskParams "demo.echo" "{}" (Some "order-2") (Some " t1 ") (60 * Second) 300 3.

Definition empty_world : World Outside := world_at 1000000 ∅.

Lemma Create_idempotent_witness :
  let w1 := world_after (Store.Create params1) empty_world in
  ID (task_after (Store.Create params1) w1) = ID (task_after (Store.Create params1) empty_world) /\
  NewlyCreated (task_after (Store.Create params1) w1) = false /\
  w_table (world_after (Store.Create params1) w1) = w_table w1.
Proof.
  cbv zeta. eapply (Create_idempotent params1 params1 "order-1" empty_world _
    (world_after (Store.Create params1) empty_world)).
  - apply table_wf_empty.
  - reflexivity.
  - reflexivity.
  - apply run_task. vm_compute. reflexivity.
  - apply rtc_refl.
  - apply run_task. vm_compute. reflexivity.
Defined.

Definition two_retrying : World Outside :=
  world_at (10 * Second)
    (two_tasks row_retrying (renamed "task_2" "k2"
       (set_complete StatusRetrying 1 (Some (1 * Second)) "boom" 30 row_failed))).

Lemma DueRetrying_exact_witness :
  (ID <$> tasks_after (DueRetrying (10 * Second) 5) two_retrying) = ["task_2"; "task_1"] /\
  NoDup (ID <$> tasks_after (DueRetrying (10 * Second) 5) two_retrying).
Proof.
  split; [vm_compute; reflexivity|].
  eapply (DueRetrying_exact (10 * Second) 5 two_retrying).
  - apply two_tasks_wf; done.
  - apply run_tasks. vm_compute. reflexivity.
Defined.

Definition two_running : World Outside :=
  world_at (400 * Second) (two_tasks row_running (renamed "task_2" "k2" row_running)).

Lemma ExpiredRunning_exact_witness :
  length (tasks_after (ExpiredRunning (400 * Second) 1) two_running) = 1%nat /\
  Z.of_nat (length (tasks_after (ExpiredRunning (400 * Second) 1) two_running)) <= 1.
Proof.
  split; [vm_compute; reflexivity|].
  eapply (ExpiredRunning_exact (400 * Second) 1 two_running).
  - apply two_tasks_wf; done.
  - apply run_tasks. vm_compute. reflexivity.
Defined.

Definition counts_after (w : World Outside) : gmap Status Z :=
  match (run interp CountByStatus w).2 with Ok c => c | Err _ => ∅ end.

Lemma CountByStatus_exact_witness :
  default 0 (counts_after two_running !! StatusRunning) = 2 /\
  default 0 (counts_after two_running !! StatusRunning) =
    Z.of_nat (size (filter (fun kr => row_status kr.2 = StatusRunning) (w_table two_running))).
Proof.
  split; [vm_compute; reflexivity|].
  eapply (CountByStatus_exact two_running (world_after CountByStatus two_running)).
  unfold counts_after, world_after. vm_compute. reflexivity.
Defined.

(** ** The service *)

Lemma Create_dispatches_once_witness :
  let m := service_Create (redis_service "tasks" "tasks.scheduled" true) params_later in
  redis_run m empty_world =
    [RedisEv (ZAdd "tasks.scheduled" (float64_of_Z 60) (ID (task_after m empty_world))) (Ok 1)] /\
  ((NewlyCreated (task_after m empty_world) = false /\
      w_table (world_after m empty_world) = w_table empty_world /\ redis_run m empty_world = []) \/
   NewlyCreated (task_after m empty_world) = true).
Proof.
  cbv zeta. split; [vm_compute; reflexivity|].
  destruct (Create_dispatches_once "tasks" "tasks.scheduled" true params_later empty_world
    (world_after (service_Create (redis_service "tasks" "tasks.scheduled" true) params_later)
       empty_world)
    (task_after (service_Create (redis_service "tasks" "tasks.scheduled" true) params_later)
       empty_world)) as [H | [H _]].
  - apply run_task. vm_compute. reflexivity.
  - left. exact H.
  - right. exact H.
Defined.

(** The stream refuses the first message. *)
Definition refusing_world : World Outside :=
  mkWorld ∅ NewRegistry (mkOutside 1000000 0 [true] [] []).

(** The stored row, then taken to [running] by hand, and the resubmission. *)
Definition stranded_world : World Outside :=
  world_after (service_Create (redis_service "tasks" "tasks.scheduled" true) params1) refusing_world.

Definition stranded_id : string :=
  ID (task_after (service_Create (redis_service "tasks" "tasks.scheduled" true) params1)
        stranded_world).

Definition later_world : World Outside :=
  (interp _ (Sql (UpdateTransition stranded_id StatusPending StatusRunning (Some "w1")))
     stranded_world).1.

Lemma resubmission_never_dispatches_witness :
  let m := service_Create (redis_service "tasks" "tasks.scheduled" true) params1 in
  Status_ (task_after m later_world) = StatusRunning /\
  exists id, w_table refusing_world !! id = None /\
    w_table (world_after m later_world) = w_table later_world /\ redis_run m later_world = [] /\
    exists r2, w_table later_world !! id = Some r2 /\ task_after m later_world = task_of r2 false.
Proof.
  cbv zeta. split; [vm_compute; reflexivity|].
  destruct (resubmission_never_dispatches "tasks" "tasks.scheduled" true params1 params1 "order-1"
    refusing_world stranded_world later_world
    (world_after (service_Create (redis_service "tasks" "tasks.scheduled" true) params1) later_world)
    (error_after (service_Create (redis_service "tasks" "tasks.scheduled" true) params1)
       refusing_world)
    (Ok (task_after (service_Create (redis_service "tasks" "tasks.scheduled" true) params1)
       later_world))) as (id & (r1 & Hn & _) & Ht & Hlog & Hr).
  - apply table_wf_empty.
  - reflexivity.
  - reflexivity.
  - apply run_error. vm_compute. reflexivity.
  - intros H. apply (f_equal size) in H. vm_compute in H. discriminate H.
  - apply rtc_once. apply interp_table_step.
  - apply run_task. vm_compute. reflexivity.
  - exists id. split; [exact Hn|]. split; [exact Ht|]. split; [exact Hlog | exact Hr].
Defined.

(** ** The worker *)

Definition trace_of {A} (m : prog Call A) (w : World Outside) : list (event Call) :=
  run_trace interp m w.

Lemma existsb_false {A} (p : A -> bool) l :
  existsb p l = false -> forall x, x ∈ l -> p x = false.
Proof.
  intros H x Hx. destruct (p x) eqn:E; [|done]. rewrite <- H. symmetry.
  apply existsb_exists. exists x. split; [by apply list_elem_of_In | done].
Qed.

(** The calls of a successful handling of a pending task. *)
Definition echo_message : StreamMessage := message_of row_pending false.
Definition echo_trace : list (event Call) :=
  trace_of (handleMessage worker1 echo_message) (start_world row_pending).

Lemma echo_trace_honest i e :
  echo_trace !! i = Some e ->
  honest_trace (mkConsumer "tasks" "workers" "w1" (5 * Second)) (Some "tasks.dead")
    echo_registry "w1" true 4 10 echo_message
    (take i echo_trace ++ e :: drop (S i) echo_trace).
Proof.
  intros Hi. rewrite take_drop_middle by done. split.
  - apply run_trace_traces.
  - apply existsb_false. vm_compute. reflexivity.
Qed.

Lemma ack_only_settled_witness :
  exists e', e' ∈ take 12 echo_trace /\ settles "task_1" e' = true.
Proof.
  eapply (ack_only_settled _ _ _ _ _ _ _ echo_message).
  - apply (echo_trace_honest 12 (Ev (Redis (XAck "tasks" "workers" "1-0")) (Ok 1))).
    vm_compute. reflexivity.
  - reflexivity.
Defined.

Lemma exec_only_claimed_witness :
  exists e', e' ∈ take 6 echo_trace /\ claims "task_1" false e' = true.
Proof.
  eapply (exec_only_claimed _ _ _ _ _ _ _ echo_message).
  - apply (echo_trace_honest 6 (Ev (WithTimeout (300 * Second)) tt)). vm_compute. reflexivity.
  - reflexivity.
Defined.

Definition answered_row (e : event Call) : option Row :=
  match e with
  | Ev c x =>
      match c in Call A return A -> option Row with
      | Sql q => fun x => match x with Ok a => row_answer q a | Err _ => None end
      | _ => fun _ => None
      end x
  end.

Definition succeeded_row : Row :=
  default row_pending (echo_trace !! 8%nat ≫= answered_row).

Lemma outcome_only_executed_witness :
  exists e', e' ∈ take 8 echo_trace /\ is_exec e' = true.
Proof.
  refine (proj1 (outcome_only_executed _ _ _ _ _ _ _ echo_message (take 8 echo_trace)
    (Ev (Sql (UpdateTransition "task_1" StatusRunning StatusSuccess (Some "w1")))
        (Ok [succeeded_row])) (drop 9 echo_trace) _) _).
  - apply (echo_trace_honest 8). vm_compute. reflexivity.
  - reflexivity.
Defined.

(** A worker without the task's handler: the task dies at once. *)
Definition bare_worker : Worker :=
  redis_worker (mkConsumer "tasks" "workers" "w1" (5 * Second)) (Some "tasks.dead")
    NewHandlerRegistry "w1" true 4 10.

Lemma handleMessage_outcome_witness :
  row_status <$> w_table (world_after (handleMessage bare_worker echo_message)
                            (start_world row_pending)) !! "task_1" = Some StatusDead /\
  exists r, w_table (start_world row_pending) !! "task_1" = Some r.
Proof.
  split; [vm_compute; reflexivity|].
  destruct (handleMessage_outcome bare_worker store_contract) with (message := echo_message)
    (world := start_world row_pending)
    (world' := world_after (handleMessage bare_worker echo_message) (start_world row_pending))
    as (r & Hr & _).
  - by intros rid.
  - intros publish m [= <-]. done.
  - by apply start_world_wf.
  - apply run_unit. vm_compute. reflexivity.
  - exists r. exact Hr.
Defined.

(** ** Goroutines at work *)

(** A goroutine whose handler has failed, about to finalize the failure. *)
Definition failing : config Call (World Outside) :=
  pool_exec interp (repeat 0%nat 10)
    (mkConfig (start_world row_pending) [in_background (handleMessage bare_worker echo_message)] []).

Definition next_update (p : option (prog Call unit)) (t : table) : bool * Prop :=
  match p with
  | Some (Vis c _) =>
      match c with
      | Sql q => (updates_rows q, forall now rows, is_Ok (exec_stmt q now rows t).2 = true)
      | _ => (false, True)
      end
  | _ => (false, True)
  end.

Lemma updates_accepted_witness :
  (next_update (cf_threads failing !! 0%nat) (w_table (cf_state failing))).1 = true /\
  (next_update (cf_threads failing !! 0%nat) (w_table (cf_state failing))).2.
Proof.
  assert (H : (next_update (cf_threads failing !! 0%nat) (w_table (cf_state failing))).1 = true)
    by (vm_compute; reflexivity).
  split; [exact H|].
  destruct (cf_threads failing !! 0%nat) as [[u|A c k]|] eqn:E; try discriminate H.
  destruct c as [| |A q| | | | | | | | |]; try discriminate H.
  assert (Hs : rtc (pool_step interp system_starts) (mkConfig (start_world row_pending) [] [])
    (mkConfig (cf_state failing) (cf_threads failing) (cf_trace failing))).
  { rewrite <- config_eta.
    etrans; [apply (pool_starts interp system_starts [] (start_world row_pending)
      [in_background (handleMessage bare_worker echo_message)] []); repeat constructor|].
    apply pool_exec_steps. }
  exact (updates_accepted (start_world row_pending) (cf_state failing) (cf_threads failing)
           (cf_trace failing) 0%nat A q k (start_world_wf row_pending eq_refl eq_refl) Hs E H).
Defined.

(** A goroutine that has just entered the handler of its task. *)
Definition executing : config Call (World Outside) :=
  pool_exec interp (repeat 0%nat 7)
    (mkConfig (start_world row_pending) [in_background (handleMessage worker1 echo_message)] []).

Lemma recovered_double_execution_witness :
  wins "task_1" (cf_trace executing) = 1 /\
  exists cfg' j', j' <> 0%nat /\ rtc (pool_step interp system_starts) executing cfg' /\
    executes "task_1" 0 (cf_trace cfg') = true /\ executes "task_1" j' (cf_trace cfg') = true /\
    wins "task_1" (cf_trace cfg') = 1.
Proof.
  assert (Hw : wins "task_1" (cf_trace executing) = 1) by (vm_compute; reflexivity).
  split; [exact Hw|].
  destruct (recovered_double_execution executing "task_1"
    (default row_pending (w_table (cf_state executing) !! "task_1")) 0
    (mkConsumer "tasks" "workers" "w2" (5 * Second)) (Some "tasks.dead") echo_registry "w2" true
    4 10 (message_of row_pending true))
    as (cfg' & j' & q & Hs & Hne & _ & _ & _ & H0 & H1 & Hwins).
  - vm_compute. reflexivity.
  - vm_compute. reflexivity.
  - vm_compute. reflexivity.
  - apply Nat.ltb_lt. vm_compute. reflexivity.
  - reflexivity.
  - reflexivity.
  - vm_compute. reflexivity.
  - exists cfg', j'. split; [exact Hne|]. split; [exact Hs|]. split; [exact H0|].
    split; [exact H1|]. by rewrite Hwins.
Defined.

(** ** The scheduler *)

Definition scheduler1 : Scheduler :=
  redis_scheduler "tasks" "tasks.scheduled" (Some "tasks.dead") (5 * Second) 100.

Definition tick_trace : list (event Call) := trace_of (Tick scheduler1) two_retrying.

Lemma dispatch_only_transitioned_witness :
  exists e', e' ∈ take 5 tick_trace /\ made_pending "task_2" e' = true.
Proof.
  eapply (dispatch_only_transitioned "tasks" "tasks.scheduled" (Some "tasks.dead") (5 * Second)
    100 "task_2" (take 5 tick_trace)
    (Ev (Redis (XAdd {| xa_Stream := "tasks";
                        xa_Values := task_values (mkTaskMessage "task_2" "demo.echo" "trace_1") |}))
        (Ok "1-0")) (drop 6 tick_trace)).
  - rewrite take_drop_middle; [apply run_trace_traces|]. vm_compute. reflexivity.
  - rewrite take_drop_middle; [|vm_compute; reflexivity].
    apply existsb_false. vm_compute. reflexivity.
  - vm_compute. reflexivity.
Defined.

Lemma recover_attempts_all_witness :
  length (tasks_after (ExpiredRunning (400 * Second) 100) two_running) = 2%nat /\
  forall t, t ∈ tasks_after (ExpiredRunning (400 * Second) 100) two_running -> exists e,
    e ∈ run_trace interp (recoverExpiredRunning scheduler1 (400 * Second)) two_running /\
    marks_failed (ID t) e = true.
Proof.
  split; [vm_compute; reflexivity|].
  refine (proj2 (recover_attempts_all scheduler1 (400 * Second) two_running _ _ _ _)).
  - reflexivity.
  - apply run_tasks. vm_compute. reflexivity.
Defined.

(** The driver of this environment never fails. *)
Lemma no_driver_faults : driver_faults (EV := scripted).
Proof. intros A q x. exact I. Qed.

Lemma recoverRunningTask_outcome_witness :
  let m := recoverRunningTask scheduler1 (400 * Second) (task_of row_running false) in
  row_status <$> w_table (world_after m two_running) !! "task_1" = Some StatusRetrying /\
  exists r0 now1 now2, w_table two_running !! "task_1" = Some r0 /\
    w_table (world_after m two_running) =
      <[("task_1" : string) := set_complete StatusRetrying 1 (Some (401 * Second))
          "running timeout recovery: task exceeded timeout_seconds=300" now2
          (set_failed "running timeout recovery: task exceeded timeout_seconds=300" now1 r0)]>
        (w_table two_running) /\ redis_run m two_running = [].
Proof.
  cbv zeta. split; [vm_compute; reflexivity|].
  set (m := recoverRunningTask scheduler1 (400 * Second) (task_of row_running false)).
  destruct (recoverRunningTask_outcome "tasks" "tasks.scheduled" (Some "tasks.dead") (5 * Second)
    100 (400 * Second) (task_of row_running false) two_running (world_after m two_running)
    (Ok tt)) as [(_ & _ & _ & Hno) | [(e & _ & H & _) | (r0 & now1 & Hr0 & _ & H)]].
  - apply no_driver_faults.
  - apply two_tasks_wf; done.
  - apply run_unit. vm_compute. reflexivity.
  - exfalso. by apply (Hno row_running).
  - discriminate H.
  - exists r0, now1.
    assert (Hr : Some r0 = Some row_running) by (rewrite <- Hr0; vm_compute; reflexivity).
    injection Hr as ->. destruct H as [(e & _ & H & _) | (_ & now2 & Ht & Hlog)]; [discriminate H|].
    exists now2. split; [exact Hr0|]. split; [exact Ht | exact Hlog].
Defined.

(** ** Handlers *)

Lemma Register_spec_witness :
  let r := (Register " demo.echo " (Some DemoEchoHandler) NewHandlerRegistry).1 in
  let t := task_of row_pending false in
  Handle r (Some t) = DemoEchoHandler t.
Proof.
  cbv zeta.
  assert (Hr : Register " demo.echo " (Some DemoEchoHandler) NewHandlerRegistry =
    ((Register " demo.echo " (Some DemoEchoHandler) NewHandlerRegistry).1, None)) by reflexivity.
  destruct (Register_spec " demo.echo " (Some DemoEchoHandler) NewHandlerRegistry _ _ Hr)
    as (_ & _ & H).
  apply (H DemoEchoHandler); reflexivity.
Defined.

#[export] Instance plain_webhook : WebhookLib := {|
  json_Unmarshal_webhook s := Ok (mkWebhook s "" ∅ None);
  http_NewRequest method url :=
    if String.eqb url "::" then Some (ErrorString "missing protocol scheme") else None |}.

Definition peer (A : Type) (c : HCall A) (o : Outside) : Outside * A := env_handler A c o.

Lemma webhook_classification_witness :
  let o := mkOutside 0 0 [] [503] [] in
  let t := task_of (renamed "task_2" "k2" row_pending) false in
  classify (run peer (webhook_Handle (mkWebhookHandler 0) t) o).2 = Transient /\
  exists timeout req resp rest,
    run_trace peer (webhook_Handle (mkWebhookHandler 0) t) o = Ev (HttpDo timeout req) resp :: rest /\
    timeout = 10 * Second.
Proof.
  cbv zeta. split; [vm_compute; reflexivity|].
  set (o := mkOutside 0 0 [] [503] []).
  set (t := task_of (renamed "task_2" "k2" row_pending) false).
  assert (Hn : forall e method url, http_NewRequest method url = Some e -> IsNonRetryable e = false).
  { intros e method url. simpl. destruct (String.eqb url "::"); [intros [= <-]|]; done. }
  assert (Hp : forall timeout req (o : Outside) e,
    (peer _ (HttpDo timeout req) o).2 = Err e -> IsNonRetryable e = false).
  { intros timeout req o1 e. simpl. destruct (head (o_http o1)); [done|]. by intros [= <-]. }
  destruct (proj2 (proj2 (webhook_classification peer (mkWebhookHandler 0) t o Hn Hp)))
    as (timeout & resp & rest & Htr & _ & Htm & _).
  do 4 eexists. split; [exact Htr|]. apply Htm. done.
Defined.

(** ** The HTTP API and the configuration *)

Definition request1 : createTaskRequest :=
  mkCreateTaskRequest " demo.echo" "" (Some " k1 ") None (Some 0) 0 0.

Lemma validate_spec_witness :
  is_Ok (run interp (validateCreateTaskRequest request1) empty_world).2 = true /\
  (is_Ok (run interp (validateCreateTaskRequest request1) empty_world).2 = false <->
     TrimSpace " demo.echo" = "" \/ json_Valid "{}" = false \/ blank (Some " k1 ") \/ blank None \/
     0 < 0 \/ 0 < 0).
Proof.
  split; [vm_compute; reflexivity|].
  refine (proj1 (validate_spec request1 empty_world _ _ _)). apply run_any.
Defined.

Definition api : HttpStore := service_HttpStore (redis_service "tasks" "tasks.scheduled" true).

(** Redis refuses the message of the new task: the row is there, the answer
    is a 500. *)
Lemma handleCreateTask_answers_witness :
  let r := run interp (handleCreateTask api "demo.echo") refusing_world in
  r.2 = writeError StatusInternalServerError "database write failed" /\
  exists row, w_table r.1 = <[row_id row := row]> (w_table refusing_world) /\
    dispatched "tasks" "tasks.scheduled" (task_of row true)
      (redis_run (handleCreateTask api "demo.echo") refusing_world) false.
Proof.
  cbv zeta. split; [vm_compute; reflexivity|].
  destruct (handleCreateTask_answers "tasks" "tasks.scheduled" true "demo.echo" refusing_world _ _
    (run_any (handleCreateTask api "demo.echo") refusing_world))
    as [(H & _) | (req & _ & _ & [(k & row & _ & _ & H & _) |
        [(row & accepted & _ & Ht & _ & _ & Hd & H) | (_ & H & _)]])].
  - vm_compute in H. discriminate H.
  - apply (f_equal rs_status) in H. vm_compute in H. discriminate H.
  - exists row. split; [exact Ht|]. destruct accepted; [|exact Hd].
    apply (f_equal rs_status) in H. vm_compute in H. discriminate H.
  - vm_compute in H. discriminate H.
Defined.

Lemma handleGetTask_answers_witness :
  let resp := (run interp (handleGetTask api " task_1 ") (start_world row_pending)).2 in
  rs_status resp = StatusOK /\
  w_table (world_after (handleGetTask api " task_1 ") (start_world row_pending)) =
    w_table (start_world row_pending).
Proof.
  cbv zeta. split; [vm_compute; reflexivity|].
  refine (proj1 (handleGetTask_answers (redis_service "tasks" "tasks.scheduled" true) " task_1 "
    (start_world row_pending) _ (run interp (handleGetTask api " task_1 ")
       (start_world row_pending)).2 _ _ _)).
  - apply no_driver_faults.
  - apply run_any.
  - reflexivity.
Defined.

Definition page_view (r : response) : dashboardView :=
  match rs_body r with
  | DashboardPage v => v
  | _ => mkDashboardView 0 0 [] (mkSnapshot 0 0) [] [] []
  end.

Lemma dashboard_adds_up_witness :
  let resp := (run interp (handleDashboard api) two_running).2 in
  dv_TotalTasks (page_view resp) = 2 /\
  dv_TotalTasks (page_view resp) = Z.of_nat (size (w_table two_running)).
Proof.
  cbv zeta. split; [vm_compute; reflexivity|].
  eapply (dashboard_adds_up (redis_service "tasks" "tasks.scheduled" true) two_running
    (world_after (handleDashboard api) two_running)).
  - apply two_tasks_wf; done.
  - vm_compute. discriminate.
  - unfold world_after. vm_compute. reflexivity.
Defined.

Lemma app_wiring_witness :
  IntervalSeconds (cfg_Scheduler (Load (fun _ => ""))) = 2 /\
  exists handlers, handlerRegistry = Ok handlers.
Proof.
  split; [vm_compute; reflexivity|].
  destruct (app_wiring (fun _ => "")) as (handlers & H & _). exists handlers. exact H.
Defined.

(** ** The processes *)

(** A worker with one slot, and a stream that always has two messages. *)
Definition narrow_worker : Worker :=
  redis_worker (mkConsumer "tasks" "workers" "w1" (5 * Second)) (Some "tasks.dead")
    echo_registry "w1" true 1 10.

Definition busy_stream (refuse : list bool) : World Outside :=
  let message := mkXMessage "1-0" (task_values (mkTaskMessage "task_1" "demo.echo" "")) in
  mkWorld (one_task row_pending) NewRegistry
    (mkOutside 1000000 0 refuse [] [message; message]).

Definition busy_run : World Outside * proc :=
  proc_exec narrow_worker (repeat MoveLoop 40) (busy_stream [], start narrow_worker).

Lemma busy_run_steps :
  rtc (proc_step narrow_worker) (busy_stream [], start narrow_worker) (busy_run.1, busy_run.2).
Proof. rewrite <- surjective_pairing. apply proc_exec_steps. Qed.

Lemma live_steps {P} (step : World Outside * P -> World Outside * P -> Prop) s s' :
  rtc step s s' -> rtc (live_step step) s s'.
Proof. apply rtc_subrel. intros. by constructor. Qed.

Lemma handlers_in_flight_bounded_witness :
  length (pr_flight busy_run.2) = 1%nat /\
  Z.of_nat (length (pr_flight busy_run.2)) <= pr_slots busy_run.2 <= 1.
Proof.
  split; [vm_compute; reflexivity|].
  apply (handlers_in_flight_bounded narrow_worker (busy_stream []) busy_run.1 busy_run.2).
  - vm_compute. discriminate.
  - apply live_steps, busy_run_steps.
Defined.

(** Redis refuses the first command. *)
Definition refused_run : World Outside * proc :=
  proc_exec narrow_worker (repeat MoveLoop 3) (busy_stream [true], start narrow_worker).

Definition exit_error (p : proc) : error :=
  match pr_control p with Exited (Err e) => e | _ => ErrorString "" end.

Lemma run_returns_witness :
  pr_control refused_run.2 = Exited (Err (exit_error refused_run.2)) /\
  can_return (EnsureGroup_ (wk_consumer narrow_worker)) (Err (exit_error refused_run.2)).
Proof.
  assert (Hex : pr_control refused_run.2 = Exited (Err (exit_error refused_run.2)))
    by (vm_compute; reflexivity).
  split; [exact Hex|].
  apply (run_returns narrow_worker (busy_stream [true]) refused_run.1 refused_run.2
           (Err (exit_error refused_run.2))); [|exact Hex].
  rewrite <- surjective_pairing. apply live_steps, proc_exec_steps.
Defined.

(** A scheduler with an empty table, whose second tick is refused by Redis:
    it is back in its [select], and then in its third tick. *)
Definition failing_ticks : World Outside :=
  mkWorld ∅ NewRegistry (mkOutside (10 * Second) 0 [false; true] [] []).

Definition sched_at (fuel : nat) : World Outside * sched_proc :=
  sched_exec scheduler1 fuel (failing_ticks, sched_start scheduler1).

Definition tick_failed (p : sched_proc) : bool :=
  match p with LoopTick (Ret (Err _)) => true | _ => false end.

Lemma scheduler_run_returns_witness :
  tick_failed (sched_at 9).2 = true /\
  forall w2 p2, sched_step scheduler1 (sched_at 9) (w2, p2) -> p2 = Waiting.
Proof.
  assert (H : tick_failed (sched_at 9).2 = true) by (vm_compute; reflexivity).
  split; [exact H|].
  assert (Hs : rtc (live_step (sched_step scheduler1)) (failing_ticks, sched_start scheduler1)
                 ((sched_at 9).1, (sched_at 9).2)).
  { rewrite <- surjective_pairing. apply live_steps, sched_exec_steps. }
  pose proof (scheduler_run_returns scheduler1 _ _ _ Hs) as Hr.
  destruct (sched_at 9) as [w1 p1]. cbn [fst snd] in *.
  destruct p1 as [| |[[u|e]|]| |]; try discriminate H.
  destruct Hr as (_ & _ & Hend & _). intros w2 p2. by apply (Hend (Err e)).
Defined.

Lemma cluster_worker w0 w p w' p' ps rs i :
  rtc (proc_step w0) (w, p) (w', p') -> ps !! i = Some (WorkerProc w0 p) ->
  rtc (cluster_step (X := Outside)) (mkCluster w ps rs)
    (mkCluster w' (<[i := WorkerProc w0 p']> ps) rs).
Proof.
  change (let s := (w, p) in let s' := (w', p') in
    rtc (proc_step w0) s s' -> ps !! i = Some (WorkerProc w0 s.2) ->
    rtc (cluster_step (X := Outside)) (mkCluster s.1 ps rs)
      (mkCluster s'.1 (<[i := WorkerProc w0 s'.2]> ps) rs)).
  cbv zeta. intros Hs. revert ps.
  induction Hs as [s | [w1 p1] [w2 p2] s3 H12 _ IH]; intros ps Hi.
  - by rewrite list_insert_id.
  - eapply rtc_l; [eapply process_steps; [exact Hi | by constructor]|].
    rewrite <- (list_insert_insert_eq ps i (WorkerProc w0 s3.2) (WorkerProc w0 p2)).
    apply IH. apply list_lookup_insert_eq. by eapply lookup_lt_Some.
Qed.

(** The busy worker among the processes of a cluster. *)
Definition busy_cluster : cluster Outside :=
  mkCluster busy_run.1 [WorkerProc narrow_worker busy_run.2] [].

Lemma busy_cluster_steps : rtc cluster_step (mkCluster (busy_stream []) [] []) busy_cluster.
Proof.
  eapply rtc_l; [apply process_starts with (p := WorkerProc narrow_worker (start narrow_worker));
    constructor|].
  apply (cluster_worker narrow_worker (busy_stream []) (start narrow_worker) busy_run.1 busy_run.2
           [WorkerProc narrow_worker (start narrow_worker)] [] 0); [apply busy_run_steps | done].
Qed.

Lemma cluster_refines_pool_witness :
  length (cluster_flight busy_cluster) = 1%nat /\
  exists ps tr,
    rtc (pool_step interp system_starts) (mkConfig (busy_stream []) [] [])
      (mkConfig (cl_world busy_cluster) ps tr) /\
    cluster_flight busy_cluster ⊆+ ps.
Proof.
  split; [vm_compute; reflexivity|].
  apply (cluster_refines_pool (busy_stream []) busy_cluster). apply busy_cluster_steps.
Defined.
