(* ===== verification/Runs.v ===== *)
(** * Runs of the whole process

    The theorems of Server.v, Shutdown.v, Runtime.v and Deployment.v applied to
    concrete runs: a request is routed, the metrics are scraped, a task is
    interrupted, a process whose worker fails shuts down, and a process of a
    deployment serves a request. *)

From S2P Require Import Prelude GoStd Url Errors Task Effects Table Metrics Calls Exposition Store Scenario.
From S2P Require Import Lifecycle Queue Service Handlers Worker Scheduler Shutdown Statements Http Server.
From S2P Require Import Config Dependencies App Pool System Loop Processes Runtime Deployment.
From S2P Require Import Interleavings Witnesses.
Local Open Scope Z_scope.

Lemma findHandler_spec_witness :
  "GET" <> "CONNECT" /\ findHandler true "GET" "/tasks/../metrics" = Redirect "/metrics".
Proof.
  assert (H : "GET" <> "CONNECT") by done. split; [exact H|].
  apply (findHandler_spec true "GET" "/tasks/../metrics" H). vm_compute. discriminate.
Defined.

(** A scrape after one task was created. *)
Definition scraped : World Outside :=
  mkWorld (one_task row_pending) NewRegistry (mkOutside 1000000 0 [] [] []).

Lemma handleMetrics_answers_witness :
  let r := run interp (handleMetrics (Some MetricsSnapshot)) scraped in
  w_table r.1 = w_table scraped /\
  exists text, r.2 = mkResponse StatusOK (RawBody text) /\
    parse_exposition text = Some (families (w_metrics r.1)) /\
    gauge (w_metrics r.1) "gotaskqueue_queue_backlog" = float64_of_Z 1.
Proof.
  cbv zeta.
  destruct (handleMetrics_answers (fun _ => False) (mkConfig scraped [] []) (mkConfig scraped [] [])
    (run interp (handleMetrics (Some MetricsSnapshot)) scraped).1
    (run interp (handleMetrics (Some MetricsSnapshot)) scraped).2) as [Ht H].
  - done.
  - constructor.
  - cbn [cf_state]. apply surjective_pairing.
  - split; [exact Ht|]. destruct H as (text & Hr & Hp & _ & _ & Hb & _).
    exists text. split; [exact Hr|]. split; [exact Hp|]. etrans; [exact Hb|].
    vm_compute. reflexivity.
Defined.

(** ** An interrupted task *)

(** Like [scripted], but the context is cancelled three milliseconds in. *)
Definition cancelled_at_3ms (o : Outside) : bool := 3 * Millisecond <=? o_clock o.

Definition stopping : Env Outside := {|
  env_time := env_time; env_rand := env_rand;
  env_sql A q o := (o, {| se_now := o_clock o; se_scan := fun rows => rows;
    se_fault := if cancelled_at_3ms o then Some (Lost (Sentinel Canceled)) else None |});
  env_redis := env_redis; env_handler := env_handler;
  env_exec_ctx_err := env_exec_ctx_err; env_ctx_err := env_ctx_err;
  env_ctx_done o := (o, cancelled_at_3ms o); env_wait := env_wait |}.

(** A worker with one message in flight when its context is cancelled. *)
Definition busy_at_stop : World Outside * proc :=
  proc_exec (EV := stopping) narrow_worker (repeat MoveLoop 40)
    (busy_stream [], start narrow_worker).

Lemma shutdown_terminates_witness :
  length (pr_flight busy_at_stop.2) = 1%nat /\
  Acc (stop_step (EV := stopping) narrow_worker (fun o => cancelled_at_3ms o = true))
    busy_at_stop.2 /\
  forall w2 : World Outside, cancelled_at_3ms (w_ext w2) = true ->
    exists s', proc_step (EV := stopping) narrow_worker (w2, busy_at_stop.2) s'.
Proof.
  assert (Hf : length (pr_flight busy_at_stop.2) = 1%nat) by (vm_compute; reflexivity).
  split; [exact Hf|].
  destruct (shutdown_terminates (EV := stopping) narrow_worker
    (fun o => cancelled_at_3ms o = true) (fun o Ho => Ho)
    (busy_stream []) busy_at_stop.1 busy_at_stop.2) as [Hacc Hstep].
  - vm_compute. discriminate.
  - rewrite <- surjective_pairing. apply live_steps, proc_exec_steps.
  - split; [exact Hacc|]. intros w2 Hw2.
    destruct (Hstep _ (rtc_refl _ _) w2 Hw2) as [H | (_ & H & _)]; [exact H|].
    rewrite H in Hf. discriminate Hf.
Defined.

Definition stopping_run {A} (m : prog Call A) (v : World Outside) : World Outside * A :=
  run (interp (EV := stopping)) m v.

Definition interrupted_read : World Outside * result Task :=
  stopping_run (Get "task_1") (start_world row_pending).
Definition interrupted_claim : World Outside * result Task :=
  stopping_run (claim_task worker1 echo_message (task_of row_pending false)) interrupted_read.1.
Definition claimed_task : Task :=
  match interrupted_claim.2 with Ok t => t | Err _ => task_of row_pending false end.
Definition interrupted_execution : World Outside * option error :=
  stopping_run (_ ← call TimeNow; executeWithTimeout worker1 claimed_task) interrupted_claim.1.

(** The handler succeeds, but the task stays running. *)
Lemma interrupted_stays_running_witness :
  interrupted_execution.2 = None /\
  exists w' e r0, stopping_run (handleMessage worker1 echo_message) (start_world row_pending) =
      (w', Err e) /\
    row_status r0 = StatusRunning /\
    w_table interrupted_execution.1 = <["task_1" := r0]> (one_task row_pending).
Proof.
  split; [vm_compute; reflexivity|].
  destruct (interrupted_stays_running (EV := stopping) (fun o => cancelled_at_3ms o = true))
    with (c := mkConsumer "tasks" "workers" "w1" (5 * Second)) (deadStream := Some "tasks.dead")
      (handlers := echo_registry) (name := "w1") (metrics := true) (concurrency := 4)
      (batchSize := 10) (message := echo_message) (cur := task_of row_pending false)
      (t := claimed_task) (world := start_world row_pending) (world1 := interrupted_read.1)
      (world2 := interrupted_claim.1) (world3 := interrupted_execution.1)
      (res := interrupted_execution.2)
    as (q & e & r0 & Hrun & Hr & _ & Ht & _).
  - intros A q x Hx. cbn. rewrite Hx. by eexists.
  - vm_compute. reflexivity.
  - reflexivity.
  - vm_compute. reflexivity.
  - apply surjective_pairing.
  - vm_compute. reflexivity.
  - eexists _, e, r0. split; [exact Hrun|]. split; [exact Hr | exact Ht].
Defined.

(** ** Shutting down *)

Definition no_env : Environ := fun _ => "".

(** [Run] on a signal, all runners returning in time. *)
Definition signal_trace : list (event AppCall) :=
  [ Ev (Dep (RedisNewClient (redis_Addr (cfg_Redis (Load no_env))))) tt; Ev (Dep RedisPing) None;
    Ev (Dep (PgxpoolNew (postgresDSN (cfg_Postgres (Load no_env))))) (Ok tt);
    Ev (Dep PostgresPing) None;
    Ev (Go ServerRunner) tt; Ev (Go WorkerRunner) tt; Ev (Go SchedulerRunner) tt;
    Ev SelectFirst None; Ev CancelRunners tt; Ev WithShutdownTimeout tt; Ev ServerShutdown None;
    Ev (SelectRunner ServerRunner) (Some (Some (Sentinel ErrServerClosed)));
    Ev (SelectRunner WorkerRunner) (Some None); Ev (SelectRunner SchedulerRunner) (Some None);
    Ev CancelRunners tt; Ev (Dep RedisClose) None; Ev (Dep PostgresClose) tt ].

Lemma Run_outcome_witness :
  exists s, observe app_trace_step app_trace0 signal_trace = Some s /\ run_post s (Ok tt).
Proof. apply (Run_outcome (Load no_env) signal_trace (Ok tt)). repeat constructor. Defined.

Section steps.
Context (cfg : Config).
Implicit Type w : World Outside.

(** A runner's own steps are steps of the process. *)
Lemma worker_app_steps w p w' p' a :
  rtc (proc_step (app_worker cfg)) (w, p) (w', p') -> alive a -> ap_worker a = Some p ->
  rtc (app_step cfg) (w, a) (w', with_worker p' a).
Proof.
  intros Hs Ha Hp. replace a with (with_worker p a) at 1 by (destruct a; cbn in *; by subst).
  refine (rtc_congruence (R := proc_step (app_worker cfg))
    (fun s : World Outside * proc => (s.1, with_worker s.2 a)) _ (w, p) (w', p') _ Hs).
  intros [w1 p1] [w2 p2] H. apply step_background; [exact Ha|].
  exact (worker_background cfg w1 w2 (with_worker p1 a) p1 p2 eq_refl H).
Qed.

Lemma scheduler_app_steps w p w' p' a :
  rtc (sched_step (app_scheduler cfg)) (w, p) (w', p') -> alive a -> ap_scheduler a = Some p ->
  rtc (app_step cfg) (w, a) (w', with_scheduler p' a).
Proof.
  intros Hs Ha Hp. replace a with (with_scheduler p a) at 1 by (destruct a; cbn in *; by subst).
  refine (rtc_congruence (R := sched_step (app_scheduler cfg))
    (fun s : World Outside * sched_proc => (s.1, with_scheduler s.2 a)) _ (w, p) (w', p') _ Hs).
  intros [w1 p1] [w2 p2] H. apply step_background; [exact Ha|].
  exact (scheduler_background cfg w1 w2 (with_scheduler p1 a) p1 p2 eq_refl H).
Qed.
End steps.

(** Redis refuses the first command, which creates the consumer group. *)
Definition refusing : World Outside := busy_stream [true].

Definition failing_worker : World Outside * proc :=
  proc_exec (app_worker (Load no_env)) (repeat MoveLoop 3)
    (refusing, start (app_worker (Load no_env))).

Definition ticked : World Outside * sched_proc :=
  sched_exec (app_scheduler (Load no_env)) 5
    (failing_worker.1, sched_start (app_scheduler (Load no_env))).

Lemma ticked_waits : ticked.2 = Waiting.
Proof. vm_compute. reflexivity. Qed.

Lemma failing_exits :
  pr_control failing_worker.2 = Exited (Err (exit_error failing_worker.2)).
Proof. vm_compute. reflexivity. Qed.

(** One step of the main goroutine, by the given rule. *)
Ltac main_next rule := eapply rtc_l; [eapply step_main, rule; reflexivity|].
Ltac main_dep_next x :=
  eapply rtc_l; [eapply step_main; refine (main_dep _ _ _ _ _ x _); reflexivity|].


(** The process of a worker that cannot create its group: it starts
    everything, the worker returns its error, and [Run] shuts down. *)
Lemma failing_run :
  exists a, rtc (app_step (Load no_env)) (refusing, launch no_env) (ticked.1, a) /\
            ap_main a = Ret 1 /\ started a ServerRunner = true /\ ap_deadline a = false.
Proof.
  eexists. split.
  - main_dep_next tt. main_dep_next (None (A := error)). main_dep_next (Ok tt : result unit).
    main_dep_next (None (A := error)). do 3 main_next main_go.
    etrans; [eapply (worker_app_steps _ refusing _ failing_worker.1 failing_worker.2);
      [rewrite <- surjective_pairing; apply proc_exec_steps | exact I | reflexivity]|].
    etrans; [eapply (scheduler_app_steps _ _ _ ticked.1 ticked.2);
      [rewrite <- surjective_pairing; apply sched_exec_steps | exact I | reflexivity]|].
    etrans; [eapply scheduler_app_steps; [|exact I | reflexivity];
      rewrite ticked_waits; apply rtc_once, sched_cancelled|].
    eapply rtc_l; [eapply step_main, main_first with (r := WorkerRunner); [reflexivity|];
      exact (f_equal (fun c => match c with Exited r => Some (error_of r) | Looping _ => None end)
        failing_exits)|].
    do 2 (eapply rtc_l; [first [eapply step_main, main_cancel; reflexivity
      | eapply step_main, main_timeout; reflexivity]|]).
    main_next main_shutdown_begin. main_next main_shutdown.
    main_next main_received. main_next main_received. main_next main_cancel.
    main_dep_next (None (A := error)). main_dep_next tt. reflexivity.
  - by split_and!.
Qed.

Lemma drained_before_close_witness :
  exists a, rtc (app_step (Load no_env)) (refusing, launch no_env) (ticked.1, a) /\
            ap_main a = Ret 1 /\ ap_redis a = false /\ drained a.
Proof.
  destruct failing_run as (a & Hs & Hm & Hst & Hd). exists a.
  pose proof (drained_before_close no_env refusing ticked.1 a (rtc_subrel _ _ _ _ (live_own _) Hs))
    as [Hclosed Hend].
  destruct (Hend 1 Hm) as (Hr & _). do 3 (split; [assumption|]).
  destruct (Hclosed (or_introl Hr)) as [H|[H|H]];
    [by rewrite H in Hst | by rewrite H in Hd | exact H].
Defined.

(** ** A deployment of one process, which serves a request *)

Lemma app_deployment_steps getenv s s' :
  rtc (app_step (Load getenv)) s s' ->
  rtc (deployment_step (X := Outside)) (mkDeployment s.1 [(getenv, s.2)])
    (mkDeployment s'.1 [(getenv, s'.2)]).
Proof.
  refine (rtc_congruence (R := app_step (Load getenv)) (fun s : World Outside * app =>
    mkDeployment s.1 [(getenv, s.2)]) _ s s' _).
  intros [w1 a1] [w2 a2] H. by apply (app_steps w1 w2 [(getenv, a1)] 0 getenv a1 a2).
Qed.

Lemma serving_run (w : World Outside) (req : request) :
  exists a, rtc (app_step (Load no_env)) (w, launch no_env) (w, a) /\
            length (ap_requests a) = 1%nat /\ ap_worker a = None /\ ap_scheduler a = None.
Proof.
  eexists. split.
  - main_dep_next tt. main_dep_next (None (A := error)). main_dep_next (Ok tt : result unit).
    main_dep_next (None (A := error)). main_next main_go.
    eapply rtc_l; [eapply step_background, request_arrives with (req := req);
      [exact I | reflexivity]|].
    reflexivity.
  - by split_and!.
Qed.

Lemma deployment_refines_pool_witness :
  exists d, rtc deployment_step (mkDeployment scraped []) d /\
    length (deployment_flight d) = 1%nat /\
    exists ps tr,
      rtc (pool_step interp system_starts) (mkConfig scraped [] []) (mkConfig (dp_world d) ps tr) /\
      deployment_flight d ⊆+ ps.
Proof.
  destruct (serving_run scraped (mkRequest "GET" "/metrics" "")) as (a & Hs & Hr & Hw & Hc).
  exists (mkDeployment scraped [(no_env, a)]).
  assert (Hd : rtc deployment_step (mkDeployment scraped []) (mkDeployment scraped [(no_env, a)])).
  { eapply rtc_l; [apply (app_starts scraped [] no_env)|]. exact (app_deployment_steps no_env _ _ Hs). }
  split; [exact Hd|]. split.
  - unfold deployment_flight. cbn [dp_apps fmap list_fmap concat snd].
    unfold app_flight, worker_flight, scheduler_flight. rewrite Hw, Hc, app_nil_r. exact Hr.
  - apply (deployment_refines_pool scraped (mkDeployment scraped [(no_env, a)]) Hd).
Defined.
